(* ===== verification/_CoqProject ===== *)
-Q . S2P
Prelude.v
GoStrings.v
GoFloat.v
GoError.v
Http.v
Policy.v
Breaker.v
BreakerRegistry.v
Eject.v
Outlier.v
OutlierRegistry.v
Health.v
Pool.v
Transport.v
Registry.v
Retry.v
RetryExec.v
RetryRegistry.v
CacheStore.v
CacheKey.v
TrafficSplit.v
Overload.v
TrafficPlan.v
Config.v
Limits.v
Plugin.v
TLSStore.v
Router.v
Rolling.v
TopK.v
Metrics.v
Snapshot.v
Store.v
StoreSteps.v
Provider.v
Apply.v
Codec.v
Url.v
Mux.v
Bundle.v
Rollout.v
Validation.v
Progress.v
AdminGuard.v
Proxy.v
PluginProto.v
PluginFilters.v
ProxyRules.v
Engine.v
AccessLog.v
Handler.v
Traffic.v
Isolation.v
Observed.v
Wedge.v
Admin.v
Distributor.v
Delivery.v
Server.v
Main.v
Process.v
