(* ===== verification/Prelude.v ===== *)
(** * Verification of a Go reverse proxy

    The program (src/) is an HTTP reverse proxy.  A configuration is built
    into an immutable snapshot; each request takes a reference to the current
    snapshot, is routed, checked, passed through plugins, answered from the
    cache or forwarded to an endpoint of a pool, with retries.  Breakers,
    outlier detection, retry budgets, plugins, traffic plans, pools and
    transports live in registries that outlive the snapshots and are
    reconciled when one is built.  Configurations come from a file, from an
    authenticated admin API, or in signed bundles that the proxy pulls from a
    distributor; they are merged, compiled and installed, bundles in two
    stages with an error-rate gate and rollback.

    ** Files and sources

    Every definition that models code has the name of the Go function or type
    (a suffix or a field prefix where Rocq needs one name per field); paths are
    below src/internal/.

    Language and standard library: [Prelude] (integers at their width, time,
    results, tactics), [GoStrings] (strings, strconv), [GoFloat] (float64
    as IEEE binary64), [GoError] (errors.Is and
    errors.As), [Http] (header maps, requests, responses), [Codec] (base64,
    hexadecimal, file paths), [Url] (what net/url and net/http make of a
    printed URL), [Mux] (path cleaning and redirects of net/http's ServeMux).

    Upstream side: [Breaker] and [BreakerRegistry] (breaker/), [Eject],
    [Outlier] and [OutlierRegistry] (outlier/), [Health] (health/), [Pool]
    (pool/), [Transport] (transport/), [Registry] (registry/registry.go),
    [Retry] and [RetryExec] (retry/), [RetryRegistry]
    (registry/retryregistry.go).

    Request side: [CacheStore] and [CacheKey] (cache/), [TrafficSplit],
    [Overload] and [TrafficPlan] (traffic/), [Plugin] (plugin/), [TLSStore]
    (tlsstore/), [Policy] and [Router] (policy/, router/), [Proxy] (response
    recorder and writers), [PluginProto] (plugin/proto and plugin/client.go:
    messages, stub, service and client), [PluginFilters] (proxy/plugins.go,
    on the clients of [PluginProto]), [ProxyRules] (limits and cache rules of
    proxy/handler.go), [Engine] (proxy/engine.go), [Handler] ([ServeHTTP] of
    proxy/handler.go with what it tells the snapshot observer).  [Traffic],
    [Isolation], [Observed] and [Wedge] hold theorems about all of it
    together: from a configuration to what is sent upstream, logged and
    counted, what a request leaves alone, which snapshot it sees, and what
    upstreams that time out do to a breaker.

    Configuration: [Config] (config/), [Limits] (limits/), [Snapshot] and
    [Store] (runtime/), [StoreSteps] (the store of runtime/store.go in any
    interleaving), [Provider] (provider/: the merge), [Apply] (apply/:
    compile and install, with the goroutine a timeout leaves behind);
    [Validation] (what a validation says of the apply) and [Progress] (which
    configurations can be built, and that their rollouts complete) hold
    theorems.

    Control side: [Bundle] (bundle/: signing, verification, storage),
    [Rollout] (rollout/), [AdminGuard] and [Admin] (admin/), [Distributor]
    (distributor/ and pull/); [Delivery] follows a bundle from its signature
    to the requests that are served with it.

    Observation and process: [Rolling], [TopK] and [Metrics] (obs/rolling.go,
    topk.go, metrics.go), [AccessLog] (obs/logging.go, tracing.go and what the
    deferred function of proxy/handler.go records), [Server] (server/),
    [Main] (src/cmd/proxy), [Process] (all of it running together).

    ** How code becomes definitions

    Structs are records, pointers that are shared are addresses into a heap
    map held by their owner (snapshots, flights, plans, client budgets), nil
    is [None].  A method takes its receiver and returns the new one with the
    results; methods of nil receivers that only return early are left out.
    Every read of the clock is an argument ([clock] and a tick counter in
    [Engine]), and so is the order in which Go visits a map where a result
    could depend on it.  Errors are values ([result], [error], sums); code
    that can panic runs in the [outcome] monad of [Proxy], in which deferred
    calls and the handler's recovery are explicit.  A method is a function of
    the state, and callers run methods one after the other: for a method under
    one mutex this is what the lock gives, but others are several atomic
    operations or critical sections, and there it is a restriction.  Where the
    contract depends on interleavings, the steps are apart: the overload
    limiter, the in-flight tracker and, in [StoreSteps], the snapshot store
    (in [Store], [Acquire], [Release] and [Swap] are composed of those steps)
    are step relations, the coalescer is an event history, and
    [MemoryStore.Get] of the cache is a lookup followed by a deletion, with a
    theorem about what may come between them.  The circuit breakers, whose
    methods are several lock-free operations, and the parts of the request
    handler are only run one at a time; [serve_one_snapshot] says what of a
    request does not depend on what others do to the store meanwhile.
    Integers that can
    overflow are reduced to their width.  Interfaces are classes: a bundle
    storage is a [Storage] with [StorageLaws], which the memory and the file
    storage satisfy and the distributor is proved against.

    The managers share their state as cmd/proxy wires them: the rollout
    manager contains the apply manager, which contains the snapshot store and
    the registries; the admin API and the puller act on the rollout manager.
    [Process] puts the request handler beside them: it works on their store,
    registries and metrics.  A metrics operation is the list of calls it makes to the Prometheus
    client; the handler and the engine act on the metrics of their world, and
    the build of a snapshot, the apply and rollout managers, the admin API and
    the puller on the default metrics, which are kept with the registries.  A
    request's access-log entry and what it sends upstream are kept in the
    handler's state.  A shutdown is the list of actions it takes.

    What is not in src/ is a parameter: sha256, ed25519, crypto/tls and
    crypto/x509, encoding/json, reading and writing files, environment
    variables, the HTTP client of the puller, gRPC connections (what an
    [Invoke] gives back, whether or not a server of the service is behind it),
    [net.Listen],
    the environment of a request ([Engine.Env], [Handler.HEnv]: clock, upstream answers, plugin
    connections, timers, random numbers) and of an apply ([Apply.ApplyEnv]:
    clock, map orders, whether the context ends first).

    Recursion is structural.  The retry loop runs on fuel [maxAttempts], which
    [execute_contract] shows to be all it needs; the ejection
    loop runs as often as the code's counter says; decimal printing has 20
    digits, enough for 64 bits; the polling loop of the puller runs over the
    list of its ticks.

    ** What the theorems show

    - Requests: [serve_releases_everything] (every path gives back what it
      took, no panic escapes), [applied_config_serves] (from an apply to the
      requests sent upstream), [serve_forwards_configured],
      [serve_accounted_once] (one access-log entry and one count each),
      [serve_isolated] (other routes' breakers, outlier states and budgets),
      [serve_one_snapshot] (every phase of a request sees the snapshot it
      came in on, and whatever is done to the store meanwhile, the response,
      the log and what is sent upstream are the same),
      [mtls_route_guarded], [router_first_match],
      [request_limits_enforced], [plugin_failure_modes], [plugin_dialogue]
      (what each filter is sent and what is made of its answer),
      [url_reparsed] (what is left of path and query on the way upstream),
      [plugin_breaker_trips], [plugin_mutations_spare_hop_by_hop],
      [tls_certificate_selection], [request_counted_once].
    - Choosing an upstream: [pool_pick_safe], [pool_round_robin_fair],
      [pool_inflight_retained], [registry_pick_configured],
      [breaker_refines_spec] (against an abstract breaker with an outcome
      log), [breaker_recovers], [registry_isolation],
      [outlier_ejection_window], [outlier_evaluation_order_independent],
      [outlier_goroutines_owned], [transport_survives_reload].
    - Retries: [execute_contract], [execute_pays_for_retries],
      [retry_budget_rate], [client_cap_lru].
    - Cache: [cache_serves_fresh], [coalescer_single_leader],
      [cache_admission], [cache_key_isolates_credentials].
    - Traffic: [overload_limits], [traffic_drained_never_canary].
    - Configuration: [config_validate_contract], [snapshot_sound],
      [build_exactly] (the configurations that can be built),
      [store_interleaved] (reference counts in every interleaving) and
      [store_retired_in_use] (whole methods), [merge_priority_wins],
      [merge_order_independent], [apply_all_or_nothing], [apply_commits],
      [validate_predicts_apply], [apply_accounted].
    - Bundles and their way to a proxy: [bundle_sign_verify],
      [bundle_verified_authentic], [storage_keeps_uploads],
      [memory_list_recent], [distribution_roundtrip], [pull_only_verified],
      [rollout_locked_inert], [rollout_outcomes], [rollout_completes],
      [delivered_bundle_serves] (from the signature to the upstreams).
    - Admin API: [admin_gate], [admin_signed_only], [admin_lockout],
      [admin_history].
    - Observation and process: [rolling_counts_window], [topk_labels],
      [metrics_calls_typed], [metrics_active_snapshot],
      [server_start_no_leak], [server_shutdown_once], [main_wired].
    - The whole process, for every history of events from its start:
      [process_serves_decided] (routes in service and addresses contacted come
      from the start configuration or from bundles with a valid signature).
    - Where the code does not do what it means to:
      [execute_returns_cancelled_response], [breaker_wedged_by_timeouts],
      [store_acquire_race], [cache_get_race], [pool_fail_open_unlimited],
      [outbound_cuts_query],
      [snapshot_rejected_config_applied], [registry_prune_breaks_inflight],
      [cache_key_collision], [traffic_reap_stops_live_autodrain],
      [plugin_respond_invalid_status], [inflight_tracker_race],
      [apply_drops_settings], [apply_timeout_overwrites],
      [rollout_rollback_keeps_endpoints], [pull_never_completes],
      [admin_rollback_unmerged], [admin_request_id_lost],
      [snapshot_gauge_lags], [failed_forward_unlogged], [route_keys_collide],
      and [apply_accounted] against what the playbooks say of the counters.

    ** Not modelled

    Of plugin/proto the descriptors and what registers them, which only the
    reflection of the protobuf runtime reads; the dialling of plugins, the
    wire, sockets and listeners, which are I/O of libraries; the request
    multiplexer of net/http in front of the metrics endpoint.  Texts of log
    lines other than the access log, the phase times of a trace and the test
    utilities (testutil/) are left out.

    This file: integers, time, results, lists, hints and tactics that the
    other files share. *)
From Stdlib Require Export ZArith Lia.
From stdpp Require Export base list gmap strings sorting.

Global Open Scope Z_scope.
#[global] Set Default Goal Selector "!".

(** ** Go's fixed-width integers *)

(** A signed [w]-bit integer is a [Z]; arithmetic that can leave the range is
    reduced with [wrapS], Go's two's-complement wrap-around. *)
Definition wrapS (w z : Z) : Z := (z + 2 ^ (w - 1)) mod 2 ^ w - 2 ^ (w - 1).
Definition i32 (z : Z) : Z := wrapS 32 z.
Definition i64 (z : Z) : Z := wrapS 64 z.
Definition u64 (z : Z) : Z := z mod 2 ^ 64.

Abbreviation max_i32 := 2147483647 (only parsing).
Abbreviation max_i64 := 9223372036854775807 (only parsing).
Abbreviation min_i64 := (-9223372036854775808) (only parsing).

(** ** Go's [time] package

    A [time.Time] is the number of nanoseconds since the Unix epoch; a
    [time.Duration] is an [int64] number of nanoseconds.  [time.Time{}] is
    January 1, year 1, which [IsZero] recognises. *)
Abbreviation Time := Z (only parsing).
Abbreviation Duration := Z (only parsing).

Definition Millisecond : Duration := 1000000.
Definition Second : Duration := 1000000000.
Definition Minute : Duration := 60 * Second.
Definition Hour : Duration := 60 * Minute.

Definition zeroTime : Time := -62135596800 * Second.
Definition IsZero (t : Time) : bool := t =? zeroTime.
Definition UnixNano (t : Time) : Z := i64 t.

(** [t.Sub(u)] saturates at the bounds of [int64]. *)
Definition time_Sub (t u : Time) : Duration := Z.max min_i64 (Z.min max_i64 (t - u)).

(** [time.Duration(ms) * time.Millisecond], which wraps around. *)
Definition millis (ms : Z) : Duration := i64 (ms * Millisecond).

(** The idiom [if x <= 0 { x = d }]. *)
Definition or_default (x d : Z) : Z := if x <=? 0 then d else x.

(** [len(s)] of a slice, as a Go [int]. *)
Definition len {A} (l : list A) : Z := Z.of_nat (length l).

(** ** Results of fallible operations *)

Inductive result (A : Type) : Type :=
| Ok (a : A)
| Err (e : string).
Arguments Ok {A} a.
Arguments Err {A} e.

Definition result_bind {A B} (m : result A) (k : A → result B) : result B :=
  match m with Ok a => k a | Err e => Err e end.

Declare Scope go_scope.
Delimit Scope go_scope with go.
Notation "'let?' x ':=' m 'in' k" := (result_bind m (fun x => k))
  (at level 10, x pattern, m at level 100, k at level 200) : go_scope.
Global Open Scope go_scope.

(** ** Functional record update

    [r <| f := v |>] is [r] with field [f] set to [v].  A record type
    declares its eta-expansion once ([Eta] instance); the update of one field
    is found by abstracting that field in the expansion. *)
Class Eta (R : Type) := eta : R → R.
Class Updater {R T : Type} (p : R → T) := upd : (T → T) → R → R.
Arguments upd {R T} p {_} f r /.

Ltac solve_updater :=
  lazymatch goal with
  | |- @Updater ?R ?T ?p =>
      exact (fun (f : T → T) (r : R) =>
        ltac:(let body := eval hnf in (@eta R _ r) in
              lazymatch (eval pattern (p r) in body) with
              | ?g _ => let t := eval cbv beta in (g (f (p r))) in exact t
              end))
  end.
#[global] Hint Extern 1 (Updater _) => solve_updater : typeclass_instances.

Notation "r <| p := v |>" := (upd p (fun _ => v) r)
  (at level 1, p at level 9, left associativity, format "r  <| p  :=  v |>").
Notation "r <| p ::= g |>" := (upd p g r)
  (at level 1, p at level 9, left associativity, format "r  <| p  ::=  g |>").

(** ** Lemmas on machine integers *)

Lemma wrapS_small w z : 0 < w → - 2 ^ (w - 1) ≤ z < 2 ^ (w - 1) → wrapS w z = z.
Proof.
  intros Hw Hz. unfold wrapS.
  assert (2 ^ w = 2 * 2 ^ (w - 1)) as Hp.
  { rewrite <- Z.pow_succ_r by lia. f_equal. lia. }
  rewrite Z.mod_small; lia.
Qed.

Lemma wrapS_range w z : 0 < w → - 2 ^ (w - 1) ≤ wrapS w z < 2 ^ (w - 1).
Proof.
  intros Hw. unfold wrapS.
  assert (2 ^ w = 2 * 2 ^ (w - 1)) as Hp.
  { rewrite <- Z.pow_succ_r by lia. f_equal. lia. }
  pose proof (Z.mod_pos_bound (z + 2 ^ (w - 1)) (2 ^ w)) as Hb. lia.
Qed.

Lemma i32_small z : -2147483648 ≤ z ≤ max_i32 → i32 z = z.
Proof. intros Hz. apply wrapS_small; [lia|]. change (2 ^ (32 - 1)) with 2147483648. lia. Qed.

Lemma i64_small z : min_i64 ≤ z ≤ max_i64 → i64 z = z.
Proof. intros. apply wrapS_small; [lia|]. change (2 ^ (64 - 1)) with 9223372036854775808. lia. Qed.

Lemma i32_range z : -2147483648 ≤ i32 z ≤ max_i32.
Proof. pose proof (wrapS_range 32 z ltac:(lia)) as H. change (2 ^ (32 - 1)) with 2147483648 in H. unfold i32. lia. Qed.

Lemma i64_range z : min_i64 ≤ i64 z ≤ max_i64.
Proof. pose proof (wrapS_range 64 z ltac:(lia)) as H. change (2 ^ (64 - 1)) with 9223372036854775808 in H. unfold i64. lia. Qed.

Lemma u64_small z : 0 ≤ z < 2 ^ 64 → u64 z = z.
Proof. intros. by apply Z.mod_small. Qed.

Lemma time_Sub_small t u : min_i64 ≤ t - u ≤ max_i64 → time_Sub t u = t - u.
Proof. unfold time_Sub. lia. Qed.

Lemma time_Sub_gt t u d : d < max_i64 → min_i64 ≤ d → (d < time_Sub t u ↔ d < t - u).
Proof. unfold time_Sub. lia. Qed.

Lemma or_default_pos x d : 0 < d → 0 < or_default x d.
Proof. unfold or_default. destruct (Z.leb_spec x 0); lia. Qed.
Lemma or_default_le x d m : x ≤ m → d ≤ m → or_default x d ≤ m.
Proof. unfold or_default. destruct (Z.leb_spec x 0); lia. Qed.
Lemma or_default_id x d : 0 < x → or_default x d = x.
Proof. unfold or_default. destruct (Z.leb_spec x 0); lia. Qed.

(** The largest number of milliseconds a [time.Duration] holds. *)
Abbreviation max_ms := 9223372036854 (only parsing).
Lemma millis_small ms : 0 ≤ ms ≤ max_ms → millis ms = ms * Millisecond.
Proof. intros. unfold millis. apply i64_small. unfold Millisecond. lia. Qed.
Lemma millis_pos ms : 0 < ms ≤ max_ms → 0 < millis ms.
Proof. intros. rewrite millis_small by lia. unfold Millisecond. lia. Qed.

Lemma len_nonneg {A} (l : list A) : 0 ≤ len l.
Proof. unfold len. lia. Qed.
Lemma len_cons {A} (x : A) l : len (x :: l) = len l + 1.
Proof. unfold len. simpl. lia. Qed.
Lemma len_app {A} (l k : list A) : len (l ++ k) = len l + len k.
Proof. unfold len. rewrite length_app. lia. Qed.

(** Filtering keeps keys distinct. *)
Lemma NoDup_fmap_filter {A B} (f : A → B) (P : A → Prop) `{∀ x, Decision (P x)} l :
  NoDup (f <$> l) → NoDup (f <$> filter P l).
Proof.
  induction l as [|x l IH]; intros Hnd; [done|]. rewrite fmap_cons, NoDup_cons in Hnd. destruct Hnd as [Hx Hnd].
  rewrite filter_cons. case_decide; [|auto]. rewrite fmap_cons, NoDup_cons. split; [|auto].
  intros (y & E & Hy)%list_elem_of_fmap. apply Hx, list_elem_of_fmap. exists y. split; [exact E|].
  by apply list_elem_of_filter in Hy as [_ Hy].
Qed.

Lemma result_bind_Ok {A B} (m : result A) (k : A → result B) b :
  result_bind m k = Ok b ↔ ∃ a, m = Ok a ∧ k a = Ok b.
Proof. destruct m; simpl; split; [eauto| |discriminate|]; intros (?&?&?); congruence. Qed.

(** ** Automation *)

Create HintDb proxy.
Create Rewrite HintDb proxy.
#[export] Hint Extern 2 (_ ≤ _) => lia : proxy.
#[export] Hint Extern 2 (_ < _) => lia : proxy.
#[export] Hint Resolve or_default_pos or_default_le len_nonneg millis_pos : proxy.
#[export] Hint Rewrite i32_small i64_small u64_small using lia : proxy.

(** [break_if] splits the first conditional or match of the goal whose
    scrutinee is a variable-free test; [break_ifs] splits all of them and
    closes the contradictory branches. *)
Ltac break_if :=
  match goal with
  | |- context [if ?b then _ else _] => destruct b eqn:?
  | H : context [if ?b then _ else _] |- _ => destruct b eqn:?
  end.
Ltac break_ifs := repeat (break_if; simpl in *; try (exfalso; lia); try discriminate).

(** [simp_int] removes the wrap-arounds that [lia] shows to be no-ops,
    innermost first. *)
Ltac simp_int1 f lem :=
  match goal with
  | |- context [f ?z] =>
      lazymatch z with context [f _] => fail | _ => rewrite (lem z) by lia end
  | H : context [f ?z] |- _ =>
      lazymatch z with context [f _] => fail | _ => rewrite (lem z) in H by lia end
  end.
Ltac simp_int :=
  repeat first [simp_int1 i32 i32_small | simp_int1 i64 i64_small | simp_int1 u64 u64_small].
