(* ===== verification/GoStrings.v ===== *)
(** * Go strings, headers and number formatting

    The functions of the Go standard library that the proxy applies to
    strings.  A Go string is a sequence of bytes, here a [string] of [ascii]
    characters.  [ToLower] and [ToUpper] map the ASCII letters and leave
    other bytes alone: they agree with Go on ASCII text, the only text whose
    case the proxy depends on.  [TrimSpace] and [Fields] recognise the UTF-8
    encodings of all Unicode spaces, and [EqualFold] the two non-ASCII
    characters that fold to ASCII letters. *)
From S2P Require Import Prelude.
From Stdlib Require Export Ascii.

Abbreviation code := N_of_ascii (only parsing).
Abbreviation chars := String.list_ascii_of_string (only parsing).
Abbreviation unchars := String.string_of_list_ascii (only parsing).

Definition in_range (lo hi : N) (c : ascii) : bool := (lo <=? code c)%N && (code c <=? hi)%N.
Definition isLower (c : ascii) : bool := in_range 97 122 c.
Definition isUpper (c : ascii) : bool := in_range 65 90 c.
Definition isDigit (c : ascii) : bool := in_range 48 57 c.
Definition lowerChar (c : ascii) : ascii := if isUpper c then ascii_of_N (code c + 32) else c.
Definition upperChar (c : ascii) : ascii := if isLower c then ascii_of_N (code c - 32) else c.

Fixpoint string_map (f : ascii → ascii) (s : string) : string :=
  match s with EmptyString => EmptyString | String c s => String (f c) (string_map f s) end.
Definition ToLower (s : string) : string := string_map lowerChar s.
Definition ToUpper (s : string) : string := string_map upperChar s.

Definition slen (s : string) : Z := Z.of_nat (String.length s).
Definition HasPrefix (s p : string) : bool := String.prefix p s.

(** ** White space *)

(** The length of the white-space rune at the head of a byte sequence; 0 when
    it does not start with one.  [spaceRune] reads the bytes forwards,
    [spaceRuneRev] reads them backwards from the end. *)
Definition asciiSpace (c : ascii) : bool := in_range 9 13 c || (code c =? 32)%N.

Definition spaceRune (l : list ascii) : nat :=
  match l with
  | [] => 0
  | a :: l =>
    if asciiSpace a then 1 else
    match l with
    | b :: l =>
      if (code a =? 194)%N && ((code b =? 133)%N || (code b =? 160)%N) then 2 else
      match l with
      | c :: _ =>
        if ((code a =? 225)%N && (code b =? 154)%N && (code c =? 128)%N)
           || ((code a =? 226)%N && (code b =? 128)%N &&
               (in_range 128 138 c || in_range 168 169 c || (code c =? 175)%N))
           || ((code a =? 226)%N && (code b =? 129)%N && (code c =? 159)%N)
           || ((code a =? 227)%N && (code b =? 128)%N && (code c =? 128)%N)
        then 3 else 0
      | [] => 0
      end
    | [] => 0
    end
  end%nat.

Definition spaceRuneRev (l : list ascii) : nat :=
  match l with
  | [] => 0
  | a :: l' =>
    if asciiSpace a then 1 else
    match l' with
    | b :: c :: _ => if (spaceRune [b; a] =? 2)%nat then 2
                     else if (spaceRune [c; b; a] =? 3)%nat then 3 else 0
    | [b] => if (spaceRune [b; a] =? 2)%nat then 2 else 0
    | [] => 0
    end
  end%nat.

Fixpoint trimWith (rune : list ascii → nat) (fuel : nat) (l : list ascii) : list ascii :=
  match fuel, rune l with
  | S fuel, S k => trimWith rune fuel (drop (S k) l)
  | _, _ => l
  end.

Definition TrimSpace (s : string) : string :=
  let l := chars s in
  let l := trimWith spaceRune (List.length l) l in
  unchars (rev (trimWith spaceRuneRev (List.length l) (rev l))).

(** [strings.Fields]: the maximal runs of non-space bytes. *)
Fixpoint fieldsGo (fuel : nat) (cur : list ascii) (l : list ascii) : list (list ascii) :=
  let flush (rest : list (list ascii)) := match cur with [] => rest | _ => rev cur :: rest end in
  match fuel, l with
  | S fuel, a :: l' =>
      match spaceRune l with
      | O => fieldsGo fuel (a :: cur) l'
      | S k => flush (fieldsGo fuel [] (drop (S k) l))
      end
  | _, _ => flush []
  end.
Definition Fields (s : string) : list string := unchars <$> fieldsGo (S (String.length s)) [] (chars s).

(** ** Comparison and search *)

(** [EqualFold(s, t)] for a constant ASCII [t]: letters match in either case,
    and the Kelvin sign and the long s fold to [k] and [s]. *)
Fixpoint equalFoldGo (s t : list ascii) : bool :=
  match t with
  | [] => match s with [] => true | _ => false end
  | c :: t' =>
    match s with
    | [] => false
    | a :: s1 =>
      if Ascii.eqb (lowerChar a) (lowerChar c) then equalFoldGo s1 t'
      else if Ascii.eqb (lowerChar c) "s" && (code a =? 197)%N then
        match s1 with b :: s2 => if (code b =? 191)%N then equalFoldGo s2 t' else false | [] => false end
      else if Ascii.eqb (lowerChar c) "k" && (code a =? 226)%N then
        match s1 with
        | b :: d :: s3 => if (code b =? 132)%N && (code d =? 170)%N then equalFoldGo s3 t' else false
        | _ => false
        end
      else false
    end
  end.
Definition EqualFold (s t : string) : bool := equalFoldGo (chars s) (chars t).

Fixpoint Contains (s sub : string) : bool :=
  HasPrefix s sub || match s with EmptyString => false | String _ s => Contains s sub end.

Fixpoint Split (sep : ascii) (cur : string) (s : string) : list string :=
  match s with
  | EmptyString => [cur]
  | String c s => if Ascii.eqb c sep then cur :: Split sep "" s else Split sep (cur ++ String c "") s
  end.

Definition Join (sep : string) (l : list string) : string := String.concat sep l.

Definition TrimPrefix (s p : string) : string :=
  if HasPrefix s p then String.substring (String.length p) (String.length s - String.length p) s else s.

(** [bytealg.IndexByteString] and [LastIndexByteString]. *)
Fixpoint IndexByte (c : ascii) (l : list ascii) : option nat :=
  match l with
  | [] => None
  | a :: l => if Ascii.eqb a c then Some O else S <$> IndexByte c l
  end.
Definition LastIndexByte (c : ascii) (l : list ascii) : option nat :=
  (λ k, (List.length l - 1 - k)%nat) <$> IndexByte c (rev l).

(** ** [net.SplitHostPort]; [None] is an address error *)
Definition SplitHostPort (hostport : string) : option (string * string) :=
  let l := chars hostport in
  match LastIndexByte ":" l with
  | None => None
  | Some i =>
    let finish host j k :=
      match IndexByte "[" (drop j l), IndexByte "]" (drop k l) with
      | None, None => Some (unchars host, unchars (drop (i + 1) l))
      | _, _ => None
      end in
    match l with
    | a :: _ =>
      if Ascii.eqb a "[" then
        match IndexByte "]" l with
        | None => None
        | Some e =>
            if (e + 1 =? List.length l)%nat then None
            else if (e + 1 =? i)%nat then finish (take (e - 1) (drop 1 l)) 1%nat (e + 1)%nat
            else None
        end
      else
        let host := take i l in
        match IndexByte ":" host with
        | Some _ => None
        | None => finish host 0%nat 0%nat
        end
    | [] => None
    end
  end.

(** ** Decimal numbers *)

Definition digit (d : Z) : ascii := ascii_of_N (Z.to_N (48 + d)).
Fixpoint decimalGo (fuel : nat) (n : Z) (acc : string) : string :=
  match fuel with
  | O => acc
  | S fuel =>
      let acc := String (digit (n mod 10)) acc in
      if n <? 10 then acc else decimalGo fuel (n / 10) acc
  end.
(** The [%d] verb; 20 digits hold every 64-bit integer. *)
Definition Itoa (n : Z) : string :=
  if n <? 0 then String "-" (decimalGo 20 (- n) "") else decimalGo 20 n "".

(** The [%q] verb.  Bytes from 0x80 are copied, which is what Go does with
    the printable characters of valid UTF-8. *)
Definition hexLower (n : N) : ascii := ascii_of_N (if (n <? 10)%N then 48 + n else 87 + n)%N.
Definition quoteChar (c : ascii) : string :=
  if Ascii.eqb c "034" then String "\" (String "034" "")
  else if Ascii.eqb c "\" then "\\"
  else match code c with
  | 7 => "\a" | 8 => "\b" | 9 => "\t" | 10 => "\n" | 11 => "\v" | 12 => "\f" | 13 => "\r"
  | n => if (n <? 32)%N || (n =? 127)%N then String "\" (String "x" (String (hexLower (n / 16)) (String (hexLower (n mod 16)) "")))
         else String c ""
  end%N.
Fixpoint quoteBody (s : string) : string :=
  match s with EmptyString => "" | String c s => quoteChar c ++ quoteBody s end.
Definition Quote (s : string) : string := String "034" "" ++ quoteBody s ++ String "034" "".

Fixpoint parseDigits (l : list ascii) (acc : Z) : option Z :=
  match l with
  | [] => Some acc
  | c :: l => if isDigit c then parseDigits l (acc * 10 + (Z.of_N (code c) - 48)) else None
  end.
(** [strconv.ParseInt(s, 10, 64)]; [None] is a syntax or range error.  Base
    10 is explicit, so underscores and base prefixes are refused. *)
Definition ParseInt (s : string) : option Z :=
  let check (z : Z) := if (min_i64 <=? z) && (z <=? max_i64) then Some z else None in
  match chars s with
  | [] => None
  | c :: l =>
      if Ascii.eqb c "-" then match l with [] => None | _ => parseDigits l 0 ≫= λ n, check (- n) end
      else if Ascii.eqb c "+" then match l with [] => None | _ => parseDigits l 0 ≫= check end
      else parseDigits (c :: l) 0 ≫= check
  end.

(** ** [http.Header] *)

Definition validHeaderFieldByte (c : ascii) : bool :=
  isLower c || isUpper c || isDigit c ||
  existsb (Ascii.eqb c) ["!"; "#"; "$"; "%"; "&"; "'"; "*"; "+"; "-"; "."; "^"; "_"; "`"; "|"; "~"]%char.

Fixpoint canonGo (upper : bool) (s : string) : string :=
  match s with
  | EmptyString => EmptyString
  | String c s =>
      let c := if upper then upperChar c else lowerChar c in
      String c (canonGo (Ascii.eqb c "-") s)
  end.
Definition CanonicalHeaderKey (s : string) : string :=
  if forallb validHeaderFieldByte (chars s) then canonGo true s else s.

Abbreviation Header := (gmap string (list string)).
Definition header_Values (h : Header) (key : string) : list string :=
  default [] (h !! CanonicalHeaderKey key).
Definition header_Get (h : Header) (key : string) : string :=
  match header_Values h key with v :: _ => v | [] => "" end.
Definition header_Set (h : Header) (key value : string) : Header := <[CanonicalHeaderKey key := [value]]> h.
Definition header_Add (h : Header) (key value : string) : Header :=
  <[CanonicalHeaderKey key := header_Values h key ++ [value]]> h.

Example trim_ex : TrimSpace "  a b	 " = "a b". Proof. reflexivity. Qed.
Example canon_ex : CanonicalHeaderKey "x-request-ID" = "X-Request-Id". Proof. reflexivity. Qed.
Example split_ex : SplitHostPort "[::1]:80" = Some ("::1", "80"). Proof. reflexivity. Qed.
Example split_ex2 : SplitHostPort "example.local" = None. Proof. reflexivity. Qed.
Example fields_ex : Fields " Bearer  tok " = ["Bearer"; "tok"]. Proof. reflexivity. Qed.
Example fold_ex : EqualFold "No-Store" "no-store" = true. Proof. reflexivity. Qed.
Example itoa_ex : Itoa 503 = "503" ∧ Itoa (-12) = "-12" ∧ ParseInt "-12" = Some (-12). Proof. done. Qed.

(** ** Trimming twice is trimming once *)

Lemma trimWith_stuck rune fuel l : rune l = O → trimWith rune fuel l = l.
Proof. intros H. destruct fuel; simpl; by rewrite ?H. Qed.

Lemma trimWith_done rune fuel l :
  rune [] = O → (List.length l ≤ fuel)%nat → rune (trimWith rune fuel l) = O.
Proof.
  intros H0. revert l. induction fuel as [|fuel IH]; intros l Hl; cbn [trimWith].
  { destruct l; [done|simpl in Hl; lia]. }
  destruct (rune l) eqn:E; [done|]. apply IH. rewrite length_drop. destruct l; [congruence|simpl in *; lia].
Qed.

Lemma trimWith_suffix rune fuel l : ∃ n, trimWith rune fuel l = drop n l.
Proof.
  revert l. induction fuel as [|fuel IH]; intros l; cbn [trimWith]; [by exists O|].
  destruct (rune l) as [|k]; [by exists O|]. destruct (IH (drop (S k) l)) as [n ->].
  exists (S k + n)%nat. by rewrite drop_drop.
Qed.

Lemma spaceRune_prefix l m : spaceRune (l ++ m) = O → spaceRune l = O.
Proof.
  destruct l as [|a [|b [|c l]]]; simpl; try done.
  - destruct (asciiSpace a); [|done]. destruct m as [|b [|c m]]; done.
  - destruct (asciiSpace a); [done|]. destruct (_ && _); [|done]. destruct m as [|c m]; done.
Qed.

Lemma TrimSpace_idemp s : TrimSpace (TrimSpace s) = TrimSpace s.
Proof.
  unfold TrimSpace. set (l := trimWith spaceRune (List.length (chars s)) (chars s)).
  set (r := trimWith spaceRuneRev (List.length l) (rev l)).
  rewrite String.list_ascii_of_string_of_list_ascii.
  assert (spaceRune l = O) as Hl by (apply trimWith_done; [done|lia]).
  assert (spaceRuneRev r = O) as Hr by (apply trimWith_done; [done|rewrite length_rev; lia]).
  assert (spaceRune (rev r) = O) as Hp.
  { destruct (trimWith_suffix spaceRuneRev (List.length l) (rev l)) as [n Hn]. fold r in Hn.
    apply (spaceRune_prefix _ (rev (take n (rev l)))). rewrite <- rev_app_distr, Hn, take_drop, rev_involutive. done. }
  rewrite (trimWith_stuck spaceRune _ (rev r)) by done. by rewrite rev_involutive, trimWith_stuck.
Qed.

(** ** Canonical header names are fixed points *)

Lemma canonChar (up : bool) c :
  let d := if up then upperChar c else lowerChar c in
  (if up then upperChar d else lowerChar d) = d ∧ (validHeaderFieldByte c = true → validHeaderFieldByte d = true).
Proof. destruct up, c as [[] [] [] [] [] [] [] []]; vm_compute; auto. Qed.

Lemma canonGo_idem up s : canonGo up (canonGo up s) = canonGo up s.
Proof.
  revert up. induction s as [|c s IH]; intros up; [done|]. cbn [canonGo]. cbn zeta.
  rewrite (proj1 (canonChar up c)). by rewrite IH.
Qed.

Lemma canonGo_valid up s :
  forallb validHeaderFieldByte (chars s) = true → forallb validHeaderFieldByte (chars (canonGo up s)) = true.
Proof.
  revert up. induction s as [|c s IH]; intros up; [done|]. cbn [canonGo String.list_ascii_of_string forallb].
  rewrite !andb_true_iff. intros [Hc Hs]. split; [by apply (canonChar up c)|by apply IH].
Qed.

Lemma CanonicalHeaderKey_idem s : CanonicalHeaderKey (CanonicalHeaderKey s) = CanonicalHeaderKey s.
Proof.
  unfold CanonicalHeaderKey. destruct (forallb _ (chars s)) eqn:E; [|by rewrite E].
  by rewrite canonGo_valid, canonGo_idem.
Qed.
