(* ===== verification/GoFloat.v ===== *)
(** * Go's [float64]

    IEEE 754 binary64 with rounding to nearest even, computed with the
    specification functions of the Standard Library's [SpecFloat] (53 bits of
    precision, largest exponent 1024).  They are ordinary functions on
    mantissas and exponents, so no axiom about hardware floats is used. *)
From S2P Require Import Prelude.
From Stdlib Require Import SpecFloat.

Definition float64 : Type := spec_float.

Definition f64_of_Z (z : Z) : float64 := binary_normalize 53 1024 z 0 false.
Definition f64_add : float64 → float64 → float64 := SFadd 53 1024.
Definition f64_sub : float64 → float64 → float64 := SFsub 53 1024.
Definition f64_mul : float64 → float64 → float64 := SFmul 53 1024.
Definition f64_div : float64 → float64 → float64 := SFdiv 53 1024.
Definition f64_zero : float64 := S754_zero false.

(** A decimal literal [n / d] of the source: Go rounds the exact constant to
    the nearest float; for the literals used here ([n] and [d] exact) that is
    the correctly rounded quotient. *)
Definition f64_lit (n d : Z) : float64 := f64_div (f64_of_Z n) (f64_of_Z d).

Definition f64_lt (a b : float64) : bool := match SFcompare a b with Some Lt => true | _ => false end.
Definition f64_le (a b : float64) : bool := match SFcompare a b with Some (Lt | Eq) => true | _ => false end.
Definition f64_gt (a b : float64) : bool := f64_lt b a.
Definition f64_ge (a b : float64) : bool := f64_le b a.
Definition f64_eq (a b : float64) : bool := match SFcompare a b with Some Eq => true | _ => false end.

(** The integer part, rounding towards zero: the conversion [int64(x)] of a
    finite [x] in range.  Outside the range (and for NaN and infinities) Go
    leaves the value to the implementation; amd64 gives the least int64. *)
Definition f64_trunc_Z (x : float64) : Z :=
  match x with
  | S754_finite s m e =>
      let a := match e with Z0 => Zpos m | Zpos p => Zpos m * 2 ^ Zpos p | Zneg p => Zpos m / 2 ^ Zpos p end in
      if s then - a else a
  | _ => 0
  end.
Definition f64_to_int (x : float64) : Z :=
  match x with
  | S754_nan | S754_infinity _ => min_i64
  | _ => let z := f64_trunc_Z x in if (min_i64 <=? z) && (z <=? max_i64) then z else min_i64
  end.

(** [int(math.Ceil(x))]: the ceiling of a finite float as an integer. *)
Definition f64_ceil_Z (x : float64) : Z :=
  match x with
  | S754_finite s m e =>
      match e with
      | Zneg p => if s then - (Zpos m / 2 ^ Zpos p) else - (- Zpos m / 2 ^ Zpos p)
      | _ => f64_trunc_Z x
      end
  | _ => 0
  end.
Definition f64_ceil_to_int (x : float64) : Z :=
  match x with
  | S754_nan | S754_infinity _ => min_i64
  | _ => let z := f64_ceil_Z x in if (min_i64 <=? z) && (z <=? max_i64) then z else min_i64
  end.

Example f64_ex1 : f64_ceil_to_int (f64_mul (f64_lit 95 100) (f64_of_Z 30)) = 29. Proof. reflexivity. Qed.
Example f64_ex2 : f64_eq (f64_add (f64_lit 1 10) (f64_lit 2 10)) (f64_lit 3 10) = false. Proof. reflexivity. Qed.
Example f64_ex3 : f64_to_int (f64_lit (-7) 2) = -3 ∧ f64_ceil_to_int (f64_lit 7 2) = 4. Proof. done. Qed.

#[global] Arguments f64_of_Z : simpl never.
#[global] Arguments f64_add : simpl never.
#[global] Arguments f64_sub : simpl never.
#[global] Arguments f64_mul : simpl never.
#[global] Arguments f64_div : simpl never.
#[global] Arguments f64_lit : simpl never.
#[global] Arguments f64_lt : simpl never.
#[global] Arguments f64_le : simpl never.
#[global] Arguments f64_to_int : simpl never.
#[global] Arguments f64_ceil_to_int : simpl never.
