(* ===== verification/GoError.v ===== *)
(** * Go errors

    An [error] is observed only through [errors.Is] and [errors.As]: which
    sentinel errors its chain contains, whether it wraps a [*net.OpError]
    (and with which [Op]) and whether it wraps a [net.Error] (and what its
    [Timeout] says). *)
From S2P Require Import Prelude.

Inductive sentinel :=
| DeadlineExceeded | Canceled | ECONNRESET | EOF | ErrUnexpectedEOF
| ErrNoUpstream | ErrTransportUnavailable.
#[export] Instance sentinel_eq_dec : EqDecision sentinel.
Proof. solve_decision. Defined.

Record error := mkError {
  asOpError : option string;
  asNetError : option bool;
  chain : list sentinel
}.

Definition Is (e : error) (s : sentinel) : bool := bool_decide (s ∈ chain e).

(** [context.DeadlineExceeded] is itself a [net.Error] that times out. *)
Definition errDeadlineExceeded : error := mkError None (Some true) [DeadlineExceeded].
Definition errCanceled : error := mkError None None [Canceled].
