(* ===== verification/Http.v ===== *)
(** * HTTP messages

    The fields of [http.Request] and [http.Response] the proxy reads.  A body
    is the bytes a reader yields and how it ends ([None] is EOF).  [URI] is
    what [URL.RequestURI] returns. *)
From S2P Require Import Prelude.
From S2P Require Import GoStrings.
From S2P Require Import GoError.

Record Body := mkBody { data : string; readErr : option error }.

Record Request := mkRequest {
  Method : string;
  Host : string;
  Path : string;
  RawQuery : string;
  URI : string;
  ReqHeader : Header;
  ReqBody : option Body;
  ContentLength : Z;
  RemoteAddr : string;
  TLS : option (list (option string))
}.
#[export] Instance Request_eta : Eta Request := fun r =>
  mkRequest (Method r) (Host r) (Path r) (RawQuery r) (URI r) (ReqHeader r) (ReqBody r) (ContentLength r)
    (RemoteAddr r) (TLS r).

Record Response := mkResponse {
  StatusCode : Z;
  RespHeader : Header;
  TransferEncoding : list string;
  RespBody : option Body
}.
#[export] Instance Response_eta : Eta Response := fun r =>
  mkResponse (StatusCode r) (RespHeader r) (TransferEncoding r) (RespBody r).
