(* ===== verification/Policy.v ===== *)
(** * Route policies (internal/policy/policy.go): retries and caching

    A Go map used as a set of enabled keys is a [gmap] to [bool]; [None] is
    the nil map. *)
From S2P Require Import Prelude.

Record RetryPolicy := mkRetryPolicy {
  Enabled : bool;
  MaxAttempts : Z;
  PerTryTimeout : Duration;
  TotalRetryBudget : Duration;
  RetryOnStatus : option (gmap Z bool);
  RetryOnErrors : option (gmap string bool);
  Backoff : Duration;
  BackoffJitter : Duration
}.

Record RetryBudgetPolicy := mkRetryBudgetPolicy {
  budget_Enabled : bool;
  PercentOfSuccesses : Z;
  Burst : Z
}.

Record ClientRetryCapPolicy := mkClientRetryCapPolicy {
  client_Enabled : bool;
  Key : string;
  client_PercentOfSuccesses : Z;
  client_Burst : Z;
  LRUSize : Z
}.

#[export] Instance RetryBudgetPolicy_eq_dec : EqDecision RetryBudgetPolicy.
Proof. solve_decision. Defined.
#[export] Instance ClientRetryCapPolicy_eq_dec : EqDecision ClientRetryCapPolicy.
Proof. solve_decision. Defined.

Record CachePolicy := mkCachePolicy {
  cache_Enabled : bool;
  Public : bool;
  TTL : Duration;
  MaxObjectBytes : Z;
  VaryHeaders : list string;
  CoalesceEnabled : bool;
  CoalesceTimeout : Duration;
  OnlyIfContentLength : bool
}.

(** Reading a Go [map[K]bool]: absent keys are [false]. *)
Definition mapGet {K} `{Countable K} (m : option (gmap K bool)) (k : K) : bool :=
  match m with None => false | Some m => default false (m !! k) end.
