(* ===== verification/Breaker.v ===== *)
(** * The circuit breaker (internal/breaker/breaker.go)

    One [Breaker] protects one route/pool pair.  Its atomics are the fields of
    a record; the three states are the [int32] constants of the source, so
    the [default] branches for an unknown state are part of the model.  Every
    method reads the clock once; the reading is the argument [now].  The
    methods of the source take no lock: each is several atomic operations, and
    the theorems are about runs in which one call ends before the next
    begins. *)
From S2P Require Import Prelude.

Abbreviation State := Z (only parsing).
Definition StateClosed : State := 1.
Definition StateOpen : State := 2.
Definition StateHalfOpen : State := 3.

Definition State_String (s : State) : string :=
  if s =? StateClosed then "closed"
  else if s =? StateOpen then "open"
  else if s =? StateHalfOpen then "half_open"
  else "unknown".

Record Config := mkConfig {
  Enabled : bool;
  FailureRateThresholdPercent : Z;
  MinimumRequests : Z;
  EvaluationWindow : Duration;
  OpenDuration : Duration;
  HalfOpenMaxProbes : Z
}.

(** [config] is an [atomic.Value]: [None] until the first [Store]. *)
Record Breaker := mkBreaker {
  state : Z;
  reqCount : Z;
  failCount : Z;
  windowStart : Z;
  openUntil : Z;
  probeInFlight : Z;
  probeSuccess : Z;
  probeFail : Z;
  config : option Config
}.
#[export] Instance Breaker_eta : Eta Breaker := fun b =>
  mkBreaker (state b) (reqCount b) (failCount b) (windowStart b) (openUntil b)
    (probeInFlight b) (probeSuccess b) (probeFail b) (config b).

(** ** Operations *)

Definition New (cfg : Config) (now : Time) : Breaker :=
  mkBreaker StateClosed 0 0 (UnixNano now) 0 0 0 0 (Some cfg).

Definition UpdateConfig (b : Breaker) (cfg : Config) : Breaker := b <| config := Some cfg |>.

Definition loadConfig (b : Breaker) : option Config := config b.

Definition resetProbes (b : Breaker) : Breaker :=
  b <| probeInFlight := 0 |> <| probeSuccess := 0 |> <| probeFail := 0 |>.

Definition allowHalfOpen (b : Breaker) (cfg : Config) : Breaker * (State * bool * option string) :=
  let maxProbes := or_default (HalfOpenMaxProbes cfg) 1 in
  let b := b <| probeInFlight ::= (λ n, i32 (n + 1)) |> in
  if i32 maxProbes <? probeInFlight b then
    let b := b <| probeInFlight ::= (λ n, i32 (n + -1)) |> in
    (b, (StateHalfOpen, false, None))
  else (b, (StateHalfOpen, true, None)).

(** [Allow] on a non-nil breaker; the third result is the error. *)
Definition Allow (b : Breaker) (now : Time) : Breaker * (State * bool * option string) :=
  match loadConfig b with
  | None => (b, (StateClosed, true, Some "breaker config missing"))
  | Some cfg =>
    if negb (Enabled cfg) then (b, (StateClosed, true, None))
    else
      let st := state b in
      if st =? StateClosed then (b, (st, true, None))
      else if (st =? StateOpen) && (UnixNano now <? openUntil b) then (b, (st, false, None))
      else
        (* the CompareAndSwap from Open to HalfOpen, then the reload of the state *)
        let b := if st =? StateOpen then resetProbes (b <| state := StateHalfOpen |>) else b in
        let st := state b in
        if st =? StateHalfOpen then allowHalfOpen b cfg
        else (b, (StateClosed, true, Some "breaker state unknown"))
  end.

Definition rotateWindow (b : Breaker) (cfg : Config) (now : Time) : Breaker :=
  let window := or_default (EvaluationWindow cfg) Second in
  let start := windowStart b in
  if (start =? 0) || (window <? time_Sub now start) then
    b <| windowStart := UnixNano now |> <| reqCount := 0 |> <| failCount := 0 |>
  else b.

(** Not called [open]: the name is taken by the proof language. *)
Definition openBreaker (b : Breaker) (now : Time) (cfg : Config) : Breaker :=
  let openFor := or_default (OpenDuration cfg) Second in
  b <| openUntil := UnixNano (now + openFor) |> <| state := StateOpen |>.

Definition closeBreaker (b : Breaker) (now : Time) : Breaker :=
  resetProbes (b <| state := StateClosed |> <| windowStart := UnixNano now |>
                 <| reqCount := 0 |> <| failCount := 0 |>).

Definition maybeOpen (b : Breaker) (cfg : Config) (now : Time) : Breaker :=
  let minRequests := or_default (MinimumRequests cfg) 1 in
  let req := reqCount b in
  if req <? minRequests then b
  else
    let fail := failCount b in
    if req =? 0 then b
    else
      let threshold := FailureRateThresholdPercent cfg in
      if threshold <=? 0 then b
      else
        let failureRate := Z.quot (i64 (fail * 100)) req in
        if threshold <=? failureRate then openBreaker b now cfg else b.

Definition Report (b : Breaker) (success : bool) (now : Time) : Breaker * (State * option string) :=
  match loadConfig b with
  | None => (b, (StateClosed, Some "breaker config missing"))
  | Some cfg =>
    if negb (Enabled cfg) then (b, (StateClosed, None))
    else
      let st := state b in
      if st =? StateClosed then
        let b := rotateWindow b cfg now in
        let b := b <| reqCount ::= (λ n, i32 (n + 1)) |> in
        let b := if negb success then b <| failCount ::= (λ n, i32 (n + 1)) |> else b in
        let b := maybeOpen b cfg now in
        (b, (state b, None))
      else if st =? StateHalfOpen then
        let b := if 0 <? probeInFlight b then b <| probeInFlight ::= (λ n, i32 (n + -1)) |> else b in
        if negb success then
          let b := b <| probeFail ::= (λ n, i32 (n + 1)) |> in
          let b := openBreaker b now cfg in
          (b, (StateOpen, None))
        else
          let b := b <| probeSuccess ::= (λ n, i32 (n + 1)) |> in
          let b := if (probeFail b =? 0) && (HalfOpenMaxProbes cfg <=? probeSuccess b)
                   then closeBreaker b now else b in
          (b, (state b, None))
      else if st =? StateOpen then (b, (st, None))
      else (b, (StateClosed, Some "breaker state unknown"))
  end.

(** ** Well-formedness

    [Inv n b]: the state is one of the three constants and every counter is
    non-negative and at most [n], the number of operations executed so far. *)
Definition Inv (n : Z) (b : Breaker) : Prop :=
  (state b = StateClosed ∨ state b = StateOpen ∨ state b = StateHalfOpen) ∧
  0 ≤ failCount b ≤ reqCount b ∧ reqCount b ≤ n ∧
  0 ≤ probeInFlight b ≤ n ∧ 0 ≤ probeSuccess b ≤ n ∧ 0 ≤ probeFail b ≤ n ∧
  is_Some (config b).

(** An operation of a client of the breaker, with its clock reading. *)
Inductive op :=
| OpAllow (now : Time)
| OpReport (now : Time) (success : bool)
| OpUpdate (cfg : Config).

Definition exec (b : Breaker) (o : op) : Breaker :=
  match o with
  | OpAllow now => (Allow b now).1
  | OpReport now success => (Report b success now).1
  | OpUpdate cfg => UpdateConfig b cfg
  end.

Definition run (b : Breaker) (ops : list op) : Breaker := fold_left exec ops b.

Lemma New_Inv cfg now : Inv 0 (New cfg now).
Proof. unfold Inv, New. simpl. repeat split; try lia; eauto. Qed.

(** Each helper keeps the invariant; [inv_tac] proves such a lemma by case
    analysis on the helper's tests and linear arithmetic. *)
Ltac inv_tac :=
  intros; unfold Inv, StateClosed, StateOpen, StateHalfOpen in *; simpl;
  repeat case_match; simpl; simp_int; intuition (eauto; lia).

Lemma Inv_S n b : Inv n b → Inv (n + 1) b.
Proof. inv_tac. Qed.
Lemma resetProbes_Inv n b : 0 ≤ n → Inv n b → Inv n (resetProbes b).
Proof. unfold resetProbes. inv_tac. Qed.
Lemma openBreaker_Inv n b now cfg : Inv n b → Inv n (openBreaker b now cfg).
Proof. unfold openBreaker. inv_tac. Qed.
Lemma closeBreaker_Inv n b now : 0 ≤ n → Inv n b → Inv n (closeBreaker b now).
Proof. unfold closeBreaker, resetProbes. inv_tac. Qed.
Lemma rotateWindow_Inv n b cfg now : 0 ≤ n → Inv n b → Inv n (rotateWindow b cfg now).
Proof. unfold rotateWindow. inv_tac. Qed.
Lemma halfOpen_Inv n b : Inv n b → Inv n (b <| state := StateHalfOpen |>).
Proof. inv_tac. Qed.
Lemma count_Inv n b success : n < max_i32 → Inv n b →
  Inv (n + 1) (let b := b <| reqCount ::= (λ k, i32 (k + 1)) |> in
               if negb success then b <| failCount ::= (λ k, i32 (k + 1)) |> else b).
Proof. inv_tac. Qed.
Lemma probeDone_Inv n b : n < max_i32 → Inv n b →
  Inv n (if 0 <? probeInFlight b then b <| probeInFlight ::= (λ k, i32 (k + -1)) |> else b).
Proof. inv_tac. Qed.
Lemma probeFail_Inv n b : n < max_i32 → Inv n b → Inv (n + 1) (b <| probeFail ::= (λ k, i32 (k + 1)) |>).
Proof. inv_tac. Qed.
Lemma probeSuccess_Inv n b : n < max_i32 → Inv n b → Inv (n + 1) (b <| probeSuccess ::= (λ k, i32 (k + 1)) |>).
Proof. inv_tac. Qed.
Lemma allowHalfOpen_Inv n b cfg : n < max_i32 → Inv n b → Inv (n + 1) (allowHalfOpen b cfg).1.
Proof. unfold allowHalfOpen. inv_tac. Qed.
Lemma Inv_nonneg n b : Inv n b → 0 ≤ n.
Proof. inv_tac. Qed.
Lemma maybeOpen_Inv n b cfg now : Inv n b → Inv n (maybeOpen b cfg now).
Proof. intros. unfold maybeOpen. repeat case_match; eauto using openBreaker_Inv. Qed.

#[local] Hint Resolve Inv_S resetProbes_Inv openBreaker_Inv closeBreaker_Inv rotateWindow_Inv
  halfOpen_Inv count_Inv probeDone_Inv probeFail_Inv probeSuccess_Inv allowHalfOpen_Inv maybeOpen_Inv : proxy.

Lemma Allow_Inv n b now : n < max_i32 → Inv n b → Inv (n + 1) (Allow b now).1.
Proof.
  intros Hn Hi. pose proof (Inv_nonneg _ _ Hi). unfold Allow.
  repeat case_match; cbn [fst]; auto with proxy.
Qed.

Lemma Report_Inv n b success now : n < max_i32 → Inv n b → Inv (n + 1) (Report b success now).1.
Proof.
  intros Hn Hi. pose proof (Inv_nonneg _ _ Hi). unfold Report.
  destruct (loadConfig b) as [cfg|]; [|auto with proxy].
  destruct (negb (Enabled cfg)); [auto with proxy|].
  destruct (state b =? StateClosed); cbn [fst].
  { apply maybeOpen_Inv, count_Inv; auto with proxy. }
  destruct (state b =? StateHalfOpen); [|case_match; auto with proxy].
  destruct (negb success); cbn [fst].
  { apply openBreaker_Inv, probeFail_Inv; auto with proxy. }
  case_match; [apply closeBreaker_Inv; [lia|]|]; apply probeSuccess_Inv; auto with proxy.
Qed.

Lemma exec_Inv n b o : n < max_i32 → Inv n b → Inv (n + 1) (exec b o).
Proof.
  intros Hn Hi. destruct o; cbn [exec]; auto using Allow_Inv, Report_Inv.
  unfold UpdateConfig. inv_tac.
Qed.

(** ** Abstract specification

    What the breaker promises, without counters: while closed it remembers
    the outcomes reported in the current window; it trips when the failure
    percentage of that log reaches the threshold; once open it refuses until
    a deadline; then it admits a bounded number of probes and closes after
    enough of them succeed, or opens again at the first failure. *)
Inductive spec_state :=
| SClosed (start : Z) (log : list bool)
| SOpen (until : Z)
| SHalfOpen (inflight successes : Z).

Definition failures (log : list bool) : Z := Z.of_nat (count_occ bool_dec log false).

Definition trips (cfg : Config) (log : list bool) : bool :=
  (or_default (MinimumRequests cfg) 1 <=? len log) &&
  (0 <? FailureRateThresholdPercent cfg) &&
  (FailureRateThresholdPercent cfg * len log <=? 100 * failures log).

Definition spec_code (a : spec_state) : State :=
  match a with SClosed _ _ => StateClosed | SOpen _ => StateOpen | SHalfOpen _ _ => StateHalfOpen end.

Definition spec_allow (cfg : Config) (a : spec_state) (now : Time) : spec_state * bool :=
  let probes := or_default (HalfOpenMaxProbes cfg) 1 in
  match a with
  | SClosed _ _ => (a, true)
  | SOpen until => if now <? until then (a, false) else (SHalfOpen 1 0, true)
  | SHalfOpen i s => if i <? probes then (SHalfOpen (i + 1) s, true) else (a, false)
  end.

Definition spec_report (cfg : Config) (a : spec_state) (success : bool) (now : Time) : spec_state :=
  let until := now + or_default (OpenDuration cfg) Second in
  match a with
  | SClosed start log =>
      let expired := (start =? 0) || (or_default (EvaluationWindow cfg) Second <? now - start) in
      let start := if expired then now else start in
      let log := success :: (if expired then [] else log) in
      if trips cfg log then SOpen until else SClosed start log
  | SOpen _ => a
  | SHalfOpen i s =>
      if success then
        if HalfOpenMaxProbes cfg <=? s + 1 then SClosed now [] else SHalfOpen (Z.max 0 (i - 1)) (s + 1)
      else SOpen until
  end.

(** One client call and its observable answer: the reported state and, for
    [Allow], whether the request may proceed. *)
Inductive call := CAllow (now : Time) | CReport (now : Time) (success : bool).

Definition call_step (b : Breaker) (c : call) : Breaker * (State * bool) :=
  match c with
  | CAllow now => let '(b, (st, ok, _)) := Allow b now in (b, (st, ok))
  | CReport now success => let '(b, (st, _)) := Report b success now in (b, (st, true))
  end.

Definition spec_step (cfg : Config) (a : spec_state) (c : call) : spec_state * (State * bool) :=
  match c with
  | CAllow now => let '(a, ok) := spec_allow cfg a now in (a, (spec_code a, ok))
  | CReport now success => let a := spec_report cfg a success now in (a, (spec_code a, true))
  end.

Fixpoint answers {S} (step : S → call → S * (State * bool)) (s : S) (cs : list call) : list (State * bool) :=
  match cs with
  | [] => []
  | c :: cs => let '(s, r) := step s c in r :: answers step s cs
  end.

(** The range in which the clock and the configured durations do not overflow
    [int64], i.e. instants between 1970 and 2262. *)
Definition clock_ok (cfg : Config) (now : Time) : Prop :=
  0 ≤ now ∧ now + or_default (OpenDuration cfg) Second ≤ max_i64.
Definition call_time (c : call) : Time := match c with CAllow now | CReport now _ => now end.

(** The representation relation; [n] bounds the counters. *)
Definition represents (cfg : Config) (n : Z) (b : Breaker) (a : spec_state) : Prop :=
  config b = Some cfg ∧ state b = spec_code a ∧
  match a with
  | SClosed start log =>
      windowStart b = start ∧ 0 ≤ start ≤ max_i64 ∧
      reqCount b = len log ∧ failCount b = failures log ∧ len log ≤ n
  | SOpen until => openUntil b = until ∧ 0 ≤ n
  | SHalfOpen i s =>
      probeInFlight b = i ∧ probeSuccess b = s ∧ probeFail b = 0 ∧ 0 ≤ i ≤ n ∧ 0 ≤ s ≤ n
  end.

Lemma failures_bound log : 0 ≤ failures log ≤ len log.
Proof. unfold failures, len. pose proof (count_occ_bound bool_dec false log). lia. Qed.

Lemma failures_cons x log : failures (x :: log) = failures log + (if x then 0 else 1).
Proof. unfold failures. destruct x; simpl; lia. Qed.

(** The integer test of [maybeOpen] is the exact comparison of the failure
    rate with the threshold: the truncated division loses nothing. *)
Lemma failure_rate_exact f r t : 0 ≤ f → 0 < r → (t <=? Z.quot (f * 100) r) = (t * r <=? 100 * f).
Proof.
  intros Hf Hr. rewrite Z.quot_div_nonneg by lia.
  destruct (Z.leb_spec (t * r) (100 * f)) as [H|H].
  - apply Z.leb_le, Z.div_le_lower_bound; lia.
  - apply Z.leb_gt, Z.div_lt_upper_bound; lia.
Qed.

Lemma maybeOpen_trips cfg b log now :
  reqCount b = len log → failCount b = failures log → 0 < len log ≤ max_i32 →
  maybeOpen b cfg now = if trips cfg log then openBreaker b now cfg else b.
Proof.
  intros Hr Hf Hl. pose proof (failures_bound log). unfold maybeOpen, trips. rewrite Hr, Hf.
  rewrite i64_small, failure_rate_exact by lia.
  rewrite (proj2 (Z.eqb_neq (len log) 0)) by lia.
  destruct (Z.ltb_spec (len log) (or_default (MinimumRequests cfg) 1)),
    (Z.leb_spec (or_default (MinimumRequests cfg) 1) (len log)); try lia; simpl; [done|].
  by destruct (Z.leb_spec (FailureRateThresholdPercent cfg) 0),
    (Z.ltb_spec 0 (FailureRateThresholdPercent cfg)); try lia.
Qed.

Ltac rep_tac :=
  unfold represents; simpl; intuition (reflexivity || congruence || (rewrite ?len_cons, ?failures_cons in *; unfold len in *; simpl in *; lia)).

Section simulation.
Context (cfg : Config) (Hen : Enabled cfg = true) (Hprobes : HalfOpenMaxProbes cfg ≤ max_i32).

Lemma Allow_sim n b a now :
  n < max_i32 → clock_ok cfg now → represents cfg n b a →
  let '(b', (st, ok, e)) := Allow b now in
  represents cfg (n + 1) b' (spec_allow cfg a now).1 ∧ st = spec_code (spec_allow cfg a now).1 ∧
  ok = (spec_allow cfg a now).2 ∧ e = None.
Proof.
  intros Hn [Hnow Hadd] (Hc & Hs & Ha). unfold Allow, loadConfig. rewrite Hc, Hen. simpl.
  assert (1 ≤ or_default (HalfOpenMaxProbes cfg) 1 ≤ max_i32) as Hp
    by (pose proof (or_default_pos (HalfOpenMaxProbes cfg) 1); pose proof (or_default_le _ 1 _ Hprobes); lia).
  assert (0 < or_default (OpenDuration cfg) Second) as Ho by (by apply or_default_pos).
  destruct a as [start log|until|i s]; rewrite Hs; simpl.
  - rep_tac.
  - destruct Ha as [Hu Hn0]. unfold UnixNano. rewrite Hu, i64_small by lia.
    destruct (Z.ltb_spec now until); simpl; [rep_tac|].
    unfold allowHalfOpen. simpl. simp_int.
    destruct (Z.ltb_spec (or_default (HalfOpenMaxProbes cfg) 1) (0 + 1)); [lia|].
    rep_tac.
  - destruct Ha as (Hi & Hsu & Hpf & Hib & Hsb).
    unfold allowHalfOpen. simpl. rewrite Hs, Hi. simpl. simp_int.
    destruct (Z.ltb_spec (or_default (HalfOpenMaxProbes cfg) 1) (i + 1)),
      (Z.ltb_spec i (or_default (HalfOpenMaxProbes cfg) 1)); try lia;
      rep_tac.
Qed.

Lemma Report_sim n b a success now :
  n < max_i32 → clock_ok cfg now → represents cfg n b a →
  let '(b', (st, e)) := Report b success now in
  represents cfg (n + 1) b' (spec_report cfg a success now) ∧
  st = spec_code (spec_report cfg a success now) ∧ e = None.
Proof.
  intros Hn [Hnow Hadd] (Hc & Hs & Ha). unfold Report, loadConfig. rewrite Hc, Hen. simpl.
  assert (0 < or_default (OpenDuration cfg) Second) as Ho by (by apply or_default_pos).
  destruct a as [start log|until|i s]; rewrite Hs; cbn [spec_code].
  - destruct Ha as (Hw & Hst & Hr & Hf & Hl). cbn [spec_report].
    pose proof (len_nonneg log). pose proof (failures_bound log).
    set (ex := (start =? 0) || (or_default (EvaluationWindow cfg) Second <? now - start)).
    assert (∃ b1, rotateWindow b cfg now = b1 ∧ config b1 = Some cfg ∧ state b1 = StateClosed ∧
      windowStart b1 = (if ex then now else start) ∧
      reqCount b1 = len (if ex then [] else log) ∧
      failCount b1 = failures (if ex then [] else log)) as (b1 & -> & Hc1 & Hs1 & Hw1 & Hr1 & Hf1).
    { eexists; split; [done|]. unfold rotateWindow. rewrite Hw, time_Sub_small by lia. fold ex.
      unfold UnixNano. rewrite i64_small by lia. destruct ex; simpl; auto 10. }
    set (log1 := if ex then [] else log) in *.
    assert (0 ≤ len log1 ≤ n) by (unfold log1; destruct ex; simpl; unfold len in *; simpl; lia).
    pose proof (failures_bound log1).
    set (b2 := if negb success then _ else _).
    assert (config b2 = Some cfg ∧ state b2 = StateClosed ∧ windowStart b2 = windowStart b1 ∧
      reqCount b2 = len (success :: log1) ∧ failCount b2 = failures (success :: log1))
      as (Hc2 & Hs2 & Hw2 & Hr2 & Hf2).
    { unfold b2. rewrite len_cons, failures_cons. destruct success; simpl; rewrite ?Hr1, ?Hf1; simp_int; auto with lia. }
    rewrite (maybeOpen_trips _ _ (success :: log1)) by (done || (rewrite len_cons; lia)).
    destruct (trips cfg (success :: log1)); simpl.
    + unfold openBreaker, UnixNano. simp_int. rep_tac.
    + assert (0 ≤ (if ex then now else start) ≤ max_i64) by (destruct ex; lia).
      clearbody b2 log1 ex. rep_tac.
  - destruct Ha as [Hu Hn0]. rep_tac.
  - destruct Ha as (Hi & Hsu & Hpf & Hib & Hsb). simpl. rewrite Hi.
    set (b1 := if 0 <? i then _ else _).
    assert (config b1 = Some cfg ∧ state b1 = StateHalfOpen ∧ probeInFlight b1 = Z.max 0 (i - 1) ∧
      probeSuccess b1 = s ∧ probeFail b1 = 0) as (Hc1 & Hs1 & Hi1 & Hsu1 & Hpf1).
    { unfold b1. destruct (Z.ltb_spec 0 i); simpl; rewrite ?Hi; simp_int; auto 10 with lia. }
    destruct success; simpl; [|unfold openBreaker, UnixNano; simp_int; rep_tac].
    rewrite Hpf1, Hsu1. simp_int. simpl.
    destruct (HalfOpenMaxProbes cfg <=? s + 1); simpl; [|rep_tac].
    unfold closeBreaker, resetProbes, UnixNano. simp_int. rep_tac.
Qed.
End simulation.

(** ** Refinement of whole histories *)

Section histories.
Context (cfg : Config) (Hen : Enabled cfg = true) (Hprobes : HalfOpenMaxProbes cfg ≤ max_i32).

Lemma call_step_sim n b a c :
  n < max_i32 → clock_ok cfg (call_time c) → represents cfg n b a →
  represents cfg (n + 1) (call_step b c).1 (spec_step cfg a c).1 ∧
  (call_step b c).2 = (spec_step cfg a c).2.
Proof.
  intros Hn Ht Hr. destruct c as [now|now success]; simpl in *.
  - pose proof (Allow_sim cfg Hen Hprobes n b a now Hn Ht Hr) as Hs.
    destruct (Allow b now) as [b' [[st ok] e]], (spec_allow cfg a now) as [a' ok']; simpl in *.
    destruct Hs as (? & -> & -> & _). auto.
  - pose proof (Report_sim cfg Hen n b a success now Hn Ht Hr) as Hs.
    destruct (Report b success now) as [b' [st e]]; simpl in *.
    destruct Hs as (? & -> & _). auto.
Qed.

Lemma answers_sim cs n b a :
  n + len cs ≤ max_i32 → Forall (λ c, clock_ok cfg (call_time c)) cs → represents cfg n b a →
  answers call_step b cs = answers (spec_step cfg) a cs.
Proof.
  revert n b a. induction cs as [|c cs IH]; intros n b a Hn Hf Hr; [done|].
  rewrite len_cons in Hn. pose proof (len_nonneg cs). apply Forall_cons in Hf as [Hc Hf].
  destruct (call_step_sim n b a c) as [Hr' Ha]; [lia|done|done|]. simpl.
  destruct (call_step b c) as [b' r], (spec_step cfg a c) as [a' r']; simpl in *. subst r'.
  f_equal. apply (IH (n + 1)); [lia|done|done].
Qed.
End histories.

(** C7. Refinement: a new breaker answers every history of [Allow] and
    [Report] calls exactly as the abstract breaker does (same returned state,
    same admission decision), for an enabled configuration, clock readings
    that do not overflow [int64], and fewer than 2^31 calls. *)
Theorem breaker_refines_spec cfg now0 cs :
  Enabled cfg = true → HalfOpenMaxProbes cfg ≤ max_i32 → 0 ≤ now0 ≤ max_i64 →
  Forall (λ c, clock_ok cfg (call_time c)) cs → len cs ≤ max_i32 →
  answers call_step (New cfg now0) cs = answers (spec_step cfg) (SClosed now0 []) cs.
Proof.
  intros Hen Hp Hnow Hf Hl. apply (answers_sim cfg Hen Hp cs 0); [lia|done|].
  unfold represents, New, UnixNano. simpl. rewrite i64_small by lia.
  intuition (reflexivity || lia).
Qed.

(** A concrete configuration used by the witnesses: trips at 50% failures
    once two requests were seen in a 10s window, opens for 2s, two probes. *)
Definition example_config : Config := mkConfig true 50 2 (10 * Second) (2 * Second) 2.

Lemma breaker_refines_spec_witness :
  answers call_step (New example_config 5) [CReport 6 true; CReport 7 false; CAllow 8; CAllow (3 * Second)] =
  [(StateClosed, true); (StateOpen, true); (StateOpen, false); (StateHalfOpen, true)].
Proof.
  rewrite breaker_refines_spec; [reflexivity|reflexivity|vm_compute; congruence|lia| |vm_compute; congruence].
  repeat constructor; vm_compute; congruence.
Defined.

(** Invariant: after any sequence of [Allow], [Report] and
    [UpdateConfig] calls shorter than 2^31, whatever the clock readings and
    the configurations installed, the state is one of the three declared
    ones, no counter is negative or has wrapped around, and the failure
    count never exceeds the request count. *)
Theorem breaker_invariant cfg now0 ops :
  len ops ≤ max_i32 → Inv (len ops) (run (New cfg now0) ops).
Proof.
  assert (∀ n b, Inv n b → n + len ops ≤ max_i32 → Inv (n + len ops) (run b ops)) as H.
  { unfold run. induction ops as [|o ops IH]; intros n b Hi Hn; simpl.
    - unfold len. simpl. by rewrite Z.add_0_r.
    - rewrite len_cons in *. pose proof (len_nonneg ops).
      replace (n + (len ops + 1)) with (n + 1 + len ops) by lia.
      apply IH; [apply exec_Inv; [lia|done]|lia]. }
  intros Hl. apply (H 0); [apply New_Inv|lia].
Qed.

Lemma breaker_invariant_witness :
  Inv 3 (run (New example_config 5) [OpReport 6 false; OpReport 7 false; OpAllow 8]).
Proof. apply (breaker_invariant example_config 5 [OpReport 6 false; OpReport 7 false; OpAllow 8]). vm_compute. congruence. Defined.

(** ** Open and half-open behaviour of the concrete breaker *)

Lemma Allow_open cfg b now :
  config b = Some cfg → Enabled cfg = true → state b = StateOpen → UnixNano now < openUntil b →
  Allow b now = (b, (StateOpen, false, None)).
Proof.
  intros Hc He Hs Hu. unfold Allow, loadConfig. rewrite Hc, He, Hs. simpl.
  by rewrite (proj2 (Z.ltb_lt _ _) Hu).
Qed.

Lemma Report_open cfg b success now :
  config b = Some cfg → Enabled cfg = true → state b = StateOpen → Report b success now = (b, (StateOpen, None)).
Proof. intros Hc He Hs. unfold Report, loadConfig. by rewrite Hc, He, Hs. Qed.

(** Safety: while the breaker is open and its deadline has not passed,
    every request is refused and nothing, not even a late success report,
    changes its state. *)
Theorem breaker_open_refuses cfg b cs :
  config b = Some cfg → Enabled cfg = true → state b = StateOpen →
  Forall (λ c, UnixNano (call_time c) < openUntil b) cs →
  answers call_step b cs =
  map (λ c, match c with CAllow _ => (StateOpen, false) | CReport _ _ => (StateOpen, true) end) cs.
Proof.
  intros Hc He Hs Hf. induction Hf as [|c cs Ht Hf IH]; [done|].
  destruct c as [now|now success]; simpl in *.
  - rewrite (Allow_open cfg) by done. by rewrite IH.
  - rewrite (Report_open cfg) by done. by rewrite IH.
Qed.

Lemma breaker_open_refuses_witness :
  let b := openBreaker (New example_config 5) 10 example_config in
  answers call_step b [CAllow 11; CReport 12 true; CAllow Second] =
  [(StateOpen, false); (StateOpen, true); (StateOpen, false)].
Proof.
  intros b. rewrite (breaker_open_refuses example_config b); [reflexivity..|].
  repeat constructor; vm_compute; reflexivity.
Defined.

Lemma answers_cons {S} (step : S → call → S * (State * bool)) s c cs :
  answers step s (c :: cs) = (step s c).2 :: answers step (step s c).1 cs.
Proof. simpl. by destruct (step s c). Qed.

Definition granted (rs : list (State * bool)) : Z := len (filter (λ r, r.2 = true) rs).

Lemma granted_cons r rs : granted (r :: rs) = granted rs + (if r.2 then 1 else 0).
Proof. unfold granted. rewrite filter_cons. destruct r as [? []]; case_decide; simplify_eq/=; rewrite ?len_cons; lia. Qed.

Section probes.
Context (cfg : Config) (Hprobes : HalfOpenMaxProbes cfg ≤ max_i32).
Let probes := or_default (HalfOpenMaxProbes cfg) 1.

Lemma spec_probes_granted times i s :
  0 ≤ i ≤ probes →
  granted (answers (spec_step cfg) (SHalfOpen i s) (CAllow <$> times)) = Z.min (len times) (probes - i).
Proof.
  revert i. induction times as [|now times IH]; intros i Hi; simpl.
  - unfold granted, len. simpl. lia.
  - fold probes. rewrite len_cons. pose proof (len_nonneg times). destruct (Z.ltb_spec i probes).
    + rewrite granted_cons, IH by lia. simpl. lia.
    + rewrite granted_cons, IH by lia. simpl. lia.
Qed.

Lemma spec_recovers k now i s :
  1 ≤ i ≤ probes → (1 < probes ∨ i = 1) → 0 ≤ s → s + Z.of_nat k + 1 = Z.max 1 (HalfOpenMaxProbes cfg) →
  last (answers (spec_step cfg) (SHalfOpen i s)
          (CReport now true :: concat (replicate k [CAllow now; CReport now true]))) =
  Some (StateClosed, true).
Proof.
  revert i s. induction k as [|k IH]; intros i s Hi Hip Hs Hk.
  - simpl. destruct (Z.leb_spec (HalfOpenMaxProbes cfg) (s + 1)); [done|lia].
  - rewrite answers_cons. cbn [replicate concat app]. rewrite answers_cons.
    cbn [spec_step spec_report fst snd].
    destruct (Z.leb_spec (HalfOpenMaxProbes cfg) (s + 1)); [lia|].
    cbn [spec_allow]. fold probes. destruct (Z.ltb_spec (Z.max 0 (i - 1)) probes); [|lia].
    cbn [fst snd]. rewrite !last_cons, IH; [done|lia..].
Qed.
End probes.

(** Bounds: a half-open breaker with [i] probes in flight admits, over
    any sequence of [Allow] calls with no [Report] in between and at any
    times, exactly the [max - i] probe slots that are left.  So at most
    [HalfOpenMaxProbes] probes run at once; and a request that is admitted
    but never reported keeps its slot for ever, whatever the clock says. *)
Theorem breaker_probe_slots cfg b i s times :
  Enabled cfg = true → HalfOpenMaxProbes cfg ≤ max_i32 →
  represents cfg i b (SHalfOpen i s) → i ≤ or_default (HalfOpenMaxProbes cfg) 1 →
  Forall (clock_ok cfg) times → i + len times ≤ max_i32 →
  granted (answers call_step b (CAllow <$> times)) =
  Z.min (len times) (or_default (HalfOpenMaxProbes cfg) 1 - i).
Proof.
  intros He Hp Hr Hi Hf Hl.
  rewrite (answers_sim cfg He Hp (CAllow <$> times) i b (SHalfOpen i s)); [| |by apply Forall_fmap|done].
  - apply spec_probes_granted. destruct Hr as (_ & _ & _ & _ & _ & H & _). lia.
  - unfold len in *. rewrite length_fmap. lia.
Qed.

Lemma breaker_probe_slots_witness :
  granted (answers call_step (mkBreaker StateHalfOpen 0 0 5 0 0 0 0 (Some example_config))
             (CAllow <$> [7; 8; 9; 1000 * Second])) = 2.
Proof.
  rewrite (breaker_probe_slots example_config _ 0 0 [7; 8; 9; 1000 * Second]);
    [reflexivity|reflexivity|vm_compute; congruence|vm_compute; intuition congruence|vm_compute; congruence| |vm_compute; congruence].
  repeat constructor; vm_compute; congruence.
Defined.

(** C34. Liveness: once the open deadline has passed, letting requests
    through one by one and reporting them successful closes the breaker
    after [max 1 HalfOpenMaxProbes] probes. *)
Theorem breaker_recovers cfg b until now :
  Enabled cfg = true → HalfOpenMaxProbes cfg < max_i32 / 2 → clock_ok cfg now →
  represents cfg 0 b (SOpen until) → until ≤ now →
  last (answers call_step b
         (concat (replicate (Z.to_nat (Z.max 1 (HalfOpenMaxProbes cfg))) [CAllow now; CReport now true]))) =
  Some (StateClosed, true).
Proof.
  intros He Hp Hc Hr Hu. change (max_i32 / 2) with 1073741823 in Hp.
  remember (Z.to_nat (Z.max 1 (HalfOpenMaxProbes cfg))) as k eqn:Hk.
  destruct k as [|k]; [lia|].
  rewrite (answers_sim cfg He ltac:(lia) _ 0 b (SOpen until)); [| | |done].
  - cbn [replicate concat app]. rewrite answers_cons. cbn [spec_step spec_allow].
    destruct (Z.ltb_spec now until); [lia|]. cbn [fst snd]. rewrite last_cons.
    pose proof (or_default_pos (HalfOpenMaxProbes cfg) 1 ltac:(lia)).
    rewrite spec_recovers; [done|lia|lia|lia|lia].
  - unfold len. rewrite length_concat. clear -Hk Hp.
    assert (∀ n, list_sum (map length (replicate n [CAllow now; CReport now true])) = (2 * n)%nat) as E.
    { induction n as [|n IH]; simpl in *; lia. }
    rewrite E. lia.
  - apply Forall_concat, Forall_replicate. apply Forall_cons; split; [done|]. by apply Forall_singleton.
Qed.

Lemma breaker_recovers_witness :
  last (answers call_step (mkBreaker StateOpen 0 0 5 7 0 0 0 (Some example_config))
          [CAllow 8; CReport 8 true; CAllow 8; CReport 8 true]) = Some (StateClosed, true).
Proof.
  refine (breaker_recovers example_config _ 7 8 _ _ _ _ _); [reflexivity|vm_compute; congruence| | |lia];
    vm_compute; intuition congruence.
Defined.
