(* ===== verification/BreakerRegistry.v ===== *)
(** * The registry of circuit breakers (internal/breaker/registry.go)

    A mutex-protected map from breaker keys ("route::pool") to breakers.  The
    background [reapLoop] goroutine is the event [reapOnce] run at each tick
    until [Close]; [stopCh] is the boolean [stopped]. *)
From S2P Require Import Prelude.
From S2P Require Import Breaker.

Definition defaultReapInterval : Duration := 30 * Second.
Definition defaultTTL : Duration := 30 * Minute.

Record entry := mkEntry {
  breaker : Breaker;
  entry_config : Config;
  lastSeen : Time
}.
#[export] Instance entry_eta : Eta entry := fun e => mkEntry (breaker e) (entry_config e) (lastSeen e).

Record Registry := mkRegistry {
  breakers : gmap string entry;
  reapInterval : Duration;
  ttl : Duration;
  stopped : bool
}.
#[export] Instance Registry_eta : Eta Registry := fun r =>
  mkRegistry (breakers r) (reapInterval r) (ttl r) (stopped r).

Definition NewRegistry (interval timeToLive : Duration) : Registry :=
  mkRegistry ∅ (or_default interval defaultReapInterval) (or_default timeToLive defaultTTL) false.

Definition sameConfig (a b : Config) : bool :=
  eqb (Enabled a) (Enabled b) &&
  (FailureRateThresholdPercent a =? FailureRateThresholdPercent b) &&
  (MinimumRequests a =? MinimumRequests b) &&
  (EvaluationWindow a =? EvaluationWindow b) &&
  (OpenDuration a =? OpenDuration b) &&
  (HalfOpenMaxProbes a =? HalfOpenMaxProbes b).

(** [ensure] reads the clock in [New] ([tNew], on a miss only) and for
    [lastSeen] ([tSeen]). *)
Definition ensure (r : Registry) (key : string) (cfg : Config) (tNew tSeen : Time) : Registry * entry :=
  match breakers r !! key with
  | None =>
      let current := mkEntry (New cfg tNew) cfg tSeen in
      (r <| breakers ::= <[key := current]> |>, current)
  | Some current =>
      let current := current <| lastSeen := tSeen |> in
      let current :=
        if negb (sameConfig (entry_config current) cfg) then
          current <| entry_config := cfg |> <| breaker ::= (λ b, UpdateConfig b cfg) |>
        else current in
      (r <| breakers ::= <[key := current]> |>, current)
  end.

Definition store (r : Registry) (key : string) (e : entry) (b : Breaker) : Registry :=
  r <| breakers ::= <[key := e <| breaker := b |>]> |>.

Definition Allow (r : Registry) (key : string) (cfg : Config) (tNew tSeen now : Time)
    : Registry * (State * bool * option string) :=
  if decide (key = "") then (r, (StateClosed, true, Some "breaker key is empty"))
  else
    let '(r, e) := ensure r key cfg tNew tSeen in
    let '(b, answer) := Breaker.Allow (breaker e) now in
    (store r key e b, answer).

Definition Report (r : Registry) (key : string) (cfg : Config) (success : bool) (tNew tSeen now : Time)
    : Registry * (State * option string) :=
  if decide (key = "") then (r, (StateClosed, Some "breaker key is empty"))
  else
    let '(r, e) := ensure r key cfg tNew tSeen in
    let '(b, answer) := Breaker.Report (breaker e) success now in
    (store r key e b, answer).

Definition Close (r : Registry) : Registry := r <| stopped := true |>.
Definition Stop (r : Registry) : Registry * option string := (Close r, None).
Definition Has (r : Registry) (key : string) : bool := bool_decide (is_Some (breakers r !! key)).

Definition reapOnce (r : Registry) (now : Time) : Registry :=
  let cutoff := now + - ttl r in
  r <| breakers ::= filter (λ kv, ¬ (lastSeen kv.2 < cutoff)) |>.

(** One tick of [reapLoop]. *)
Definition reapTick (r : Registry) (now : Time) : Registry := if stopped r then r else reapOnce r now.

(** ** Histories of the registry *)

Inductive event :=
| EAllow (key : string) (cfg : Config) (tNew tSeen now : Time)
| EReport (key : string) (cfg : Config) (success : bool) (tNew tSeen now : Time)
| EReap (now : Time)
| EClose.

(** The answer of a call, with the key it was asked for. *)
Definition event_step (r : Registry) (ev : event) : Registry * option (string * (State * bool)) :=
  match ev with
  | EAllow key cfg t1 t2 t3 =>
      let '(r, (st, ok, _)) := Allow r key cfg t1 t2 t3 in (r, Some (key, (st, ok)))
  | EReport key cfg success t1 t2 t3 =>
      let '(r, (st, _)) := Report r key cfg success t1 t2 t3 in (r, Some (key, (st, true)))
  | EReap now => (reapTick r now, None)
  | EClose => (Close r, None)
  end.

Fixpoint history (r : Registry) (evs : list event) : Registry * list (string * (State * bool)) :=
  match evs with
  | [] => (r, [])
  | ev :: evs =>
      let '(r, a) := event_step r ev in
      let '(r, rest) := history r evs in
      (r, from_option (λ x, [x]) [] a ++ rest)
  end.

(** The events that concern [key]: its own calls, and those of the reaper. *)
Definition concerns (key : string) (ev : event) : bool :=
  match ev with
  | EAllow k _ _ _ _ | EReport k _ _ _ _ _ => bool_decide (k = key)
  | EReap _ | EClose => true
  end.

(** What an event for [key] can see: the entry of [key] and the shared settings. *)
Definition view (key : string) (r : Registry) : option entry * (Duration * Duration * bool) :=
  (breakers r !! key, (reapInterval r, ttl r, stopped r)).

Lemma sameConfig_spec a b : sameConfig a b = true ↔ a = b.
Proof.
  unfold sameConfig. rewrite !andb_true_iff, !Z.eqb_eq, Bool.eqb_true_iff.
  destruct a, b; simpl. split; [naive_solver|]. by intros [= -> -> -> -> -> ->].
Qed.

Lemma ensure_view key r1 r2 cfg t1 t2 :
  view key r1 = view key r2 →
  (ensure r1 key cfg t1 t2).2 = (ensure r2 key cfg t1 t2).2 ∧
  view key (ensure r1 key cfg t1 t2).1 = view key (ensure r2 key cfg t1 t2).1.
Proof.
  unfold view, ensure. intros [= Hb ? ? ?]. rewrite Hb.
  destruct (breakers r2 !! key); simpl; rewrite !lookup_insert_eq; split; congruence.
Qed.

Lemma ensure_other key k r cfg t1 t2 : k ≠ key → view key (ensure r k cfg t1 t2).1 = view key r.
Proof. intros Hne. unfold view, ensure. destruct (breakers r !! k); simpl; by rewrite lookup_insert_ne. Qed.

Lemma store_view key r1 r2 e b : view key r1 = view key r2 → view key (store r1 key e b) = view key (store r2 key e b).
Proof. unfold view, store. intros [= Hb ? ? ?]. simpl. rewrite !lookup_insert_eq. congruence. Qed.

Lemma store_other key k r e b : k ≠ key → view key (store r k e b) = view key r.
Proof. intros Hne. unfold view, store. simpl. by rewrite lookup_insert_ne. Qed.

Lemma reap_view key r1 r2 now : view key r1 = view key r2 → view key (reapTick r1 now) = view key (reapTick r2 now).
Proof.
  unfold view, reapTick, reapOnce. destruct r1 as [m1 i1 t1 s1], r2 as [m2 i2 t2 s2]; simpl.
  intros [= Hb -> -> ->]. destruct s2; simpl; rewrite ?map_lookup_filter, ?Hb; done.
Qed.

(** An event that does not concern [key] leaves its view alone and answers
    somebody else; one that does acts the same way on equal views. *)
Lemma event_step_other key r ev :
  concerns key ev = false →
  view key (event_step r ev).1 = view key r ∧ ∃ k a, (event_step r ev).2 = Some (k, a) ∧ k ≠ key.
Proof.
  destruct ev as [k cfg t1 t2 t3|k cfg s t1 t2 t3| |]; simpl; [| |done..]; intros Hk%bool_decide_eq_false.
  - unfold Allow. case_decide; [simpl; eauto|]. pose proof (ensure_other key k r cfg t1 t2 Hk) as He.
    destruct (ensure r k cfg t1 t2) as [r' e]. destruct (Breaker.Allow (breaker e) t3) as [b [[st ok] er]].
    simpl in *. rewrite store_other by done. eauto.
  - unfold Report. case_decide; [simpl; eauto|]. pose proof (ensure_other key k r cfg t1 t2 Hk) as He.
    destruct (ensure r k cfg t1 t2) as [r' e]. destruct (Breaker.Report (breaker e) s t3) as [b [st er]].
    simpl in *. rewrite store_other by done. eauto.
Qed.

Lemma event_step_same key r1 r2 ev :
  concerns key ev = true → view key r1 = view key r2 →
  view key (event_step r1 ev).1 = view key (event_step r2 ev).1 ∧ (event_step r1 ev).2 = (event_step r2 ev).2.
Proof.
  destruct ev as [k cfg t1 t2 t3|k cfg s t1 t2 t3|now|]; simpl; intros Hk Hv.
  - apply bool_decide_eq_true in Hk as ->. unfold Allow. case_decide; [done|].
    destruct (ensure_view key r1 r2 cfg t1 t2 Hv) as [He Hv'].
    destruct (ensure r1 key cfg t1 t2) as [r1' e1], (ensure r2 key cfg t1 t2) as [r2' e2]; simpl in *; subst e2.
    destruct (Breaker.Allow (breaker e1) t3) as [b [[st ok] er]]; simpl. auto using store_view.
  - apply bool_decide_eq_true in Hk as ->. unfold Report. case_decide; [done|].
    destruct (ensure_view key r1 r2 cfg t1 t2 Hv) as [He Hv'].
    destruct (ensure r1 key cfg t1 t2) as [r1' e1], (ensure r2 key cfg t1 t2) as [r2' e2]; simpl in *; subst e2.
    destruct (Breaker.Report (breaker e1) s t3) as [b [st er]]; simpl. auto using store_view.
  - auto using reap_view.
  - split; [|done]. unfold view, Close in *. simpl. congruence.
Qed.

Lemma history_noninterference key evs r1 r2 :
  view key r1 = view key r2 →
  view key (history r1 evs).1 = view key (history r2 (filter (λ ev, concerns key ev = true) evs)).1 ∧
  filter (λ a, a.1 = key) (history r1 evs).2 =
  filter (λ a, a.1 = key) (history r2 (filter (λ ev, concerns key ev = true) evs)).2.
Proof.
  revert r1 r2. induction evs as [|ev evs IH]; intros r1 r2 Hv; [done|].
  rewrite filter_cons. destruct (concerns key ev) eqn:Hc; case_decide; try congruence; simpl.
  - destruct (event_step_same key r1 r2 ev Hc Hv) as [Hv' Ha].
    destruct (event_step r1 ev) as [r1' a], (event_step r2 ev) as [r2' a']; simpl in *. subst a'.
    destruct (IH _ _ Hv') as [IH1 IH2].
    destruct (history r1' evs), (history r2' _); simpl in *. rewrite !filter_app, IH2. auto.
  - destruct (event_step_other key r1 ev Hc) as [Hv' (k & a & Ha & Hk)].
    destruct (event_step r1 ev) as [r1' a']; simpl in *. subst a'.
    destruct (IH r1' r2) as [IH1 IH2]; [congruence|].
    destruct (history r1' evs); simpl in *. rewrite filter_cons_False by done. auto.
Qed.

(** Safety (isolation): a breaker key never influences another one.
    In any history of the registry, the answers given for [key] and the
    final entry of [key] are those of the history with every call for other
    keys removed. *)
Theorem registry_isolation key r evs :
  let own := filter (λ ev, concerns key ev = true) evs in
  filter (λ a, a.1 = key) (history r evs).2 = filter (λ a, a.1 = key) (history r own).2 ∧
  breakers (history r evs).1 !! key = breakers (history r own).1 !! key.
Proof.
  destruct (history_noninterference key evs r r eq_refl) as [Hv Ha].
  split; [done|]. unfold view in Hv. congruence.
Qed.

(** ** Configuration and lifetime of an entry *)

(** The entry's copy of the configuration is the breaker's. *)
Definition synced (r : Registry) : Prop :=
  map_Forall (λ _ e, config (breaker e) = Some (entry_config e)) (breakers r).

Lemma ensure_synced r key cfg t1 t2 :
  synced r →
  config (breaker (ensure r key cfg t1 t2).2) = Some cfg ∧ entry_config (ensure r key cfg t1 t2).2 = cfg ∧
  lastSeen (ensure r key cfg t1 t2).2 = t2.
Proof.
  intros Hs. unfold ensure. destruct (breakers r !! key) as [e|] eqn:He; simpl; [|done].
  specialize (Hs _ _ He). simpl in Hs. destruct (sameConfig (entry_config e) cfg) eqn:Hc; simpl; [|done].
  apply sameConfig_spec in Hc as <-. auto.
Qed.

Lemma ensure_map r key cfg t1 t2 :
  breakers (ensure r key cfg t1 t2).1 = <[key := (ensure r key cfg t1 t2).2]> (breakers r).
Proof. unfold ensure. by destruct (breakers r !! key). Qed.

Lemma Breaker_Allow_config b now : config (Breaker.Allow b now).1 = config b.
Proof. unfold Breaker.Allow, allowHalfOpen, resetProbes. repeat case_match; simplify_eq/=; congruence. Qed.

Lemma openBreaker_config b now cfg : config (openBreaker b now cfg) = config b.
Proof. done. Qed.

Lemma maybeOpen_config b cfg now : config (maybeOpen b cfg now) = config b.
Proof. unfold maybeOpen. by repeat case_match. Qed.

Lemma Breaker_Report_config b s now : config (Breaker.Report b s now).1 = config b.
Proof.
  unfold Breaker.Report, loadConfig. destruct (config b) eqn:E; [|done].
  repeat case_match; simpl; try congruence; rewrite maybeOpen_config;
    unfold rotateWindow; repeat case_match; simpl; congruence.
Qed.

Lemma store_synced r key cfg t1 t2 b :
  synced r → config b = Some cfg →
  synced (store (ensure r key cfg t1 t2).1 key (ensure r key cfg t1 t2).2 b).
Proof.
  intros Hs Hb. destruct (ensure_synced r key cfg t1 t2 Hs) as (Hc & He & _).
  unfold synced, store. simpl. rewrite ensure_map, insert_insert_eq.
  apply map_Forall_insert_2; [simpl; congruence|done].
Qed.

Lemma event_step_synced r ev : synced r → synced (event_step r ev).1.
Proof.
  intros Hs. destruct ev as [k cfg t1 t2 t3|k cfg s t1 t2 t3|now|]; simpl.
  - unfold Allow. case_decide; [done|]. pose proof (store_synced r k cfg t1 t2) as Hst.
    destruct (ensure_synced r k cfg t1 t2 Hs) as (Hc & _). destruct (ensure r k cfg t1 t2) as [r' e]; simpl in *.
    pose proof (Breaker_Allow_config (breaker e) t3).
    destruct (Breaker.Allow (breaker e) t3) as [b [[st ok] er]]; simpl in *. apply Hst; [done|congruence].
  - unfold Report. case_decide; [done|]. pose proof (store_synced r k cfg t1 t2) as Hst.
    destruct (ensure_synced r k cfg t1 t2 Hs) as (Hc & _). destruct (ensure r k cfg t1 t2) as [r' e]; simpl in *.
    pose proof (Breaker_Report_config (breaker e) s t3).
    destruct (Breaker.Report (breaker e) s t3) as [b [st er]]; simpl in *. apply Hst; [done|congruence].
  - unfold reapTick, reapOnce. case_match; [done|]. unfold synced in *. simpl.
    intros k e [He _]%map_lookup_filter_Some. by apply (Hs k).
  - done.
Qed.

Lemma history_synced evs r : synced r → synced (history r evs).1.
Proof.
  revert r. induction evs as [|ev evs IH]; intros r Hs; simpl; [done|].
  pose proof (event_step_synced r ev Hs) as Hs'. destruct (event_step r ev) as [r' a]; simpl in Hs'.
  specialize (IH r' Hs'). by destruct (history r' evs).
Qed.

(** Functional: after any history, a call for a non-empty key runs the
    breaker of that key under exactly the configuration it passes, starting
    a fresh closed breaker when there is none and keeping the counters of an
    existing one when only the configuration changed. *)
Theorem registry_runs_under_config interval timeToLive evs key cfg t1 t2 :
  key ≠ "" →
  let r := (history (NewRegistry interval timeToLive) evs).1 in
  let e := (ensure r key cfg t1 t2).2 in
  config (breaker e) = Some cfg ∧
  match breakers r !! key with
  | None => breaker e = New cfg t1
  | Some e0 => breaker e = UpdateConfig (breaker e0) cfg
  end.
Proof.
  intros _ r e. assert (synced r) as Hs by (apply history_synced, map_Forall_empty).
  destruct (ensure_synced r key cfg t1 t2 Hs) as (Hc & _ & _). split; [done|].
  subst e. unfold ensure. destruct (breakers r !! key) as [e0|] eqn:He; [|done].
  specialize (Hs _ _ He). simpl in *. destruct (sameConfig (entry_config e0) cfg) eqn:Hsc; [|done].
  apply sameConfig_spec in Hsc as <-. simpl. destruct e0 as [b0 c0 l0]; simpl in *.
  destruct b0; simpl in *. by subst.
Qed.

Lemma registry_runs_under_config_witness :
  breaker (ensure (NewRegistry 0 0) "r::p" example_config 3 4).2 = New example_config 3.
Proof.
  exact (proj2 (registry_runs_under_config 0 0 [] "r::p" example_config 3 4 ltac:(discriminate))).
Defined.
