(* ===== verification/Eject.v ===== *)
(** * Exponential ejection back-off

    The doubling loop that [EndpointState.eject] (internal/outlier/outlier.go)
    and [EndpointRuntime.eject] (internal/pool/pool.go) share word for word,
    on 64-bit durations. *)
From S2P Require Import Prelude.

(** [for i := 1; i < count; i++ { duration *= 2; if duration >= max { ... } }];
    [n] is the number of iterations left. *)
Fixpoint ejectLoop (n : nat) (duration max : Duration) : Duration :=
  match n with
  | O => duration
  | S n =>
      let duration := i64 (duration * 2) in
      if max <=? duration then max else ejectLoop n duration max
  end.

Definition ejectDuration (base max count : Z) : Duration :=
  let base := or_default base Second in
  let max := or_default max base in
  let duration := ejectLoop (Z.to_nat (count - 1)) base max in
  if max <? duration then max else duration.

Lemma ejectLoop_closed n d max :
  0 < d → d ≤ 2 ^ 62 - 1 → 0 < max ≤ 2 ^ 62 →
  Z.min max (ejectLoop n d max) = Z.min max (d * 2 ^ Z.of_nat n) ∧ 0 < ejectLoop n d max.
Proof.
  revert d. induction n as [|n IH]; intros d Hd Hd62 Hmax; simpl ejectLoop.
  { rewrite Z.mul_1_r. lia. }
  rewrite Nat2Z.inj_succ, Z.pow_succ_r by lia. simp_int.
  assert (0 < 2 ^ Z.of_nat n) by (apply Z.pow_pos_nonneg; lia).
  destruct (Z.leb_spec max (d * 2)) as [H2|H2].
  - split; [|lia]. rewrite !Z.min_l; [done| |lia]. nia.
  - destruct (IH (d * 2)) as [IH1 IH2]; [lia..|]. split; [|done]. rewrite IH1. f_equal. lia.
Qed.

(** The ejection lasts [min max (base * 2^(count-1))]. *)
Lemma ejectDuration_closed base max count :
  0 < base < 2 ^ 62 → base ≤ max → max ≤ 2 ^ 62 → 1 ≤ count →
  ejectDuration base max count = Z.min max (base * 2 ^ (count - 1)).
Proof.
  intros Hb Hbm Hmax Hc. unfold ejectDuration. rewrite !or_default_id by lia.
  destruct (ejectLoop_closed (Z.to_nat (count - 1)) base max) as [H1 H2]; [lia..|].
  rewrite Z2Nat.id in H1 by lia. rewrite <- H1. destruct (Z.ltb_spec max (ejectLoop (Z.to_nat (count - 1)) base max)); lia.
Qed.

Lemma ejectDuration_bounds base max count :
  base < 2 ^ 62 → max ≤ 2 ^ 62 →
  0 < ejectDuration base max count ≤ or_default max (or_default base Second).
Proof.
  intros Hb Hm. unfold ejectDuration.
  assert (0 < or_default base Second) as H0 by (apply or_default_pos; vm_compute; done).
  assert (or_default base Second ≤ 2 ^ 62 - 1) by (apply or_default_le; [lia|vm_compute; discriminate]).
  destruct (ejectLoop_closed (Z.to_nat (count - 1)) (or_default base Second) (or_default max (or_default base Second)))
    as [H1 H2]; [lia..| |].
  { split; [by apply or_default_pos|apply or_default_le; lia]. }
  destruct (Z.ltb_spec (or_default max (or_default base Second))
    (ejectLoop (Z.to_nat (count - 1)) (or_default base Second) (or_default max (or_default base Second)))); [|lia].
  split; [by apply or_default_pos|lia].
Qed.

#[export] Hint Resolve ejectDuration_bounds : proxy.
