(* ===== verification/Outlier.v ===== *)
(** * Outlier detection for one endpoint (internal/outlier/outlier.go, window.go)

    [EndpointState] is the record of the endpoint's atomics and its latency
    ring; [None] is the nil window.  The clock readings are arguments. *)
From S2P Require Import Prelude.
From S2P Require Import GoFloat.
From S2P Require Import Eject.

(** ** The latency ring *)

Record LatencyWindow := mkLatencyWindow { ring : list Z; idx : Z; count : Z }.
#[export] Instance LatencyWindow_eta : Eta LatencyWindow := fun w =>
  mkLatencyWindow (ring w) (idx w) (count w).

Definition NewLatencyWindow (size : Z) : LatencyWindow :=
  mkLatencyWindow (replicate (Z.to_nat (if size <=? 0 then 1 else size)) 0) 0 0.

(** [ring[idx]] is in range by [window_wf] below. *)
Definition Record_ (w : LatencyWindow) (latency : Duration) : LatencyWindow :=
  let w := w <| ring ::= <[Z.to_nat (idx w) := latency]> |> in
  let w := w <| idx := (idx w + 1) `rem` len (ring w) |> in
  if count w <? len (ring w) then w <| count ::= (λ n, n + 1) |> else w.

Definition Snapshot (w : LatencyWindow) : list Z := take (Z.to_nat (count w)) (ring w).

(** The rank chosen by [percentile], computed in float64. *)
Definition percentileIndex (n : Z) (pct : float64) : Z :=
  let pct := if f64_le pct f64_zero then f64_zero else pct in
  let pct := if f64_ge pct (f64_of_Z 1) then f64_of_Z 1 else pct in
  let idx := i64 (f64_ceil_to_int (f64_mul pct (f64_of_Z n)) - 1) in
  let idx := if idx <? 0 then 0 else idx in
  if n <=? idx then n - 1 else idx.

(** [sort.Slice] on integers: the sorted permutation is unique, so any
    sorting function gives it. *)
Definition percentile (values : list Z) (pct : float64) : Z :=
  match values with
  | [] => 0
  | _ =>
      let sorted := merge_sort Z.le values in
      nth (Z.to_nat (percentileIndex (len sorted) pct)) sorted 0
  end.

(** ** The endpoint state *)

Record Config := mkConfig {
  Enabled : bool;
  ConsecutiveFailures : Z;
  ErrorRateThresholdPercent : Z;
  ErrorRateWindow : Duration;
  MinRequests : Z;
  BaseEjectDuration : Duration;
  MaxEjectDuration : Duration;
  MaxEjectPercent : Z;
  LatencyEnabled : bool;
  LatencyWindowSize : Z;
  LatencyEvalInterval : Duration;
  LatencyMinSamples : Z;
  LatencyMultiplier : Z;
  LatencyConsecutiveIntervals : Z
}.

Record EndpointState := mkEndpointState {
  ejectUntil : Z;
  consecutiveFails : Z;
  ejectCount : Z;
  lastEjectAt : Z;
  windowReq : Z;
  windowFail : Z;
  windowStart : Z;
  latencyBadIntervals : Z;
  latencyWindow : option LatencyWindow
}.
#[export] Instance EndpointState_eta : Eta EndpointState := fun e =>
  mkEndpointState (ejectUntil e) (consecutiveFails e) (ejectCount e) (lastEjectAt e)
    (windowReq e) (windowFail e) (windowStart e) (latencyBadIntervals e) (latencyWindow e).

Definition UpdateConfig (e : EndpointState) (cfg : Config) : EndpointState :=
  if LatencyEnabled cfg then
    match latencyWindow e with
    | Some w =>
        if negb (len (ring w) =? LatencyWindowSize cfg)
        then e <| latencyWindow := Some (NewLatencyWindow (LatencyWindowSize cfg)) |> else e
    | None => e <| latencyWindow := Some (NewLatencyWindow (LatencyWindowSize cfg)) |>
    end
  else e <| latencyWindow := None |> <| latencyBadIntervals := 0 |>.

Definition NewEndpointState (cfg : Config) : EndpointState :=
  UpdateConfig (mkEndpointState 0 0 0 0 0 0 0 0 None) cfg.

Definition IsEjected (e : EndpointState) (now : Time) : bool :=
  (0 <? ejectUntil e) && (UnixNano now <? ejectUntil e).

Definition eject (e : EndpointState) (cfg : Config) (now : Time) : EndpointState * bool :=
  let e := if (0 <? lastEjectAt e) && (5 * Minute <? time_Sub now (lastEjectAt e))
           then e <| ejectCount := 0 |> else e in
  let e := e <| ejectCount ::= (λ n, i32 (n + 1)) |> in
  let duration := ejectDuration (BaseEjectDuration cfg) (MaxEjectDuration cfg) (ejectCount e) in
  (e <| lastEjectAt := UnixNano now |> <| ejectUntil := UnixNano (now + duration) |>, true).

(** The error-rate window is restarted when it never ran or is over. *)
Definition rotate (e : EndpointState) (cfg : Config) (now : Time) : EndpointState :=
  let window := or_default (ErrorRateWindow cfg) Second in
  let start := windowStart e in
  if (start =? 0) || (window <? time_Sub now start)
  then e <| windowStart := UnixNano now |> <| windowReq := 0 |> <| windowFail := 0 |>
  else e.

(** The second half of [RecordResult]: the error rate of the window. *)
Definition checkRate (e : EndpointState) (cfg : Config) (now : Time) : EndpointState * (bool * string) :=
  let minReq := or_default (MinRequests cfg) 1 in
  if windowReq e <? minReq then (e, (false, ""))
  else
    let threshold := ErrorRateThresholdPercent cfg in
    if threshold <=? 0 then (e, (false, ""))
    else
      let failRate := i64 (windowFail e * 100) `quot` windowReq e in
      if threshold <=? failRate then
        let e := e <| windowReq := 0 |> <| windowFail := 0 |> in
        let '(e, ejected) := eject e cfg now in
        if ejected then (e, (true, "error_rate")) else (e, (false, ""))
      else (e, (false, "")).

Definition RecordResult (e : EndpointState) (cfg : Config) (success : bool) (now : Time)
    : EndpointState * (bool * string) :=
  if negb (Enabled cfg) then (e, (false, ""))
  else
    let e := rotate e cfg now in
    let e := e <| windowReq ::= (λ n, i32 (n + 1)) |> in
    if negb success then
      let e := e <| windowFail ::= (λ n, i32 (n + 1)) |> <| consecutiveFails ::= (λ n, i32 (n + 1)) |> in
      if (0 <? ConsecutiveFailures cfg) && (ConsecutiveFailures cfg <=? consecutiveFails e) then
        let e := e <| consecutiveFails := 0 |> in
        let '(e, ejected) := eject e cfg now in
        if ejected then (e, (true, "consecutive_fail")) else checkRate e cfg now
      else checkRate e cfg now
    else checkRate (e <| consecutiveFails := 0 |>) cfg now.

Definition RecordLatency (e : EndpointState) (latency : Duration) : EndpointState :=
  match latencyWindow e with
  | None => e
  | Some w => e <| latencyWindow := Some (Record_ w latency) |>
  end.

Definition LatencySnapshot (e : EndpointState) : list Z :=
  match latencyWindow e with None => [] | Some w => Snapshot w end.

Definition ObserveLatency (e : EndpointState) (cfg : Config) (bad : bool) (now : Time)
    : EndpointState * (bool * string) :=
  if negb (Enabled cfg) || negb (LatencyEnabled cfg) then (e, (false, ""))
  else if bad then
    let e := e <| latencyBadIntervals ::= (λ n, i32 (n + 1)) |> in
    if (0 <? LatencyConsecutiveIntervals cfg) && (LatencyConsecutiveIntervals cfg <=? latencyBadIntervals e) then
      let e := e <| latencyBadIntervals := 0 |> in
      let '(e, ejected) := eject e cfg now in
      if ejected then (e, (true, "latency")) else (e, (false, ""))
    else (e, (false, ""))
  else (e <| latencyBadIntervals := 0 |>, (false, "")).

(** ** The ring holds the most recent samples *)

Definition lastn {A} (n : nat) (l : list A) : list A := drop (List.length l - n) l.

Definition window_wf (w : LatencyWindow) : Prop :=
  0 ≤ idx w < len (ring w) ∧ 0 ≤ count w ≤ len (ring w).

(** [xs] are all the samples recorded so far, oldest first. *)
Definition window_holds (w : LatencyWindow) (xs : list Z) : Prop :=
  window_wf w ∧
  ((count w < len (ring w) ∧ idx w = count w ∧ take (Z.to_nat (count w)) (ring w) = xs) ∨
   (count w = len (ring w) ∧
    drop (Z.to_nat (idx w)) (ring w) ++ take (Z.to_nat (idx w)) (ring w) = lastn (Z.to_nat (count w)) xs)).

Lemma lastn_all {A} n (l : list A) : (List.length l ≤ n)%nat → lastn n l = l.
Proof. intros. unfold lastn. replace (List.length l - n)%nat with 0%nat by lia. done. Qed.

Lemma lastn_snoc {A} n (l : list A) x : (0 < n)%nat → lastn n (l ++ [x]) = lastn (n - 1) l ++ [x].
Proof.
  intros Hn. unfold lastn. rewrite length_app. simpl.
  rewrite drop_app_le by lia. f_equal. f_equal. lia.
Qed.

Lemma tail_drop1 {A} (l : list A) : drop 1 l = tail l.
Proof. by destruct l. Qed.

Lemma lastn_tail {A} n (l : list A) : (0 < n)%nat → (n ≤ List.length l)%nat → lastn (n - 1) l = tail (lastn n l).
Proof. intros. unfold lastn. rewrite <- tail_drop1, drop_drop. f_equal. lia. Qed.

Lemma length_lastn {A} n (l : list A) : List.length (lastn n l) = (List.length l `min` n)%nat.
Proof. unfold lastn. rewrite length_drop. lia. Qed.

Lemma window_new size : window_holds (NewLatencyWindow size) [].
Proof.
  unfold window_holds, window_wf, NewLatencyWindow, len. simpl. rewrite length_replicate.
  destruct (Z.leb_spec size 0); simpl; [split; [|left]; repeat split; lia|].
  split; [|left]; repeat split; lia.
Qed.

(** Writing at [i] and moving on rotates the ring by one. *)
Lemma rotate_insert {A} (l : list A) i x :
  (i < List.length l)%nat →
  tail (drop i l ++ take i l) ++ [x] =
  drop (S i) (<[i:=x]> l) ++ take (S i) (<[i:=x]> l).
Proof.
  intros Hi. destruct (lookup_lt_is_Some_2 l i Hi) as [y Hy].
  rewrite (drop_S l y i Hy), drop_insert_lt by lia. simpl. rewrite <- app_assoc. f_equal.
  rewrite (take_S_r _ i x) by (apply list_lookup_insert_eq; lia). by rewrite take_insert_ge by lia.
Qed.

Lemma rotate_insert_wrap {A} (l : list A) i x :
  (S i = List.length l)%nat → drop (S i) (<[i:=x]> l) ++ take (S i) (<[i:=x]> l) = <[i:=x]> l.
Proof. intros Hi. rewrite drop_ge, take_ge; [done|rewrite length_insert; lia..]. Qed.

Lemma window_record w xs v : window_holds w xs → window_holds (Record_ w v) (xs ++ [v]).
Proof.
  destruct w as [r i c]. unfold window_holds, window_wf, Record_, len. simpl.
  rewrite length_insert. intros [[[Hi1 Hi2] [Hc1 Hc2]] H].
  rewrite Z.rem_mod_nonneg by lia.
  destruct (Z.ltb_spec c (Z.of_nat (List.length r))) as [Hlt|Hge]; simpl; rewrite ?length_insert.
  - destruct H as [(_ & -> & Ht)|[He _]]; [|lia].
    assert (take (Z.to_nat (c + 1)) (<[Z.to_nat c:=v]> r) = xs ++ [v]) as Hs.
    { replace (Z.to_nat (c + 1)) with (S (Z.to_nat c)) by lia.
      rewrite (take_S_r _ _ v) by (apply list_lookup_insert_eq; lia). rewrite take_insert_ge by lia. by rewrite Ht. }
    destruct (decide (c + 1 = Z.of_nat (List.length r))) as [E|E].
    + rewrite E, Z.mod_same by lia. split; [lia|]. right. split; [done|]. simpl.
      rewrite drop_0, app_nil_r. rewrite <- Hs, E, Nat2Z.id, take_ge by (rewrite length_insert; lia).
      rewrite lastn_all by (rewrite length_insert; lia). done.
    + rewrite Z.mod_small by lia. split; [lia|]. left. split; [lia|]. done.
  - destruct H as [(? & ? & ?)|[-> Hr]]; [lia|].
    assert (List.length r ≤ List.length xs)%nat as Hxs.
    { apply (f_equal List.length) in Hr. rewrite length_app, length_drop, length_take, length_lastn in Hr. lia. }
    split; [split; [|lia]|right; split; [done|]].
    { apply Z.mod_pos_bound. lia. }
    rewrite lastn_snoc, lastn_tail, <- Hr, (rotate_insert _ _ v) by lia.
    destruct (decide (i + 1 = Z.of_nat (List.length r))) as [E|E].
    + rewrite E, Z.mod_same by lia. simpl. rewrite drop_0, app_nil_r.
      rewrite rotate_insert_wrap by lia. done.
    + rewrite Z.mod_small by lia. by replace (Z.to_nat (i + 1)) with (S (Z.to_nat i)) by lia.
Qed.

Definition recordAll (w : LatencyWindow) (xs : list Z) : LatencyWindow := foldl Record_ w xs.

Lemma window_holds_recordAll w ys xs : window_holds w ys → window_holds (recordAll w xs) (ys ++ xs).
Proof.
  revert w ys. induction xs as [|x xs IH]; intros w ys H; simpl; [by rewrite app_nil_r|].
  rewrite cons_middle, app_assoc. apply IH. by apply window_record.
Qed.

Lemma length_Record w v : len (ring (Record_ w v)) = len (ring w).
Proof. unfold Record_, len. destruct w; simpl. case_match; simpl; by rewrite length_insert. Qed.
Lemma length_recordAll w xs : len (ring (recordAll w xs)) = len (ring w).
Proof. revert w. induction xs as [|x xs IH]; intros w; simpl; [done|]. by rewrite IH, length_Record. Qed.

Lemma window_snapshot w xs : window_holds w xs → Snapshot w ≡ₚ lastn (Z.to_nat (len (ring w))) xs.
Proof.
  unfold Snapshot. intros [[_ Hc] [(Hlt & _ & Ht)|(E & Hr)]].
  - rewrite lastn_all; [by rewrite Ht|]. rewrite <- Ht, length_take. lia.
  - rewrite <- E, <- Hr, E. unfold len. rewrite Nat2Z.id, take_ge by lia.
    rewrite <- (take_drop (Z.to_nat (idx w)) (ring w)) at 1. apply Permutation_app_comm.
Qed.

(** Refinement: a latency window is a bounded queue.  After any sequence
    of recorded latencies its snapshot holds exactly the most recent [size]
    of them (one when [size] is not positive), in some order. *)
Theorem latency_window_recent size xs :
  Snapshot (recordAll (NewLatencyWindow size) xs) ≡ₚ lastn (Z.to_nat (Z.max 1 size)) xs.
Proof.
  pose proof (window_holds_recordAll _ [] xs (window_new size)) as H.
  apply window_snapshot in H. rewrite H, length_recordAll. unfold NewLatencyWindow, len. simpl.
  rewrite length_replicate. by replace (Z.to_nat _) with (Z.to_nat (Z.max 1 size)) by (destruct (Z.leb_spec size 0); lia).
Qed.

(** ** Percentiles *)

Definition atMost (v : Z) (l : list Z) : Z := len (filter (λ x, x ≤ v) l).
Definition below (v : Z) (l : list Z) : Z := len (filter (λ x, x < v) l).

#[export] Instance atMost_perm v : Proper ((≡ₚ) ==> (=)) (atMost v).
Proof. intros l k Hlk. unfold atMost, len. by rewrite Hlk. Qed.
#[export] Instance below_perm v : Proper ((≡ₚ) ==> (=)) (below v).
Proof. intros l k Hlk. unfold below, len. by rewrite Hlk. Qed.

#[export] Instance merge_sort_perm_eq : Proper ((≡ₚ) ==> (=)) (merge_sort Z.le).
Proof.
  intros l k Hlk. apply (Sorted_unique Z.le).
  1-2: apply Sorted_merge_sort; tc_solve.
  by rewrite !merge_sort_Permutation.
Qed.

(** Any order of the samples gives the same percentile. *)
#[export] Instance percentile_perm : Proper ((≡ₚ) ==> (=) ==> (=)) percentile.
Proof.
  intros l k Hlk p ? <-. unfold percentile. destruct l, k; try done.
  - by apply Permutation_nil_cons in Hlk.
  - by apply Permutation_sym, Permutation_nil_cons in Hlk.
  - by rewrite Hlk.
Qed.

Lemma filter_all {A} (P : A → Prop) `{∀ x, Decision (P x)} l : Forall P l → filter P l = l.
Proof. induction 1; [done|]. rewrite filter_cons_True by done. by f_equal. Qed.
Lemma filter_none {A} (P : A → Prop) `{∀ x, Decision (P x)} l : Forall (λ x, ¬ P x) l → filter P l = [].
Proof. induction 1; [done|]. by rewrite filter_cons_False. Qed.

Lemma sorted_rank l i v :
  StronglySorted Z.le l → l !! i = Some v → below v l ≤ Z.of_nat i < atMost v l.
Proof.
  intros Hs Hi. pose proof (lookup_lt_Some _ _ _ Hi) as Hlen.
  rewrite <- (take_drop_middle l i v Hi) in Hs |- *.
  unfold below, atMost. rewrite !filter_app, !len_app.
  rewrite (filter_cons_True (λ x, x ≤ v)), (filter_cons_False (λ x, x < v)) by lia.
  assert (List.length (take i l) = i) as Hti by (rewrite length_take; lia).
  assert (Forall (λ x, x ≤ v) (take i l)) as Hlo.
  { apply Forall_forall. intros x Hx.
    apply (StronglySorted_app_1_elem_of _ _ _ _ _ Hs Hx). left. }
  assert (Forall (λ x, v ≤ x) (drop (S i) l)) as Hhi.
  { apply StronglySorted_app_1_r in Hs. by apply StronglySorted_cons in Hs as [Hs _]. }
  rewrite (filter_all (λ x, x ≤ v) (take i l)) by done.
  rewrite (filter_none (λ x, x < v) (drop (S i) l)) by (eapply Forall_impl; [exact Hhi|]; simpl; lia).
  pose proof (length_filter (λ x, x < v) (take i l)). rewrite len_cons. unfold len at 1 2 3 4.
  pose proof (len_nonneg (filter (λ x, x ≤ v) (drop (S i) l))). simpl. lia.
Qed.

(** The float computation of the rank is exact for the two percentiles the
    registry uses, on up to 1024 samples (a pool of 8 endpoints with the
    default ring of 128): checked by evaluation. *)
Definition rank_ok (pct n : Z) : bool :=
  percentileIndex n (f64_lit pct 100) =? - (- (pct * n) / 100) - 1.

Fixpoint upTo (n : nat) (test : Z → bool) : bool :=
  match n with O => true | S n' => test (Z.of_nat n) && upTo n' test end.

Lemma upTo_spec n test : upTo n test = true → ∀ z, 1 ≤ z ≤ Z.of_nat n → test z = true.
Proof.
  induction n as [|n IH]; simpl upTo; intros H z Hz; [lia|].
  apply andb_true_iff in H as [H1 H2]. destruct (decide (z = Z.of_nat (S n))) as [->|]; [done|].
  apply IH; [done|lia].
Qed.

Lemma rank_exact : upTo (Z.to_nat 1024) (λ n, rank_ok 50 n && rank_ok 95 n) = true.
Proof. vm_compute. reflexivity. Qed.

Lemma percentileIndex_exact pct n :
  pct = 50 ∨ pct = 95 → 1 ≤ n ≤ 1024 → percentileIndex n (f64_lit pct 100) = - (- (pct * n) / 100) - 1.
Proof.
  intros Hp Hn. pose proof (upTo_spec _ _ rank_exact n) as H. rewrite Z2Nat.id in H by lia.
  specialize (H Hn). apply andb_true_iff in H as [H1%Z.eqb_eq H2%Z.eqb_eq].
  by destruct Hp as [->| ->].
Qed.

(** Functional: the percentiles used by the latency evaluation (median
    for the baseline, 95th for an endpoint) are exact nearest-rank
    percentiles despite the float64 rank: at least [pct]% of the samples are
    at most the result and fewer than [pct]% are below it, and the result is
    one of the samples. *)
Theorem percentile_nearest_rank pct values :
  pct = 50 ∨ pct = 95 → 1 ≤ len values ≤ 1024 →
  let v := percentile values (f64_lit pct 100) in
  v ∈ values ∧ pct * len values ≤ 100 * atMost v values ∧ 100 * below v values < pct * len values.
Proof.
  intros Hp Hn. destruct values as [|x values']; [unfold len in Hn; cbn [List.length Z.of_nat] in Hn; lia|]. set (values := x :: values') in *.
  assert (merge_sort Z.le values ≡ₚ values) as Hperm by apply merge_sort_Permutation.
  assert (len (merge_sort Z.le values) = len values) as Hlen by (unfold len; by rewrite Hperm).
  cbn zeta. change (percentile values (f64_lit pct 100)) with
    (nth (Z.to_nat (percentileIndex (len (merge_sort Z.le values)) (f64_lit pct 100))) (merge_sort Z.le values) 0).
  rewrite Hlen, percentileIndex_exact by done.
  set (i := Z.to_nat (- (- (pct * len values) / 100) - 1)).
  assert (0 ≤ - (- (pct * len values) / 100) - 1 < len values ∧
          pct * len values ≤ 100 * - (- (pct * len values) / 100) < pct * len values + 100) as Hi.
  { pose proof (Z.div_mod (- (pct * len values)) 100 ltac:(lia)).
    pose proof (Z.mod_pos_bound (- (pct * len values)) 100 ltac:(lia)). destruct Hp as [->| ->]; lia. }
  assert (merge_sort Z.le values !! i = Some (nth i (merge_sort Z.le values) 0)) as Hv.
  { destruct (lookup_lt_is_Some_2 (merge_sort Z.le values) i) as [y Hy].
    - unfold i, len in *. lia.
    - rewrite Hy. by erewrite nth_lookup_Some. }
  pose proof (sorted_rank _ _ _ (StronglySorted_merge_sort Z.le values) Hv) as [Hb Ha].
  revert Ha Hb Hv. generalize (nth i (merge_sort Z.le values) 0). intros v Ha Hb Hv.
  split; [apply (elem_of_Permutation_proper _ _ _ Hperm); by eapply list_elem_of_lookup_2|].
  rewrite Hperm in Ha, Hb. subst i. lia.
Qed.

Lemma percentile_nearest_rank_witness : percentile [30; 10; 20; 40] (f64_lit 50 100) ∈ [30; 10; 20; 40].
Proof. exact (proj1 (percentile_nearest_rank 50 [30; 10; 20; 40] (or_introl eq_refl) ltac:(cbv; split; discriminate))). Defined.

(** ** Ejection *)

(** Histories of one endpoint: results and latency evaluations. *)
Inductive event :=
| EResult (success : bool) (now : Time)
| ELatency (latency : Duration)
| EObserve (bad : bool) (now : Time)
| EConfig (cfg : Config).

Definition step (cfg : Config) (e : EndpointState) (ev : event) : EndpointState * (bool * string) :=
  match ev with
  | EResult s now => RecordResult e cfg s now
  | ELatency l => (RecordLatency e l, (false, ""))
  | EObserve bad now => ObserveLatency e cfg bad now
  | EConfig c => (UpdateConfig e c, (false, ""))
  end.
Definition steps (cfg : Config) (e : EndpointState) (evs : list event) : EndpointState :=
  foldl (λ e ev, (step cfg e ev).1) e evs.

(** What the failure counter counts: failures since the last success or
    consecutive-failure ejection. *)
Definition fails_bounded (cfg : Config) (e : EndpointState) : Prop :=
  0 ≤ consecutiveFails e < Z.max 1 (ConsecutiveFailures cfg).

Lemma eject_result e cfg now : (eject e cfg now).2 = true.
Proof. done. Qed.
Lemma eject_fails e cfg now : consecutiveFails (eject e cfg now).1 = consecutiveFails e.
Proof. unfold eject. simpl. by case_match. Qed.

Lemma checkRate_fails e cfg now : consecutiveFails (checkRate e cfg now).1 = consecutiveFails e.
Proof.
  unfold checkRate. repeat case_match; simplify_eq/=; try done.
  all: match goal with H : eject ?x _ _ = _ |- _ => pose proof (eject_fails x cfg now) as Hf; rewrite H in Hf end; done.
Qed.

Lemma rotate_fails e cfg now : consecutiveFails (rotate e cfg now) = consecutiveFails e.
Proof. unfold rotate. by case_match. Qed.

(** The failure counter after a result. *)
Lemma RecordResult_fails e cfg s now :
  Enabled cfg = true →
  let n := i32 (consecutiveFails e + 1) in
  consecutiveFails (RecordResult e cfg s now).1 =
    if s then 0 else if (0 <? ConsecutiveFailures cfg) && (ConsecutiveFailures cfg <=? n) then 0 else n.
Proof.
  intros Hen n. unfold RecordResult. rewrite Hen. simpl. destruct s; simpl.
  - by rewrite checkRate_fails.
  - rewrite rotate_fails. fold n. destruct (_ && _); simpl; [by case_match|].
    by rewrite checkRate_fails.
Qed.

Lemma step_fails_bounded cfg e ev :
  Enabled cfg = true → 0 < ConsecutiveFailures cfg ≤ max_i32 →
  fails_bounded cfg e → fails_bounded cfg (step cfg e ev).1.
Proof.
  unfold fails_bounded. intros Hen Hk He. destruct ev as [s now|l|bad now|c]; simpl.
  - rewrite RecordResult_fails by done. simp_int. destruct s; [lia|].
    destruct (Z.ltb_spec 0 (ConsecutiveFailures cfg)), (Z.leb_spec (ConsecutiveFailures cfg) (consecutiveFails e + 1)); simpl; lia.
  - unfold RecordLatency. case_match; simpl; lia.
  - unfold ObserveLatency. repeat case_match; simplify_eq/=; try lia.
    all: match goal with H : eject ?x _ _ = _ |- _ => pose proof (eject_fails x cfg now) as Hf; rewrite H in Hf end;
      simpl in *; lia.
  - unfold UpdateConfig. repeat case_match; simpl; lia.
Qed.

Lemma steps_fails_bounded cfg e evs :
  Enabled cfg = true → 0 < ConsecutiveFailures cfg ≤ max_i32 →
  fails_bounded cfg e → fails_bounded cfg (steps cfg e evs).
Proof. intros Hen Hk. revert e. induction evs; simpl; auto using step_fails_bounded. Qed.

Lemma NewEndpointState_fields cfg0 :
  ejectCount (NewEndpointState cfg0) = 0 ∧ consecutiveFails (NewEndpointState cfg0) = 0 ∧
  ejectUntil (NewEndpointState cfg0) = 0 ∧ lastEjectAt (NewEndpointState cfg0) = 0.
Proof. unfold NewEndpointState, UpdateConfig. simpl. by case_match. Qed.

(** Failures in a row, at the given times: is some call an ejection? *)
Fixpoint failing (cfg : Config) (e : EndpointState) (times : list Time) : EndpointState * bool :=
  match times with
  | [] => (e, false)
  | now :: times =>
      let '(e, (ejected, _)) := RecordResult e cfg false now in
      let '(e, rest) := failing cfg e times in (e, ejected || rest)
  end.

(** A failure that does not eject has not reached the threshold. *)
Lemma RecordResult_no_eject e cfg now :
  Enabled cfg = true → 0 < ConsecutiveFailures cfg → (RecordResult e cfg false now).2.1 = false →
  i32 (consecutiveFails e + 1) < ConsecutiveFailures cfg.
Proof.
  intros Hen Hk. unfold RecordResult. rewrite Hen. simpl. rewrite rotate_fails.
  destruct (Z.ltb_spec 0 (ConsecutiveFailures cfg)); [|lia].
  destruct (Z.leb_spec (ConsecutiveFailures cfg) (i32 (consecutiveFails e + 1))); simpl; [done|lia].
Qed.

Lemma failing_counts cfg e times :
  Enabled cfg = true → 0 < ConsecutiveFailures cfg ≤ max_i32 → fails_bounded cfg e →
  (failing cfg e times).2 = false → consecutiveFails e + len times < ConsecutiveFailures cfg.
Proof.
  intros Hen Hk. revert e. induction times as [|now times IH]; intros e He Hf.
  { unfold fails_bounded, len in *. simpl. lia. }
  cbn [failing] in Hf. pose proof (step_fails_bounded cfg e (EResult false now) Hen Hk He) as He'.
  pose proof (RecordResult_no_eject e cfg now Hen ltac:(lia)) as Hno.
  pose proof (RecordResult_fails e cfg false now Hen) as Hc. cbn [step] in He'.
  destruct (RecordResult e cfg false now) as [e' [ej r]]. cbn [fst snd] in *.
  specialize (IH e' He'). destruct (failing cfg e' times) as [e'' rest]. cbn [fst snd] in *.
  apply orb_false_iff in Hf as [-> ->]. specialize (Hno eq_refl). specialize (IH eq_refl).
  unfold fails_bounded in He. simp_int. rewrite len_cons.
  destruct (Z.leb_spec (ConsecutiveFailures cfg) (consecutiveFails e + 1)); [lia|].
  rewrite andb_false_r in Hc. lia.
Qed.

(** Liveness: whatever happened to an endpoint before, as many failed
    results in a row as the consecutive-failure threshold eject it, at
    whatever times they arrive. *)
Theorem outlier_streak_ejects cfg cfg0 evs times :
  Enabled cfg = true → 0 < ConsecutiveFailures cfg ≤ max_i32 → ConsecutiveFailures cfg ≤ len times →
  (failing cfg (steps cfg (NewEndpointState cfg0) evs) times).2 = true.
Proof.
  intros Hen Hk Hlen. destruct (failing _ _ _).2 eqn:Hf; [done|].
  assert (fails_bounded cfg (steps cfg (NewEndpointState cfg0) evs)) as Hb.
  { apply steps_fails_bounded; [done..|]. unfold fails_bounded.
    destruct (NewEndpointState_fields cfg0) as (_ & -> & _). lia. }
  pose proof (failing_counts _ _ _ Hen Hk Hb Hf). unfold fails_bounded in Hb. lia.
Qed.

Definition example_config : Config :=
  mkConfig true 5 50 (10 * Second) 20 (30 * Second) (5 * Minute) 50 true 128 Second 20 3 3.

Lemma outlier_streak_ejects_witness :
  (failing example_config (steps example_config (NewEndpointState example_config)
    [EResult true 1; EResult false 2]) [10; 20; 30; 40; 50]).2 = true.
Proof.
  apply outlier_streak_ejects; [reflexivity| |]; vm_compute; [split|]; congruence.
Defined.

Definition event_time (ev : event) : Time :=
  match ev with EResult _ now | EObserve _ now => now | _ => 0 end.

(** The ejection series an ejection at [now] continues. *)
Definition series (e : EndpointState) (now : Time) : Z :=
  if (0 <? lastEjectAt e) && (5 * Minute <? time_Sub now (lastEjectAt e)) then 0 else ejectCount e.

(** Two states that differ only in counters [eject] does not read. *)
Definition same_ejections (e e' : EndpointState) : Prop :=
  ejectUntil e' = ejectUntil e ∧ ejectCount e' = ejectCount e ∧ lastEjectAt e' = lastEjectAt e.
#[export] Instance same_ejections_equiv : Equivalence same_ejections.
Proof. unfold same_ejections. split; repeat intro; intuition congruence. Qed.

(** The state after [eject], up to the counters it leaves alone. *)
Definition ejected_from (cfg : Config) (now : Time) (e e' : EndpointState) : Prop :=
  ejectCount e' = i32 (series e now + 1) ∧ lastEjectAt e' = UnixNano now ∧
  ejectUntil e' = UnixNano (now + ejectDuration (BaseEjectDuration cfg) (MaxEjectDuration cfg) (ejectCount e')).

Lemma eject_from e0 e cfg now : same_ejections e0 e → ejected_from cfg now e0 (eject e cfg now).1.
Proof.
  intros (H1 & H2 & H3). unfold ejected_from, eject, series. simpl. rewrite H3.
  destruct (_ && _); simpl; by rewrite ?H2.
Qed.

Ltac use_eject_from e0 :=
  lazymatch goal with
  | |- context [eject ?x ?cfg ?now] =>
      let H := fresh in let Hr := fresh in
      pose proof (eject_from e0 x cfg now) as H; pose proof (eject_result x cfg now) as Hr;
      destruct (eject x cfg now) as [? ?]; cbn [fst snd] in *; subst; cbn [fst snd]; apply H
  end.

Lemma rotate_same e cfg now : same_ejections e (rotate e cfg now).
Proof. unfold rotate. by case_match. Qed.

Lemma checkRate_cases e0 e cfg now :
  same_ejections e0 e →
  if (checkRate e cfg now).2.1 then ejected_from cfg now e0 (checkRate e cfg now).1
  else same_ejections e0 (checkRate e cfg now).1.
Proof.
  intros Hs. unfold checkRate. destruct (windowReq e <? _); [done|].
  destruct (_ <=? 0); [done|]. destruct (_ <=? _); [|done].
  by use_eject_from e0.
Qed.

(** Every event either ejects, extending the series, or leaves the
    ejection fields alone. *)
Lemma step_cases cfg e ev :
  if (step cfg e ev).2.1 then ejected_from cfg (event_time ev) e (step cfg e ev).1
  else same_ejections e (step cfg e ev).1.
Proof.
  destruct ev as [s now|l|bad now|c]; cbn [step event_time].
  - unfold RecordResult. destruct (Enabled cfg); cbn [negb]; [|done]. destruct s; cbn [negb].
    + apply checkRate_cases. apply rotate_same.
    + destruct (_ && _).
      * use_eject_from e. apply rotate_same.
      * apply checkRate_cases. apply rotate_same.
  - unfold RecordLatency. by destruct (latencyWindow e); simpl.
  - unfold ObserveLatency. destruct (_ || _); [done|]. destruct bad; [|done].
    destruct (_ && _); [|done]. by use_eject_from e.
  - unfold UpdateConfig. destruct (LatencyEnabled c), (latencyWindow e); simpl; try case_match; done.
Qed.

Lemma series_bounds e now : 0 ≤ ejectCount e → 0 ≤ series e now ≤ ejectCount e.
Proof. unfold series. case_match; lia. Qed.

Lemma steps_ejectCount cfg e evs :
  0 ≤ ejectCount e → ejectCount e + len evs ≤ max_i32 →
  0 ≤ ejectCount (steps cfg e evs) ≤ ejectCount e + len evs.
Proof.
  revert e. induction evs as [|ev evs IH]; intros e H0 Hb; [unfold len; simpl; lia|].
  cbn [steps foldl]. rewrite len_cons in *.
  assert (0 ≤ ejectCount (step cfg e ev).1 ≤ ejectCount e + 1).
  { pose proof (step_cases cfg e ev) as Hc. destruct (step cfg e ev).2.1.
    - destruct Hc as (-> & _). pose proof (series_bounds e (event_time ev) H0). pose proof (len_nonneg evs). simp_int. lia.
    - destruct Hc as (_ & -> & _). lia. }
  unfold steps in IH. specialize (IH (step cfg e ev).1). lia.
Qed.

(** Functional: an event that ejects the endpoint makes it ejected from
    that moment for exactly [min Max (Base * 2^(n-1))], where [n] counts the
    ejections of the current series (one that starts afresh after five quiet
    minutes), and an event that does not eject leaves the endpoint's
    ejection as it was. *)
Theorem outlier_ejection_window cfg cfg0 evs ev t :
  let e := steps cfg (NewEndpointState cfg0) evs in
  let now := event_time ev in
  let n := series e now + 1 in
  0 < BaseEjectDuration cfg ≤ MaxEjectDuration cfg → MaxEjectDuration cfg < 2 ^ 61 →
  0 < now < 2 ^ 62 → min_i64 ≤ t ≤ max_i64 → len evs < max_i32 →
  IsEjected (step cfg e ev).1 t =
    if (step cfg e ev).2.1
    then t <? now + Z.min (MaxEjectDuration cfg) (BaseEjectDuration cfg * 2 ^ (n - 1))
    else IsEjected e t.
Proof.
  intros e now n Hb Hm Hnow Ht Hlen. pose proof (step_cases cfg e ev) as Hc. fold now in Hc.
  destruct (step cfg e ev).2.1.
  2: { unfold IsEjected. destruct Hc as (-> & _). done. }
  destruct Hc as (Hn & _ & Hu). destruct (NewEndpointState_fields cfg0) as (Hz & _).
  pose proof (steps_ejectCount cfg (NewEndpointState cfg0) evs) as Hcnt. rewrite Hz in Hcnt. fold e in Hcnt.
  specialize (Hcnt ltac:(lia) ltac:(lia)). pose proof (series_bounds e now ltac:(lia)) as Hs.
  rewrite i32_small in Hn by lia. fold n in Hn. rewrite Hn, ejectDuration_closed in Hu by lia.
  assert (0 < 2 ^ (n - 1)) by (apply Z.pow_pos_nonneg; lia).
  unfold IsEjected. rewrite Hu. unfold UnixNano. rewrite !i64_small by nia.
  destruct (Z.ltb_spec 0 (now + Z.min (MaxEjectDuration cfg) (BaseEjectDuration cfg * 2 ^ (n - 1)))); [done|nia].
Qed.

Lemma outlier_ejection_window_witness :
  let e := steps example_config (NewEndpointState example_config) (replicate 4 (EResult false 7)) in
  IsEjected (step example_config e (EResult false 9)).1 (9 + 30 * Second) = false.
Proof.
  intros e. unfold e.
  rewrite (outlier_ejection_window example_config example_config (replicate 4 (EResult false 7)) (EResult false 9));
    [reflexivity|vm_compute; split; congruence..].
Defined.
