(* ===== verification/OutlierRegistry.v ===== *)
(** * The outlier registry (internal/outlier/registry.go)

    Pools of endpoint states behind one mutex.  A goroutine that evaluates
    latencies is identified by its stop channel; [running] maps the open
    channels to the pool the goroutine was started for, so that leaked or
    doubly closed goroutines would show up in the state.  Calls to the
    observer are collected in a list of (pool key, reason). *)
From S2P Require Import Prelude.
From S2P Require Import GoFloat.
From S2P Require Import Eject.
From S2P Require Import Outlier.

Definition defaultReapInterval : Duration := 30 * Second.
Definition defaultTTL : Duration := 30 * Minute.

Record poolEntry := mkPoolEntry {
  entry_config : Config;
  endpoints : gmap string EndpointState;
  lastSeen : Time;
  latencyStopCh : option nat;
  latencyInterval : Duration
}.
#[export] Instance poolEntry_eta : Eta poolEntry := fun e =>
  mkPoolEntry (entry_config e) (endpoints e) (lastSeen e) (latencyStopCh e) (latencyInterval e).

Record Registry := mkRegistry {
  pools : gmap string poolEntry;
  reapInterval : Duration;
  ttl : Duration;
  stopped : bool;
  observer : bool;
  nextCh : nat;
  running : gmap nat string
}.
#[export] Instance Registry_eta : Eta Registry := fun r =>
  mkRegistry (pools r) (reapInterval r) (ttl r) (stopped r) (observer r) (nextCh r) (running r).

Definition emptyConfig : Config := mkConfig false 0 0 0 0 0 0 0 false 0 0 0 0 0.

Definition NewRegistry (interval timeToLive : Duration) (obs : bool) : Registry :=
  mkRegistry ∅ (or_default interval defaultReapInterval) (or_default timeToLive defaultTTL) false obs 0 ∅.

Definition startLatencyLoopLocked (r : Registry) (poolKey : string) (e : poolEntry) (interval : Duration)
    : Registry * poolEntry :=
  (r <| running ::= <[nextCh r := poolKey]> |> <| nextCh ::= S |>,
   e <| latencyStopCh := Some (nextCh r) |> <| latencyInterval := interval |>).

Definition stopLatencyLoopLocked (r : Registry) (e : poolEntry) : Registry * poolEntry :=
  match latencyStopCh e with
  | None => (r, e)
  | Some ch => (r <| running ::= delete ch |>, e <| latencyStopCh := None |> <| latencyInterval := 0 |>)
  end.

(** The loop over the desired addresses. *)
Definition reconcileEndpoint (cfg : Config) (m : gmap string EndpointState) (addr : string)
    : gmap string EndpointState :=
  match m !! addr with
  | None => <[addr := NewEndpointState cfg]> m
  | Some state => <[addr := UpdateConfig state cfg]> m
  end.

(** The entry [Reconcile] stores: created when missing, stamped, its
    endpoints brought in line with [addrs]. *)
Definition reconcileEntry (r : Registry) (poolKey : string) (addrs : list string) (cfg : Config) (now : Time) : poolEntry :=
  let entry := default (mkPoolEntry emptyConfig ∅ zeroTime None 0) (pools r !! poolKey) in
  let entry := entry <| lastSeen := now |> <| entry_config := cfg |> in
  let entry := entry <| endpoints ::= (λ m, foldl (reconcileEndpoint cfg) m addrs) |> in
  entry <| endpoints ::= filter (λ kv, kv.1 ∈ addrs) |>.

(** The evaluation goroutine is started, restarted or stopped. *)
Definition reconcileLoop (r : Registry) (poolKey : string) (entry : poolEntry) (cfg : Config) : Registry * poolEntry :=
  if Enabled cfg && LatencyEnabled cfg then
    let interval := or_default (LatencyEvalInterval cfg) Second in
    if bool_decide (latencyStopCh entry = None) || negb (latencyInterval entry =? interval) then
      let '(r, entry) := stopLatencyLoopLocked r entry in startLatencyLoopLocked r poolKey entry interval
    else (r, entry)
  else stopLatencyLoopLocked r entry.

Definition Reconcile (r : Registry) (poolKey : string) (addrs : list string) (cfg : Config) (now : Time) : Registry :=
  if decide (poolKey = "") then r
  else
    let entry := reconcileEntry r poolKey addrs cfg now in
    let '(r, entry) := reconcileLoop r poolKey entry cfg in
    r <| pools ::= <[poolKey := entry]> |>.

(** [endpoint] refreshes [lastSeen]; the state it returns is a pointer into
    the map, written back by [putEndpoint]. *)
Definition endpoint (r : Registry) (poolKey addr : string) (now : Time)
    : Registry * (Config * option EndpointState) :=
  match pools r !! poolKey with
  | None => (r, (emptyConfig, None))
  | Some entry =>
      (r <| pools ::= <[poolKey := entry <| lastSeen := now |>]> |>, (entry_config entry, endpoints entry !! addr))
  end.
Definition putEndpoint (r : Registry) (poolKey addr : string) (e : EndpointState) : Registry :=
  r <| pools ::= alter (λ entry, entry <| endpoints ::= <[addr := e]> |>) poolKey |>.

Definition notify (r : Registry) (poolKey reason : string) : list (string * string) :=
  if negb (observer r) || bool_decide (reason = "") then [] else [(poolKey, reason)].

(** [RecordResult] reads the clock in [endpoint] ([tSeen]) and for the
    result ([now]). *)
Definition RecordResult (r : Registry) (poolKey addr : string) (success : bool) (latency : Duration)
    (tSeen now : Time) : Registry * (bool * string) * list (string * string) :=
  if decide (poolKey = "" ∨ addr = "") then (r, (false, ""), [])
  else
    let '(r, (config, ep)) := endpoint r poolKey addr tSeen in
    match ep with
    | None => (r, (false, ""), [])
    | Some e =>
        if negb (Enabled config) then (r, (false, ""), [])
        else
          let e := if success then RecordLatency e latency else e in
          let '(e, (ejected, reason)) := Outlier.RecordResult e config success now in
          let r := putEndpoint r poolKey addr e in
          if ejected then (r, (true, reason), notify r poolKey reason) else (r, (false, ""), [])
    end.

Definition IsEjected (r : Registry) (poolKey addr : string) (tSeen now : Time) : Registry * bool :=
  if decide (poolKey = "" ∨ addr = "") then (r, false)
  else
    let '(r, (config, ep)) := endpoint r poolKey addr tSeen in
    match ep with
    | None => (r, false)
    | Some e => if negb (Enabled config) then (r, false) else (r, Outlier.IsEjected e now)
    end.

(** The entries visited by [Close] and [reapOnce], each in some map order,
    which stops the goroutine of each. *)
Definition stopEntries (es : list (string * poolEntry)) (r : Registry) : Registry :=
  foldl (λ r ke,
    let '(r, e) := stopLatencyLoopLocked r ke.2 in
    r <| pools ::= <[ke.1 := e]> |>) r es.

Definition Close (r : Registry) : Registry :=
  stopEntries (map_to_list (pools r)) r <| stopped := true |>.
Definition Stop (r : Registry) : Registry * option string := (Close r, None).
Definition HasPool (r : Registry) (key : string) : bool := bool_decide (is_Some (pools r !! key)).

Definition reapOnce (r : Registry) (now : Time) : Registry :=
  let cutoff := now + - ttl r in
  let stale := filter (λ ke, lastSeen ke.2 < cutoff) (map_to_list (pools r)) in
  foldl (λ r ke, let '(r, _) := stopLatencyLoopLocked r ke.2 in r <| pools ::= delete ke.1 |>) r stale.
Definition reapTick (r : Registry) (now : Time) : Registry := if stopped r then r else reapOnce r now.

(** [evaluateLatency]: the map of endpoints is visited twice, in the orders
    Go chooses; [eps] is the first, and the second is [eps] filtered, in the
    order [order] gives. *)
Definition qualified (minSamples : Z) (eps : list (string * EndpointState)) : list (string * EndpointState) :=
  filter (λ ae, ¬ len (LatencySnapshot ae.2) < minSamples) eps.
Definition baselineSamples (eps : list (string * EndpointState)) : list Z :=
  concat ((λ ae, LatencySnapshot ae.2) <$> eps).

Definition observeEndpoint (config : Config) (baseline : Z) (now : Time) (poolKey : string)
    (acc : Registry * list (string * string)) (ae : string * EndpointState) : Registry * list (string * string) :=
  let '(r, notes) := acc in
  let p95 := percentile (LatencySnapshot ae.2) (f64_lit 95 100) in
  let multiplier := or_default (LatencyMultiplier config) 1 in
  let threshold := i64 (multiplier * baseline) in
  let bad := threshold <? p95 in
  let '(e, (ejected, reason)) := ObserveLatency ae.2 config bad now in
  let r := putEndpoint r poolKey ae.1 e in
  (r, notes ++ if ejected then notify r poolKey reason else []).

Definition evaluateOrdered (r : Registry) (poolKey : string) (now : Time)
    (order : list (string * EndpointState) → list (string * EndpointState)) : Registry * list (string * string) :=
  match pools r !! poolKey with
  | None => (r, [])
  | Some entry =>
      let config := entry_config entry in
      let eps := order (map_to_list (endpoints entry)) in
      if negb (Enabled config) || negb (LatencyEnabled config) then (r, [])
      else
        let minSamples := or_default (LatencyMinSamples config) 1 in
        let endpointSamples := qualified minSamples eps in
        let samples := baselineSamples endpointSamples in
        if len samples <? minSamples then (r, [])
        else
          let baseline := percentile samples (f64_lit 50 100) in
          if baseline <=? 0 then (r, [])
          else foldl (observeEndpoint config baseline now poolKey) (r, []) (order endpointSamples)
  end.
Definition evaluateLatency (r : Registry) (poolKey : string) (now : Time) : Registry * list (string * string) :=
  evaluateOrdered r poolKey now id.

(** A tick of the goroutine whose stop channel is [ch]. *)
Definition latencyTick (r : Registry) (ch : nat) (now : Time) : Registry * list (string * string) :=
  match running r !! ch with
  | None => (r, [])
  | Some poolKey => evaluateLatency r poolKey now
  end.

(** ** Reconciliation *)

Lemma UpdateConfig_idemp e cfg :
  0 < LatencyWindowSize cfg → UpdateConfig (UpdateConfig e cfg) cfg = UpdateConfig e cfg.
Proof.
  intros Hs. unfold UpdateConfig. destruct (LatencyEnabled cfg); [|done].
  assert (len (ring (NewLatencyWindow (LatencyWindowSize cfg))) = LatencyWindowSize cfg) as Hn.
  { unfold NewLatencyWindow, len. simpl. rewrite length_replicate. destruct (Z.leb_spec (LatencyWindowSize cfg) 0); lia. }
  revert Hn. generalize (NewLatencyWindow (LatencyWindowSize cfg)). intros w0 Hn.
  destruct (latencyWindow e) as [w|] eqn:Hw; simpl.
  - destruct (len (ring w) =? LatencyWindowSize cfg) eqn:E; simpl; [by rewrite Hw, E|].
    by rewrite Hn, Z.eqb_refl.
  - by rewrite Hn, Z.eqb_refl.
Qed.

Definition reconciled (cfg : Config) (o : option EndpointState) : EndpointState :=
  match o with None => NewEndpointState cfg | Some e => UpdateConfig e cfg end.

Lemma reconciled_again cfg o :
  0 < LatencyWindowSize cfg → reconciled cfg (Some (reconciled cfg o)) = reconciled cfg o.
Proof. intros. destruct o; simpl; [|unfold NewEndpointState]; by apply UpdateConfig_idemp. Qed.

Lemma reconcileEndpoint_insert cfg m a : reconcileEndpoint cfg m a = <[a := reconciled cfg (m !! a)]> m.
Proof. unfold reconcileEndpoint, reconciled. by destruct (m !! a). Qed.

Lemma reconcileEndpoints_lookup cfg addrs m a :
  0 < LatencyWindowSize cfg →
  foldl (reconcileEndpoint cfg) m addrs !! a =
  if decide (a ∈ addrs) then Some (reconciled cfg (m !! a)) else m !! a.
Proof.
  intros Hs. revert m. induction addrs as [|b addrs IH]; intros m; simpl; [done|].
  rewrite IH, reconcileEndpoint_insert. destruct (decide (a = b)) as [->|Hne].
  - rewrite lookup_insert_eq, reconciled_again by done. repeat case_decide; set_solver.
  - rewrite lookup_insert_ne by done. repeat case_decide; set_solver.
Qed.

(** Starting and stopping goroutines leaves the pools alone. *)
Lemma stop_pools r e : pools (stopLatencyLoopLocked r e).1 = pools r.
Proof. unfold stopLatencyLoopLocked. by case_match. Qed.
Lemma stop_endpoints r e : endpoints (stopLatencyLoopLocked r e).2 = endpoints e.
Proof. unfold stopLatencyLoopLocked. by case_match. Qed.
Lemma stop_config r e : entry_config (stopLatencyLoopLocked r e).2 = entry_config e.
Proof. unfold stopLatencyLoopLocked. by case_match. Qed.
Lemma stop_ch r e : latencyStopCh (stopLatencyLoopLocked r e).2 = None.
Proof. unfold stopLatencyLoopLocked. by case_match. Qed.

Lemma reconcileLoop_frame r k e cfg :
  pools (reconcileLoop r k e cfg).1 = pools r ∧ endpoints (reconcileLoop r k e cfg).2 = endpoints e ∧
  entry_config (reconcileLoop r k e cfg).2 = entry_config e.
Proof.
  unfold reconcileLoop, startLatencyLoopLocked. pose proof (stop_pools r e). pose proof (stop_endpoints r e).
  pose proof (stop_config r e). destruct (stopLatencyLoopLocked r e); simpl in *. by repeat case_match.
Qed.

(** Functional: reconciling a pool leaves it with exactly the desired
    endpoints: endpoints it already tracked keep their ejection state and
    counters (only their latency ring may be resized), new ones start fresh,
    all others are forgotten, and no other pool changes. *)
Theorem outlier_reconcile r poolKey addrs cfg now :
  poolKey ≠ "" → 0 < LatencyWindowSize cfg →
  let r' := Reconcile r poolKey addrs cfg now in
  let old := default ∅ (endpoints <$> pools r !! poolKey) in
  (∃ entry, pools r' !! poolKey = Some entry ∧ entry_config entry = cfg ∧
     ∀ a, endpoints entry !! a = if decide (a ∈ addrs) then Some (reconciled cfg (old !! a)) else None) ∧
  (∀ k, k ≠ poolKey → pools r' !! k = pools r !! k) ∧
  (∀ a e t, old !! a = Some e → Outlier.IsEjected (reconciled cfg (Some e)) t = Outlier.IsEjected e t).
Proof.
  intros Hk Hs r' old. subst r'. unfold Reconcile. rewrite decide_False by done.
  destruct (reconcileLoop_frame r poolKey (reconcileEntry r poolKey addrs cfg now) cfg) as (Hp & He & Hc).
  destruct (reconcileLoop _ _ _ _) as [r1 e1]; simpl in *. rewrite Hp. repeat split.
  - eexists. rewrite lookup_insert_eq. split; [done|]. split; [done|]. intros a. rewrite He. unfold reconcileEntry. simpl.
    rewrite map_lookup_filter, reconcileEndpoints_lookup by done.
    replace (endpoints (default _ _)) with old by (subst old; by destruct (pools r !! poolKey)).
    destruct (decide (a ∈ addrs)) as [Ha|Ha]; simpl; [by rewrite option_guard_True|].
    destruct (old !! a); simpl; [by rewrite option_guard_False|done].
  - intros k Hne. by rewrite lookup_insert_ne.
  - intros a e t _. simpl. unfold UpdateConfig. repeat case_match; done.
Qed.

Lemma outlier_reconcile_witness :
  let r := Reconcile (NewRegistry 0 0 true) "p" ["a"; "b"] example_config 5 in
  pools (Reconcile r "p" ["b"] example_config 6) !! "q" = pools r !! "q".
Proof.
  intros r. apply (outlier_reconcile r "p" ["b"] example_config 6); [discriminate|reflexivity|discriminate].
Defined.

(** ** The evaluation does not depend on Go's map order *)

Lemma ObserveLatency_reason e cfg bad now :
  (ObserveLatency e cfg bad now).2 = (false, "") ∨ (ObserveLatency e cfg bad now).2 = (true, "latency").
Proof. unfold ObserveLatency. repeat case_match; simpl; auto. Qed.

Lemma putEndpoint_comm r k a1 e1 a2 e2 :
  a1 ≠ a2 → putEndpoint (putEndpoint r k a1 e1) k a2 e2 = putEndpoint (putEndpoint r k a2 e2) k a1 e1.
Proof.
  intros Hne. unfold putEndpoint. destruct r; simpl. f_equal. rewrite !alter_alter_eq.
  apply alter_ext. intros [] ?; simpl. f_equal. by apply insert_insert_ne.
Qed.

Lemma observe_notes r k e cfg bad now a :
  let res := ObserveLatency e cfg bad now in
  (if res.2.1 then notify (putEndpoint r k a res.1) k res.2.2 else []) =
  if res.2.1 && observer r then [(k, "latency")] else [].
Proof.
  intros res. destruct (ObserveLatency_reason e cfg bad now) as [H|H]; unfold res; rewrite H; simpl; [done|].
  unfold notify, putEndpoint. simpl. by destruct (observer r).
Qed.

Lemma observeEndpoint_comm config baseline now k acc x y :
  x.1 ≠ y.1 →
  observeEndpoint config baseline now k (observeEndpoint config baseline now k acc x) y =
  observeEndpoint config baseline now k (observeEndpoint config baseline now k acc y) x.
Proof.
  intros Hne. destruct acc as [r notes]. unfold observeEndpoint. cbn zeta.
  set (bx := _ <? percentile (LatencySnapshot x.2) _). set (by_ := _ <? percentile (LatencySnapshot y.2) _).
  pose proof (λ r, observe_notes r k x.2 config bx now x.1) as Hx.
  pose proof (λ r, observe_notes r k y.2 config by_ now y.1) as Hy.
  destruct (ObserveLatency x.2 config bx now) as [ex [jx rx]], (ObserveLatency y.2 config by_ now) as [ey [jy ry]].
  simpl in *. rewrite !Hx, !Hy. rewrite (putEndpoint_comm r k x.1 ex y.1 ey) by done. f_equal.
  rewrite <- !app_assoc. f_equal. simpl. by destruct jx, jy, (observer r).
Qed.

Lemma foldl_perm {A B} (f : A → B → A) (key : B → string) (l l' : list B) :
  (∀ a x y, key x ≠ key y → f (f a x) y = f (f a y) x) →
  l ≡ₚ l' → NoDup (key <$> l) → ∀ a, foldl f a l = foldl f a l'.
Proof.
  intros Hf. induction 1 as [|x l l' Hp IH|x y l|l1 l2 l3 H1 IH1 H2 IH2]; intros Hnd a; simpl; [done| | |].
  - apply NoDup_cons in Hnd as [_ Hnd]. by apply IH.
  - rewrite fmap_cons, NoDup_cons in Hnd. destruct Hnd as [Hx _]. rewrite Hf; [done|]. intros E. apply Hx. rewrite E. left.
  - rewrite IH1 by done. apply IH2. by rewrite <- H1.
Qed.

#[export] Instance qualified_perm m : Proper ((≡ₚ) ==> (≡ₚ)) (qualified m).
Proof. intros l k Hlk. unfold qualified. by rewrite Hlk. Qed.
#[export] Instance baselineSamples_perm : Proper ((≡ₚ) ==> (≡ₚ)) baselineSamples.
Proof. intros l k Hlk. unfold baselineSamples. by rewrite Hlk. Qed.

Lemma qualified_NoDup m l : NoDup l.*1 → NoDup (qualified m l).*1.
Proof. apply NoDup_fmap_filter. Qed.

(** Equivalence: a latency evaluation is a function of the registry: Go
    may visit the endpoint maps in any order, in both loops, and the
    resulting states, ejections and notifications are the same. *)
Theorem outlier_evaluation_order_independent r poolKey now order :
  (∀ l, order l ≡ₚ l) → evaluateOrdered r poolKey now order = evaluateLatency r poolKey now.
Proof.
  intros Ho. unfold evaluateLatency, evaluateOrdered. destruct (pools r !! poolKey) as [entry|]; [|done].
  destruct (negb _ || _); [done|]. cbn zeta. unfold id.
  set (m := or_default _ _). set (l := map_to_list (endpoints entry)).
  assert (baselineSamples (qualified m (order l)) ≡ₚ baselineSamples (qualified m l)) as Hb by (by rewrite Ho).
  assert (len (baselineSamples (qualified m (order l))) = len (baselineSamples (qualified m l))) as ->
    by (unfold len; by rewrite Hb).
  assert (percentile (baselineSamples (qualified m (order l))) (f64_lit 50 100) =
          percentile (baselineSamples (qualified m l)) (f64_lit 50 100)) as -> by (by rewrite Hb).
  case_match; [done|]. case_match; [done|].
  apply (foldl_perm _ fst).
  - intros [r0 n0] x y Hxy. by apply observeEndpoint_comm.
  - by rewrite !Ho.
  - rewrite Ho, Ho. apply qualified_NoDup, NoDup_fst_map_to_list.
Qed.

Lemma outlier_evaluation_order_independent_witness :
  let r := Reconcile (NewRegistry 0 0 true) "p" ["a"; "b"] example_config 5 in
  evaluateOrdered r "p" 7 (@rev _) = evaluateLatency r "p" 7.
Proof. intros r. apply outlier_evaluation_order_independent. intros l. apply Permutation_sym, Permutation_rev. Defined.

(** ** Evaluation goroutines *)

Inductive event :=
| EReconcile (poolKey : string) (addrs : list string) (cfg : Config) (now : Time)
| EResult (poolKey addr : string) (success : bool) (latency : Duration) (tSeen now : Time)
| EIsEjected (poolKey addr : string) (tSeen now : Time)
| EReap (now : Time)
| ELatencyTick (ch : nat) (now : Time)
| EClose.

Definition event_step (r : Registry) (ev : event) : Registry :=
  match ev with
  | EReconcile k addrs cfg now => Reconcile r k addrs cfg now
  | EResult k a s l t1 t2 => (RecordResult r k a s l t1 t2).1.1
  | EIsEjected k a t1 t2 => (IsEjected r k a t1 t2).1
  | EReap now => reapTick r now
  | ELatencyTick ch now => (latencyTick r ch now).1
  | EClose => Close r
  end.

(** Every running goroutine is the one its pool's entry can stop, and every
    stop channel held by an entry is open. *)
Definition owned (r : Registry) : Prop :=
  (∀ ch k, running r !! ch = Some k ↔ ∃ e, pools r !! k = Some e ∧ latencyStopCh e = Some ch) ∧
  (∀ ch, is_Some (running r !! ch) → (ch < nextCh r)%nat).

(** [k] holds no channel in [r]: the state between a stop and the write of
    the entry. *)
Definition replace_ok (r : Registry) (k : string) (e : poolEntry) : Prop :=
  (∀ ch k', running r !! ch = Some k' ↔
     (k' = k ∧ latencyStopCh e = Some ch) ∨ (k' ≠ k ∧ ∃ e', pools r !! k' = Some e' ∧ latencyStopCh e' = Some ch)) ∧
  (∀ ch, is_Some (running r !! ch) → (ch < nextCh r)%nat).

Lemma replace_ok_refl r k e0 e :
  owned r → pools r !! k = Some e0 → latencyStopCh e = latencyStopCh e0 → replace_ok r k e.
Proof.
  intros [Ho Hn] Hk He. split; [|done]. intros ch k'. rewrite Ho, He. destruct (decide (k' = k)) as [->|]; naive_solver.
Qed.
Lemma replace_ok_none r k e : owned r → pools r !! k = None → latencyStopCh e = None → replace_ok r k e.
Proof.
  intros [Ho Hn] Hk He. split; [|done]. intros ch k'. rewrite Ho, He. destruct (decide (k' = k)) as [->|]; naive_solver.
Qed.
Lemma replace_ok_write r k e : replace_ok r k e → owned (r <| pools ::= <[k := e]> |>).
Proof.
  intros [Ho Hn]. split; simpl; [|done]. intros ch k'. rewrite Ho. destruct (decide (k' = k)) as [->|Hne].
  - rewrite lookup_insert_eq. naive_solver.
  - rewrite lookup_insert_ne by done. naive_solver.
Qed.
Lemma replace_ok_delete r k e : replace_ok r k e → latencyStopCh e = None → owned (r <| pools ::= delete k |>).
Proof.
  intros [Ho Hn] He. split; simpl; [|done]. intros ch k'. rewrite Ho, He. destruct (decide (k' = k)) as [->|Hne].
  - rewrite lookup_delete_eq. naive_solver.
  - rewrite lookup_delete_ne by done. naive_solver.
Qed.

Lemma stop_ok r k e : replace_ok r k e → replace_ok (stopLatencyLoopLocked r e).1 k (stopLatencyLoopLocked r e).2.
Proof.
  unfold stopLatencyLoopLocked, replace_ok. destruct (latencyStopCh e) as [ch0|] eqn:He; intros [Ho Hn]; [|simpl; by rewrite He].
  split; simpl.
  - intros ch k'. destruct (decide (ch = ch0)) as [->|Hne].
    + rewrite lookup_delete_eq. split; [done|]. intros [[_ [=]]|[Hk' H]].
      assert (running r !! ch0 = Some k') by (apply Ho; by right).
      assert (running r !! ch0 = Some k) by (apply Ho; by left). congruence.
    + rewrite lookup_delete_ne, Ho by done. naive_solver.
  - intros ch [k' Hd]. apply lookup_delete_Some in Hd as [_ Hd]. apply Hn. by eexists.
Qed.

Lemma start_ok r k e i :
  replace_ok r k e → latencyStopCh e = None →
  replace_ok (startLatencyLoopLocked r k e i).1 k (startLatencyLoopLocked r k e i).2.
Proof.
  unfold startLatencyLoopLocked. intros [Ho Hn] He. split; simpl.
  - intros ch k'. destruct (decide (ch = nextCh r)) as [->|Hne].
    + rewrite lookup_insert_eq. split; [intros [= ->]; by left|]. intros [[-> _]|[Hk' H]]; [done|].
      assert (nextCh r < nextCh r)%nat; [|lia]. apply Hn. exists k'. apply Ho. by right.
    + rewrite lookup_insert_ne, Ho, He by done. naive_solver.
  - intros ch. destruct (decide (ch = nextCh r)) as [->|]; [lia|]. rewrite lookup_insert_ne by done.
    intros H%Hn. lia.
Qed.

Lemma reconcileLoop_ok r k e cfg : replace_ok r k e → replace_ok (reconcileLoop r k e cfg).1 k (reconcileLoop r k e cfg).2.
Proof.
  intros H. unfold reconcileLoop. pose proof (stop_ok r k e H) as Hs. pose proof (stop_ch r e) as Hc.
  destruct (stopLatencyLoopLocked r e) as [r' e']; simpl in *. destruct (Enabled cfg && _); [|done].
  destruct (_ || _); [by apply start_ok|done].
Qed.

(** A write that keeps the channels of the entries. *)
Definition same_channels (m m' : gmap string poolEntry) : Prop :=
  ∀ k, latencyStopCh <$> m !! k = latencyStopCh <$> m' !! k.
#[export] Instance same_channels_equiv : Equivalence same_channels.
Proof. unfold same_channels. split; repeat intro; congruence. Qed.

Lemma owned_same_channels r m : same_channels (pools r) m → owned r → owned (r <| pools := m |>).
Proof.
  intros Hm [Ho Hn]. split; simpl; [|done]. intros ch k. rewrite Ho. specialize (Hm k).
  destruct (pools r !! k), (m !! k); simplify_eq/=; naive_solver congruence.
Qed.

Lemma same_channels_alter m f k :
  (∀ e, latencyStopCh (f e) = latencyStopCh e) → same_channels m (alter f k m).
Proof.
  intros Hf k'. destruct (decide (k' = k)) as [->|].
  - rewrite lookup_alter_eq. destruct (m !! k); simpl; by rewrite ?Hf.
  - by rewrite lookup_alter_ne.
Qed.

Lemma putEndpoint_owned r k a e : owned r → owned (putEndpoint r k a e).
Proof. intros H. apply (owned_same_channels r); [|done]. by apply same_channels_alter. Qed.

Lemma endpoint_owned r k a now : owned r → owned (endpoint r k a now).1.
Proof.
  intros H. unfold endpoint. destruct (pools r !! k) as [e|] eqn:Hk; [|done].
  apply replace_ok_write. by eapply replace_ok_refl.
Qed.

Lemma observeAll_owned cfg b now k eps acc :
  owned acc.1 → owned (foldl (observeEndpoint cfg b now k) acc eps).1.
Proof.
  revert acc. induction eps as [|ae eps IH]; intros [r notes] H; simpl in *; [done|]. apply IH.
  unfold observeEndpoint. destruct (ObserveLatency _ _ _ _) as [e [j rs]]. simpl. by apply putEndpoint_owned.
Qed.

(** Entries that are still in the map, each key once. *)
Definition pending (r : Registry) (es : list (string * poolEntry)) : Prop :=
  NoDup es.*1 ∧ Forall (λ ke, pools r !! ke.1 = Some ke.2) es.

Lemma pending_all r : pending r (map_to_list (pools r)).
Proof. split; [apply NoDup_fst_map_to_list|]. apply Forall_forall. intros [k e] H. by apply elem_of_map_to_list. Qed.

Lemma pending_filter r P `{∀ x, Decision (P x)} es : pending r es → pending r (filter P es).
Proof.
  intros [Hn Hf]. split; [by apply NoDup_fmap_filter|].
  apply Forall_forall. intros x [_ Hx]%list_elem_of_filter. rewrite Forall_forall in Hf. auto.
Qed.

Lemma pending_cons r ke es :
  pending r (ke :: es) →
  pools r !! ke.1 = Some ke.2 ∧
  ∀ r', (∀ k, k ≠ ke.1 → pools r' !! k = pools r !! k) → pending r' es.
Proof.
  intros [Hn Hf]. rewrite fmap_cons, NoDup_cons in Hn. apply Forall_cons in Hf as [H1 Hf].
  split; [done|]. intros r' Hr. split; [naive_solver|]. apply Forall_forall. intros x Hx.
  rewrite Forall_forall in Hf. rewrite Hr; [by apply Hf|]. intros E. destruct Hn as [Hn _]. apply Hn.
  rewrite <- E. apply list_elem_of_fmap. by exists x.
Qed.

Lemma stop_entry_owned r k e :
  owned r → pools r !! k = Some e → replace_ok (stopLatencyLoopLocked r e).1 k (stopLatencyLoopLocked r e).2.
Proof. intros H Hk. apply stop_ok. by eapply replace_ok_refl. Qed.

Lemma stopEntries_owned es r : owned r → pending r es → owned (stopEntries es r).
Proof.
  revert r. induction es as [|[k e] es IH]; intros r Ho Hp; [done|].
  apply pending_cons in Hp as [Hk Hp]. cbn [stopEntries foldl fst snd] in *.
  pose proof (stop_entry_owned r k e Ho Hk) as Hs. pose proof (stop_pools r e) as Hpools.
  destruct (stopLatencyLoopLocked r e) as [r' e']; simpl in *. apply IH; [by apply replace_ok_write|].
  apply Hp. intros k' Hne. simpl. by rewrite lookup_insert_ne, Hpools.
Qed.

Lemma reapOnce_owned r now : owned r → owned (reapOnce r now).
Proof.
  intros Ho. unfold reapOnce.
  pose proof (pending_filter r (λ ke, lastSeen ke.2 < now + - ttl r) _ (pending_all r)) as Hp.
  cbn zeta. revert Hp. generalize (filter (λ ke, lastSeen ke.2 < now + - ttl r) (map_to_list (pools r))) as es.
  intros es. revert r Ho. induction es as [|[k e] es IH]; intros r Ho Hp; [done|].
  apply pending_cons in Hp as [Hk Hp]. cbn [foldl fst snd] in *.
  pose proof (stop_entry_owned r k e Ho Hk) as Hs. pose proof (stop_pools r e) as Hpools. pose proof (stop_ch r e).
  destruct (stopLatencyLoopLocked r e) as [r' e']; simpl in *. apply IH; [by eapply replace_ok_delete|].
  apply Hp. intros k' Hne. simpl. by rewrite lookup_delete_ne, Hpools.
Qed.

Lemma event_step_owned r ev : owned r → owned (event_step r ev).
Proof.
  intros Ho. destruct ev as [k addrs cfg now|k a s l t1 t2|k a t1 t2|now|ch now|]; simpl.
  - unfold Reconcile. case_decide; [done|].
    assert (replace_ok r k (reconcileEntry r k addrs cfg now)) as Hr.
    { destruct (pools r !! k) as [e0|] eqn:Hk.
      - eapply replace_ok_refl; [done..|]. unfold reconcileEntry. by rewrite Hk.
      - apply replace_ok_none; [done..|]. unfold reconcileEntry. by rewrite Hk. }
    apply reconcileLoop_ok with (cfg := cfg) in Hr.
    destruct (reconcileLoop _ _ _ _) as [r' e']. by apply replace_ok_write.
  - unfold RecordResult. case_decide; [done|]. pose proof (endpoint_owned r k a t1 Ho).
    destruct (endpoint r k a t1) as [r' [cfg [e|]]]; [|done]. simpl in *.
    destruct (Enabled cfg); simpl; [|done]. destruct (Outlier.RecordResult _ _ _ _) as [e' [j rs]].
    destruct j; simpl; by apply putEndpoint_owned.
  - unfold IsEjected. case_decide; [done|]. pose proof (endpoint_owned r k a t1 Ho).
    destruct (endpoint r k a t1) as [r' [cfg [e|]]]; simpl in *; [|done]. by destruct (Enabled cfg).
  - unfold reapTick. case_match; [done|by apply reapOnce_owned].
  - unfold latencyTick. destruct (running r !! ch); [|done]. unfold evaluateLatency, evaluateOrdered.
    destruct (pools r !! _); [|done]. repeat case_match; try done. by apply observeAll_owned.
  - unfold Close. apply stopEntries_owned; [done|]. exact (pending_all r).
Qed.

(** Invariant: no latency goroutine leaks.  In every history of the
    registry, a goroutine is running exactly when the entry of its pool holds
    its stop channel; in particular a pool never runs two of them and no stop
    channel is closed twice, and a reaped or closed pool leaves none behind. *)
Theorem outlier_goroutines_owned interval timeToLive obs evs ch k :
  let r := foldl event_step (NewRegistry interval timeToLive obs) evs in
  running r !! ch = Some k ↔ ∃ e, pools r !! k = Some e ∧ latencyStopCh e = Some ch.
Proof.
  intros r. assert (owned r) as [Ho _]; [|apply Ho].
  assert (owned (NewRegistry interval timeToLive obs)) as H0.
  { split; simpl; [|intros ch' [? [=]]]. intros ch' k'. rewrite !lookup_empty. naive_solver. }
  subst r. revert H0. generalize (NewRegistry interval timeToLive obs).
  induction evs as [|ev evs IH]; intros r H0; simpl; [done|]. by apply IH, event_step_owned.
Qed.
