(* ===== verification/Health.v ===== *)
(** * Active health checks (internal/health/health.go, active.go, passive.go)

    The HTTP client belongs to the standard library; what a probe can end
    with is the type [probeOutcome]. *)
From S2P Require Import Prelude.

Record Config := mkConfig {
  Path : string;
  Interval : Duration;
  Timeout : Duration;
  UnhealthyAfterFailures : Z;
  HealthyAfterSuccesses : Z;
  BaseEjectDuration : Duration;
  MaxEjectDuration : Duration
}.

Inductive PassiveFailureKind := PassiveFailureDial | PassiveFailureTimeout.
Definition PassiveFailureKind_String (k : PassiveFailureKind) : string :=
  match k with PassiveFailureDial => "dial" | PassiveFailureTimeout => "timeout" end.

(** [http.NewRequest] fails, [client.Do] fails, a panic, or a response. *)
Inductive probeOutcome :=
| ProbeRequestError
| ProbeDoError
| ProbePanic
| ProbeResponse (status : Z).

(** [true] calls [onSuccess], [false] calls [onFailure]; exactly one of them
    is called. *)
Definition safeProbe (o : probeOutcome) : bool :=
  match o with
  | ProbeRequestError | ProbeDoError | ProbePanic => false
  | ProbeResponse status => (200 <=? status) && (status <? 400)
  end.

(** The URL an [ActiveProbeLoop] for [addr] requests at each tick. *)
Definition probeURL (cfg : Config) (addr : string) : string :=
  let path := if decide (Path cfg = "") then "/healthz" else Path cfg in
  ("http://" ++ addr ++ path)%string.
