(* ===== verification/Pool.v ===== *)
(** * Upstream pools (internal/pool/pool.go)

    [EndpointRuntime] is the record of an endpoint's atomics.  [stopCh] is
    [None] for the nil channel and otherwise carries the configuration the
    running probe goroutine was started with.  Clock readings are arguments,
    and so is the order in which Go visits a map, where the code returns
    something that depends on it. *)
From S2P Require Import Prelude.
From S2P Require Import Eject.
From S2P Require Import Health.

Definition stateHealthy : Z := 1.
Definition stateUnhealthy : Z := 2.
Definition stateDraining : Z := 3.

Record EndpointRuntime := mkEndpoint {
  addr : string;
  state : Z;
  ejectUntil : Z;
  consecutiveActiveFails : Z;
  consecutiveActiveSuccess : Z;
  consecutivePassiveFails : Z;
  inflight : Z;
  ejectCount : Z;
  lastHealthyAt : Z;
  lastSeen : Z;
  drainUntil : Z;
  config : Config;
  stopCh : option Config
}.
#[export] Instance EndpointRuntime_eta : Eta EndpointRuntime := fun e =>
  mkEndpoint (addr e) (state e) (ejectUntil e) (consecutiveActiveFails e) (consecutiveActiveSuccess e)
    (consecutivePassiveFails e) (inflight e) (ejectCount e) (lastHealthyAt e) (lastSeen e) (drainUntil e)
    (config e) (stopCh e).

(** ** Probe goroutines *)

Definition startActiveLocked (e : EndpointRuntime) (cfg : Config) : EndpointRuntime :=
  if Interval cfg <=? 0 then e
  else match stopCh e with Some _ => e | None => e <| stopCh := Some cfg |> end.
Definition stopActiveLocked (e : EndpointRuntime) : EndpointRuntime :=
  match stopCh e with None => e | Some _ => e <| stopCh := None |> end.
Definition startActive (e : EndpointRuntime) (cfg : Config) : EndpointRuntime := startActiveLocked e cfg.
Definition stopActive (e : EndpointRuntime) : EndpointRuntime := stopActiveLocked e.
Definition restartActive (e : EndpointRuntime) (cfg : Config) : EndpointRuntime :=
  startActiveLocked (stopActiveLocked e) cfg.

(** ** Endpoints *)

Definition NewEndpointRuntime (address : string) (cfg : Config) : EndpointRuntime :=
  startActive (mkEndpoint address stateHealthy 0 0 0 0 0 0 0 0 0 cfg None) cfg.

Definition EndpointUpdateConfig (e : EndpointRuntime) (cfg : Config) : EndpointRuntime :=
  restartActive (e <| config := cfg |>) cfg.

Definition IsDraining (e : EndpointRuntime) : bool := state e =? stateDraining.
Definition IsHealthy (e : EndpointRuntime) : bool := state e =? stateHealthy.
Definition IsEjected (e : EndpointRuntime) (now : Time) : bool :=
  (0 <? ejectUntil e) && (UnixNano now <? ejectUntil e).
Definition DrainDeadlineReached (e : EndpointRuntime) (now : Time) : bool :=
  (0 <? drainUntil e) && (drainUntil e <=? UnixNano now).

Definition Restore (e : EndpointRuntime) : EndpointRuntime :=
  if state e =? stateDraining then
    let e := e <| state := stateHealthy |> <| drainUntil := 0 |> in
    restartActive e (config e)
  else e.

Definition MarkDraining (e : EndpointRuntime) (timeout : Duration) (now : Time) : EndpointRuntime :=
  if state e =? stateDraining then e
  else stopActive (e <| state := stateDraining |> <| drainUntil := UnixNano (now + timeout) |>).

Definition MarkSeen (e : EndpointRuntime) (now : Time) : EndpointRuntime := e <| lastSeen := UnixNano now |>.

Definition markHealthy (e : EndpointRuntime) (now : Time) : EndpointRuntime :=
  e <| state := stateHealthy |> <| ejectUntil := 0 |> <| consecutivePassiveFails := 0 |>
    <| consecutiveActiveFails := 0 |> <| lastHealthyAt := UnixNano now |>.

Definition eject (e : EndpointRuntime) (cfg : Config) (now : Time) : EndpointRuntime :=
  let e := e <| state := stateUnhealthy |> in
  let e := if (0 <? lastHealthyAt e) && (5 * Minute <? time_Sub now (lastHealthyAt e))
           then e <| ejectCount := 0 |> else e in
  let e := e <| ejectCount ::= (λ n, i32 (n + 1)) |> in
  let duration := ejectDuration (BaseEjectDuration cfg) (MaxEjectDuration cfg) (ejectCount e) in
  e <| ejectUntil := UnixNano (now + duration) |>.

Definition RecordActiveSuccess (e : EndpointRuntime) (now : Time) : EndpointRuntime :=
  if IsDraining e then e
  else
    let cfg := config e in
    let e := e <| consecutiveActiveSuccess ::= (λ n, i32 (n + 1)) |> <| consecutiveActiveFails := 0 |> in
    if (0 <? HealthyAfterSuccesses cfg) && (HealthyAfterSuccesses cfg <=? consecutiveActiveSuccess e)
    then markHealthy e now else e.

Definition RecordActiveFailure (e : EndpointRuntime) (now : Time) : EndpointRuntime :=
  if IsDraining e then e
  else
    let cfg := config e in
    let e := e <| consecutiveActiveFails ::= (λ n, i32 (n + 1)) |> <| consecutiveActiveSuccess := 0 |> in
    if (0 <? UnhealthyAfterFailures cfg) && (UnhealthyAfterFailures cfg <=? consecutiveActiveFails e)
    then eject e cfg now else e.

Definition RecordPassiveSuccess (e : EndpointRuntime) : EndpointRuntime := e <| consecutivePassiveFails := 0 |>.

Definition RecordPassiveFailure (e : EndpointRuntime) (now : Time) : EndpointRuntime :=
  if IsDraining e then e
  else
    let cfg := config e in
    let e := e <| consecutivePassiveFails ::= (λ n, i32 (n + 1)) |> in
    if (0 <? UnhealthyAfterFailures cfg) && (UnhealthyAfterFailures cfg <=? consecutivePassiveFails e)
    then eject e cfg now else e.

Definition InflightInc (e : EndpointRuntime) : EndpointRuntime := e <| inflight ::= (λ n, i64 (n + 1)) |>.
Definition InflightDec (e : EndpointRuntime) : EndpointRuntime := e <| inflight ::= (λ n, i64 (n + -1)) |>.
Definition Inflight (e : EndpointRuntime) : Z := inflight e.
Definition EndpointStop (e : EndpointRuntime) : EndpointRuntime := stopActive e.

(** A finished probe of the endpoint's probe goroutine. *)
Definition probeTick (e : EndpointRuntime) (o : probeOutcome) (now : Time) : EndpointRuntime :=
  match stopCh e with
  | None => e
  | Some _ => if safeProbe o then RecordActiveSuccess e now else RecordActiveFailure e now
  end.

(** ** Pools *)

Record PoolRuntime := mkPool {
  key : string;
  healthConfig : Config;
  endpoints : gmap string EndpointRuntime;
  order : list string;
  rr : Z;
  drainTimeout : Duration
}.
#[export] Instance PoolRuntime_eta : Eta PoolRuntime := fun p =>
  mkPool (key p) (healthConfig p) (endpoints p) (order p) (rr p) (drainTimeout p).

Record PickResult := mkPickResult {
  Addr : string;
  SelectedHealthy : bool;
  SelectedFailOpen : bool;
  OutlierIgnored : bool;
  EndpointEjected : bool
}.

Definition NewPoolRuntime (k : string) (cfg : Config) (timeout : Duration) : PoolRuntime :=
  mkPool k cfg ∅ [] 0 timeout.

Definition reconcileEndpoint (cfg : Config) (m : gmap string EndpointRuntime) (a : string) : gmap string EndpointRuntime :=
  match m !! a with
  | Some endpoint => <[a := Restore (EndpointUpdateConfig endpoint cfg)]> m
  | None => <[a := NewEndpointRuntime a cfg]> m
  end.

(** [now a] is the clock when [MarkDraining] visits the endpoint [a]. *)
Definition Reconcile (p : PoolRuntime) (addrs : list string) (cfg : Config) (timeout : Duration) (now : string → Time)
    : PoolRuntime * bool :=
  let p := p <| healthConfig := cfg |> <| drainTimeout := timeout |> <| order := addrs |> in
  let p := p <| endpoints ::= (λ m, foldl (reconcileEndpoint cfg) m addrs) |> in
  let removed := bool_decide (filter (λ kv, kv.1 ∉ addrs) (endpoints p) ≠ ∅) in
  (p <| endpoints ::= map_imap (λ a e, Some (if decide (a ∈ addrs) then e else MarkDraining e timeout (now a))) |>,
   removed).

(** [pickFrom] returns the address chosen and marks the endpoint as seen. *)
Definition pickFrom (p : PoolRuntime) (l : list EndpointRuntime) (tSeen : Time) : PoolRuntime * option EndpointRuntime :=
  let p := p <| rr ::= (λ n, u64 (n + 1)) |> in
  let idx := u64 (rr p - 1) in
  match l !! Z.to_nat (idx `mod` len l) with
  | None => (p, None)
  | Some endpoint =>
      let endpoint := MarkSeen endpoint tSeen in
      (p <| endpoints ::= alter (λ e, MarkSeen e tSeen) (addr endpoint) |>, Some endpoint)
  end.

Definition outlier_says (outlierEjected : option (string → Time → bool)) (a : string) (now : Time) : bool :=
  match outlierEjected with None => false | Some f => f a now end.

(** The endpoints [Pick] considers, in order; [mapOrder] is the order in
    which Go visits the map when no address of [order] is present. *)
Definition pickCandidates (p : PoolRuntime) (mapOrder : list string) : list EndpointRuntime :=
  let all := omap (λ a, endpoints p !! a) (order p) in
  match all with [] => omap (λ a, endpoints p !! a) mapOrder | _ => all end.

Definition eligible (out : option (string → Time → bool)) (now : Time) (e : EndpointRuntime) : bool :=
  IsHealthy e && negb (IsDraining e) && negb (IsEjected e now) && negb (outlier_says out (addr e) now).
Definition suppressed (out : option (string → Time → bool)) (now : Time) (e : EndpointRuntime) : bool :=
  negb (eligible out now e) && (IsHealthy e && negb (IsEjected e now)) && negb (IsDraining e) && outlier_says out (addr e) now.

Definition failOpen (out : option (string → Time → bool)) (now : Time) (ignored : bool) (picked : EndpointRuntime) : PickResult :=
  let endpointEjected := negb (IsHealthy picked) || IsEjected picked now in
  let endpointEjected := match out with None => endpointEjected | Some f => endpointEjected || f (addr picked) now end in
  mkPickResult (addr picked) false true ignored endpointEjected.

Definition Pick (p : PoolRuntime) (out : option (string → Time → bool)) (mapOrder : list string) (now tSeen : Time)
    : PoolRuntime * PickResult :=
  let none := mkPickResult "" false false false false in
  if decide (endpoints p = ∅) then (p, none)
  else
    let all := pickCandidates p mapOrder in
    let elig := filter (λ e, eligible out now e = true) all in
    let nonDraining := filter (λ e, IsDraining e = false) all in
    let outlierSuppressed := existsb (suppressed out now) all in
    let finish (l : list EndpointRuntime) (k : EndpointRuntime → PickResult) :=
      let '(p, picked) := pickFrom p l tSeen in (p, from_option k none picked) in
    if bool_decide (elig ≠ []) then finish elig (λ e, mkPickResult (addr e) true false false false)
    else if bool_decide (nonDraining ≠ []) then finish nonDraining (failOpen out now outlierSuppressed)
    else finish all (failOpen out now outlierSuppressed).

Definition Endpoint (p : PoolRuntime) (a : string) : option EndpointRuntime := endpoints p !! a.

Definition reapable (now : Time) (e : EndpointRuntime) : bool :=
  IsDraining e && DrainDeadlineReached e now && (Inflight e =? 0).

(** The endpoints that leave the map are stopped first; they are returned so
    that the state of their goroutines stays visible. *)
Definition Reap (p : PoolRuntime) (now : Time) : PoolRuntime * gmap string EndpointRuntime :=
  let gone := filter (λ kv, reapable now kv.2 = true) (endpoints p) in
  (p <| endpoints ::= filter (λ kv, ¬ reapable now kv.2 = true) |>, EndpointStop <$> gone).

Definition PoolStop (p : PoolRuntime) : PoolRuntime * gmap string EndpointRuntime :=
  (p <| endpoints := ∅ |> <| order := [] |>, EndpointStop <$> endpoints p).

(** ** Selection *)

Definition pool_wf (p : PoolRuntime) : Prop := map_Forall (λ a e, addr e = a) (endpoints p).

Lemma lookup_omap_elem (m : gmap string EndpointRuntime) (l : list string) e :
  e ∈ omap (λ a, m !! a) l ↔ ∃ a, a ∈ l ∧ m !! a = Some e.
Proof. by rewrite list_elem_of_omap. Qed.

Lemma pickCandidates_in p mapOrder e :
  pool_wf p → e ∈ pickCandidates p mapOrder → endpoints p !! addr e = Some e.
Proof.
  intros Hwf He. assert (∃ a, endpoints p !! a = Some e) as [a Ha].
  { unfold pickCandidates in He. destruct (omap _ (order p)) eqn:E.
    - apply lookup_omap_elem in He. naive_solver.
    - rewrite <- E in He. apply lookup_omap_elem in He. naive_solver. }
  by rewrite (Hwf _ _ Ha).
Qed.

Lemma pickCandidates_nonempty p mapOrder :
  endpoints p ≠ ∅ → mapOrder ≡ₚ (map_to_list (endpoints p)).*1 → pickCandidates p mapOrder ≠ [].
Proof.
  intros Hne Hm. unfold pickCandidates. destruct (omap _ (order p)); [|done].
  apply map_choose in Hne as (a & e & Ha). intros E.
  assert (e ∈ omap (λ a, endpoints p !! a) mapOrder) as H.
  { apply lookup_omap_elem. exists a. split; [|done]. rewrite Hm. apply list_elem_of_fmap.
    exists (a, e). split; [done|]. by apply elem_of_map_to_list. }
  rewrite E in H. by apply not_elem_of_nil in H.
Qed.

(** [pickFrom] on a non-empty list: the element at [rr mod len]. *)
Lemma pickFrom_spec p l t :
  l ≠ [] → 0 ≤ rr p < 2 ^ 64 →
  ∃ e, l !! Z.to_nat (rr p `mod` len l) = Some e ∧ (pickFrom p l t).2 = Some (MarkSeen e t) ∧
    (pickFrom p l t).1 = p <| rr := u64 (rr p + 1) |> <| endpoints ::= alter (λ e, MarkSeen e t) (addr e) |>.
Proof.
  intros Hl Hr. unfold pickFrom. simpl.
  assert (u64 (u64 (rr p + 1) - 1) = rr p) as ->.
  { unfold u64. rewrite Zminus_mod_idemp_l, Z.mod_small; lia. }
  assert (0 < len l) as Hlen by (unfold len; destruct l; [done|simpl; lia]).
  destruct (lookup_lt_is_Some_2 l (Z.to_nat (rr p `mod` len l))) as [e He].
  { pose proof (Z.mod_pos_bound (rr p) (len l) Hlen). unfold len in *. lia. }
  exists e. rewrite He. simpl. done.
Qed.

Definition mapOrder_ok (p : PoolRuntime) (mapOrder : list string) : Prop :=
  mapOrder ≡ₚ (map_to_list (endpoints p)).*1.

(** Fit to serve, and fit but for the outlier detector. *)
Definition usable (out : option (string → Time → bool)) (now : Time) (e : EndpointRuntime) : Prop :=
  IsHealthy e = true ∧ IsDraining e = false ∧ IsEjected e now = false ∧ outlier_says out (addr e) now = false.
Definition overridden (out : option (string → Time → bool)) (now : Time) (e : EndpointRuntime) : Prop :=
  IsHealthy e = true ∧ IsDraining e = false ∧ IsEjected e now = false ∧ outlier_says out (addr e) now = true.
#[export] Instance usable_dec out now e : Decision (usable out now e).
Proof. unfold usable. apply _. Defined.

Lemma eligible_usable out now e : eligible out now e = true ↔ usable out now e.
Proof.
  unfold eligible, usable. destruct (IsHealthy e), (IsDraining e), (IsEjected e now), (outlier_says out (addr e) now); simpl; naive_solver.
Qed.
Lemma suppressed_overridden out now e : suppressed out now e = true ↔ overridden out now e.
Proof.
  unfold suppressed, eligible, overridden.
  destruct (IsHealthy e), (IsDraining e), (IsEjected e now), (outlier_says out (addr e) now); simpl; naive_solver.
Qed.

(** What [Pick] answers for the endpoint [e] it chose. *)
Definition pick_spec (out : option (string → Time → bool)) (now : Time) (all : list EndpointRuntime)
    (e : EndpointRuntime) (res : PickResult) : Prop :=
  Addr res = addr e ∧ e ∈ all ∧
  if bool_decide (Exists (usable out now) all)
  then usable out now e ∧ SelectedHealthy res = true ∧ SelectedFailOpen res = false
  else SelectedHealthy res = false ∧ SelectedFailOpen res = true ∧
       (Exists (λ e, IsDraining e = false) all → IsDraining e = false) ∧
       (OutlierIgnored res = true ↔ Exists (overridden out now) all) ∧
       EndpointEjected res = negb (IsHealthy e) || IsEjected e now || outlier_says out (addr e) now.

Lemma failOpen_spec out now ign e t :
  Addr (failOpen out now ign (MarkSeen e t)) = addr e ∧
  SelectedHealthy (failOpen out now ign (MarkSeen e t)) = false ∧
  SelectedFailOpen (failOpen out now ign (MarkSeen e t)) = true ∧
  OutlierIgnored (failOpen out now ign (MarkSeen e t)) = ign ∧
  EndpointEjected (failOpen out now ign (MarkSeen e t)) =
    negb (IsHealthy e) || IsEjected e now || outlier_says out (addr e) now.
Proof. unfold failOpen, outlier_says. simpl. destruct out; rewrite ?orb_false_r; done. Qed.

Lemma existsb_Exists {A} (f : A → bool) l : existsb f l = true ↔ Exists (λ x, f x = true) l.
Proof.
  rewrite existsb_exists, Exists_exists. split; intros (x & Hx & Hf); exists x; (split; [|done]);
    by apply list_elem_of_In.
Qed.

Lemma filter_nonempty {A} (P : A → Prop) `{∀ x, Decision (P x)} l : filter P l ≠ [] ↔ Exists P l.
Proof.
  rewrite Exists_exists. split.
  - intros Hne. destruct (filter P l) as [|x k] eqn:E; [done|]. exists x.
    assert (x ∈ filter P l) as Hx by (rewrite E; left). apply list_elem_of_filter in Hx. naive_solver.
  - intros (x & Hx & HP) E. assert (x ∈ filter P l) as Hf by (by apply list_elem_of_filter).
    rewrite E in Hf. by apply not_elem_of_nil in Hf.
Qed.

Lemma Pick_chooses p out mapOrder now t :
  endpoints p ≠ ∅ → pickCandidates p mapOrder ≠ [] → 0 ≤ rr p < 2 ^ 64 →
  ∃ e, pick_spec out now (pickCandidates p mapOrder) e (Pick p out mapOrder now t).2.
Proof.
  intros Hne Hall Hr. unfold Pick. rewrite decide_False by done. cbn zeta.
  set (all := pickCandidates p mapOrder) in *.
  assert (filter (λ e, eligible out now e = true) all ≠ [] ↔ Exists (usable out now) all) as He.
  { rewrite filter_nonempty. apply Exists_proper; [intros e; apply eligible_usable|done]. }
  pose proof (filter_nonempty (λ e, IsDraining e = false) all) as Hd.
  unfold pick_spec. destruct (bool_decide (filter _ all ≠ [])) eqn:E1.
  - apply bool_decide_eq_true in E1. rewrite bool_decide_true by (by apply He).
    destruct (pickFrom_spec p _ t E1 Hr) as (e & Hl & H2 & _). exists e.
    destruct (pickFrom p _ t) as [p' o]; simpl in *. subst o. simpl.
    apply list_elem_of_lookup_2, list_elem_of_filter in Hl. rewrite eligible_usable in Hl. naive_solver.
  - apply bool_decide_eq_false in E1. rewrite (bool_decide_false (Exists (usable out now) all)) by (by intros ?%He).
    assert (existsb (suppressed out now) all = true ↔ Exists (overridden out now) all) as Hs.
    { rewrite existsb_Exists. apply Exists_proper; [intros e; apply suppressed_overridden|done]. }
    destruct (bool_decide (filter (λ e, IsDraining e = false) all ≠ [])) eqn:E2.
    + apply bool_decide_eq_true in E2. destruct (pickFrom_spec p _ t E2 Hr) as (e & Hl & H2 & _). exists e.
      destruct (pickFrom p _ t) as [p' o]; cbn [fst snd] in *. subst o. cbn [from_option].
      destruct (failOpen_spec out now (existsb (suppressed out now) all) e t) as (-> & -> & -> & -> & ->).
      apply list_elem_of_lookup_2, list_elem_of_filter in Hl. naive_solver.
    + apply bool_decide_eq_false in E2. destruct (pickFrom_spec p _ t Hall Hr) as (e & Hl & H2 & _). exists e.
      destruct (pickFrom p _ t) as [p' o]; cbn [fst snd] in *. subst o. cbn [from_option].
      destruct (failOpen_spec out now (existsb (suppressed out now) all) e t) as (-> & -> & -> & -> & ->).
      apply list_elem_of_lookup_2 in Hl. naive_solver.
Qed.

(** C8. Safety: [Pick] on a non-empty pool always answers with an endpoint of
    the pool.  It is one that is healthy, not draining, not ejected and not
    an outlier whenever such an endpoint exists; only otherwise it fails
    open, and then never to a draining endpoint while another one exists,
    reporting exactly whether the endpoint was ejected and whether outlier
    ejections were overridden.  Nothing limits how often it fails open. *)
Theorem pool_pick_safe p out mapOrder now t :
  pool_wf p → endpoints p ≠ ∅ → mapOrder_ok p mapOrder → 0 ≤ rr p < 2 ^ 64 →
  ∃ e, endpoints p !! Addr (Pick p out mapOrder now t).2 = Some e ∧
       pick_spec out now (pickCandidates p mapOrder) e (Pick p out mapOrder now t).2.
Proof.
  intros Hwf Hne Hm Hr. destruct (Pick_chooses p out mapOrder now t Hne) as [e He]; [by apply pickCandidates_nonempty|done|].
  exists e. split; [|done]. destruct He as (-> & Hin & _). by eapply pickCandidates_in.
Qed.

Definition example_config : Config := mkConfig "" (5 * Second) Second 3 2 Second (30 * Second).
Definition example_pool : PoolRuntime :=
  (Reconcile (NewPoolRuntime "p" example_config Second) ["a:1"; "b:1"; "c:1"] example_config Second (λ _, 0)).1.

Lemma pool_pick_safe_witness :
  ∃ e, endpoints example_pool !! Addr (Pick example_pool None ["a:1"; "b:1"; "c:1"] 7 8).2 = Some e.
Proof.
  destruct (pool_pick_safe example_pool None ["a:1"; "b:1"; "c:1"] 7 8) as (e & He & _); [..|by exists e].
  - apply map_Forall_to_list. vm_compute. repeat constructor.
  - vm_compute. discriminate.
  - apply NoDup_Permutation; [apply (bool_decide_unpack _); vm_compute; exact I|apply NoDup_fst_map_to_list|].
    intros x. vm_compute (map_to_list _). vm_compute. set_solver.
  - vm_compute. split; congruence.
Defined.

(** ** Round robin *)

Fixpoint pickMany (p : PoolRuntime) (out : option (string → Time → bool)) (mapOrder : list string) (now : Time)
    (seen : list Time) : PoolRuntime * list string :=
  match seen with
  | [] => (p, [])
  | t :: seen =>
      let '(p, res) := Pick p out mapOrder now t in
      let '(p, rest) := pickMany p out mapOrder now seen in (p, Addr res :: rest)
  end.

Definition eligibleAddrs (p : PoolRuntime) (out : option (string → Time → bool)) (mapOrder : list string) (now : Time) : list string :=
  addr <$> filter (λ e, eligible out now e = true) (pickCandidates p mapOrder).

(** The stamp of the last pick is all that a pick changes in an endpoint. *)
Definition strip (e : EndpointRuntime) : EndpointRuntime := e <| lastSeen := 0 |>.

Lemma omap_lookup_strip (m m' : gmap string EndpointRuntime) (l : list string) :
  strip <$> m = strip <$> m' → strip <$> omap (λ a, m !! a) l = strip <$> omap (λ a, m' !! a) l.
Proof.
  intros H. induction l as [|a l IH]; [done|].
  assert (strip <$> m !! a = strip <$> m' !! a) as Ha by (by rewrite <- !lookup_fmap, H).
  change (strip <$> (match m !! a with Some y => y :: omap (λ a, m !! a) l | None => omap (λ a, m !! a) l end) =
          strip <$> (match m' !! a with Some y => y :: omap (λ a, m' !! a) l | None => omap (λ a, m' !! a) l end)).
  destruct (m !! a), (m' !! a); try discriminate; [|done]. rewrite !fmap_cons, IH. f_equal. by apply (inj Some) in Ha.
Qed.

Lemma eligibleAddrs_strip p p' out mapOrder now :
  strip <$> endpoints p = strip <$> endpoints p' → order p = order p' →
  eligibleAddrs p out mapOrder now = eligibleAddrs p' out mapOrder now.
Proof.
  intros He Ho. unfold eligibleAddrs.
  assert (strip <$> pickCandidates p mapOrder = strip <$> pickCandidates p' mapOrder) as Hc.
  { unfold pickCandidates. rewrite Ho.
    pose proof (omap_lookup_strip _ _ (order p') He) as H1. pose proof (omap_lookup_strip _ _ mapOrder He) as H2.
    by destruct (omap _ (order p')), (omap _ (order p')). }
  revert Hc. generalize (pickCandidates p mapOrder) (pickCandidates p' mapOrder). intros l.
  induction l as [|e l IH]; intros [|e' l'] Hc; try done. rewrite !fmap_cons in Hc.
  apply (inj2 cons) in Hc as [H1 H2].
  assert (eligible out now e = eligible out now e' ∧ addr e = addr e') as [Hel Ha].
  { destruct e, e'; unfold strip in H1; simpl in H1; injection H1; intros; subst; done. }
  rewrite !filter_cons, Hel. specialize (IH _ H2). case_decide; [|done]. rewrite !fmap_cons. congruence.
Qed.

Lemma alter_strip (m : gmap string EndpointRuntime) a t : strip <$> alter (λ e, MarkSeen e t) a m = strip <$> m.
Proof.
  apply map_eq. intros b. rewrite !lookup_fmap. destruct (decide (a = b)) as [->|].
  - rewrite lookup_alter_eq. by destruct (m !! b).
  - by rewrite lookup_alter_ne.
Qed.

(** One pick when some endpoint is eligible. *)
Lemma Pick_eligible p out mapOrder now t :
  eligibleAddrs p out mapOrder now ≠ [] → 0 ≤ rr p < 2 ^ 64 →
  let addrs := eligibleAddrs p out mapOrder now in
  let res := Pick p out mapOrder now t in
  addrs !! Z.to_nat (rr p `mod` len addrs) = Some (Addr res.2) ∧
  rr res.1 = u64 (rr p + 1) ∧ eligibleAddrs res.1 out mapOrder now = addrs.
Proof.
  intros Hne Hr. unfold eligibleAddrs in *. cbn zeta.
  set (elig := filter (λ e, eligible out now e = true) (pickCandidates p mapOrder)) in *.
  assert (elig ≠ []) as Hel by (by intros E; rewrite E in Hne).
  unfold Pick. rewrite decide_False.
  2: { intros E. apply Hel. subst elig. unfold pickCandidates. rewrite E.
       assert (∀ l : list string, omap (λ a, (∅ : gmap string EndpointRuntime) !! a) l = []) as Hz.
       { induction l; cbn; rewrite ?lookup_empty; done. }
       by rewrite !Hz. }
  cbn zeta. fold elig. rewrite (bool_decide_true (elig ≠ [])) by done.
  destruct (pickFrom_spec p elig t Hel Hr) as (e & Hl & H2 & H1).
  destruct (pickFrom p elig t) as [p' o]; cbn [fst snd from_option] in *. subst o p'. repeat split.
  - unfold len. rewrite length_fmap. fold (len elig). rewrite list_lookup_fmap, Hl. done.
  - apply (eligibleAddrs_strip _ p out mapOrder now); [apply alter_strip|done].
Qed.

(** The [i]-th address served by a run of picks. *)
Lemma pickMany_lookup p out mapOrder now seen i :
  eligibleAddrs p out mapOrder now ≠ [] → 0 ≤ rr p → rr p + len seen < 2 ^ 64 → (i < List.length seen)%nat →
  (pickMany p out mapOrder now seen).2 !! i =
  eligibleAddrs p out mapOrder now !! Z.to_nat ((rr p + Z.of_nat i) `mod` len (eligibleAddrs p out mapOrder now)).
Proof.
  revert p i. induction seen as [|t seen IH]; intros p i Hne Hr Hb Hi; [simpl in Hi; lia|].
  rewrite len_cons in Hb. pose proof (len_nonneg seen). cbn [pickMany].
  destruct (Pick_eligible p out mapOrder now t Hne ltac:(lia)) as (Ha & Hrr & He).
  destruct (Pick p out mapOrder now t) as [p' res]; cbn [fst snd] in *.
  rewrite u64_small in Hrr by lia. specialize (IH p').
  destruct (pickMany p' out mapOrder now seen) as [p'' rest]; cbn [fst snd] in *.
  destruct i as [|i]; simpl.
  - rewrite Z.add_0_r. by rewrite Ha.
  - rewrite IH; [|congruence|lia|lia|simpl in Hi; lia]. rewrite He, Hrr. f_equal. f_equal. f_equal. lia.
Qed.

Lemma pickMany_length p out mapOrder now seen : List.length (pickMany p out mapOrder now seen).2 = List.length seen.
Proof.
  revert p. induction seen as [|t seen IH]; intros p; cbn [pickMany]; [done|].
  destruct (Pick p out mapOrder now t) as [p' res]. specialize (IH p').
  destruct (pickMany p' out mapOrder now seen); simpl in *. congruence.
Qed.

(** Reading a list cyclically from [r], once round, gives its rotation. *)
Lemma cyclic_read {A} (l l' : list A) (r : Z) :
  l ≠ [] → 0 ≤ r → List.length l' = List.length l →
  (∀ i, (i < List.length l)%nat → l' !! i = l !! Z.to_nat ((r + Z.of_nat i) `mod` len l)) →
  l' = drop (Z.to_nat (r `mod` len l)) l ++ take (Z.to_nat (r `mod` len l)) l.
Proof.
  intros Hl Hr Hlen Hi. assert (0 < len l) as Hn by (unfold len; destruct l; [done|simpl; lia]).
  pose proof (Z.mod_pos_bound r (len l) Hn) as Hm. set (k := Z.to_nat (r `mod` len l)).
  assert (Z.of_nat k = r `mod` len l) as Hk by (subst k; lia).
  apply list_eq. intros i. destruct (decide (i < List.length l)%nat) as [Hlt|Hge].
  2: { rewrite !lookup_ge_None_2; [done| |lia]. rewrite length_app, length_drop, length_take. lia. }
  rewrite Hi by done. rewrite <- Zplus_mod_idemp_l, <- Hk. unfold len in *.
  destruct (decide (k + i < List.length l)%nat) as [Hlt2|Hge2].
  - rewrite Z.mod_small by lia. rewrite lookup_app_l by (rewrite length_drop; lia).
    rewrite lookup_drop. f_equal. lia.
  - rewrite lookup_app_r by (rewrite length_drop; lia). rewrite length_drop, lookup_take_lt by lia.
    f_equal. replace (Z.of_nat k + Z.of_nat i) with (Z.of_nat (k + i - List.length l) + 1 * Z.of_nat (List.length l)) by lia.
    rewrite Z_mod_plus_full, Z.mod_small by lia. lia.
Qed.

(** Functional (fairness): while the set of eligible endpoints is stable,
    any run of as many picks as there are eligible endpoints serves each of
    them exactly once, in rotation from the current counter. *)
Theorem pool_round_robin_fair p out mapOrder now seen :
  let addrs := eligibleAddrs p out mapOrder now in
  addrs ≠ [] → 0 ≤ rr p → rr p + len addrs < 2 ^ 64 → len seen = len addrs →
  let k := Z.to_nat (rr p `mod` len addrs) in
  (pickMany p out mapOrder now seen).2 = drop k addrs ++ take k addrs ∧
  (pickMany p out mapOrder now seen).2 ≡ₚ addrs.
Proof.
  intros addrs Hne Hr Hb Hlen k. assert (List.length seen = List.length addrs) as Hl by (unfold len in Hlen; lia).
  assert ((pickMany p out mapOrder now seen).2 = drop k addrs ++ take k addrs) as ->.
  { apply cyclic_read; [done..|by rewrite pickMany_length|]. intros i Hi. apply pickMany_lookup; [done|done|lia|lia]. }
  split; [done|]. rewrite Permutation_app_comm. by rewrite take_drop.
Qed.

Lemma pool_round_robin_fair_witness :
  (pickMany example_pool None [] 7 [1; 2; 3]).2 ≡ₚ eligibleAddrs example_pool None [] 7.
Proof. apply pool_round_robin_fair; vm_compute; congruence. Defined.

(** The fail-open "trickle" of one request a second that the README promises
    is a flood: a pool whose endpoints are all ejected serves a thousand
    requests at the same instant. *)
Example pool_fail_open_unlimited :
  let p := example_pool <| endpoints ::= fmap (λ e, e <| ejectUntil := Minute |>) |> in
  eligibleAddrs p None [] 7 = [] ∧ Forall (λ a, is_Some (endpoints p !! a)) (pickMany p None [] 7 (replicate 1000 7)).2 ∧
  length (pickMany p None [] 7 (replicate 1000 7)).2 = 1000%nat.
Proof. split_and!; [vm_compute; reflexivity| |vm_compute; reflexivity]. apply (bool_decide_unpack _). vm_compute. exact I. Qed.

(** ** Draining and in-flight requests *)

Inductive pool_event :=
| PReconcile (addrs : list string) (cfg : Config) (timeout : Duration) (now : string → Time)
| PPick (out : option (string → Time → bool)) (mapOrder : list string) (now t : Time)
| PReap (now : Time)
| PInflightInc (a : string)
| PInflightDec (a : string)
| PProbe (a : string) (o : probeOutcome) (now : Time)
| PPassiveSuccess (a : string)
| PPassiveFailure (a : string) (now : Time).

Definition with_endpoint (p : PoolRuntime) (a : string) (f : EndpointRuntime → EndpointRuntime) : PoolRuntime :=
  p <| endpoints ::= alter f a |>.

Definition pool_step (p : PoolRuntime) (ev : pool_event) : PoolRuntime :=
  match ev with
  | PReconcile addrs cfg timeout now => (Reconcile p addrs cfg timeout now).1
  | PPick out mapOrder now t => (Pick p out mapOrder now t).1
  | PReap now => (Reap p now).1
  | PInflightInc a => with_endpoint p a InflightInc
  | PInflightDec a => with_endpoint p a InflightDec
  | PProbe a o now => with_endpoint p a (λ e, probeTick e o now)
  | PPassiveSuccess a => with_endpoint p a RecordPassiveSuccess
  | PPassiveFailure a now => with_endpoint p a (λ e, RecordPassiveFailure e now)
  end.

Definition delta (a : string) (ev : pool_event) : Z :=
  match ev with
  | PInflightInc b => if decide (a = b) then 1 else 0
  | PInflightDec b => if decide (a = b) then -1 else 0
  | _ => 0
  end.
Definition balance (a : string) (evs : list pool_event) : Z := foldr (λ ev n, delta a ev + n) 0 evs.

Lemma active_inflight e cfg :
  inflight (startActiveLocked e cfg) = inflight e ∧ inflight (stopActiveLocked e) = inflight e ∧
  state (startActiveLocked e cfg) = state e ∧ state (stopActiveLocked e) = state e ∧
  drainUntil (startActiveLocked e cfg) = drainUntil e ∧ drainUntil (stopActiveLocked e) = drainUntil e ∧
  addr (startActiveLocked e cfg) = addr e ∧ addr (stopActiveLocked e) = addr e.
Proof. unfold startActiveLocked, stopActiveLocked. repeat case_match; done. Qed.

Lemma restart_inflight e cfg :
  inflight (restartActive e cfg) = inflight e ∧ state (restartActive e cfg) = state e ∧
  drainUntil (restartActive e cfg) = drainUntil e ∧ addr (restartActive e cfg) = addr e.
Proof.
  unfold restartActive. destruct (active_inflight (stopActiveLocked e) cfg) as (-> & _ & -> & _ & -> & _ & -> & _).
  destruct (active_inflight e cfg) as (_ & -> & _ & -> & _ & -> & _ & ->). done.
Qed.

Lemma Restore_inflight e : inflight (Restore e) = inflight e.
Proof. unfold Restore. case_match; [|done]. etrans; [apply restart_inflight|done]. Qed.
Lemma MarkDraining_inflight e d t : inflight (MarkDraining e d t) = inflight e.
Proof. unfold MarkDraining, stopActive. case_match; [done|]. etrans; [apply (active_inflight _ (config e))|done]. Qed.
Lemma eject_inflight e cfg now : inflight (eject e cfg now) = inflight e.
Proof. unfold eject. simpl. by case_match. Qed.
Lemma passiveFailure_inflight e now : inflight (RecordPassiveFailure e now) = inflight e.
Proof. unfold RecordPassiveFailure. repeat case_match; rewrite ?eject_inflight; done. Qed.
Lemma probeTick_inflight e o now : inflight (probeTick e o now) = inflight e.
Proof.
  unfold probeTick, RecordActiveSuccess, RecordActiveFailure. repeat case_match; rewrite ?eject_inflight; done.
Qed.

Lemma reconcileEndpoint_lookup cfg m b a e :
  m !! a = Some e → ∃ e', reconcileEndpoint cfg m b !! a = Some e' ∧ inflight e' = inflight e.
Proof.
  intros Ha. unfold reconcileEndpoint. destruct (decide (a = b)) as [->|Hne].
  - rewrite Ha, lookup_insert_eq. eexists. split; [done|]. rewrite Restore_inflight. unfold EndpointUpdateConfig.
    etrans; [apply restart_inflight|done].
  - destruct (m !! b); rewrite lookup_insert_ne by done; eauto.
Qed.

Lemma Reconcile_keeps p addrs cfg timeout now a e :
  endpoints p !! a = Some e →
  ∃ e', endpoints (Reconcile p addrs cfg timeout now).1 !! a = Some e' ∧ inflight e' = inflight e.
Proof.
  intros Ha. unfold Reconcile. simpl.
  assert (∃ e', foldl (reconcileEndpoint cfg) (endpoints p) addrs !! a = Some e' ∧ inflight e' = inflight e) as (e' & He & Hi).
  { revert Ha. generalize (endpoints p) e. induction addrs as [|b l IH]; intros m e0 Ha; simpl; [eauto|].
    destruct (reconcileEndpoint_lookup cfg m b a e0 Ha) as (e1 & H1 & <-). by apply IH. }
  rewrite map_lookup_imap, He. simpl. eexists. split; [done|]. case_decide; rewrite ?MarkDraining_inflight; done.
Qed.

Lemma Pick_endpoints p out mapOrder now t :
  ∃ b, endpoints (Pick p out mapOrder now t).1 = endpoints p ∨
       endpoints (Pick p out mapOrder now t).1 = alter (λ e, MarkSeen e t) b (endpoints p).
Proof.
  unfold Pick, pickFrom. cbn zeta. case_decide; [by exists ""; left|].
  repeat case_match; simplify_eq/=; first [by eexists; right|by exists ""; left].
Qed.

Lemma pool_step_keeps p ev a e :
  endpoints p !! a = Some e → inflight e ≠ 0 → inflight e + delta a ev ≠ 0 → Z.abs (inflight e) < max_i64 →
  ∃ e', endpoints (pool_step p ev) !! a = Some e' ∧ inflight e' = inflight e + delta a ev.
Proof.
  intros Ha Hi Hd Hm.
  assert (∀ b f, (∀ e, inflight (f e) = inflight e) →
    ∃ e', alter f b (endpoints p) !! a = Some e' ∧ inflight e' = inflight e + 0) as Halt.
  { intros b f Hf. destruct (decide (a = b)) as [->|].
    - rewrite lookup_alter_eq, Ha. simpl. eexists. split; [done|]. rewrite Hf. lia.
    - rewrite lookup_alter_ne by done. eexists. split; [done|]. lia. }
  destruct ev as [addrs cfg timeout now|out mo now t|now|b|b|b o now|b|b now]; cbn [pool_step delta with_endpoint] in *.
  - rewrite Z.add_0_r. by apply Reconcile_keeps.
  - destruct (Pick_endpoints p out mo now t) as (b & [->| ->]); [|by apply Halt]. eexists. split; [done|]. lia.
  - simpl. rewrite map_lookup_filter, Ha. simpl. rewrite option_guard_True.
    2: { unfold reapable, Inflight. destruct (Z.eqb_spec (inflight e) 0); [done|]. by rewrite andb_false_r. }
    eexists. split; [done|]. lia.
  - simpl. case_decide as Hab; [subst b|].
    + rewrite lookup_alter_eq, Ha. simpl. eexists. split; [done|]. simpl. by rewrite i64_small by lia.
    + rewrite lookup_alter_ne by done. eexists. split; [done|]. lia.
  - simpl. case_decide as Hab; [subst b|].
    + rewrite lookup_alter_eq, Ha. simpl. eexists. split; [done|]. simpl. by rewrite i64_small by lia.
    + rewrite lookup_alter_ne by done. eexists. split; [done|]. lia.
  - apply Halt. intros. apply probeTick_inflight.
  - by apply Halt.
  - apply Halt. intros. apply passiveFailure_inflight.
Qed.

(** Safety: an endpoint with requests in flight is never lost.  Whatever
    reconciliations, reaps, picks, probes and reports happen (the endpoint
    may be removed from the configuration and past its drain deadline), as
    long as its in-flight count does not return to zero the endpoint stays in
    the pool and its count is exact. *)
Theorem pool_inflight_retained p evs a e :
  endpoints p !! a = Some e →
  (∀ k, 0 < inflight e + balance a (take k evs)) → inflight e + len evs < max_i64 →
  ∃ e', endpoints (foldl pool_step p evs) !! a = Some e' ∧ inflight e' = inflight e + balance a evs.
Proof.
  revert p e. induction evs as [|ev evs IH]; intros p e Ha Hk Hb; simpl.
  { exists e. split; [done|]. lia. }
  rewrite len_cons in Hb. pose proof (len_nonneg evs).
  pose proof (Hk 0%nat) as H0. pose proof (Hk 1%nat) as H1. simpl in H0, H1.
  assert (Z.abs (delta a ev) ≤ 1) by (destruct ev; simpl; try case_decide; lia).
  destruct (pool_step_keeps p ev a e Ha) as (e1 & He1 & Hi1); [lia..|].
  destruct (IH _ _ He1) as (e' & He' & Hi').
  - intros k. specialize (Hk (S k)). simpl in Hk. lia.
  - lia.
  - exists e'. split; [done|]. lia.
Qed.

Lemma pool_inflight_retained_witness :
  ∃ e', endpoints (foldl pool_step (with_endpoint example_pool "a:1" InflightInc)
          [PReconcile ["b:1"] example_config Second (λ _, 5); PInflightInc "a:1"; PReap (100 * Second)]) !! "a:1" = Some e'
        ∧ inflight e' = 1 + 1.
Proof.
  apply (pool_inflight_retained (with_endpoint example_pool "a:1" InflightInc)
    [PReconcile ["b:1"] example_config Second (λ _, 5); PInflightInc "a:1"; PReap (100 * Second)]
    "a:1" (InflightInc (NewEndpointRuntime "a:1" example_config))).
  - vm_compute. reflexivity.
  - intros [|[|[|k]]]; vm_compute; [reflexivity..|]. by destruct k.
  - vm_compute. reflexivity.
Defined.

Lemma reconcileEndpoints_other cfg addrs m a :
  a ∉ addrs → foldl (reconcileEndpoint cfg) m addrs !! a = m !! a.
Proof.
  revert m. induction addrs as [|b addrs IH]; intros m Ha; simpl; [done|].
  apply not_elem_of_cons in Ha as [Hne Ha]. rewrite IH by done.
  unfold reconcileEndpoint. destruct (m !! b); by rewrite lookup_insert_ne.
Qed.

Lemma MarkDraining_spec e timeout now :
  IsDraining e = false →
  let e' := MarkDraining e timeout now in
  IsDraining e' = true ∧ inflight e' = inflight e ∧ drainUntil e' = UnixNano (now + timeout) ∧ stopCh e' = None.
Proof.
  unfold IsDraining. intros Hd. cbn zeta. rewrite MarkDraining_inflight. unfold MarkDraining. rewrite Hd.
  unfold stopActive, stopActiveLocked. simpl. destruct (stopCh e) eqn:E; simpl; done.
Qed.

(** Liveness: an endpoint dropped from the configuration starts draining
    (its probe goroutine stops, its in-flight count is kept), and a reap at
    time [t] removes it exactly when the drain timeout has passed and no
    request is in flight. *)
Theorem pool_drain_completes p addrs cfg timeout now a e t :
  endpoints p !! a = Some e → IsDraining e = false → a ∉ addrs →
  0 < now a + timeout ≤ max_i64 → min_i64 ≤ t ≤ max_i64 →
  let p1 := (Reconcile p addrs cfg timeout now).1 in
  (∃ e1, endpoints p1 !! a = Some e1 ∧ IsDraining e1 = true ∧ inflight e1 = inflight e ∧ stopCh e1 = None) ∧
  (endpoints (Reap p1 t).1 !! a = None ↔ now a + timeout ≤ t ∧ inflight e = 0).
Proof.
  intros Ha Hd Hin Hu Ht p1. destruct (MarkDraining_spec e timeout (now a) Hd) as (H1 & H2 & H3 & H4).
  assert (endpoints p1 !! a = Some (MarkDraining e timeout (now a))) as Hp1.
  { subst p1. unfold Reconcile. simpl. rewrite map_lookup_imap, reconcileEndpoints_other, Ha by done.
    simpl. by rewrite decide_False. }
  clearbody p1. split; [by eexists|]. simpl. rewrite map_lookup_filter, Hp1. simpl.
  revert H1 H2 H3. generalize (MarkDraining e timeout (now a)). intros e1 H1 H2 H3.
  assert (reapable t e1 = true ↔ now a + timeout ≤ t ∧ inflight e = 0) as Hr.
  { unfold reapable, DrainDeadlineReached, Inflight, UnixNano in *. rewrite H1, H2, H3, !i64_small by lia. lia. }
  case_guard as Hg; simpl; [|naive_solver]. rewrite <- Hr. split; [done|]. by intros ?%Hg.
Qed.

Lemma pool_drain_completes_witness :
  let p1 := (Reconcile example_pool ["b:1"] example_config Second (λ _, 5)).1 in
  endpoints (Reap p1 (2 * Second)).1 !! "a:1" = None.
Proof.
  apply (pool_drain_completes example_pool ["b:1"] example_config Second (λ _, 5) "a:1"
           (NewEndpointRuntime "a:1" example_config) (2 * Second));
    [reflexivity|reflexivity|set_solver|vm_compute; split; congruence..].
Defined.

(** ** The pool invariant *)

(** Every configured address has an endpoint, and it is not draining. *)
Definition pool_ok (p : PoolRuntime) : Prop :=
  pool_wf p ∧ 0 ≤ rr p < 2 ^ 64 ∧
  Forall (λ a, ∃ e, endpoints p !! a = Some e ∧ IsDraining e = false) (order p).

(** What every operation on a single endpoint respects. *)
Definition gentle (f : EndpointRuntime → EndpointRuntime) : Prop :=
  ∀ e, addr (f e) = addr e ∧ (IsDraining e = false → IsDraining (f e) = false).

Lemma eject_state e cfg now : addr (eject e cfg now) = addr e ∧ IsDraining (eject e cfg now) = false.
Proof. unfold eject, IsDraining. simpl. by case_match. Qed.

Lemma gentle_passiveFailure now : gentle (λ e, RecordPassiveFailure e now).
Proof.
  intros e. unfold RecordPassiveFailure. destruct (IsDraining e) eqn:E; [done|]. cbn zeta.
  case_match; [|done]. split; [|intros _]; etrans; [apply eject_state|done|apply eject_state|done].
Qed.
Lemma gentle_probeTick o now : gentle (λ e, probeTick e o now).
Proof.
  intros e. unfold probeTick, RecordActiveSuccess, RecordActiveFailure. destruct (stopCh e); [|done].
  destruct (safeProbe o); (destruct (IsDraining e) eqn:E; [done|]); cbn zeta; (case_match; [|done]); [done|].
  split; [|intros _]; etrans; [apply eject_state|done|apply eject_state|done].
Qed.
Lemma gentle_inc : gentle InflightInc. Proof. done. Qed.
Lemma gentle_dec : gentle InflightDec. Proof. done. Qed.
Lemma gentle_passiveSuccess : gentle RecordPassiveSuccess. Proof. done. Qed.
Lemma gentle_seen t : gentle (λ e, MarkSeen e t). Proof. done. Qed.
#[export] Hint Resolve gentle_passiveFailure gentle_probeTick gentle_inc gentle_dec gentle_passiveSuccess gentle_seen : proxy.

Lemma alter_ok p f a : gentle f → pool_ok p → pool_ok (with_endpoint p a f).
Proof.
  intros Hf (Hwf & Hr & Ho). unfold with_endpoint. split; [|split]; simpl; [|done|].
  - intros b e. simpl. destruct (decide (a = b)) as [->|].
    + rewrite lookup_alter_eq. intros (e0 & He & ->)%fmap_Some. rewrite (proj1 (Hf e0)). by apply Hwf.
    + rewrite lookup_alter_ne by done. apply Hwf.
  - eapply Forall_impl; [exact Ho|]. intros b (e & He & Hd). simpl. destruct (decide (a = b)) as [->|].
    + rewrite lookup_alter_eq, He. simpl. eexists. split; [done|]. by apply Hf.
    + rewrite lookup_alter_ne by done. eauto.
Qed.

Lemma Pick_frame p out mapOrder now t :
  let p' := (Pick p out mapOrder now t).1 in
  order p' = order p ∧ (rr p' = rr p ∨ rr p' = u64 (rr p + 1)).
Proof.
  unfold Pick, pickFrom. cbn zeta. case_decide; [by auto|].
  repeat case_match; simplify_eq/=; auto.
Qed.

Lemma Pick_ok p out mapOrder now t : pool_ok p → pool_ok (Pick p out mapOrder now t).1.
Proof.
  intros Hok. destruct (Pick_frame p out mapOrder now t) as [Ho Hr].
  assert (0 ≤ rr (Pick p out mapOrder now t).1 < 2 ^ 64) as Hrr.
  { destruct Hok as (_ & ? & _), Hr as [->| ->]; [done|]. apply Z.mod_pos_bound. lia. }
  destruct (Pick_endpoints p out mapOrder now t) as (b & [He|He]).
  - destruct Hok as (Hwf & _ & Hf). unfold pool_ok, pool_wf. by rewrite He, Ho.
  - destruct (alter_ok p (λ e, MarkSeen e t) b) as (Hwf & _ & Hf); [by auto with proxy|done|].
    unfold pool_ok, pool_wf in *. simpl in *. by rewrite He, Ho.
Qed.

Lemma Reap_ok p now : pool_ok p → pool_ok (Reap p now).1.
Proof.
  intros (Hwf & Hr & Ho). split; [|split]; simpl; [|done|].
  - intros a e [He _]%map_lookup_filter_Some. by apply Hwf.
  - eapply Forall_impl; [exact Ho|]. intros b (e & He & Hd). simpl. exists e. split; [|done].
    apply map_lookup_filter_Some. split; [done|]. simpl. unfold reapable. by rewrite Hd.
Qed.

Lemma Restore_state e cfg :
  addr (Restore (EndpointUpdateConfig e cfg)) = addr e ∧ IsDraining (Restore (EndpointUpdateConfig e cfg)) = false.
Proof.
  unfold Restore, EndpointUpdateConfig, IsDraining.
  pose proof (restart_inflight (e <| config := cfg |>) cfg) as (_ & Hs & _ & Ha). simpl in *.
  case_match eqn:E; [|by rewrite Ha, E].
  match goal with |- context [restartActive ?x ?c] => pose proof (restart_inflight x c) as (_ & Hs' & _ & Ha') end.
  simpl in *. by rewrite Ha', Hs', Ha.
Qed.
Lemma New_state a cfg : addr (NewEndpointRuntime a cfg) = a ∧ IsDraining (NewEndpointRuntime a cfg) = false.
Proof. unfold NewEndpointRuntime, IsDraining, startActive, startActiveLocked. simpl. by case_match. Qed.

Definition active_at (m : gmap string EndpointRuntime) (a : string) : Prop :=
  ∃ e, m !! a = Some e ∧ IsDraining e = false.

Lemma reconcileEndpoint_wf cfg m a :
  map_Forall (λ a e, addr e = a) m → map_Forall (λ a e, addr e = a) (reconcileEndpoint cfg m a).
Proof.
  intros Hm. unfold reconcileEndpoint. destruct (m !! a) as [e|] eqn:He; apply map_Forall_insert_2; try done.
  - rewrite (proj1 (Restore_state e cfg)). by apply Hm.
  - apply New_state.
Qed.
Lemma reconcileEndpoint_active cfg m a : active_at (reconcileEndpoint cfg m a) a.
Proof.
  unfold active_at, reconcileEndpoint. destruct (m !! a); rewrite lookup_insert_eq; eexists; (split; [done|]);
    [apply Restore_state|apply New_state].
Qed.
Lemma reconcileEndpoint_keeps_active cfg m a b : active_at m b → active_at (reconcileEndpoint cfg m a) b.
Proof.
  destruct (decide (a = b)) as [->|]; [intros _; apply reconcileEndpoint_active|].
  unfold active_at, reconcileEndpoint. destruct (m !! a); by rewrite lookup_insert_ne.
Qed.
Lemma reconcileEndpoints_keep_active cfg addrs m b : active_at m b → active_at (foldl (reconcileEndpoint cfg) m addrs) b.
Proof. revert m. induction addrs; simpl; auto using reconcileEndpoint_keeps_active. Qed.

Lemma reconcileEndpoints_ok cfg addrs m :
  map_Forall (λ a e, addr e = a) m →
  map_Forall (λ a e, addr e = a) (foldl (reconcileEndpoint cfg) m addrs) ∧
  Forall (active_at (foldl (reconcileEndpoint cfg) m addrs)) addrs.
Proof.
  revert m. induction addrs as [|a addrs IH]; intros m Hm; simpl; [done|].
  destruct (IH _ (reconcileEndpoint_wf cfg m a Hm)) as [H1 H2]. split; [done|]. apply Forall_cons. split; [|done].
  apply reconcileEndpoints_keep_active, reconcileEndpoint_active.
Qed.

Lemma MarkDraining_addr e d t : addr (MarkDraining e d t) = addr e.
Proof. unfold MarkDraining, stopActive. case_match; [done|]. etrans; [apply (active_inflight _ (config e))|done]. Qed.

Lemma Reconcile_ok p addrs cfg timeout now : pool_ok p → pool_ok (Reconcile p addrs cfg timeout now).1.
Proof.
  intros (Hwf & Hr & _). destruct (reconcileEndpoints_ok cfg addrs (endpoints p) Hwf) as [H1 H2].
  split; [|split]; simpl; [|done|].
  - intros a e. simpl. rewrite map_lookup_imap. intros (e0 & He & [= <-])%bind_Some.
    case_decide; [|rewrite MarkDraining_addr]; by apply H1.
  - apply Forall_forall. intros a Ha. rewrite Forall_forall in H2. destruct (H2 a Ha) as (e & He & Hd).
    exists e. rewrite map_lookup_imap, He. simpl. by rewrite decide_True.
Qed.

(** The configured addresses after an event. *)
Definition order_after (p : PoolRuntime) (ev : pool_event) : list string :=
  match ev with PReconcile addrs _ _ _ => addrs | _ => order p end.

Lemma pool_step_ok p ev : pool_ok p → pool_ok (pool_step p ev) ∧ order (pool_step p ev) = order_after p ev.
Proof.
  intros Hok. destruct ev; cbn [pool_step order_after]; (split; [|try done]); auto using Reconcile_ok, Pick_ok, Reap_ok.
  all: first [apply Pick_frame | apply alter_ok; auto with proxy].
Qed.

Lemma New_ok k cfg d : pool_ok (NewPoolRuntime k cfg d).
Proof. split; [|split]; simpl; [apply map_Forall_empty|lia|done]. Qed.

(** A pick from a pool that satisfies the invariant. *)
Lemma Pick_configured p out mapOrder now t :
  pool_ok p → order p ≠ [] →
  ∃ e, endpoints p !! Addr (Pick p out mapOrder now t).2 = Some e ∧
       Addr (Pick p out mapOrder now t).2 ∈ order p ∧ IsDraining e = false.
Proof.
  intros (Hwf & Hr & Ho) Hne.
  assert (pickCandidates p mapOrder = omap (λ a, endpoints p !! a) (order p) ∧ pickCandidates p mapOrder ≠ []) as [Hc Hc0].
  { unfold pickCandidates. destruct (order p) as [|a l]; [done|]. apply Forall_cons in Ho as [(e & He & _) _].
    cbn. rewrite He. done. }
  assert (endpoints p ≠ ∅) as He0.
  { intros E. destruct (order p) as [|a l]; [done|]. apply Forall_cons in Ho as [(e & He & _) _]. by rewrite E, lookup_empty in He. }
  destruct (Pick_chooses p out mapOrder now t He0 Hc0 Hr) as (e & Ha & Hin & _).
  rewrite Hc in Hin. apply lookup_omap_elem in Hin as (a & Hao & Hae).
  rewrite Ha, (Hwf _ _ Hae). exists e. split; [done|]. split; [done|].
  rewrite Forall_forall in Ho. destruct (Ho a Hao) as (e' & He' & Hd). congruence.
Qed.
