(* ===== verification/Transport.v ===== *)
(** * Upstream transports (internal/transport/transport.go, pool.go, drain.go)

    An [http.Transport] is a connection pool of the standard library; here it
    is its identity together with the options it was built from.  Idle
    connections are closed by a call recorded in [idleClosed], most recent
    first. *)
From S2P Require Import Prelude.

Record Options := mkOptions {
  DialTimeout : Duration;
  TLSHandshakeTimeout : Duration;
  ResponseHeaderTimeout : Duration;
  ExpectContinueTimeout : Duration;
  IdleConnTimeout : Duration;
  MaxIdleConns : Z;
  MaxIdleConnsPerHost : Z;
  MaxConnsPerHost : Z
}.
#[export] Instance Options_eta : Eta Options := fun o =>
  mkOptions (DialTimeout o) (TLSHandshakeTimeout o) (ResponseHeaderTimeout o) (ExpectContinueTimeout o)
    (IdleConnTimeout o) (MaxIdleConns o) (MaxIdleConnsPerHost o) (MaxConnsPerHost o).

Definition DefaultOptions : Options :=
  mkOptions Second (5 * Second) (5 * Second) Second (90 * Second) 10000 256 0.

Definition normalizeOptions (o : Options) : Options :=
  mkOptions
    (or_default (DialTimeout o) (DialTimeout DefaultOptions))
    (or_default (TLSHandshakeTimeout o) (TLSHandshakeTimeout DefaultOptions))
    (or_default (ResponseHeaderTimeout o) (ResponseHeaderTimeout DefaultOptions))
    (or_default (ExpectContinueTimeout o) (ExpectContinueTimeout DefaultOptions))
    (or_default (IdleConnTimeout o) (IdleConnTimeout DefaultOptions))
    (or_default (MaxIdleConns o) (MaxIdleConns DefaultOptions))
    (or_default (MaxIdleConnsPerHost o) (MaxIdleConnsPerHost DefaultOptions))
    (if MaxConnsPerHost o <? 0 then 0 else MaxConnsPerHost o).

(** [tid] is the pointer, [topts] the options the transport runs with. *)
Record transport := mkTransport { tid : nat; topts : Options }.

Record transportEntry := mkEntry {
  entry_transport : transport;
  entry_opts : Options;
  lastUsed : Time;
  lastReconciled : Time;
  draining : bool;
  removedAt : Time
}.
#[export] Instance transportEntry_eta : Eta transportEntry := fun e =>
  mkEntry (entry_transport e) (entry_opts e) (lastUsed e) (lastReconciled e) (draining e) (removedAt e).

Record Registry := mkRegistry {
  transports : gmap string transportEntry;
  defaultOpts : Options;
  ttl : Duration;
  reapInterval : Duration;
  stopped : bool;
  nextId : nat;
  idleClosed : list nat
}.
#[export] Instance Registry_eta : Eta Registry := fun r =>
  mkRegistry (transports r) (defaultOpts r) (ttl r) (reapInterval r) (stopped r) (nextId r) (idleClosed r).

Definition defaultTransportTTL : Duration := 10 * Minute.
Definition defaultTransportReapInterval : Duration := Minute.

Definition NewRegistry (timeToLive interval : Duration) : Registry :=
  mkRegistry ∅ DefaultOptions (or_default timeToLive defaultTransportTTL)
    (or_default interval defaultTransportReapInterval) false 0 [].

Definition NewTransport (r : Registry) (o : Options) : Registry * transport :=
  (r <| nextId ::= S |>, mkTransport (nextId r) (normalizeOptions o)).

Definition safeCloseIdle (r : Registry) (t : option transport) : Registry :=
  match t with None => r | Some t => r <| idleClosed ::= cons (tid t) |> end.

Definition mergeOptions (defaults override : Options) : Options :=
  let pos x d := if 0 <? x then x else d in
  mkOptions
    (pos (DialTimeout override) (DialTimeout defaults))
    (pos (TLSHandshakeTimeout override) (TLSHandshakeTimeout defaults))
    (pos (ResponseHeaderTimeout override) (ResponseHeaderTimeout defaults))
    (pos (ExpectContinueTimeout override) (ExpectContinueTimeout defaults))
    (pos (IdleConnTimeout override) (IdleConnTimeout defaults))
    (pos (MaxIdleConns override) (MaxIdleConns defaults))
    (pos (MaxIdleConnsPerHost override) (MaxIdleConnsPerHost defaults))
    (if 0 <=? MaxConnsPerHost override then MaxConnsPerHost override else MaxConnsPerHost defaults).

Definition optionsEqual (a b : Options) : bool :=
  (DialTimeout a =? DialTimeout b) &&
  (TLSHandshakeTimeout a =? TLSHandshakeTimeout b) &&
  (ResponseHeaderTimeout a =? ResponseHeaderTimeout b) &&
  (ExpectContinueTimeout a =? ExpectContinueTimeout b) &&
  (IdleConnTimeout a =? IdleConnTimeout b) &&
  (MaxIdleConns a =? MaxIdleConns b) &&
  (MaxIdleConnsPerHost a =? MaxIdleConnsPerHost b) &&
  (MaxConnsPerHost a =? MaxConnsPerHost b).

(** [Get] and [Reconcile] read the clock once per stored stamp. *)
Definition Get (r : Registry) (poolKey : string) (t1 t2 : Time) : Registry * option transport :=
  if decide (poolKey = "") then (r, None)
  else match transports r !! poolKey with
  | None =>
      let '(r, t) := NewTransport r (defaultOpts r) in
      (r <| transports ::= <[poolKey := mkEntry t (defaultOpts r) t1 t2 false zeroTime]> |>, Some t)
  | Some current =>
      (r <| transports ::= <[poolKey := current <| lastUsed := t1 |>]> |>, Some (entry_transport current))
  end.

Definition Reconcile (r : Registry) (poolKey : string) (opts : Options) (t1 t2 : Time) : Registry * option transport :=
  if decide (poolKey = "") then (r, None)
  else
    let opts := mergeOptions (defaultOpts r) opts in
    match transports r !! poolKey with
    | None =>
        let '(r, t) := NewTransport r opts in
        (r <| transports ::= <[poolKey := mkEntry t opts t1 t2 false zeroTime]> |>, Some t)
    | Some current =>
        let '(r, current, old) :=
          if negb (optionsEqual (entry_opts current) opts) then
            let '(r, t) := NewTransport r opts in
            (r, current <| entry_transport := t |> <| entry_opts := opts |>, Some (entry_transport current))
          else (r, current, None) in
        let current := current <| lastReconciled := t1 |> <| draining := false |> <| removedAt := zeroTime |> in
        let r := r <| transports ::= <[poolKey := current]> |> in
        (safeCloseIdle r old, Some (entry_transport current))
    end.

Definition Remove (r : Registry) (poolKey : string) (now : Time) : Registry :=
  if decide (poolKey = "") then r
  else match transports r !! poolKey with
  | None => r
  | Some current =>
      let r := r <| transports ::= <[poolKey := current <| draining := true |> <| removedAt := now |>]> |> in
      safeCloseIdle r (Some (entry_transport current))
  end.

Definition CloseIdleConnections (r : Registry) (poolKey : string) : Registry :=
  if decide (poolKey = "") then r
  else safeCloseIdle r (entry_transport <$> transports r !! poolKey).

Definition closeIdleList (r : Registry) (l : list transport) : Registry := foldl (λ r t, safeCloseIdle r (Some t)) r l.
Definition CloseIdleConnectionsAll (r : Registry) : Registry :=
  closeIdleList r ((λ ke, entry_transport ke.2) <$> map_to_list (transports r)).
Definition CloseAll (r : Registry) : Registry :=
  let entries := (λ ke, entry_transport ke.2) <$> map_to_list (transports r) in
  closeIdleList (r <| transports := ∅ |>) entries.
Definition Has (r : Registry) (poolKey : string) : bool :=
  bool_decide (poolKey ≠ "") && bool_decide (is_Some (transports r !! poolKey)).
Definition SetTTL (r : Registry) (d : Duration) : Registry := r <| ttl := or_default d defaultTransportTTL |>.
Definition Stop (r : Registry) : Registry := r <| stopped := true |>.

Definition expired (r : Registry) (now : Time) (e : transportEntry) : bool :=
  draining e && negb ((0 <? ttl r) && (time_Sub now (removedAt e) <? ttl r)).
Definition reapOnce (r : Registry) (now : Time) : Registry :=
  let gone := filter (λ ke, expired r now ke.2 = true) (map_to_list (transports r)) in
  closeIdleList (r <| transports ::= filter (λ ke, ¬ expired r now ke.2 = true) |>) ((λ ke, entry_transport ke.2) <$> gone).
Definition ReapNow : Registry → Time → Registry := reapOnce.
Definition reapTick (r : Registry) (now : Time) : Registry := if stopped r then r else reapOnce r now.

(** ** Connection reuse across configuration changes *)

Inductive event :=
| EGet (k : string) (t1 t2 : Time)
| EReconcile (k : string) (opts : Options) (t1 t2 : Time)
| ERemove (k : string) (now : Time)
| ECloseIdle (k : string)
| ECloseIdleAll
| ESetTTL (d : Duration)
| EReap (now : Time)
| EStop.

Definition step (r : Registry) (ev : event) : Registry :=
  match ev with
  | EGet k t1 t2 => (Get r k t1 t2).1
  | EReconcile k o t1 t2 => (Reconcile r k o t1 t2).1
  | ERemove k now => Remove r k now
  | ECloseIdle k => CloseIdleConnections r k
  | ECloseIdleAll => CloseIdleConnectionsAll r
  | ESetTTL d => SetTTL r d
  | EReap now => reapOnce r now
  | EStop => Stop r
  end.

(** The events that keep pool [k] configured with options [o]. *)
Definition keeps (k : string) (o : Options) (ev : event) : Prop :=
  match ev with
  | EReconcile k' o' _ _ => k' = k → mergeOptions DefaultOptions o' = o
  | ERemove k' _ => k' ≠ k
  | _ => True
  end.

(** [k] is served by transport [t], configured with [o] and not draining. *)
Definition serves (r : Registry) (k : string) (t : transport) (o : Options) : Prop :=
  defaultOpts r = DefaultOptions ∧
  ∃ e, transports r !! k = Some e ∧ entry_transport e = t ∧ entry_opts e = o ∧ draining e = false.

Lemma optionsEqual_spec a b : optionsEqual a b = true ↔ a = b.
Proof.
  unfold optionsEqual. rewrite !andb_true_iff, !Z.eqb_eq. destruct a, b; simpl.
  split; [naive_solver|]. by intros [= -> -> -> -> -> -> -> ->].
Qed.

Lemma closeIdleList_frame r l :
  transports (closeIdleList r l) = transports r ∧ defaultOpts (closeIdleList r l) = defaultOpts r.
Proof. revert r. induction l as [|t l IH]; intros r; [done|]. exact (IH (r <| idleClosed ::= cons (tid t) |>)). Qed.

Lemma step_serves k t o r ev : serves r k t o → keeps k o ev → serves (step r ev) k t o.
Proof.
  intros (Hd & e & He & Ht & Ho & Hdr) Hk. unfold serves.
  destruct ev as [k' t1 t2|k' o' t1 t2|k' now|k'| |d|now|]; simpl in *.
  - unfold Get. case_decide; [by eauto 8|]. destruct (decide (k' = k)) as [->|Hne].
    + rewrite He. simpl. split; [done|]. rewrite lookup_insert_eq. eauto 8.
    + destruct (transports r !! k'); simpl; (split; [done|]); rewrite lookup_insert_ne by done; eauto 8.
  - unfold Reconcile. case_decide; [by eauto 8|]. destruct (decide (k' = k)) as [->|Hne].
    + rewrite He, Hd, Hk by done. rewrite Ho, (proj2 (optionsEqual_spec o o) eq_refl). simpl.
      split; [done|]. rewrite lookup_insert_eq. eauto 8.
    + destruct (transports r !! k') as [c|]; [|simpl; split; [done|]; rewrite lookup_insert_ne by done; eauto 8].
      destruct (optionsEqual _ _); simpl; (split; [done|]); rewrite lookup_insert_ne by done; eauto 8.
  - unfold Remove. case_decide; [by eauto 8|]. destruct (transports r !! k'); [|by eauto 8]. simpl.
    split; [done|]. rewrite lookup_insert_ne by done. eauto 8.
  - unfold CloseIdleConnections. case_decide; [by eauto 8|]. destruct (transports r !! k'); simpl; eauto 8.
  - unfold CloseIdleConnectionsAll. destruct (closeIdleList_frame r ((λ ke, entry_transport ke.2) <$> map_to_list (transports r))) as [-> ->]. eauto 8.
  - eauto 8.
  - unfold reapOnce. cbn zeta. match goal with |- context [closeIdleList ?r' ?l] => destruct (closeIdleList_frame r' l) as [-> ->] end.
    simpl. split; [done|]. exists e. rewrite map_lookup_filter, He. simpl. rewrite option_guard_True; [done|].
    unfold expired. by rewrite Hdr.
  - eauto 8.
Qed.

Lemma step_defaultOpts r ev : defaultOpts (step r ev) = defaultOpts r.
Proof.
  destruct ev as [k a b|k o a b|k now|k| |d|now|]; simpl; try done.
  - unfold Get. case_decide; [done|]. by destruct (transports r !! k).
  - unfold Reconcile. case_decide; [done|]. destruct (transports r !! k); [|done]. by destruct (optionsEqual _ _).
  - unfold Remove. case_decide; [done|]. by destruct (transports r !! k).
  - unfold CloseIdleConnections. case_decide; [done|]. by destruct (transports r !! k).
  - apply closeIdleList_frame.
  - etrans; [apply closeIdleList_frame|done].
Qed.

(** Functional: configuration reloads keep connections.  From the moment a
    pool is reconciled with some options, every later [Get] returns the same
    transport as long as reloads keep the pool and its effective options,
    whatever else happens in the registry (other pools being changed, added
    or removed, idle connections closed, reaps, TTL changes). *)
Theorem transport_survives_reload evs0 evs k opts t1 t2 t3 t4 :
  k ≠ "" → Forall (keeps k (mergeOptions DefaultOptions opts)) evs →
  let '(r, t) := Reconcile (foldl step (NewRegistry 0 0) evs0) k opts t1 t2 in
  (Get (foldl step r evs) k t3 t4).2 = t ∧ t ≠ None.
Proof.
  intros Hk Hevs. set (r0 := foldl step (NewRegistry 0 0) evs0).
  assert (defaultOpts r0 = DefaultOptions) as Hd0.
  { assert (defaultOpts (NewRegistry 0 0) = DefaultOptions) as H by done.
    subst r0. revert H. generalize (NewRegistry 0 0). induction evs0 as [|ev evs0 IH]; intros r H; simpl; [done|].
    apply IH. by rewrite step_defaultOpts. }
  assert (∃ t, (Reconcile r0 k opts t1 t2).2 = Some t ∧
               serves (Reconcile r0 k opts t1 t2).1 k t (mergeOptions DefaultOptions opts)) as (t & Ht & Hs).
  { unfold Reconcile. rewrite decide_False, Hd0 by done.
    destruct (transports r0 !! k) as [c|] eqn:Hc.
    - destruct (optionsEqual (entry_opts c) _) eqn:He; simpl.
      + apply optionsEqual_spec in He. eexists. split; [done|]. split; [done|]. simpl.
        simpl. rewrite lookup_insert_eq. eauto 8.
      + eexists. split; [done|]. split; [done|]. simpl. rewrite lookup_insert_eq. eauto 8.
    - simpl. eexists. split; [done|]. split; [done|]. simpl. rewrite lookup_insert_eq. eauto 8. }
  destruct (Reconcile r0 k opts t1 t2) as [r o]; simpl in *. subst o. split; [|done].
  assert (serves (foldl step r evs) k t (mergeOptions DefaultOptions opts)) as (Hd & e & He & Hte & _).
  { revert r Hs. induction Hevs as [|ev evs Hev Hevs IH]; intros r Hs; simpl; [done|]. by apply IH, step_serves. }
  unfold Get. rewrite decide_False, He by done. simpl. congruence.
Qed.

Lemma transport_survives_reload_witness :
  let '(r, t) := Reconcile (foldl step (NewRegistry 0 0) []) "p" DefaultOptions 1 2 in
  (Get (foldl step r [ERemove "q" 3; EReconcile "p" DefaultOptions 4 5; EReap 6]) "p" 7 8).2 = t ∧ t ≠ None.
Proof.
  apply transport_survives_reload; [discriminate|]. repeat constructor; discriminate.
Defined.
