(* ===== verification/Registry.v ===== *)
(** * The pool registry (internal/registry/registry.go)

    Pools by key together with the transport registry.  The clock readings
    of one call are the fields of [clock]. *)
From S2P Require Import Prelude.
From S2P Require Import Eject.
From S2P Require Import Health.
From S2P Require Import Pool.
From S2P Require Import Transport.

Definition defaultReapInterval : Duration := 50 * Millisecond.
Definition defaultDrainTimeout : Duration := 200 * Millisecond.

Record Registry := mkRegistry {
  pools : gmap string PoolRuntime;
  transports : Transport.Registry;
  reapInterval : Duration;
  drainTimeout : Duration;
  stopped : bool
}.
#[export] Instance Registry_eta : Eta Registry := fun r =>
  mkRegistry (pools r) (transports r) (reapInterval r) (drainTimeout r) (stopped r).

Definition NewRegistry (interval timeout : Duration) : Registry :=
  mkRegistry ∅ (Transport.NewRegistry 0 0) (or_default interval defaultReapInterval)
    (or_default timeout defaultDrainTimeout) false.

Definition getPool (r : Registry) (k : string) : option PoolRuntime := pools r !! k.
Definition endpoint (r : Registry) (k a : string) : option EndpointRuntime := getPool r k ≫= λ p, Endpoint p a.

(** The pool is a pointer: what happens to it is visible in the map. *)
Definition putPool (r : Registry) (k : string) (p : PoolRuntime) : Registry := r <| pools ::= <[k := p]> |>.

Definition Reconcile (r : Registry) (k : string) (addrs : list string) (cfg : Config) (opts : Options)
    (drainAt : string → Time) (t1 t2 : Time) : Registry :=
  let p := default (NewPoolRuntime k cfg (drainTimeout r)) (pools r !! k) in
  let '(p, endpointRemoved) := Pool.Reconcile p addrs cfg (drainTimeout r) drainAt in
  let r := putPool r k p in
  let r := r <| transports ::= (λ tr, (Transport.Reconcile tr k opts t1 t2).1) |> in
  if endpointRemoved then r <| transports ::= (λ tr, Transport.CloseIdleConnections tr k) |> else r.

Definition emptyPick : PickResult := mkPickResult "" false false false false.

Definition Pick (r : Registry) (k : string) (out : option (string → Time → bool)) (mapOrder : list string) (now t : Time)
    : Registry * (PickResult * bool) :=
  match getPool r k with
  | None => (r, (emptyPick, false))
  | Some p => let '(p, res) := Pool.Pick p out mapOrder now t in (putPool r k p, (res, true))
  end.

(** A method of the endpoint [a] of pool [k], when it exists. *)
Definition onEndpoint (r : Registry) (k a : string) (f : EndpointRuntime → EndpointRuntime) : Registry :=
  match endpoint r k a with
  | None => r
  | Some _ => r <| pools ::= alter (λ p, with_endpoint p a f) k |>
  end.
Definition InflightStart (r : Registry) (k a : string) : Registry := onEndpoint r k a InflightInc.
Definition InflightDone (r : Registry) (k a : string) : Registry := onEndpoint r k a InflightDec.
Definition PassiveFailure (r : Registry) (k a : string) (now : Time) : Registry :=
  onEndpoint r k a (λ e, RecordPassiveFailure e now).
Definition PassiveSuccess (r : Registry) (k a : string) : Registry := onEndpoint r k a RecordPassiveSuccess.
Definition HasEndpoint (r : Registry) (k a : string) : bool := bool_decide (is_Some (endpoint r k a)).

Definition Close (r : Registry) : Registry :=
  if stopped r then r else r <| stopped := true |> <| transports ::= Transport.Stop |>.
Definition Stop (r : Registry) : Registry :=
  let r := Close r in
  let r := r <| transports ::= Transport.CloseAll |> in
  r <| pools ::= fmap (λ p, (PoolStop p).1) |>.

Definition GetTransport (r : Registry) (k : string) (t1 t2 : Time) : Registry * option transport :=
  let '(tr, t) := Transport.Get (transports r) k t1 t2 in (r <| transports := tr |>, t).
Definition HasTransport (r : Registry) (k : string) : bool := Transport.Has (transports r) k.
Definition CloseIdleConnections (r : Registry) : Registry := r <| transports ::= Transport.CloseIdleConnectionsAll |>.
Definition SetTransportTTL (r : Registry) (d : Duration) : Registry := r <| transports ::= (λ tr, SetTTL tr d) |>.
Definition ReapTransportsNow (r : Registry) (now : Time) : Registry := r <| transports ::= (λ tr, ReapNow tr now) |>.

Definition PrunePools (r : Registry) (desired : gset string) (now : string → Time) : Registry :=
  let removed := filter (λ kp, kp.1 ∉ desired) (pools r) in
  let r := r <| pools ::= filter (λ kp, kp.1 ∈ desired) |> in
  r <| transports ::= (λ tr, foldl (λ tr k, Transport.Remove tr k (now k)) tr (map_to_list removed).*1) |>.

Definition reapOnce (r : Registry) (now : Time) : Registry := r <| pools ::= fmap (λ p, (Reap p now).1) |>.
Definition reapTick (r : Registry) (now : Time) : Registry := if stopped r then r else reapOnce r now.

(** ** Histories *)

Inductive event :=
| EReconcile (k : string) (addrs : list string) (cfg : Config) (opts : Options) (drainAt : string → Time) (t1 t2 : Time)
| EPick (k : string) (out : option (string → Time → bool)) (mapOrder : list string) (now t : Time)
| EInflightStart (k a : string)
| EInflightDone (k a : string)
| EPassiveFailure (k a : string) (now : Time)
| EPassiveSuccess (k a : string)
| EProbe (k a : string) (o : probeOutcome) (now : Time)
| EGetTransport (k : string) (t1 t2 : Time)
| EPrune (desired : gset string) (now : string → Time)
| EReap (now : Time)
| EClose.

Definition step (r : Registry) (ev : event) : Registry :=
  match ev with
  | EReconcile k addrs cfg opts d t1 t2 => Reconcile r k addrs cfg opts d t1 t2
  | EPick k out mo now t => (Pick r k out mo now t).1
  | EInflightStart k a => InflightStart r k a
  | EInflightDone k a => InflightDone r k a
  | EPassiveFailure k a now => PassiveFailure r k a now
  | EPassiveSuccess k a => PassiveSuccess r k a
  | EProbe k a o now => onEndpoint r k a (λ e, probeTick e o now)
  | EGetTransport k t1 t2 => (GetTransport r k t1 t2).1
  | EPrune desired now => PrunePools r desired now
  | EReap now => reapTick r now
  | EClose => Close r
  end.

(** The configuration the history has applied: the addresses of every pool. *)
Definition configure (c : gmap string (list string)) (ev : event) : gmap string (list string) :=
  match ev with
  | EReconcile k addrs _ _ _ _ _ => <[k := addrs]> c
  | EPrune desired _ => filter (λ kv, kv.1 ∈ desired) c
  | _ => c
  end.

(** The registry holds exactly the configured pools, each satisfying the
    pool invariant with its configured addresses. *)
Definition registry_ok (r : Registry) (c : gmap string (list string)) : Prop :=
  ∀ k, match pools r !! k, c !! k with
       | Some p, Some addrs => pool_ok p ∧ order p = addrs
       | None, None => True
       | _, _ => False
       end.

(** A write that keeps a pool's invariant and addresses. *)
Lemma put_ok r c k p addrs :
  registry_ok r c → pool_ok p → order p = addrs →
  registry_ok (putPool r k p) (<[k := addrs]> c).
Proof.
  intros H Hp Ho k'. unfold putPool. simpl. destruct (decide (k = k')) as [<-|].
  - by rewrite !lookup_insert_eq.
  - rewrite !lookup_insert_ne by done. apply H.
Qed.
Lemma same_pools_ok r r' c : pools r' = pools r → registry_ok r c → registry_ok r' c.
Proof. intros E H k. rewrite E. apply H. Qed.

Lemma onEndpoint_ok r c k a f : gentle f → registry_ok r c → registry_ok (onEndpoint r k a f) c.
Proof.
  intros Hf H. unfold onEndpoint. destruct (endpoint r k a); [|done]. intros k'. specialize (H k'). simpl.
  destruct (decide (k = k')) as [<-|]; [|by rewrite lookup_alter_ne].
  rewrite lookup_alter_eq. destruct (pools r !! k), (c !! k); simpl; try done.
  destruct H as [H <-]. split; [by apply alter_ok|done].
Qed.

Lemma step_ok r c ev : registry_ok r c → registry_ok (step r ev) (configure c ev).
Proof.
  intros H. destruct ev as [k addrs cfg opts d t1 t2|k out mo now t|k a|k a|k a now|k a|k a o now|k t1 t2|desired now|now|];
    cbn [step configure]; try (apply onEndpoint_ok; by auto with proxy).
  - unfold Reconcile. set (p := default _ _).
    assert (pool_ok p) as Hp.
    { subst p. specialize (H k). destruct (pools r !! k); simpl; [|apply New_ok]. destruct (c !! k); [apply H|done]. }
    pose proof (pool_step_ok p (PReconcile addrs cfg (drainTimeout r) d) Hp) as [H1 H2]. cbn [pool_step order_after] in *.
    destruct (Pool.Reconcile p addrs cfg (drainTimeout r) d) as [p' rem]; simpl in *.
    apply (same_pools_ok (putPool r k p')); [by destruct rem|]. by apply put_ok.
  - unfold Pick, getPool. destruct (pools r !! k) as [p|] eqn:Hk; [|done].
    pose proof (H k) as Hp. rewrite Hk in Hp. destruct (c !! k) as [addrs|] eqn:Hc; [|done]. destruct Hp as [Hp Ho].
    pose proof (pool_step_ok p (PPick out mo now t) Hp) as [H1 H2]. cbn [pool_step order_after] in *.
    destruct (Pool.Pick p out mo now t) as [p' res]; simpl in *.
    rewrite <- (insert_id c k addrs) by done. apply put_ok; [done..|congruence].
  - unfold GetTransport. by destruct (Get (transports r) k t1 t2).
  - intros k. simpl. rewrite !map_lookup_filter. specialize (H k).
    destruct (pools r !! k), (c !! k); simpl; try done. by case_guard.
  - unfold reapTick. destruct (stopped r); [done|]. intros k. simpl. rewrite lookup_fmap. specialize (H k).
    destruct (pools r !! k), (c !! k); simpl; try done. destruct H. split; [by apply Reap_ok|done].
  - unfold Close. by destruct (stopped r).
Qed.

(** Functional: traffic goes to the configured endpoints only.  In every
    history of the registry (reloads, picks, probes, failures, reaps and
    prunes in any order), picking from a configured pool succeeds and answers
    one of the addresses of its last reconciliation, which is in the pool and
    not draining; picking from a pool that is not configured is refused. *)
Theorem registry_pick_configured interval timeout evs k out mapOrder now t :
  let r := foldl step (NewRegistry interval timeout) evs in
  match foldl configure ∅ evs !! k with
  | None => Pick r k out mapOrder now t = (r, (emptyPick, false))
  | Some [] => True
  | Some addrs =>
      let '(res, ok) := (Pick r k out mapOrder now t).2 in
      ok = true ∧ Addr res ∈ addrs ∧
      ∃ e, endpoint r k (Addr res) = Some e ∧ IsDraining e = false
  end.
Proof.
  intros r.
  assert (registry_ok r (foldl configure ∅ evs)) as H.
  { assert (registry_ok (NewRegistry interval timeout) ∅) as H0 by done.
    subst r. revert H0. generalize (NewRegistry interval timeout) (∅ : gmap string (list string)).
    induction evs as [|ev evs IH]; intros r c H0; simpl; [done|]. by apply IH, step_ok. }
  specialize (H k). unfold Pick, getPool.
  destruct (pools r !! k) as [p|] eqn:Hk, (foldl configure ∅ evs !! k) as [[|a addrs]|]; try done.
  destruct H as [Hp Ho]. destruct (Pick_configured p out mapOrder now t Hp) as (e & He & Hin & Hd); [by rewrite Ho|].
  destruct (Pool.Pick p out mapOrder now t) as [p' res]; simpl in *. split; [done|]. split; [by rewrite <- Ho|].
  exists e. unfold endpoint, getPool. by rewrite Hk.
Qed.

(** ** In-flight accounting across a prune

    [InflightStart] and [InflightDone] find the endpoint by name when they
    run.  A request that is in flight while its pool is pruned and then
    configured again ends by decrementing the counter of the new endpoint. *)

Definition reload (k : string) (addrs : list string) : event :=
  EReconcile k addrs example_config DefaultOptions (λ _, 0) 0 0.

(** Safety, violated: a pool that is removed and configured again while a
    request is in flight ends with an in-flight count of -1, after which the
    endpoint is never reaped: it stays draining for ever once it is dropped
    from the configuration, at whatever time the reaper runs. *)
Theorem registry_prune_breaks_inflight now :
  let r := foldl step (NewRegistry 0 0)
    [reload "p" ["a:1"; "b:1"]; EInflightStart "p" "a:1"; EPrune ∅ (λ _, 0); reload "p" ["a:1"; "b:1"];
     EInflightDone "p" "a:1"; reload "p" ["b:1"]] in
  ∃ e, endpoint (step r (EReap now)) "p" "a:1" = Some e ∧ inflight e = -1 ∧ IsDraining e = true.
Proof.
  intros r. set (e := MarkDraining (InflightDec (NewEndpointRuntime "a:1" example_config)) (200 * Millisecond) 0).
  assert (endpoint r "p" "a:1" = Some e ∧ stopped r = false) as [He Hs] by (vm_compute; done).
  clearbody r. exists e. split; [|vm_compute; done]. cbn [step]. unfold reapTick. rewrite Hs.
  unfold endpoint, getPool, reapOnce in *. simpl. rewrite lookup_fmap.
  apply bind_Some in He as (p & Hp & He). rewrite Hp. simpl. unfold Endpoint in *. simpl.
  apply map_lookup_filter_Some. split; [done|]. cbn [snd].
  unfold reapable. change (Inflight e =? 0) with false. by rewrite andb_false_r.
Qed.
