(* ===== verification/Retry.v ===== *)
(** * Retry budgets and retry decisions (internal/retry/budget.go, classify.go, clientcap.go)

    A [Budget] earns a fraction of a token per success, accumulated in
    float64.  [ClientCap] keeps one budget per client in an LRU list; budgets
    are shared by pointer with the requests that use them, so they live in a
    heap and the list holds their addresses. *)
From S2P Require Import Prelude.
From S2P Require Import GoFloat.
From S2P Require Import GoStrings.
From S2P Require Import GoError.
From S2P Require Import Http.
From S2P Require Import Policy.

Record Budget := mkBudget { percent : float64; burst : Z; tokens : Z; accumulator : float64 }.
#[export] Instance Budget_eta : Eta Budget := fun b => mkBudget (percent b) (burst b) (tokens b) (accumulator b).

Definition NewBudget (pct brst : Z) : Budget :=
  mkBudget (f64_div (f64_of_Z pct) (f64_of_Z 100)) brst 0 f64_zero.

Definition RecordSuccess (b : Budget) : Budget :=
  if f64_le (percent b) f64_zero || (burst b <=? 0) then b
  else
    let b := b <| accumulator ::= (λ a, f64_add a (percent b)) |> in
    if f64_lt (accumulator b) (f64_of_Z 1) then b
    else
      let add := f64_to_int (accumulator b) in
      let b := b <| accumulator ::= (λ a, f64_sub a (f64_of_Z add)) |> in
      let b := b <| tokens ::= (λ n, i64 (n + add)) |> in
      if burst b <? tokens b then b <| tokens := burst b |> else b.

Definition Consume (b : Budget) : Budget * bool :=
  if tokens b <=? 0 then (b, false) else (b <| tokens ::= (λ n, n - 1) |>, true).

(** ** Client budgets *)

Definition anonymousClient : string := "anonymous".

(** [order] is the list from front to back; a list element is identified by
    the address of its bucket's budget. *)
Record ClientCap := mkClientCap {
  cap_percent : Z;
  cap_burst : Z;
  lruSize : Z;
  items : gmap string nat;
  order : list (string * nat);
  heap : gmap nat Budget;
  nextLoc : nat
}.
#[export] Instance ClientCap_eta : Eta ClientCap := fun c =>
  mkClientCap (cap_percent c) (cap_burst c) (lruSize c) (items c) (order c) (heap c) (nextLoc c).

Definition NewClientCap (pct brst size : Z) : ClientCap := mkClientCap pct brst size ∅ [] ∅ 0.

Definition moveToFront (loc : nat) (l : list (string * nat)) : list (string * nat) :=
  filter (λ x, x.2 = loc) l ++ filter (λ x, x.2 ≠ loc) l.

Definition Bucket (c : ClientCap) (key : string) : ClientCap * nat :=
  let key := if decide (key = "") then anonymousClient else key in
  match items c !! key with
  | Some loc => (c <| order ::= moveToFront loc |>, loc)
  | None =>
      let loc := nextLoc c in
      let c := c <| heap ::= <[loc := NewBudget (cap_percent c) (cap_burst c)]> |> <| nextLoc ::= S |> in
      let c := c <| order ::= cons (key, loc) |> <| items ::= <[key := loc]> |> in
      if (0 <? lruSize c) && (lruSize c <? len (order c)) then
        match last (order c) with
        | None => (c, loc)
        | Some oldest => (c <| order ::= (λ l, take (List.length l - 1) l) |> <| items ::= delete oldest.1 |>, loc)
        end
      else (c, loc)
  end.

(** [ClientKey] for a non-nil request. *)
Definition ClientKey (req : Request) (p : ClientRetryCapPolicy) : string :=
  let key := TrimSpace (Key p) in
  if decide (key = "") then anonymousClient
  else if EqualFold key "ip" then
    let fallback := if decide (RemoteAddr req ≠ "") then RemoteAddr req else anonymousClient in
    match SplitHostPort (RemoteAddr req) with
    | Some (host, _) => if decide (host ≠ "") then host else fallback
    | None => fallback
    end
  else
    let lower := ToLower key in
    if HasPrefix lower "header:" then
      let headerName := TrimSpace (String.substring 7 (String.length key - 7) key) in
      if decide (headerName = "") then anonymousClient
      else
        let value := header_Get (ReqHeader req) headerName in
        if decide (value = "") then anonymousClient else value
    else anonymousClient.

(** ** Classification *)

Definition IsIdempotentMethod (method : string) : bool :=
  existsb (String.eqb method) ["GET"; "HEAD"; "PUT"; "DELETE"; "OPTIONS"; "TRACE"].

(** On a non-nil request. *)
Definition IsReplayableBody (req : Request) : bool :=
  bool_decide (ReqBody req = None) || (ContentLength req =? 0).

Definition ClassifyError (err : option error) : string * bool :=
  match err with
  | None => ("", false)
  | Some err =>
      if bool_decide (asOpError err = Some "dial") then ("dial", true)
      else if bool_decide (asNetError err = Some true) then ("timeout", true)
      else if Is err DeadlineExceeded then ("timeout", true)
      else if Is err ECONNRESET then ("reset", true)
      else if Is err EOF || Is err ErrUnexpectedEOF then ("eof", true)
      else ("", false)
  end.

Definition ClassifyStatus (status : Z) (p : RetryPolicy) : string * bool :=
  match RetryOnStatus p with
  | None => ("", false)
  | Some _ => if negb (mapGet (RetryOnStatus p) status) then ("", false) else (("status_" ++ Itoa status)%string, true)
  end.

(** ** How much a budget grants *)

(** What [n] successes earn at [p] percent: the accumulator and the tokens,
    with the float64 arithmetic of [RecordSuccess] and no cap. *)
Definition earnStep (pct : float64) (s : float64 * Z) : float64 * Z :=
  let a := f64_add s.1 pct in
  if f64_lt a (f64_of_Z 1) then (a, s.2)
  else let add := f64_to_int a in (f64_sub a (f64_of_Z add), s.2 + add).
Fixpoint earn (pct : float64) (n : nat) : float64 * Z :=
  match n with O => (f64_zero, 0) | S n => earnStep pct (earn pct n) end.

Definition pctOf (p : Z) : float64 := f64_div (f64_of_Z p) (f64_of_Z 100).

(** The tokens stay within one of the exact rate [p * n / 100], never above
    it; checked by evaluation for the first [n] successes. *)
Fixpoint rateOk (p : Z) (pct : float64) (todo : nat) (n : Z) (s : float64 * Z) : bool :=
  match todo with
  | O => true
  | S todo =>
      let s' := earnStep pct s in
      (s.2 <=? s'.2) && (s'.2 <=? p * (n + 1) / 100) && (p * (n + 1) / 100 - 1 <=? s'.2) &&
      rateOk p pct todo (n + 1) s'
  end.

Fixpoint allRates (p : nat) (horizon : nat) : bool :=
  match p with
  | O => true
  | S p' =>
      let pct := pctOf (Z.of_nat p) in
      negb (f64_le pct f64_zero) && rateOk (Z.of_nat p) pct horizon 0 (f64_zero, 0) && allRates p' horizon
  end.

Definition horizon : nat := 100.

Lemma allRates_checked : allRates 100 horizon = true.
Proof. vm_compute. reflexivity. Qed.

Lemma allRates_spec m h p :
  allRates m h = true → 1 ≤ p ≤ Z.of_nat m →
  f64_le (pctOf p) f64_zero = false ∧ rateOk p (pctOf p) h 0 (f64_zero, 0) = true.
Proof.
  induction m as [|m IH]; intros H Hp; [lia|]. cbn [allRates] in H.
  apply andb_true_iff in H as [[H1%negb_true_iff H2]%andb_true_iff H3].
  destruct (decide (p = Z.of_nat (S m))) as [->|]; [done|]. apply IH; [done|lia].
Qed.

Lemma rateOk_spec p todo n k :
  (n < todo)%nat → rateOk p (pctOf p) todo (Z.of_nat k) (earn (pctOf p) k) = true →
  (earn (pctOf p) (k + n)).2 ≤ (earn (pctOf p) (S (k + n))).2 ≤ p * Z.of_nat (S (k + n)) / 100 ∧
  p * Z.of_nat (S (k + n)) / 100 - 1 ≤ (earn (pctOf p) (S (k + n))).2.
Proof.
  revert n k. induction todo as [|todo IH]; intros n k Hn H; [lia|]. cbn [rateOk] in H.
  apply andb_true_iff in H as [[[H1%Z.leb_le H2%Z.leb_le]%andb_true_iff H3%Z.leb_le]%andb_true_iff H4].
  destruct n as [|n].
  - rewrite Nat.add_0_r. cbn [earn]. replace (Z.of_nat (S k)) with (Z.of_nat k + 1) by lia. lia.
  - replace (k + S n)%nat with (S k + n)%nat by lia. apply IH; [lia|].
    replace (Z.of_nat (S k)) with (Z.of_nat k + 1) by lia. exact H4.
Qed.

Lemma earn_rate p n :
  1 ≤ p ≤ 100 → (n < horizon)%nat →
  (earn (pctOf p) n).2 ≤ (earn (pctOf p) (S n)).2 ≤ p * Z.of_nat (S n) / 100 ∧
  p * Z.of_nat (S n) / 100 - 1 ≤ (earn (pctOf p) (S n)).2.
Proof.
  intros Hp Hn. destruct (allRates_spec 100 horizon p allRates_checked) as [_ H]; [lia|].
  exact (rateOk_spec p horizon n 0 Hn H).
Qed.

Lemma earn_bounds p n :
  1 ≤ p ≤ 100 → (n ≤ horizon)%nat → 0 ≤ (earn (pctOf p) n).2 ≤ p * Z.of_nat n / 100 ∧ p * Z.of_nat n / 100 - 1 ≤ (earn (pctOf p) n).2.
Proof.
  intros Hp. induction n as [|n IH]; intros Hn.
  - cbn [earn snd]. change (Z.of_nat 0) with 0. rewrite Z.mul_0_r, Z.div_0_l by lia. lia.
  - specialize (IH ltac:(lia)). pose proof (earn_rate p n Hp ltac:(lia)). lia.
Qed.

(** Histories of a budget: [true] is a success, [false] asks for a retry. *)
Fixpoint budgetRun (b : Budget) (evs : list bool) : Budget * Z :=
  match evs with
  | [] => (b, 0)
  | true :: evs => budgetRun (RecordSuccess b) evs
  | false :: evs =>
      let '(b, ok) := Consume b in
      let '(b, grants) := budgetRun b evs in (b, if ok then grants + 1 else grants)
  end.
Definition successes (evs : list bool) : nat := List.length (filter (λ e, e = true) evs).

(** [b] has seen [n] successes and granted [g] retries. *)
Definition budget_at (p b0 : Z) (n : nat) (g : Z) (b : Budget) : Prop :=
  percent b = pctOf p ∧ burst b = b0 ∧ accumulator b = (earn (pctOf p) n).1 ∧
  0 ≤ tokens b ≤ b0 ∧ tokens b + g ≤ (earn (pctOf p) n).2 ∧
  (g = 0 → Z.min b0 (earn (pctOf p) n).2 ≤ tokens b).

Lemma RecordSuccess_at p b0 n g b :
  1 ≤ p ≤ 100 → 0 < b0 ≤ max_i32 → (n < horizon)%nat → 0 ≤ g →
  budget_at p b0 n g b → budget_at p b0 (S n) g (RecordSuccess b).
Proof.
  intros Hp Hb Hn Hg (H1 & H2 & H3 & H4 & H5 & H6).
  destruct (allRates_spec 100 horizon p allRates_checked) as [Hpos _]; [lia|].
  pose proof (earn_rate p n Hp Hn) as Hr. pose proof (earn_bounds p (S n) Hp ltac:(lia)) as Hr'.
  pose proof (earn_bounds p n Hp ltac:(lia)) as Hr0.
  assert (p * Z.of_nat (S n) / 100 ≤ 200) as H200.
  { unfold horizon in Hn. pose proof (Z.div_mod (p * Z.of_nat (S n)) 100 ltac:(lia)). pose proof (Z.mod_pos_bound (p * Z.of_nat (S n)) 100 ltac:(lia)). nia. }
  unfold RecordSuccess. rewrite H1, Hpos, H2. destruct (Z.leb_spec b0 0); [lia|]. cbn [orb]. simpl. rewrite H1, H3.
  cbn [earn] in Hr, Hr' |- *. unfold budget_at. cbn [earn]. unfold earnStep in *.
  destruct (earn (pctOf p) n) as [a cr]; cbn [fst snd] in *.
  destruct (f64_lt (f64_add a (pctOf p)) (f64_of_Z 1)); cbn [fst snd] in *; simpl.
  - repeat split; try done; lia.
  - rewrite H2. simp_int. destruct (Z.ltb_spec b0 (tokens b + f64_to_int (f64_add a (pctOf p)))); simpl; rewrite ?H2;
      (split; [done|]); (split; [done|]); (split; [done|]); lia.
Qed.

Lemma budgetRun_at p b0 evs n g b :
  1 ≤ p ≤ 100 → 0 < b0 ≤ max_i32 → (n + successes evs ≤ horizon)%nat → 0 ≤ g → budget_at p b0 n g b →
  0 ≤ (budgetRun b evs).2 ∧ budget_at p b0 (n + successes evs) (g + (budgetRun b evs).2) (budgetRun b evs).1.
Proof.
  intros Hp Hb. revert n g b. induction evs as [|[] evs IH]; intros n g b Hn Hg H.
  - cbn. rewrite Z.add_0_r. replace (n + 0)%nat with n by lia. done.
  - unfold successes in *. rewrite filter_cons_True in * by done. cbn [List.length] in *. cbn [budgetRun].
    replace (n + S _)%nat with (S n + List.length (filter (λ e, e = true) evs))%nat by lia.
    apply IH; [lia|done|]. apply RecordSuccess_at; [done..|lia|done|done].
  - unfold successes in *. rewrite filter_cons_False in * by done. cbn [budgetRun].
    unfold Consume. destruct H as (H1 & H2 & H3 & H4 & H5 & H6). destruct (Z.leb_spec (tokens b) 0).
    + destruct (IH n g b Hn Hg) as [IH1 IH2]; [done|]. destruct (budgetRun b evs); simpl in *. done.
    + destruct (IH n (g + 1) (b <| tokens ::= (λ n, n - 1) |>) Hn ltac:(lia)) as [IH1 IH2].
      { unfold budget_at. simpl. repeat split; try done; lia. }
      destruct (budgetRun _ evs) as [b' gr]; simpl in *. split; [lia|].
      replace (g + (gr + 1)) with (g + 1 + gr) by lia. done.
Qed.

(** Bounds: a retry budget of [p] percent never grants more retries than
    [p] percent of the successes it has seen (rounded down), holds between 0
    and [burst] tokens, and without retries has saved all but at most one of
    the tokens it earned, although it accumulates in float64; for any
    interleaving of the first 100 successes with any number of retries. *)
Theorem retry_budget_rate p b0 evs :
  1 ≤ p ≤ 100 → 0 < b0 ≤ max_i32 → (successes evs ≤ 100)%nat →
  let '(b, grants) := budgetRun (NewBudget p b0) evs in
  0 ≤ tokens b ≤ b0 ∧ 0 ≤ grants ≤ p * Z.of_nat (successes evs) / 100 ∧
  (grants = 0 → Z.min b0 (p * Z.of_nat (successes evs) / 100 - 1) ≤ tokens b).
Proof.
  intros Hp Hb Hs.
  destruct (budgetRun_at p b0 evs 0 0 (NewBudget p b0)) as [Hg H]; [done..| |].
  { unfold budget_at, NewBudget. simpl. repeat split; try done; lia. }
  destruct (budgetRun (NewBudget p b0) evs) as [b grants]; simpl in *.
  pose proof (earn_bounds p (successes evs) Hp Hs). destruct H as (_ & _ & _ & ? & ? & H6). repeat split; try lia.
Qed.

Lemma retry_budget_rate_witness :
  let '(b, grants) := budgetRun (NewBudget 10 3) [true; true; false] in
  0 ≤ tokens b ≤ 3 ∧ 0 ≤ grants ≤ 10 * 2 / 100 ∧ (grants = 0 → Z.min 3 (10 * 2 / 100 - 1) ≤ tokens b).
Proof. apply (retry_budget_rate 10 3 [true; true; false]); vm_compute; [split; congruence|split; congruence|lia]. Defined.

(** ** The client LRU *)

Definition clientOf (key : string) : string := if decide (key = "") then anonymousClient else key.

(** The specification: the [size] most recently used distinct clients. *)
Definition touch (size : nat) (l : list string) (k : string) : list string :=
  take size (k :: filter (λ x, x ≠ k) l).

Definition cap_ok (c : ClientCap) : Prop :=
  NoDup (order c).*1 ∧ NoDup (order c).*2 ∧ len (order c) ≤ lruSize c ∧
  (∀ k loc, items c !! k = Some loc ↔ (k, loc) ∈ order c) ∧
  Forall (λ x, (x.2 < nextLoc c)%nat ∧ is_Some (heap c !! x.2)) (order c).

Lemma moveToFront_split l k loc :
  NoDup l.*1 → NoDup l.*2 → (k, loc) ∈ l →
  moveToFront loc l = (k, loc) :: filter (λ x, x.1 ≠ k) l.
Proof.
  intros H1 H2 (l1 & l2 & ->)%list_elem_of_split. unfold moveToFront.
  rewrite fmap_app, fmap_cons in H1. rewrite fmap_app, fmap_cons in H2.
  apply NoDup_app in H1 as (_ & H1a & H1b), H2 as (_ & H2a & H2b).
  apply NoDup_cons in H1b as [H1b _], H2b as [H2b _]. simpl in *.
  assert (Forall (λ x, x.1 ≠ k ∧ x.2 ≠ loc) l1 ∧ Forall (λ x, x.1 ≠ k ∧ x.2 ≠ loc) l2) as [F1 F2].
  { rewrite !Forall_forall. split; intros x Hx; split; intros E.
    - apply (H1a x.1); [apply list_elem_of_fmap; by exists x|rewrite E; left].
    - apply (H2a x.2); [apply list_elem_of_fmap; by exists x|rewrite E; left].
    - apply H1b, list_elem_of_fmap. by exists x.
    - apply H2b, list_elem_of_fmap. by exists x. }
  rewrite !filter_app, (filter_cons_True (λ x, x.2 = loc)), (filter_cons_False (λ x, x.2 ≠ loc)),
    (filter_cons_False (λ x, x.1 ≠ k)) by (simpl; naive_solver).
  assert (∀ l : list (string * nat), Forall (λ x, x.1 ≠ k ∧ x.2 ≠ loc) l →
    filter (λ x, x.2 = loc) l = [] ∧ filter (λ x, x.2 ≠ loc) l = l ∧ filter (λ x, x.1 ≠ k) l = l) as Hf.
  { induction 1 as [|x l [Hx1 Hx2] _ (IH1 & IH2 & IH3)]; [done|].
    rewrite (filter_cons_False (λ x, x.2 = loc)), (filter_cons_True (λ x, x.2 ≠ loc)), (filter_cons_True (λ x, x.1 ≠ k)) by done.
    rewrite IH1, IH2, IH3. done. }
  destruct (Hf l1 F1) as (-> & -> & ->), (Hf l2 F2) as (-> & -> & ->). done.
Qed.

Lemma filter_fst (k : string) (l : list (string * nat)) : (filter (λ x, x.1 ≠ k) l).*1 = filter (λ x, x ≠ k) l.*1.
Proof.
  induction l as [|x l IH]; [done|]. rewrite filter_cons, fmap_cons, filter_cons.
  repeat case_decide; try done. rewrite fmap_cons. by f_equal.
Qed.

Lemma moveToFront_perm loc l : moveToFront loc l ≡ₚ l.
Proof.
  unfold moveToFront. induction l as [|x l IH]; [done|]. rewrite !filter_cons.
  repeat case_decide; try done; simpl; [by rewrite IH|]. by rewrite <- Permutation_middle, IH.
Qed.

Lemma filter_absent (k : string) (l : list string) : k ∉ l → filter (λ x, x ≠ k) l = l.
Proof.
  induction l as [|x l IH]; intros H; [done|]. apply not_elem_of_cons in H as [Hx Hl].
  rewrite filter_cons_True by done. by rewrite IH.
Qed.

Lemma take_all_but_last {A} (l : list A) x : last l = Some x → l = take (List.length l - 1) l ++ [x].
Proof.
  intros H. apply last_Some in H as [l' ->]. rewrite length_app. simpl.
  replace (List.length l' + 1 - 1)%nat with (List.length l') by lia. by rewrite take_app_length.
Qed.

Lemma Bucket_hit c key loc :
  0 < lruSize c → cap_ok c → items c !! clientOf key = Some loc →
  let '(c', loc') := Bucket c key in
  loc' = loc ∧ cap_ok c' ∧ (order c').*1 = touch (Z.to_nat (lruSize c)) (order c).*1 (clientOf key) ∧
  heap c' = heap c ∧ lruSize c' = lruSize c.
Proof.
  intros Hs (H1 & H2 & H3 & H4 & H5) Hi. unfold Bucket. fold (clientOf key). rewrite Hi.
  apply H4 in Hi. split; [done|].
  assert ((moveToFront loc (order c)).*1 = touch (Z.to_nat (lruSize c)) (order c).*1 (clientOf key)) as Ho.
  { rewrite (moveToFront_split _ (clientOf key)) by done. rewrite fmap_cons, filter_fst. unfold touch. simpl.
    rewrite take_ge; [done|]. simpl. rewrite <- filter_fst, length_fmap.
    assert (S (List.length (filter (λ x, x.1 ≠ clientOf key) (order c))) ≤ List.length (order c))%nat.
    { apply (length_filter_lt (λ x, x.1 ≠ clientOf key) _ (clientOf key, loc)); naive_solver. }
    unfold len in H3. lia. }
  pose proof (moveToFront_perm loc (order c)) as Hp. split; [|done].
  split; [|split; [|split; [|split]]]; simpl.
  - by rewrite Hp.
  - by rewrite Hp.
  - unfold len in *. by rewrite Hp.
  - intros k' l'. by rewrite Hp, H4.
  - by rewrite Hp.
Qed.

(** The eviction of the least recently used client. *)
Lemma evict_ok c oldest :
  cap_ok (c <| lruSize ::= (λ n, n + 1) |>) → lruSize c < len (order c) → last (order c) = Some oldest →
  cap_ok (c <| order ::= (λ l, take (List.length l - 1) l) |> <| items ::= delete oldest.1 |>).
Proof.
  destruct c as [pc bu ls it od hp nl]. unfold cap_ok. simpl. intros (H1 & H2 & H3 & H4 & H5) Hgt Hl.
  pose proof (take_all_but_last _ _ Hl) as Ho. set (init := take (List.length od - 1) od) in *. clearbody init. subst od.
  rewrite fmap_app in H1. rewrite fmap_app in H2. apply NoDup_app in H1 as (H1 & H1' & _), H2 as (H2 & _ & _).
  rewrite len_app in H3. apply Forall_app in H5 as [H5 _]. repeat split; try done.
  - unfold len in *. simpl in H3. lia.
  - intros [Hne Hi]%lookup_delete_Some. apply H4 in Hi. apply elem_of_app in Hi as [Hi|Hi]; [done|].
    apply list_elem_of_singleton in Hi as <-. done.
  - intros Hi. apply lookup_delete_Some. split.
    + intros E. apply (H1' k); [apply list_elem_of_fmap; by exists (k, loc)|]. rewrite <- E. left.
    + apply H4. apply elem_of_app. by left.
Qed.

Lemma Bucket_miss c key :
  0 < lruSize c → cap_ok c → items c !! clientOf key = None →
  let '(c', loc') := Bucket c key in
  cap_ok c' ∧ (order c').*1 = touch (Z.to_nat (lruSize c)) (order c).*1 (clientOf key) ∧
  heap c' = <[loc' := NewBudget (cap_percent c) (cap_burst c)]> (heap c) ∧ heap c !! loc' = heap c !! nextLoc c ∧ lruSize c' = lruSize c.
Proof.
  intros Hs (H1 & H2 & H3 & H4 & H5) Hi. unfold Bucket. fold (clientOf key). rewrite Hi.
  set (k := clientOf key) in *. cbn zeta.
  assert (k ∉ (order c).*1) as Hk.
  { intros ([k' l'] & E & Hin)%list_elem_of_fmap. simpl in E. subst k'. apply H4 in Hin. congruence. }
  set (c1 := c <| heap ::= <[nextLoc c := NewBudget (cap_percent c) (cap_burst c)]> |> <| nextLoc ::= S |>
               <| order ::= cons (k, nextLoc c) |> <| items ::= <[k := nextLoc c]> |>).
  assert (cap_ok (c1 <| lruSize ::= (λ n, n + 1) |>)) as Hc1.
  { unfold cap_ok. simpl. repeat split.
    - by apply NoDup_cons.
    - apply NoDup_cons. split; [|done]. intros (x & E & Hin)%list_elem_of_fmap.
      rewrite Forall_forall in H5. apply H5 in Hin as [? _]. lia.
    - rewrite len_cons. lia.
    - destruct (decide (k0 = k)) as [->|Hne].
      + rewrite lookup_insert_eq. intros [= <-]. left.
      + rewrite lookup_insert_ne by done. rewrite H4. by right.
    - intros [[= -> ->]|Hin]%elem_of_cons; [by rewrite lookup_insert_eq|].
      assert (k0 ≠ k) by (intros ->; apply Hk, list_elem_of_fmap; by exists (k, loc)).
      rewrite lookup_insert_ne by done. by apply H4.
    - apply Forall_cons. split; [simpl; split; [lia|rewrite lookup_insert_eq; by eexists]|].
      eapply Forall_impl; [exact H5|]. intros x [Hx1 Hx2]. simpl; split; [lia|]. rewrite lookup_insert_ne by lia. done. }
  assert (len (order c1) = len (order c) + 1) as Hlen by (simpl; by rewrite len_cons).
  assert (touch (Z.to_nat (lruSize c)) (order c).*1 k = take (Z.to_nat (lruSize c)) (k :: (order c).*1)) as Ht.
  { unfold touch. by rewrite filter_absent. }
  change (lruSize c1) with (lruSize c). rewrite Hlen, Ht.
  destruct (Z.ltb_spec 0 (lruSize c)); [|lia]. destruct (Z.ltb_spec (lruSize c) (len (order c) + 1)); cbn [andb].
  - destruct (last (order c1)) as [oldest|] eqn:Hl; [|by apply last_None in Hl].
    split; [apply evict_ok; [done|rewrite Hlen; simpl; lia|done]|]. split; [|done].
    simpl. unfold len in *. replace (Z.to_nat (lruSize c)) with (List.length (order c)) by lia.
    by rewrite Nat.sub_0_r, fmap_take, fmap_cons.
  - split; [|split; [|done]].
    + destruct Hc1 as (? & ? & ? & ? & ?). split; [done|]. split; [done|]. split; [rewrite Hlen; simpl; lia|]. done.
    + simpl. rewrite take_ge; [done|]. simpl. rewrite length_fmap. unfold len in *. lia.
Qed.

Definition useClients (c : ClientCap) (keys : list string) : ClientCap := foldl (λ c k, (Bucket c k).1) c keys.

Lemma useClients_ok c keys :
  0 < lruSize c → cap_ok c →
  let c' := useClients c keys in
  cap_ok c' ∧ (order c').*1 = foldl (touch (Z.to_nat (lruSize c))) (order c).*1 (clientOf <$> keys) ∧ lruSize c' = lruSize c.
Proof.
  revert c. induction keys as [|k keys IH]; intros c Hs Hc; simpl; [done|].
  assert (cap_ok (Bucket c k).1 ∧ (order (Bucket c k).1).*1 = touch (Z.to_nat (lruSize c)) (order c).*1 (clientOf k) ∧
    lruSize (Bucket c k).1 = lruSize c) as (H1 & H2 & H3).
  { destruct (items c !! clientOf k) as [loc|] eqn:Hi.
    - pose proof (Bucket_hit c k loc Hs Hc Hi) as H. destruct (Bucket c k). simpl. naive_solver.
    - pose proof (Bucket_miss c k Hs Hc Hi) as H. destruct (Bucket c k). simpl. naive_solver. }
  destruct (IH (Bucket c k).1) as (I1 & I2 & I3); [lia|done|]. unfold useClients in *.
  rewrite I3, I2, H3, H2. done.
Qed.

(** Refinement: the client cap is an LRU cache of budgets.  After any
    sequence of requests it tracks exactly the [size] most recently seen
    distinct clients (an empty key is the anonymous client), asking again for
    a tracked client returns the very budget it had, and a client that is not
    tracked gets a fresh, empty budget that no tracked client shares. *)
Theorem client_cap_lru pct brst size keys key :
  0 < size →
  let c := useClients (NewClientCap pct brst size) keys in
  let recent := foldl (touch (Z.to_nat size)) [] (clientOf <$> keys) in
  let '(c', loc) := Bucket c key in
  (order c).*1 = recent ∧
  if decide (clientOf key ∈ recent)
  then (clientOf key, loc) ∈ order c ∧ heap c' = heap c
  else loc ∉ (order c).*2 ∧ heap c' = <[loc := NewBudget (cap_percent c) (cap_burst c)]> (heap c).
Proof.
  intros Hs c recent. assert (cap_ok (NewClientCap pct brst size)) as H0.
  { unfold cap_ok, NewClientCap, len. simpl. repeat split; try constructor; try lia; rewrite ?lookup_empty; try done.
    by intros ?%not_elem_of_nil. }
  destruct (useClients_ok (NewClientCap pct brst size) keys Hs H0) as (Hc & Ho & Hl). fold c in Hc, Ho, Hl. cbn [NewClientCap order lruSize] in Ho, Hl.
  change ([].*1) with ([] : list string) in Ho. fold recent in Ho.
  pose proof Hc as (_ & _ & _ & H4 & H5). destruct (items c !! clientOf key) as [loc|] eqn:Hi.
  - pose proof (Bucket_hit c key loc ltac:(lia) Hc Hi) as H. destruct (Bucket c key) as [c' loc'].
    destruct H as (-> & _ & _ & Hh & _). split; [done|]. apply H4 in Hi.
    rewrite decide_True; [done|]. rewrite <- Ho. apply list_elem_of_fmap. by exists (clientOf key, loc).
  - pose proof (Bucket_miss c key ltac:(lia) Hc Hi) as H.
    assert ((Bucket c key).2 = nextLoc c) as Hloc.
    { unfold Bucket. fold (clientOf key). rewrite Hi. repeat case_match; done. }
    destruct (Bucket c key) as [c' loc']. simpl in Hloc. subst loc'. destruct H as (_ & _ & Hh & _). split; [done|].
    rewrite decide_False.
    + split; [|done]. intros (x & E & Hx)%list_elem_of_fmap. rewrite Forall_forall in H5. apply H5 in Hx as [Hx _]. lia.
    + rewrite <- Ho. intros ([k l] & E & Hx)%list_elem_of_fmap. simpl in E. subst k. apply H4 in Hx. congruence.
Qed.

Lemma client_cap_lru_witness :
  let c := useClients (NewClientCap 10 3 2) ["a"; "b"; "a"; ""] in
  let recent := foldl (touch 2) [] (clientOf <$> ["a"; "b"; "a"; ""]) in
  let '(c', loc) := Bucket c "b" in
  (order c).*1 = recent ∧
  if decide (clientOf "b" ∈ recent) then (clientOf "b", loc) ∈ order c ∧ heap c' = heap c
  else loc ∉ (order c).*2 ∧ heap c' = <[loc := NewBudget (cap_percent c) (cap_burst c)]> (heap c).
Proof. exact (client_cap_lru 10 3 2 ["a"; "b"; "a"; ""] "b" eq_refl). Defined.

Example lru_ex : foldl (touch 2) [] (clientOf <$> ["a"; "b"; "a"; ""]) = ["anonymous"; "a"].
Proof. reflexivity. Qed.
