(* ===== verification/RetryExec.v ===== *)
(** * The retry loop (internal/retry/retry.go)

    [Execute] is written against a record of operations on an abstract world
    [W]: the clock, the attempt, the outer context, the random source, the
    timer and the two budgets.  The engine instantiates it.  Besides the
    result it returns the trace of what it did, in order; attempt contexts
    are numbered by the attempt. *)
From S2P Require Import Prelude.
From S2P Require Import GoStrings.
From S2P Require Import GoError.
From S2P Require Import Http.
From S2P Require Import Policy.
From S2P Require Import Retry.

(** What an [AttemptFunc] returns: a response or an error. *)
Abbreviation outcome := (Response + error)%type.

Record Config := mkConfig {
  Policy : RetryPolicy;
  Deadline : option Time;
  AllowRetry : bool;
  BudgetEnabled : bool;
  BudgetError : bool
}.

Record Result := mkResult {
  Resp : option Response;
  Err : option error;
  RetryCount : Z;
  RetryReason : string;
  RetryBudgetExhausted : bool;
  UpstreamAddr : string
}.
#[export] Instance Result_eta : Eta Result := fun r =>
  mkResult (Resp r) (Err r) (RetryCount r) (RetryReason r) (RetryBudgetExhausted r) (UpstreamAddr r).

(** The operations [Execute] uses.  [attempt n timeout] runs the attempt
    under a context that expires after [timeout]; [consumeRoute] and
    [consumeClient] are [None] for a nil budget; [wait d] is [true] when the
    timer fires before the outer context is done; [onRetry] is the callback,
    which does nothing when there is none. *)
Record Ops (W : Type) := mkOps {
  now : W → W * Time;
  attempt : nat → Duration → W → W * (outcome * string);
  outerErr : W → option error;
  random : Z → W → W * Z;
  wait : Duration → W → W * bool;
  consumeRoute : option (W → W * bool);
  consumeClient : option (W → W * bool);
  onRetry : string → W → W
}.
Arguments now {W}.
Arguments attempt {W}.
Arguments outerErr {W}.
Arguments random {W}.
Arguments wait {W}.
Arguments consumeRoute {W}.
Arguments consumeClient {W}.
Arguments onRetry {W}.

Inductive action :=
| Attempt (n : nat) (timeout : Duration) (o : outcome)
| Cancel (n : nat)
| OnRetry (reason : string)
| Drain (n : nat)
| Sleep (d : Duration).

Definition computePerTryTimeout (perTry remainingOuter remainingBudget : Duration) : Duration :=
  if (remainingOuter <=? 0) || (remainingBudget <=? 0) then 0
  else if perTry <=? 0 then
    if remainingOuter <? remainingBudget then remainingOuter else remainingBudget
  else
    let perTry := if remainingOuter <? perTry then remainingOuter else perTry in
    if remainingBudget <? perTry then remainingBudget else perTry.

Section Execute.
Context {W : Type} (ops : Ops W) (cfg : Config).

Definition consumeBudgets (w : W) (result : Result) : W * Result * bool :=
  if negb (BudgetEnabled cfg) then (w, result, true)
  else if BudgetError cfg then (w, result <| RetryBudgetExhausted := true |>, false)
  else
    let '(w, ok) := match consumeRoute ops with None => (w, true) | Some f => f w end in
    if negb ok then (w, result <| RetryBudgetExhausted := true |>, false)
    else
      let '(w, ok) := match consumeClient ops with None => (w, true) | Some f => f w end in
      if negb ok then (w, result <| RetryBudgetExhausted := true |>, false)
      else (w, result, true).

Definition sleepWithBackoff (w : W) (backoff jitter : Duration) : W * list action * bool :=
  let '(w, delay) :=
    if 0 <? jitter then let '(w, j) := random ops (i64 (jitter + 1)) w in (w, i64 (backoff + j)) else (w, backoff) in
  if delay <=? 0 then (w, [], true)
  else let '(w, ok) := wait ops delay w in (w, [Sleep delay], ok).

Definition maxAttempts : Z :=
  let m := or_default (MaxAttempts (Policy cfg)) 1 in
  if negb (Enabled (Policy cfg)) || negb (AllowRetry cfg) then 1 else m.

(** The two durations the attempt timeout is computed from. *)
Definition remaining (start : Time) (w : W) : W * Duration * Duration :=
  let '(w, remainingOuter) :=
    match Deadline cfg with
    | None => (w, max_i64)
    | Some deadline => let '(w, t) := now ops w in (w, time_Sub deadline t)
    end in
  let '(w, remainingBudget) :=
    if 0 <? TotalRetryBudget (Policy cfg) then
      let '(w, t) := now ops w in (w, i64 (TotalRetryBudget (Policy cfg) - time_Sub t start))
    else (w, remainingOuter) in
  (w, remainingOuter, remainingBudget).

(** A retry that has been decided: the counters, then the back-off; [k] is
    the next iteration. *)
Definition retryThen (w : W) (result : Result) (reason : string) (drain : list action)
    (k : W → Result → W * Result * list action) : W * Result * list action :=
  let result := result <| RetryCount ::= (λ n, n + 1) |> in
  let w := onRetry ops reason w in
  let '(w, slept, ok) := sleepWithBackoff w (Backoff (Policy cfg)) (BackoffJitter (Policy cfg)) in
  let trace := OnRetry reason :: drain ++ slept in
  if negb ok then (w, result <| Err := outerErr ops w |>, trace)
  else let '(w, result, rest) := k w result in (w, result, trace ++ rest).

Fixpoint loop (fuel : nat) (start : Time) (attempts : Z) (w : W) (result : Result) : W * Result * list action :=
  match fuel with
  | O =>
      (* attempts = maxAttempts: the statement after the loop *)
      (w, if bool_decide (Err result = None) && bool_decide (Resp result = None)
          then result <| Err := Some errDeadlineExceeded |> else result, [])
  | S fuel =>
      let attempts := attempts + 1 in
      let n := Z.to_nat attempts in
      let '(w, remainingOuter, remainingBudget) := remaining start w in
      let perTry := computePerTryTimeout (PerTryTimeout (Policy cfg)) remainingOuter remainingBudget in
      if perTry <=? 0 then (w, result <| Err := Some errDeadlineExceeded |>, [])
      else
        let '(w, (o, upstreamAddr)) := attempt ops n perTry w in
        let trace := [Attempt n perTry o; Cancel n] in
        let result := result <| UpstreamAddr := upstreamAddr |> in
        match o with
        | inl resp =>
            let '(reason, retryable) := ClassifyStatus (StatusCode resp) (Policy cfg) in
            if retryable && (attempts <? maxAttempts) && AllowRetry cfg then
              let result := result <| RetryReason := reason |> in
              let '(w, result, ok) := consumeBudgets w result in
              if negb ok then (w, result <| Resp := Some resp |>, trace)
              else
                let '(w, result, rest) := retryThen w result reason [Drain n] (loop fuel start attempts) in
                (w, result, trace ++ rest)
            else (w, result <| Resp := Some resp |>, trace)
        | inr err =>
            match outerErr ops w with
            | Some e => (w, result <| Err := Some e |>, trace)
            | None =>
                let '(reason, retryable) := ClassifyError (Some err) in
                if negb retryable || (maxAttempts <=? attempts) || negb (AllowRetry cfg)
                   || negb (mapGet (RetryOnErrors (Policy cfg)) reason)
                then (w, result <| Err := Some err |>, trace)
                else
                  let result := result <| RetryReason := reason |> in
                  let '(w, result, ok) := consumeBudgets w result in
                  if negb ok then (w, result <| Err := Some err |>, trace)
                  else
                    let '(w, result, rest) := retryThen w result reason [] (loop fuel start attempts) in
                    (w, result, trace ++ rest)
            end
        end
  end.

Definition emptyResult : Result := mkResult None None 0 "" false "".

Definition Execute (w : W) : W * Result * list action :=
  let '(w, start) := now ops w in
  loop (Z.to_nat maxAttempts) start 0 w emptyResult.

End Execute.

(** ** What every operation preserves, [Execute] preserves

    [P k] holds after [k] attempts. *)

Definition isAttempt (a : action) : bool := match a with Attempt _ _ _ => true | _ => false end.
(** The attempts of a trace. *)
Definition tries (tr : list action) : nat := length (List.filter isAttempt tr).
Lemma tries_app l k : tries (l ++ k) = (tries l + tries k)%nat.
Proof. unfold tries. by rewrite List.filter_app, length_app. Qed.

Section Preserved.
Context {W : Type} (ops : Ops W) (cfg : Config) (P : nat → W → Prop).
Hypothesis P_now : ∀ k w, P k w → P k (now ops w).1.
Hypothesis P_attempt : ∀ k n d w, P k w → P (S k) (attempt ops n d w).1.
Hypothesis P_random : ∀ k b w, P k w → P k (random ops b w).1.
Hypothesis P_wait : ∀ k d w, P k w → P k (wait ops d w).1.
Hypothesis P_route : ∀ k f w, consumeRoute ops = Some f → P k w → P k (f w).1.
Hypothesis P_client : ∀ k f w, consumeClient ops = Some f → P k w → P k (f w).1.
Hypothesis P_onRetry : ∀ k reason w, P k w → P k (onRetry ops reason w).

Lemma remaining_preserves k start w : P k w → P k (remaining ops cfg start w).1.1.
Proof.
  intros H. unfold remaining. set (m := match Deadline cfg with None => _ | Some _ => _ end).
  assert (P k m.1) as Hm by (subst m; destruct (Deadline cfg); [|done]; pose proof (P_now k w H); by destruct (now ops w)).
  destruct m as [w1 ro]. simpl in Hm. destruct (0 <? _); [|done]. pose proof (P_now k w1 Hm). by destruct (now ops w1).
Qed.

Lemma consumeBudgets_preserves k w r : P k w → P k (consumeBudgets ops cfg w r).1.1.
Proof.
  intros H. unfold consumeBudgets. destruct (BudgetEnabled cfg); [|done]. destruct (BudgetError cfg); [done|]. cbn [negb].
  set (m := match consumeRoute ops with None => _ | Some _ => _ end).
  assert (P k m.1) as Hm by (subst m; destruct (consumeRoute ops); [by apply P_route|done]).
  destruct m as [w1 []]; [cbn [negb]|done]. simpl in Hm. set (m := match consumeClient ops with None => _ | Some _ => _ end).
  assert (P k m.1) as Hm2 by (subst m; destruct (consumeClient ops); [by apply P_client|done]).
  by destruct m as [w2 []].
Qed.

Lemma sleep_preserves k w b j : P k w → P k (sleepWithBackoff ops w b j).1.1.
Proof.
  intros H. unfold sleepWithBackoff. set (m := if 0 <? j then _ else _).
  assert (P k m.1) as Hm by (subst m; destruct (0 <? j); [|done]; pose proof (P_random k (i64 (j + 1)) w H); by destruct (random ops _ w)).
  destruct m as [w1 delay]. simpl in Hm. destruct (_ <=? 0); [done|]. pose proof (P_wait k delay w1 Hm). by destruct (wait ops delay w1).
Qed.

Lemma sleep_tries w b j : tries (sleepWithBackoff ops w b j).1.2 = 0%nat.
Proof. unfold sleepWithBackoff. destruct (if 0 <? j then _ else _) as [w1 delay]. destruct (_ <=? 0); [done|]. by destruct (wait ops delay w1). Qed.

(** [o] has made at most [n] attempts since [k] of them. *)
Definition tried (k n : nat) (o : W * Result * list action) : Prop := P (k + tries o.2) o.1.1 ∧ (tries o.2 ≤ n)%nat.
Lemma tried_none k n w r tr : P k w → tries tr = 0%nat → tried k n (w, r, tr).
Proof. intros H Ht. unfold tried. simpl. rewrite Ht, Nat.add_0_r. split; [done|lia]. Qed.
Lemma tried_after k n m w r tr tr' : tries tr = m → tried (m + k) n (w, r, tr') → tried k (m + n) (w, r, tr ++ tr').
Proof. intros <- [H1 H2]. unfold tried in *. simpl in *. rewrite tries_app. split; [|lia]. by replace (k + _)%nat with (tries tr + k + tries tr')%nat by lia. Qed.

Lemma retryThen_tried k n w r reason drain next :
  (∀ w r, P k w → tried k n (next w r)) → tries drain = 0%nat → P k w → tried k n (retryThen ops cfg w r reason drain next).
Proof.
  intros Hk Hd H. unfold retryThen. cbn zeta.
  pose proof (sleep_preserves k (onRetry ops reason w) (Backoff (Policy cfg)) (BackoffJitter (Policy cfg)) (P_onRetry k reason w H)) as Hs.
  pose proof (sleep_tries (onRetry ops reason w) (Backoff (Policy cfg)) (BackoffJitter (Policy cfg))) as Ht.
  destruct (sleepWithBackoff _ _ _ _) as [[w1 slept] ok]. simpl in Hs, Ht.
  assert (tries (OnRetry reason :: drain ++ slept) = 0%nat) as H0 by (change (tries (drain ++ slept) = 0%nat); rewrite tries_app; lia).
  destruct ok; cbn [negb]; [|by apply tried_none].
  match goal with |- context [next ?a ?b] => pose proof (Hk a b Hs) as H1; destruct (next a b) as [[w2 r2] rest] end.
  by apply (tried_after k n 0).
Qed.

Lemma loop_tried fuel start attempts k w r : P k w → tried k fuel (loop ops cfg fuel start attempts w r).
Proof.
  revert attempts k w r. induction fuel as [|fuel IH]; intros attempts k w r H; [by apply tried_none|]. cbn [loop]. cbn zeta.
  pose proof (remaining_preserves k start w H) as H1. destruct (remaining ops cfg start w) as [[w1 ro] rb]. simpl in H1.
  destruct (_ <=? 0); [by apply tried_none|]. match goal with |- context [attempt ops ?n ?d w1] => pose proof (P_attempt k n d w1 H1) as H2 end.
  destruct (attempt ops _ _ w1) as [w2 [o addr]]. simpl in H2. set (r1 := r <| UpstreamAddr := addr |>). clearbody r1.
  set (trace := [Attempt _ _ o; Cancel _]). assert (tries trace = 1%nat) as Htr by done. clearbody trace.
  assert (∀ w r, P (S k) w → tried k (S fuel) (w, r, trace)) as Hend.
  { intros w' r' H'. rewrite <- (app_nil_r trace). apply (tried_after k fuel 1); [done|]. by apply tried_none. }
  assert (∀ w r reason drain, tries drain = 0%nat → P (S k) w →
    tried k (S fuel) (let '(w, r, rest) := retryThen ops cfg w r reason drain (loop ops cfg fuel start (attempts + 1)) in (w, r, trace ++ rest))) as Hnext.
  { intros w' r' reason drain Hd H'. pose proof (retryThen_tried (S k) fuel w' r' reason drain _ (λ w r, IH (attempts + 1) (S k) w r) Hd H') as Hn.
    destruct (retryThen _ _ _ _ _ _ _) as [[? ?] ?]. by apply (tried_after k fuel 1). }
  assert (∀ r, P (S k) (consumeBudgets ops cfg w2 r).1.1) as Hb by (intros; by apply consumeBudgets_preserves).
  destruct o as [resp|err].
  - destruct (ClassifyStatus _ _) as [reason retryable]. destruct (_ && _ && _); [|by apply Hend].
    specialize (Hb (r1 <| RetryReason := reason |>)). destruct (consumeBudgets _ _ _ _) as [[w3 r3] []]; [by apply Hnext|by apply Hend].
  - destruct (outerErr ops w2); [by apply Hend|]. destruct (ClassifyError _) as [reason retryable]. destruct (_ || _ || _ || _); [by apply Hend|].
    specialize (Hb (r1 <| RetryReason := reason |>)). destruct (consumeBudgets _ _ _ _) as [[w3 r3] []]; [by apply Hnext|by apply Hend].
Qed.

Lemma Execute_tried w : P 0 w → tried 0 (Z.to_nat (maxAttempts cfg)) (Execute ops cfg w).
Proof.
  intros H. unfold Execute. pose proof (P_now 0 w H) as H1. destruct (now ops w) as [w1 start]. by apply loop_tried.
Qed.
End Preserved.

(** ** The contract of [Execute] *)

Definition isRetry (a : action) : bool := match a with OnRetry _ => true | _ => false end.
Definition count (f : action → bool) (l : list action) : Z := len (filter (λ a, f a = true) l).

Lemma count_app f l k : count f (l ++ k) = count f l + count f k.
Proof. unfold count. by rewrite filter_app, len_app. Qed.
Lemma count_cons f a l : count f (a :: l) = (if f a then 1 else 0) + count f l.
Proof. unfold count. rewrite filter_cons. destruct (f a); case_decide; try done. rewrite len_cons. lia. Qed.
Lemma count_nil f : count f [] = 0.
Proof. done. Qed.
#[export] Hint Rewrite count_app count_cons count_nil : proxy.

Lemma computePerTryTimeout_le perTry ro rb :
  0 < perTry → computePerTryTimeout perTry ro rb ≤ perTry.
Proof. intros. unfold computePerTryTimeout. break_ifs; lia. Qed.

(** Some attempt ran with a positive timeout within the per-try limit. *)
Definition within (cfg : Config) (a : action) : Prop :=
  match a with
  | Attempt _ d _ => 0 < d ∧ (0 < PerTryTimeout (Policy cfg) → d ≤ PerTryTimeout (Policy cfg))
  | _ => True
  end.

(** The retry was asked for by the policy. *)
Definition allowed (cfg : Config) (a : action) : Prop :=
  match a with
  | OnRetry reason =>
      AllowRetry cfg = true ∧ Enabled (Policy cfg) = true ∧
      ((∃ status, (reason, true) = ClassifyStatus status (Policy cfg)) ∨ mapGet (RetryOnErrors (Policy cfg)) reason = true)
  | _ => True
  end.

(** The trace of a run that started with an empty [result]. *)
Record run_ok (cfg : Config) (bound : Z) (result result' : Result) (tr : list action) : Prop := mkRunOk {
  run_one : Resp result' = None ↔ Err result' ≠ None;
  run_retries : RetryCount result' = RetryCount result + count isRetry tr;
  run_attempts : count isAttempt tr ≤ bound;
  run_paced : count isRetry tr ≤ count isAttempt tr ≤ count isRetry tr + 1;
  run_within : Forall (within cfg) tr;
  run_allowed : Forall (allowed cfg) tr;
  run_cancelled : ∀ resp, Resp result' = Some resp → ∃ pre n d, tr = pre ++ [Attempt n d (inl resp); Cancel n]
}.

Section Contract.
Context {W : Type} (ops : Ops W) (cfg : Config).
(** The outer context: its [Done] channel is closed only when [Err] is set. *)
Hypothesis wait_err : ∀ d w w', wait ops d w = (w', false) → outerErr ops w' ≠ None.

Lemma consumeBudgets_frame w r :
  let '(_, r', _) := consumeBudgets ops cfg w r in
  Resp r' = Resp r ∧ Err r' = Err r ∧ RetryCount r' = RetryCount r.
Proof. unfold consumeBudgets. repeat case_match; simplify_eq/=; done. Qed.

Lemma sleep_trace w b j :
  let '(w', tr, ok) := sleepWithBackoff ops w b j in
  (ok = false → outerErr ops w' ≠ None) ∧ count isRetry tr = 0 ∧ count isAttempt tr = 0 ∧
  Forall (within cfg) tr ∧ Forall (allowed cfg) tr.
Proof.
  unfold sleepWithBackoff. destruct (if 0 <? j then _ else _) as [w1 d]. destruct (d <=? 0); [by repeat constructor|].
  destruct (wait ops d w1) as [w2 ok] eqn:Hw. split; [intros ->; by eapply wait_err|]. repeat constructor.
Qed.

(** A retry of attempt [n], given that the rest of the loop is right. *)
Lemma retryThen_ok bound w r reason drain k n d o :
  Resp r = None → Err r = None → allowed cfg (OnRetry reason) → within cfg (Attempt n d o) →
  drain = [] ∨ drain = [Drain n] →
  (∀ w1, let '(_, r', tr) := k w1 (r <| RetryCount ::= (λ n, n + 1) |>) in
         run_ok cfg bound (r <| RetryCount ::= (λ n, n + 1) |>) r' tr) →
  0 ≤ bound →
  let '(_, r', tr) := retryThen ops cfg w r reason drain k in
  run_ok cfg (bound + 1) r r' ([Attempt n d o; Cancel n] ++ tr).
Proof.
  intros Hr He Ha Hw Hd Hk Hb. unfold retryThen.
  pose proof (sleep_trace (onRetry ops reason w) (Backoff (Policy cfg)) (BackoffJitter (Policy cfg))) as Hs.
  destruct (sleepWithBackoff _ _ _ _) as [[w1 slept] ok]. destruct Hs as (Hok & Hs1 & Hs2 & Hs3 & Hs4).
  assert (count isRetry drain = 0 ∧ count isAttempt drain = 0 ∧ Forall (within cfg) drain ∧ Forall (allowed cfg) drain)
    as (Hd1 & Hd2 & Hd3 & Hd4) by (destruct Hd as [-> | ->]; repeat constructor).
  destruct ok; cbn [negb].
  - specialize (Hk w1). destruct (k w1 _) as [[w2 r2] rest]. destruct Hk as [K1 K2 K3 K4 K5 K6 K7].
    split; cbn [Resp Err RetryCount upd Updater] in *; rewrite ?app_comm_cons; autorewrite with proxy; cbn [isAttempt isRetry].
    + done.
    + simpl in K2. lia.
    + lia.
    + lia.
    + repeat (apply Forall_cons; split; [done|]). rewrite !Forall_app. done.
    + repeat (apply Forall_cons; split; [done|]). rewrite !Forall_app. done.
    + intros resp Hresp. destruct (K7 resp Hresp) as (pre & m & d' & ->).
      exists ([Attempt n d o; Cancel n; OnRetry reason] ++ drain ++ slept ++ pre), m, d'. simpl. by rewrite !app_assoc.
  - specialize (Hok eq_refl). split; simpl; autorewrite with proxy; cbn [isAttempt isRetry].
    + by rewrite Hr.
    + lia.
    + lia.
    + lia.
    + repeat (apply Forall_cons; split; [done|]). rewrite !Forall_app. done.
    + repeat (apply Forall_cons; split; [done|]). rewrite !Forall_app. done.
    + by rewrite Hr.
Qed.

(** A run that stops after attempt [n]. *)
Lemma run_stop_ok r r' n d o :
  within cfg (Attempt n d o) → (Resp r' = None ↔ Err r' ≠ None) → RetryCount r' = RetryCount r →
  (∀ resp, Resp r' = Some resp → o = inl resp) →
  run_ok cfg 1 r r' [Attempt n d o; Cancel n].
Proof.
  intros Hw H1 H2 H3. split; try done; autorewrite with proxy; cbn [isAttempt isRetry]; try lia.
  - apply Forall_cons; split; [done|]. by repeat constructor.
  - by repeat constructor.
  - intros resp Hr. exists [], n, d. by rewrite (H3 resp Hr).
Qed.

Lemma run_ok_weaken b b' r r' tr : b ≤ b' → run_ok cfg b r r' tr → run_ok cfg b' r r' tr.
Proof. intros Hb [H1 H2 H3 H4 H5 H6 H7]. split; try done. lia. Qed.

Lemma run_ok_frame b r0 r r' tr : RetryCount r0 = RetryCount r → run_ok cfg b r r' tr → run_ok cfg b r0 r' tr.
Proof. intros Hb [H1 H2 H3 H4 H5 H6 H7]. split; try done. lia. Qed.

Lemma loop_ok fuel start a w r :
  Resp r = None → Err r = None → 0 ≤ a → a + Z.of_nat fuel = maxAttempts cfg →
  let '(_, r', tr) := loop ops cfg fuel start a w r in run_ok cfg (Z.of_nat fuel) r r' tr.
Proof.
  revert a w r. induction fuel as [|fuel IH]; intros a w r Hr He Ha Hf; cbn [loop].
  { rewrite Hr, He. rewrite !bool_decide_true by done. cbn. split; simpl; autorewrite with proxy; try done; try lia; by rewrite ?Hr. }
  destruct (remaining ops cfg start w) as [[w1 ro] rb].
  set (d := computePerTryTimeout _ ro rb). destruct (Z.leb_spec d 0) as [Hd|Hd].
  { split; simpl; autorewrite with proxy; try done; try lia; by rewrite ?Hr. }
  set (n := Z.to_nat (a + 1)). destruct (attempt ops n d w1) as [w2 [o upstream]].
  assert (within cfg (Attempt n d o)) as Hw.
  { split; [done|]. intros. by apply computePerTryTimeout_le. }
  assert (∀ r', (Resp r' = None ↔ Err r' ≠ None) → RetryCount r' = RetryCount r →
    (∀ resp, Resp r' = Some resp → o = inl resp) → run_ok cfg (Z.of_nat (S fuel)) r r' [Attempt n d o; Cancel n]) as Hstop.
  { intros r' ? ? ?. apply (run_ok_weaken 1); [lia|]. by apply run_stop_ok. }
  assert (∀ w reason drain r0, Resp r0 = None → Err r0 = None → RetryCount r0 = RetryCount r →
    allowed cfg (OnRetry reason) → drain = [] ∨ drain = [Drain n] →
    let '(_, r', tr) := retryThen ops cfg w r0 reason drain (loop ops cfg fuel start (a + 1)) in
    run_ok cfg (Z.of_nat (S fuel)) r r' ([Attempt n d o; Cancel n] ++ tr)) as Hretry.
  { intros w0 reason drain r0 H1 H2 H3 H4 H5.
    pose proof (retryThen_ok (Z.of_nat fuel) w0 r0 reason drain (loop ops cfg fuel start (a + 1)) n d o H1 H2 H4 Hw H5) as H.
    destruct (retryThen _ _ _ _ _ _ _) as [[? ?] ?]. eapply run_ok_frame; [symmetry; exact H3|].
    apply (run_ok_weaken (Z.of_nat fuel + 1)); [lia|]. apply H; [|lia]. intros w9. apply IH; [done|done|lia|lia]. }
  destruct o as [resp|err].
  - destruct (ClassifyStatus _ _) as [reason retryable] eqn:Hc.
    destruct (retryable && _ && _) eqn:Hg; [|apply Hstop; simpl; naive_solver].
    apply andb_true_iff in Hg as [[-> Hlt%Z.ltb_lt]%andb_true_iff Hal].
    assert (Enabled (Policy cfg) = true) as Hen.
    { unfold maxAttempts in Hlt. destruct (Enabled (Policy cfg)); [done|]. simpl in Hlt. unfold maxAttempts in Hf. simpl in Hf. lia. }
    pose proof (consumeBudgets_frame w2 (r <| UpstreamAddr := upstream |> <| RetryReason := reason |>)) as Hcb.
    destruct (consumeBudgets _ _ _ _) as [[w3 r3] ok]. simpl in Hcb. destruct Hcb as (C1 & C2 & C3).
    destruct ok; cbn [negb]; [|apply Hstop; simpl; [rewrite C2, He|done|]; naive_solver].
    specialize (Hretry w3 reason [Drain n] r3 ltac:(congruence) ltac:(congruence) C3).
    destruct (retryThen _ _ _ _ _ _ _) as [[? ?] ?]. apply Hretry; [|by right].
    split; [done|]. split; [done|]. left. by exists (StatusCode resp).
  - destruct (outerErr ops w2) as [e|] eqn:Hoe; [apply Hstop; simpl; rewrite ?Hr; naive_solver|].
    destruct (ClassifyError (Some err)) as [reason retryable] eqn:Hc.
    destruct (_ || _ || _ || _) eqn:Hg; [apply Hstop; simpl; rewrite ?Hr; naive_solver|].
    apply orb_false_iff in Hg as [[[Hre Hlt%Z.leb_gt]%orb_false_iff Hal%negb_false_iff]%orb_false_iff Hmap%negb_false_iff].
    assert (Enabled (Policy cfg) = true) as Hen.
    { unfold maxAttempts in Hlt, Hf. destruct (Enabled (Policy cfg)); [done|]. simpl in Hlt, Hf. lia. }
    pose proof (consumeBudgets_frame w2 (r <| UpstreamAddr := upstream |> <| RetryReason := reason |>)) as Hcb.
    destruct (consumeBudgets _ _ _ _) as [[w3 r3] ok]. simpl in Hcb. destruct Hcb as (C1 & C2 & C3).
    destruct ok; cbn [negb]; [|apply Hstop; simpl; rewrite ?C1, ?Hr; naive_solver].
    specialize (Hretry w3 reason [] r3 ltac:(congruence) ltac:(congruence) C3).
    destruct (retryThen _ _ _ _ _ _ _) as [[? ?] ?]. apply Hretry; [|by left].
    split; [done|]. split; [done|]. by right.
Qed.
End Contract.

Lemma maxAttempts_pos cfg : 1 ≤ maxAttempts cfg.
Proof. unfold maxAttempts. destruct (_ || _); [lia|]. unfold or_default. destruct (Z.leb_spec (MaxAttempts (Policy cfg)) 0); lia. Qed.

(** C9. Functional: the retry loop always ends, with exactly one of a response
    and an error, after at most [maxAttempts] attempts (one when retries are
    off), each under a positive timeout within the per-try limit; the number
    of attempts is the number of retries plus at most one, and every retry
    was allowed and asked for by the policy. *)
Theorem execute_contract {W} (ops : Ops W) cfg w :
  (∀ d w w', wait ops d w = (w', false) → outerErr ops w' ≠ None) →
  let '(_, r, tr) := Execute ops cfg w in
  (Resp r = None ↔ Err r ≠ None) ∧
  count isAttempt tr ≤ maxAttempts cfg ∧
  RetryCount r = count isRetry tr ∧ RetryCount r ≤ count isAttempt tr ≤ RetryCount r + 1 ∧
  Forall (within cfg) tr ∧ Forall (allowed cfg) tr.
Proof.
  intros Hwait. unfold Execute. destruct (now ops w) as [w1 start].
  pose proof (maxAttempts_pos cfg).
  pose proof (loop_ok ops cfg Hwait (Z.to_nat (maxAttempts cfg)) start 0 w1 emptyResult eq_refl eq_refl ltac:(lia) ltac:(lia)) as Hl.
  destruct (loop _ _ _ _ _ _ _) as [[w' r] tr]. destruct Hl as [H1 H2 H3 H4 H5 H6 _]. simpl in H2.
  split; [done|]. split; [lia|]. split; [lia|]. split; [lia|]. done.
Qed.

(** A scripted upstream: the outcomes of the attempts, in order. *)
Definition scripted : Ops (list outcome * Z * Z) := mkOps _
  (λ w, (w, 0))
  (λ _ _ w, match w with
            | (o :: rest, x, y) => ((rest, x, y), (o, "a:1"))
            | ([], x, y) => (w, (inr errCanceled, ""))
            end)
  (λ _, None)
  (λ _ w, (w, 0))
  (λ _ w, (w, true))
  (Some (λ w, let '(l, x, y) := w in if 0 <? x then ((l, x - 1, y), true) else (w, false)))
  (Some (λ w, let '(l, x, y) := w in if 0 <? y then ((l, x, y - 1), true) else (w, false)))
  (λ _ w, w).

Definition example_policy : RetryPolicy :=
  mkRetryPolicy true 3 Second 0 (Some {[ 503 := true ]}) (Some {[ "dial" := true ]}) 0 0.
Definition example_cfg : Config := mkConfig example_policy None true true false.
Definition unavailable : Response := mkResponse 503 ∅ [] None.

Lemma execute_contract_witness :
  let '(_, r, tr) := Execute scripted example_cfg ([inl unavailable; inl unavailable], 5, 5) in
  (Resp r = None ↔ Err r ≠ None) ∧ count isAttempt tr ≤ maxAttempts example_cfg ∧
  RetryCount r = count isRetry tr ∧ RetryCount r ≤ count isAttempt tr ≤ RetryCount r + 1 ∧
  Forall (within example_cfg) tr ∧ Forall (allowed example_cfg) tr.
Proof. apply (execute_contract scripted). intros d w w' H. discriminate H. Defined.

(** ** Budgets pay for retries *)

Section Payment.
Context {W : Type} (ops : Ops W) (cfg : Config) (tokensOf : W → Z).
(** The interface to the budgets: consuming takes exactly one token when it
    succeeds and none when it fails, and nothing else takes any. *)
Class Pays := {
  pays_enabled : BudgetEnabled cfg = true;
  pays_now : ∀ w, tokensOf (now ops w).1 = tokensOf w;
  pays_attempt : ∀ n d w, tokensOf (attempt ops n d w).1 = tokensOf w;
  pays_random : ∀ n w, tokensOf (random ops n w).1 = tokensOf w;
  pays_wait : ∀ d w, tokensOf (wait ops d w).1 = tokensOf w;
  pays_route : ∃ f, consumeRoute ops = Some f ∧
    ∀ w, tokensOf (f w).1 = tokensOf w - if (f w).2 then 1 else 0;
  pays_client : ∀ f, consumeClient ops = Some f → ∀ w, tokensOf (f w).1 = tokensOf w;
  pays_onRetry : ∀ reason w, tokensOf (onRetry ops reason w) = tokensOf w
}.

(** [lost] tokens bought no retry. *)
Definition paid (r r' : Result) (w w' : W) (lost : Z) : Prop :=
  tokensOf w' = tokensOf w - (RetryCount r' - RetryCount r) - lost ∧
  (lost = 0 ∨ lost = 1 ∧ RetryBudgetExhausted r' = true).

Context {HPays : Pays}.

Lemma consumeBudgets_paid w r :
  let '(w', r', ok) := consumeBudgets ops cfg w r in
  RetryCount r' = RetryCount r ∧
  if ok then tokensOf w' = tokensOf w - 1
  else RetryBudgetExhausted r' = true ∧ (tokensOf w' = tokensOf w ∨ tokensOf w' = tokensOf w - 1).
Proof.
  unfold consumeBudgets. rewrite pays_enabled. simpl. destruct (BudgetError cfg); [simpl; auto|].
  destruct pays_route as (f & -> & Hf). specialize (Hf w). destruct (f w) as [w1 ok]; simpl in Hf.
  destruct ok; simpl; [|split; [done|split; [done|left; lia]]].
  destruct (consumeClient ops) as [g|] eqn:Hg; simpl; [|split; [done|lia]].
  pose proof (pays_client g Hg w1) as Hc. destruct (g w1) as [w2 ok2]; simpl in *.
  destruct ok2; simpl; (split; [done|]); [lia|]. split; [done|]. right. lia.
Qed.

Lemma sleep_paid w b j : tokensOf (sleepWithBackoff ops w b j).1.1 = tokensOf w.
Proof.
  unfold sleepWithBackoff. destruct (0 <? j).
  - pose proof (pays_random (i64 (j + 1)) w). destruct (random ops _ w) as [w1 x]; simpl in *.
    case_match; [done|]. pose proof (pays_wait (i64 (b + x)) w1). destruct (wait ops _ w1); simpl in *. congruence.
  - case_match; [done|]. pose proof (pays_wait b w). by destruct (wait ops b w).
Qed.

Lemma remaining_paid start w : tokensOf (remaining ops cfg start w).1.1 = tokensOf w.
Proof.
  unfold remaining. pose proof pays_now as Hn.
  assert (∀ o, tokensOf (match o with None => (w, max_i64) | Some dl => let '(w, t) := now ops w in (w, time_Sub dl t) end).1 = tokensOf w) as H1.
  { intros [dl|]; [|done]. specialize (Hn w). by destruct (now ops w). }
  specialize (H1 (Deadline cfg)). destruct (match Deadline cfg with None => _ | Some _ => _ end) as [w1 ro]; simpl in H1.
  destruct (0 <? _); [|done]. specialize (Hn w1). destruct (now ops w1); simpl in *. congruence.
Qed.

Lemma retryThen_paid w r reason drain k :
  (∀ w1 r1, let '(w', r', _) := k w1 r1 in ∃ lost, paid r1 r' w1 w' lost) →
  let '(w', r', _) := retryThen ops cfg w r reason drain k in
  ∃ lost, tokensOf w' = tokensOf w - (RetryCount r' - RetryCount r - 1) - lost ∧
          (lost = 0 ∨ lost = 1 ∧ RetryBudgetExhausted r' = true).
Proof.
  intros Hk. unfold retryThen. pose proof (sleep_paid (onRetry ops reason w) (Backoff (Policy cfg)) (BackoffJitter (Policy cfg))) as Hs.
  rewrite pays_onRetry in Hs.
  destruct (sleepWithBackoff _ _ _ _) as [[w1 slept] ok]; simpl in Hs. destruct ok; simpl.
  - specialize (Hk w1 (r <| RetryCount ::= (λ n, n + 1) |>)). simpl in Hk.
    destruct (k w1 _) as [[w2 r2] rest]. destruct Hk as (lost & H1 & H2). simpl in H1. exists lost. split; [lia|done].
  - exists 0. split; [lia|by left].
Qed.

Lemma loop_paid fuel start a w r :
  let '(w', r', _) := loop ops cfg fuel start a w r in ∃ lost, paid r r' w w' lost.
Proof.
  revert a w r. induction fuel as [|fuel IH]; intros a w r; cbn [loop].
  { exists 0. split; [|by left]. destruct (_ && _); simpl; lia. }
  pose proof (remaining_paid start w) as Hr. destruct (remaining ops cfg start w) as [[w1 ro] rb]; simpl in Hr.
  set (d := computePerTryTimeout _ ro rb). destruct (d <=? 0); [exists 0; split; [simpl; lia|by left]|].
  set (n := Z.to_nat (a + 1)). pose proof (pays_attempt n d w1) as Ha. destruct (attempt ops n d w1) as [w2 [o up]]; simpl in Ha.
  assert (∀ r', RetryCount r' = RetryCount r → ∃ lost, paid r r' w w2 lost) as Hstop.
  { intros r' E. exists 0. split; [lia|by left]. }
  assert (∀ w3 r3 reason drain, RetryCount r3 = RetryCount r → tokensOf w3 = tokensOf w - 1 →
    let '(w', r', _) := retryThen ops cfg w3 r3 reason drain (loop ops cfg fuel start (a + 1)) in ∃ lost, paid r r' w w' lost) as Hretry.
  { intros w3 r3 reason drain E Ht. pose proof (retryThen_paid w3 r3 reason drain _ (IH (a + 1))) as H.
    destruct (retryThen _ _ _ _ _ _ _) as [[w4 r4] ?]. destruct H as (lost & H1 & H2). exists lost. split; [lia|done]. }
  assert (∀ w3 r3 r4, RetryCount r3 = RetryCount r → RetryBudgetExhausted r3 = true →
    RetryCount r4 = RetryCount r3 → RetryBudgetExhausted r4 = RetryBudgetExhausted r3 →
    tokensOf w3 = tokensOf w ∨ tokensOf w3 = tokensOf w - 1 → ∃ lost, paid r r4 w w3 lost) as Hlost.
  { intros w3 r3 r4 E1 E2 E3 E4 [Ht|Ht]; [exists 0; split; [lia|by left]|exists 1; split; [lia|right; split; [done|congruence]]]. }
  destruct o as [resp|err].
  - destruct (ClassifyStatus _ _) as [reason retryable]. destruct (retryable && _ && _); [|by apply Hstop].
    pose proof (consumeBudgets_paid w2 (r <| UpstreamAddr := up |> <| RetryReason := reason |>)) as Hc.
    destruct (consumeBudgets _ _ _ _) as [[w3 r3] ok]. simpl in Hc. destruct ok; simpl.
    + destruct Hc as [Hc1 Hc2]. specialize (Hretry w3 r3 reason [Drain n] Hc1 ltac:(lia)).
      by destruct (retryThen _ _ _ _ _ _ _) as [[? ?] ?].
    + destruct Hc as (Hc1 & Hc2 & Hc3). eapply Hlost; [exact Hc1|exact Hc2|done|done|lia].
  - destruct (outerErr ops w2); [by apply Hstop|]. destruct (ClassifyError (Some err)) as [reason retryable].
    destruct (_ || _ || _ || _); [by apply Hstop|].
    pose proof (consumeBudgets_paid w2 (r <| UpstreamAddr := up |> <| RetryReason := reason |>)) as Hc.
    destruct (consumeBudgets _ _ _ _) as [[w3 r3] ok]. simpl in Hc. destruct ok; simpl.
    + destruct Hc as [Hc1 Hc2]. specialize (Hretry w3 r3 reason [] Hc1 ltac:(lia)).
      by destruct (retryThen _ _ _ _ _ _ _) as [[? ?] ?].
    + destruct Hc as (Hc1 & Hc2 & Hc3). eapply Hlost; [exact Hc1|exact Hc2|done|done|lia].
Qed.
End Payment.
Arguments Pays {W}.

(** Safety: with a route budget, every retry is paid for with one token of
    it; at most one more token is taken, and only by a run that ends because
    a budget is exhausted.  Proved for every world whose budgets satisfy the
    [Pays] interface. *)
Theorem execute_pays_for_retries {W} (ops : Ops W) cfg tokensOf w :
  Pays ops cfg tokensOf →
  let '(w', r, _) := Execute ops cfg w in
  tokensOf w' = tokensOf w - RetryCount r ∨
  tokensOf w' = tokensOf w - RetryCount r - 1 ∧ RetryBudgetExhausted r = true.
Proof.
  intros HP. unfold Execute. pose proof (@pays_now _ _ _ _ HP w) as Hn. destruct (now ops w) as [w1 start]; simpl in Hn.
  pose proof (loop_paid ops cfg tokensOf (Z.to_nat (maxAttempts cfg)) start 0 w1 emptyResult) as Hl.
  destruct (loop _ _ _ _ _ _ _) as [[w' r] tr]. destruct Hl as (lost & H1 & H2). simpl in H1. destruct H2 as [-> | [-> H2]]; [left; lia|right; split; [lia|done]].
Qed.

#[export] Instance scripted_pays : Pays scripted example_cfg (λ w, w.1.2).
Proof.
  split; simpl; try done.
  - intros n d [[[|o l] x] y]; done.
  - eexists. split; [done|]. intros [[l x] y]. simpl. destruct (0 <? x); simpl; lia.
  - intros f [= <-] [[l x] y]. by destruct (0 <? y).
Qed.

Lemma execute_pays_for_retries_witness :
  let '(w', r, _) := Execute scripted example_cfg ([inl unavailable; inl unavailable], 5, 5) in
  w'.1.2 = 5 - RetryCount r ∨ w'.1.2 = 5 - RetryCount r - 1 ∧ RetryBudgetExhausted r = true.
Proof. exact (execute_pays_for_retries scripted example_cfg (λ w, w.1.2) ([inl unavailable; inl unavailable], 5, 5) scripted_pays). Defined.

(** Error: a retry that the client budget refuses still costs the route a
    token: whenever the route budget grants and the client budget does not,
    no retry happens and the world is the one after the route budget was
    charged. *)
Theorem consume_charges_route_on_client_refusal {W} (ops : Ops W) cfg w r f g w1 w2 :
  BudgetEnabled cfg = true → BudgetError cfg = false →
  consumeRoute ops = Some f → consumeClient ops = Some g → f w = (w1, true) → g w1 = (w2, false) →
  consumeBudgets ops cfg w r = (w2, r <| RetryBudgetExhausted := true |>, false).
Proof. intros H1 H2 H3 H4 H5 H6. unfold consumeBudgets. by rewrite H1, H2, H3, H5, H4; simpl; rewrite H6. Qed.

Lemma consume_charges_route_on_client_refusal_witness :
  consumeBudgets scripted example_cfg ([], 5, 0) emptyResult =
  ((([] : list outcome), 4, 0), emptyResult <| RetryBudgetExhausted := true |>, false).
Proof. by eapply consume_charges_route_on_client_refusal. Defined.

(** C36. Safety, violated for streamed bodies: whenever [Execute] returns a
    response, the context that response was obtained under has already been
    cancelled: the run ends with the attempt that produced it followed by the
    cancellation of its context, and the body is only read afterwards. *)
Theorem execute_returns_cancelled_response {W} (ops : Ops W) cfg w :
  (∀ d w w', wait ops d w = (w', false) → outerErr ops w' ≠ None) →
  let '(_, r, tr) := Execute ops cfg w in
  ∀ resp, Resp r = Some resp → ∃ pre n d, tr = pre ++ [Attempt n d (inl resp); Cancel n].
Proof.
  intros Hwait. unfold Execute. destruct (now ops w) as [w1 start]. pose proof (maxAttempts_pos cfg).
  pose proof (loop_ok ops cfg Hwait (Z.to_nat (maxAttempts cfg)) start 0 w1 emptyResult eq_refl eq_refl ltac:(lia) ltac:(lia)) as Hl.
  destruct (loop _ _ _ _ _ _ _) as [[w' r] tr]. apply (run_cancelled _ _ _ _ _ Hl).
Qed.

Lemma execute_returns_cancelled_response_witness :
  let '(_, r, tr) := Execute scripted example_cfg ([inl (mkResponse 200 ∅ [] None)], 5, 5) in
  ∀ resp, Resp r = Some resp → ∃ pre n d, tr = pre ++ [Attempt n d (inl resp); Cancel n].
Proof. apply (execute_returns_cancelled_response scripted). intros d w w' H. discriminate H. Defined.
