(* ===== verification/RetryRegistry.v ===== *)
(** * The retry registry (internal/registry/retryregistry.go)

    One entry per route, replaced when the route's policies change.  Budgets
    are pointers: [budgets] is the heap of route budgets, and a client cap is
    owned by its entry. *)
From S2P Require Import Prelude.
From S2P Require Import GoFloat.
From S2P Require Import Policy.
From S2P Require Import Retry.

Definition defaultRetryReapInterval : Duration := 30 * Second.
Definition defaultRetryTTL : Duration := 5 * Minute.

Record retryRouteEntry := mkEntry {
  budgetPolicy : RetryBudgetPolicy;
  clientPolicy : ClientRetryCapPolicy;
  budget : option Budget;
  clientCap : option ClientCap;
  lastUsed : Time
}.
#[export] Instance retryRouteEntry_eta : Eta retryRouteEntry := fun e =>
  mkEntry (budgetPolicy e) (clientPolicy e) (budget e) (clientCap e) (lastUsed e).

Record RetryRegistry := mkRetryRegistry {
  routes : gmap string retryRouteEntry;
  reapInterval : Duration;
  ttl : Duration;
  stopped : bool
}.
#[export] Instance RetryRegistry_eta : Eta RetryRegistry := fun r =>
  mkRetryRegistry (routes r) (reapInterval r) (ttl r) (stopped r).

Definition NewRetryRegistry (interval timeToLive : Duration) : RetryRegistry :=
  mkRetryRegistry ∅ (or_default interval defaultRetryReapInterval) (or_default timeToLive defaultRetryTTL) false.

Definition sameRetryBudgetPolicy (a b : RetryBudgetPolicy) : bool :=
  eqb (budget_Enabled a) (budget_Enabled b) && (PercentOfSuccesses a =? PercentOfSuccesses b) && (Burst a =? Burst b).
Definition sameClientPolicy (a b : ClientRetryCapPolicy) : bool :=
  eqb (client_Enabled a) (client_Enabled b) && bool_decide (Key a = Key b) &&
  (client_PercentOfSuccesses a =? client_PercentOfSuccesses b) && (client_Burst a =? client_Burst b) &&
  (LRUSize a =? LRUSize b).

(** [Budgets] on a non-nil registry.  [t1] stamps a new entry, [t2] the entry
    returned. *)
Definition Budgets (r : RetryRegistry) (routeID : string) (bp : RetryBudgetPolicy) (cp : ClientRetryCapPolicy) (t1 t2 : Time)
    : RetryRegistry * result (option Budget * option ClientCap) :=
  if decide (routeID = "") then (r, Err "route id is empty")
  else
    let finish (entry : retryRouteEntry) :=
      let entry := entry <| lastUsed := t2 |> in
      (r <| routes ::= <[routeID := entry]> |>, Ok (budget entry, clientCap entry)) in
    let fresh :=
      let entry := mkEntry bp cp (if budget_Enabled bp then Some (NewBudget (PercentOfSuccesses bp) (Burst bp)) else None) None t1 in
      if client_Enabled cp then
        if LRUSize cp <=? 0 then (r, Err "client cap lru size must be positive")
        else finish (entry <| clientCap := Some (NewClientCap (client_PercentOfSuccesses cp) (client_Burst cp) (LRUSize cp)) |>)
      else finish entry in
    match routes r !! routeID with
    | None => fresh
    | Some entry =>
        if negb (sameRetryBudgetPolicy (budgetPolicy entry) bp) || negb (sameClientPolicy (clientPolicy entry) cp)
        then fresh else finish entry
    end.

(** A method called on the route budget or the client cap returned by
    [Budgets], while the entry is the current one. *)
Definition updateEntry (r : RetryRegistry) (routeID : string) (f : retryRouteEntry → retryRouteEntry) : RetryRegistry :=
  r <| routes ::= alter f routeID |>.

Definition Close (r : RetryRegistry) : RetryRegistry := r <| stopped := true |>.
Definition Stop (r : RetryRegistry) : RetryRegistry * option string := (Close r, None).
Definition reapOnce (r : RetryRegistry) (now : Time) : RetryRegistry :=
  let cutoff := now + - ttl r in
  r <| routes ::= filter (λ kv, ¬ (lastUsed kv.2 < cutoff)) |>.
Definition reapTick (r : RetryRegistry) (now : Time) : RetryRegistry := if stopped r then r else reapOnce r now.

Lemma sameRetryBudgetPolicy_spec a b : sameRetryBudgetPolicy a b = true ↔ a = b.
Proof.
  unfold sameRetryBudgetPolicy. rewrite !andb_true_iff, !Z.eqb_eq, Bool.eqb_true_iff. destruct a, b; simpl.
  split; [naive_solver|]. by intros [= -> -> ->].
Qed.
Lemma sameClientPolicy_spec a b : sameClientPolicy a b = true ↔ a = b.
Proof.
  unfold sameClientPolicy. rewrite !andb_true_iff, !Z.eqb_eq, Bool.eqb_true_iff, bool_decide_eq_true. destruct a, b; simpl.
  split; [naive_solver|]. by intros [= -> -> -> -> ->].
Qed.

(** Functional: the budgets of a route live as long as its policies stay
    the same.  Asking again with the same policies returns the current
    budgets with everything they have accumulated; a policy change replaces
    them with fresh ones of the new policy; a client cap without a positive
    LRU size is refused and changes nothing. *)
Theorem retry_budgets_follow_policy r routeID bp cp t1 t2 :
  routeID ≠ "" →
  let fresh := (if budget_Enabled bp then Some (NewBudget (PercentOfSuccesses bp) (Burst bp)) else None,
                if client_Enabled cp then Some (NewClientCap (client_PercentOfSuccesses cp) (client_Burst cp) (LRUSize cp)) else None) in
  let kept := routes r !! routeID ≫= λ e, if decide (budgetPolicy e = bp ∧ clientPolicy e = cp) then Some (budget e, clientCap e) else None in
  let '(r', res) := Budgets r routeID bp cp t1 t2 in
  match kept with
  | Some b => res = Ok b
  | None => if client_Enabled cp && (LRUSize cp <=? 0) then r' = r ∧ res = Err "client cap lru size must be positive"
            else res = Ok fresh
  end ∧
  (∀ k, k ≠ routeID → routes r' !! k = routes r !! k) ∧
  (∀ b, res = Ok b → ∃ e, routes r' !! routeID = Some e ∧ budgetPolicy e = bp ∧ clientPolicy e = cp ∧ (budget e, clientCap e) = b ∧ lastUsed e = t2).
Proof.
  intros Hid. unfold Budgets. rewrite decide_False by done. cbn zeta.
  destruct (routes r !! routeID) as [e|] eqn:He; simpl.
  - destruct (decide (budgetPolicy e = bp ∧ clientPolicy e = cp)) as [[<- <-]|Hne].
    + rewrite (proj2 (sameRetryBudgetPolicy_spec _ _) eq_refl), (proj2 (sameClientPolicy_spec _ _) eq_refl). simpl.
      split; [done|]. split; [intros; by rewrite lookup_insert_ne|]. intros b [= <-]. rewrite lookup_insert_eq. eauto 8.
    + assert (negb (sameRetryBudgetPolicy (budgetPolicy e) bp) || negb (sameClientPolicy (clientPolicy e) cp) = true) as ->.
      { destruct (sameRetryBudgetPolicy _ _) eqn:E1, (sameClientPolicy _ _) eqn:E2; try done.
        apply sameRetryBudgetPolicy_spec in E1. apply sameClientPolicy_spec in E2. naive_solver. }
      destruct (client_Enabled cp); simpl; [destruct (LRUSize cp <=? 0); simpl; [done|]|];
        (split; [done|]; split; [intros; by rewrite lookup_insert_ne|]; intros b [= <-]; rewrite lookup_insert_eq; eauto 8).
  - destruct (client_Enabled cp); simpl; [destruct (LRUSize cp <=? 0); simpl; [done|]|];
      (split; [done|]; split; [intros; by rewrite lookup_insert_ne|]; intros b [= <-]; rewrite lookup_insert_eq; eauto 8).
Qed.

Definition example_budget_policy : RetryBudgetPolicy := mkRetryBudgetPolicy true 20 10.
Definition example_client_policy : ClientRetryCapPolicy := mkClientRetryCapPolicy true "ip" 10 3 100.

Lemma retry_budgets_follow_policy_witness :
  (Budgets (NewRetryRegistry 0 0) "r" example_budget_policy example_client_policy 1 2).2 =
  Ok (Some (NewBudget 20 10), Some (NewClientCap 10 3 100)).
Proof.
  pose proof (retry_budgets_follow_policy (NewRetryRegistry 0 0) "r" example_budget_policy example_client_policy 1 2
    ltac:(discriminate)) as H. cbn zeta in H.
  destruct (Budgets _ _ _ _ _ _) as [r' res]. exact (proj1 H).
Defined.
