(* ===== verification/CacheStore.v ===== *)
(** * The response cache (internal/cache/store.go, memory.go, coalesce.go, cache.go)

    [MemoryStore] is a map with expiry; [Coalescer] lets one request per key
    go upstream.  A [Flight] is shared by pointer between the leader and its
    followers, so flights live in a heap; [done] says that its channel is
    closed. *)
From S2P Require Import Prelude.
From S2P Require Import GoStrings.
From S2P Require Import GoError.

Record Entry := mkEntry {
  Status : Z;
  EntryHeader : Header;
  EntryBody : string;
  ExpiresAt : Time;
  StoredAt : Time
}.
Definition emptyEntry : Entry := mkEntry 0 ∅ "" zeroTime zeroTime.

(** ** The memory store *)

Definition DefaultMaxObjectBytes : Z := 50 * 1024 * 1024.

Record MemoryStore := mkMemoryStore { entries : gmap string Entry; maxObjectBytes : Z }.
#[export] Instance MemoryStore_eta : Eta MemoryStore := fun m => mkMemoryStore (entries m) (maxObjectBytes m).

Definition NewMemoryStore (max : Z) : MemoryStore := mkMemoryStore ∅ (or_default max DefaultMaxObjectBytes).

Definition Delete (m : MemoryStore) (key : string) : MemoryStore := m <| entries ::= delete key |>.

(** [Get] reads the entry under the read lock and, when it has expired,
    deletes the key in a critical section of its own. *)
Inductive lookupResult := Missing | Expired | Found (e : Entry).
Definition lookupEntry (m : MemoryStore) (key : string) (now : Time) : lookupResult :=
  match entries m !! key with
  | None => Missing
  | Some entry => if negb (IsZero (ExpiresAt entry)) && (ExpiresAt entry <? now) then Expired else Found entry
  end.
Definition Get (m : MemoryStore) (key : string) (now : Time) : MemoryStore * option Entry :=
  match lookupEntry m key now with
  | Missing => (m, None)
  | Expired => (Delete m key, None)
  | Found entry => (m, Some entry)
  end.

Definition Set_ (m : MemoryStore) (key : string) (entry : Entry) : MemoryStore * option string :=
  if (0 <? maxObjectBytes m) && (maxObjectBytes m <? slen (EntryBody entry))
  then (m, Some "cache entry exceeds max object bytes")
  else (m <| entries ::= <[key := entry]> |>, None).

(** ** Request coalescing *)

Definition DefaultMaxFlights : Z := 10000.

Record Flight := mkFlight {
  done_ : bool;
  result : Entry;
  ok : bool;
  err : option error
}.
#[export] Instance Flight_eta : Eta Flight := fun f => mkFlight (done_ f) (result f) (ok f) (err f).

Record Coalescer := mkCoalescer {
  flights : gmap string nat;
  maxFlights : Z;
  heap : gmap nat Flight;
  nextFlight : nat
}.
#[export] Instance Coalescer_eta : Eta Coalescer := fun c => mkCoalescer (flights c) (maxFlights c) (heap c) (nextFlight c).

Definition NewCoalescer (max : Z) : Coalescer := mkCoalescer ∅ (or_default max DefaultMaxFlights) ∅ 0.

(** The flight, whether the caller leads it, and whether coalescing applies. *)
Definition Start (c : Coalescer) (key : string) : Coalescer * (option nat * bool * bool) :=
  if decide (key = "") then (c, (None, false, false))
  else match flights c !! key with
  | Some existing => (c, (Some existing, false, true))
  | None =>
      if (0 <? maxFlights c) && (maxFlights c <=? Z.of_nat (size (flights c))) then (c, (None, false, false))
      else
        let f := nextFlight c in
        (c <| heap ::= <[f := mkFlight false emptyEntry false None]> |> <| nextFlight ::= S |>
           <| flights ::= <[key := f]> |>, (Some f, true, true))
  end.

(** The boolean is [false] when [close] panics because the channel is
    already closed. *)
Definition Finish (c : Coalescer) (key : string) (flight : option nat) (entry : Entry) (okv : bool) (e : option error)
    : Coalescer * bool :=
  match flight with
  | None => (c, true)
  | Some f =>
      let c := if bool_decide (flights c !! key = Some f) then c <| flights ::= delete key |> else c in
      match heap c !! f with
      | None => (c, true)
      | Some fl => (c <| heap ::= <[f := mkFlight true entry okv e]> |>, negb (done_ fl))
      end
  end.

(** [Wait]: entry, ok, error and whether the flight completed; [timerFirst]
    resolves the select when the flight completes in time or not. *)
Definition Wait (c : Coalescer) (flight : option nat) (timeout : Duration) (timerFirst : bool) : Entry * bool * option error * bool :=
  let none := (emptyEntry, false, None, false) in
  match flight with
  | None => none
  | Some f =>
      if timeout <=? 0 then none
      else match heap c !! f with
      | Some fl => if done_ fl && negb timerFirst then (result fl, ok fl, err fl, true) else none
      | None => none
      end
  end.

(** ** What the store serves *)

Inductive store_event :=
| SGet (key : string) (now : Time)
| SSet (key : string) (e : Entry)
| SDelete (key : string).

Definition store_step (m : MemoryStore) (ev : store_event) : MemoryStore :=
  match ev with
  | SGet key now => (Get m key now).1
  | SSet key e => (Set_ m key e).1
  | SDelete key => Delete m key
  end.

Definition expired (e : Entry) (now : Time) : bool := negb (IsZero (ExpiresAt e)) && (ExpiresAt e <? now).

(** The entry a history has left for [key]: the last one stored, unless it
    was too large, deleted or seen expired since. *)
Definition current (max : Z) (key : string) (o : option Entry) (ev : store_event) : option Entry :=
  match ev with
  | SSet k e => if decide (k = key) then if (0 <? max) && (max <? slen (EntryBody e)) then o else Some e else o
  | SDelete k => if decide (k = key) then None else o
  | SGet k now =>
      if decide (k = key) then match o with Some e => if expired e now then None else Some e | None => None end else o
  end.

Lemma store_step_current m ev key :
  entries (store_step m ev) !! key = current (maxObjectBytes m) key (entries m !! key) ev ∧
  maxObjectBytes (store_step m ev) = maxObjectBytes m.
Proof.
  destruct ev as [k now|k e|k]; simpl.
  - unfold Get, lookupEntry, expired, Delete. case_decide as Hk; [subst k|].
    + destruct (entries m !! key) as [e|] eqn:He; [|simpl; by rewrite He]. destruct (_ && _) eqn:E; simpl; [by rewrite lookup_delete_eq|by rewrite He].
    + destruct (entries m !! k); [|done]. destruct (_ && _); simpl; [by rewrite lookup_delete_ne|done].
  - unfold Set_. case_decide as Hk; [subst k|]; destruct (_ && _); simpl; try done.
    + by rewrite lookup_insert_eq.
    + by rewrite lookup_insert_ne.
  - case_decide as Hk; [subst k; by rewrite lookup_delete_eq|by rewrite lookup_delete_ne].
Qed.

Lemma store_history_current m evs key :
  entries (foldl store_step m evs) !! key = foldl (current (maxObjectBytes m) key) (entries m !! key) evs ∧
  maxObjectBytes (foldl store_step m evs) = maxObjectBytes m.
Proof.
  revert m. induction evs as [|ev evs IH]; intros m; simpl; [done|].
  destruct (store_step_current m ev key) as [H1 H2]. destruct (IH (store_step m ev)) as [I1 I2].
  by rewrite I1, I2, H1, H2.
Qed.

(** C31. Safety: the cache never serves a stale or foreign entry.  After any
    history of stores, lookups and deletions at any times, a lookup answers
    exactly the last entry accepted for that very key, unless it was deleted,
    seen expired, or has expired at the time of the lookup; entries above the
    size limit are never served. *)
Theorem cache_serves_fresh max evs key now :
  let m := foldl store_step (NewMemoryStore max) evs in
  let cur := foldl (current (or_default max DefaultMaxObjectBytes) key) None evs in
  (Get m key now).2 = match cur with Some e => if expired e now then None else Some e | None => None end ∧
  (∀ e, (Get m key now).2 = Some e →
     slen (EntryBody e) ≤ or_default max DefaultMaxObjectBytes ∧ (IsZero (ExpiresAt e) = true ∨ now ≤ ExpiresAt e)).
Proof.
  intros m cur. destruct (store_history_current (NewMemoryStore max) evs key) as [H _]. fold m in H.
  cbn [NewMemoryStore entries maxObjectBytes] in H. rewrite lookup_empty in H. fold cur in H.
  assert ((Get m key now).2 = match cur with Some e => if expired e now then None else Some e | None => None end) as Hg.
  { unfold Get, lookupEntry, expired. rewrite H. destruct cur as [e|]; [|done]. by destruct (_ && _). }
  split; [done|]. intros e. rewrite Hg.
  assert (0 < or_default max DefaultMaxObjectBytes) as Hpos by (apply or_default_pos; vm_compute; done).
  assert (∀ o, (∀ e, o = Some e → slen (EntryBody e) ≤ or_default max DefaultMaxObjectBytes) →
    ∀ e, foldl (current (or_default max DefaultMaxObjectBytes) key) o evs = Some e → slen (EntryBody e) ≤ or_default max DefaultMaxObjectBytes) as Hsize.
  { clear -Hpos. induction evs as [|ev evs IH]; intros o Ho e; simpl; [apply Ho|]. apply IH. clear IH e. intros e.
    unfold current. destruct ev as [k t|k e'|k]; case_decide; try done; try (apply Ho).
    - destruct o as [e'|]; [|done]. destruct (expired e' t); [done|]. intros [= <-]. by apply Ho.
    - destruct (Z.ltb_spec 0 (or_default max DefaultMaxObjectBytes)), (Z.ltb_spec (or_default max DefaultMaxObjectBytes) (slen (EntryBody e')));
        simpl; try (apply Ho); intros [= <-]; lia. }
  destruct cur as [e'|] eqn:Hc; [|done]. destruct (expired e' now) eqn:Hx; [done|]. intros [= <-].
  split; [apply (Hsize None); [done|exact Hc]|]. unfold expired in Hx. apply andb_false_iff in Hx as [Hx|Hx].
  - left. by apply negb_false_iff in Hx.
  - right. lia.
Qed.

(** A [Get] that overlaps with others is its lookup and, later, a deletion,
    so the histories above cover it.  What they show of it: an entry stored
    between the two is deleted although it is fresh. *)
Theorem cache_get_race max key old new now :
  expired old now = true → slen (EntryBody old) ≤ or_default max DefaultMaxObjectBytes →
  let m := (Set_ (NewMemoryStore max) key old).1 in
  lookupEntry m key now = Expired ∧ ∀ t, (Get (Delete (Set_ m key new).1 key) key t).2 = None.
Proof.
  intros He Hs m. assert (entries m !! key = Some old) as Hm.
  { unfold m, Set_, NewMemoryStore. simpl. destruct (Z.ltb_spec (or_default max DefaultMaxObjectBytes) (slen (EntryBody old))); [lia|].
    rewrite andb_false_r. simpl. by rewrite lookup_insert_eq. }
  split; [unfold lookupEntry; rewrite Hm; unfold expired in He; by rewrite He|]. intros t. unfold Get, lookupEntry, Delete. simpl. by rewrite lookup_delete_eq.
Qed.

(** ** One leader per key *)

(** The requests that lead a flight and have not finished it yet. *)
Record system := mkSystem { coalescer : Coalescer; leading : gmap nat string }.

Inductive coalesce_step : system → system → Prop :=
| step_start c l key c' f leader applied :
    Start c key = (c', (f, leader, applied)) →
    coalesce_step (mkSystem c l)
      (mkSystem c' (match f with Some n => if leader then <[n := key]> l else l | None => l end))
| step_finish c l key f entry okv e :
    l !! f = Some key →
    coalesce_step (mkSystem c l) (mkSystem (Finish c key (Some f) entry okv e).1 (delete f l)).

Definition coalesce_ok (s : system) : Prop :=
  let c := coalescer s in
  0 < maxFlights c ∧ Z.of_nat (size (flights c)) ≤ maxFlights c ∧
  (∀ key f, flights c !! key = Some f ↔ leading s !! f = Some key) ∧
  (∀ f, is_Some (leading s !! f) → ∃ fl, heap c !! f = Some fl ∧ done_ fl = false) ∧
  (∀ f, is_Some (heap c !! f) → (f < nextFlight c)%nat).

Lemma coalesce_step_ok s s' : coalesce_step s s' → coalesce_ok s → coalesce_ok s'.
Proof.
  intros [c l key c' f leader applied Hs|c l key f entry okv e Hf] (H1 & H2 & H3 & H4 & H5); unfold coalesce_ok in *; simpl in *.
  - unfold Start in Hs. case_decide; [by simplify_eq|]. destruct (flights c !! key) as [n|] eqn:Hk; [by simplify_eq|].
    destruct (Z.ltb_spec 0 (maxFlights c)); [|lia].
    destruct (Z.leb_spec (maxFlights c) (Z.of_nat (size (flights c)))); [by simplify_eq/=|]. simplify_eq/=.
    split; [done|]. split; [rewrite map_size_insert_None by done; lia|].
    assert (leading (mkSystem c l) !! nextFlight c = None) as Hfresh.
    { simpl. destruct (l !! nextFlight c) as [k|] eqn:E; [|done].
      destruct (H4 (nextFlight c)) as (fl & Hfl & _); [by eexists|]. specialize (H5 _ (mk_is_Some _ _ Hfl)). lia. }
    simpl in Hfresh. repeat split.
    + intros E. destruct (decide (key0 = key)) as [->|Hne].
      * rewrite lookup_insert_eq in E. injection E as E. subst. by rewrite lookup_insert_eq.
      * rewrite lookup_insert_ne in E by done. apply H3 in E. rewrite lookup_insert_ne; [done|congruence].
    + intros E. destruct (decide (f = nextFlight c)) as [->|Hne].
      * rewrite lookup_insert_eq in E. injection E as E. subst. by rewrite lookup_insert_eq.
      * rewrite lookup_insert_ne in E by done. apply H3 in E. rewrite lookup_insert_ne; [done|congruence].
    + intros f Hf. destruct (decide (f = nextFlight c)) as [->|Hne].
      * rewrite lookup_insert_eq. eauto.
      * rewrite lookup_insert_ne in Hf by done. rewrite lookup_insert_ne by done. by apply H4.
    + intros f Hf. destruct (decide (f = nextFlight c)) as [->|Hne]; [lia|]. rewrite lookup_insert_ne in Hf by done. apply H5 in Hf. lia.
  - pose proof (proj2 (H3 key f) Hf) as Hk. rewrite bool_decide_true by done.
    destruct (H4 f) as (fl & Hfl & _); [by exists key|]. simpl. rewrite Hfl. simpl.
    split; [done|]. split; [|split; [|split]].
    + rewrite map_size_delete, Hk. simpl. lia.
    + intros k g. split.
      * intros [Hne E]%lookup_delete_Some. apply H3 in E. apply lookup_delete_Some. split; [|done]. intros ->. congruence.
      * intros [Hne E]%lookup_delete_Some. apply H3 in E. apply lookup_delete_Some. split; [|done]. intros ->. congruence.
    + intros g [k [Hne E]%lookup_delete_Some]. rewrite lookup_insert_ne by done. apply H4. by exists k.
    + intros g Hg. destruct (decide (g = f)) as [->|]; [apply H5; by exists fl|]. rewrite lookup_insert_ne in Hg by done. by apply H5.
Qed.

Lemma coalesce_step_max s s' : coalesce_step s s' → maxFlights (coalescer s') = maxFlights (coalescer s).
Proof.
  intros [c l key c' f leader applied Hs|c l key f entry okv e Hf]; simpl.
  - unfold Start in Hs. repeat case_match; simplify_eq/=; done.
  - repeat case_match; simpl; done.
Qed.

Lemma coalesce_reach s s' :
  rtc coalesce_step s s' → coalesce_ok s → coalesce_ok s' ∧ maxFlights (coalescer s') = maxFlights (coalescer s).
Proof.
  induction 1 as [s|s1 s2 s3 Hs _ IH]; intros Ho; [done|].
  destruct (IH (coalesce_step_ok _ _ Hs Ho)) as [H1 H2]. split; [done|]. by rewrite H2, (coalesce_step_max _ _ Hs).
Qed.

(** Invariant: request coalescing has a single leader.  In every
    interleaving of requests that start flights and leaders that finish
    theirs, two unfinished leaders never share a key, the number of flights
    stays within the limit, and finishing a flight never closes a closed
    channel (the request that would panic is never reached). *)
Theorem coalescer_single_leader max s :
  rtc coalesce_step (mkSystem (NewCoalescer max) ∅) s →
  (∀ f g key, leading s !! f = Some key → leading s !! g = Some key → f = g) ∧
  Z.of_nat (size (flights (coalescer s))) ≤ or_default max DefaultMaxFlights ∧
  (∀ f key entry okv e, leading s !! f = Some key → (Finish (coalescer s) key (Some f) entry okv e).2 = true).
Proof.
  intros Hr.
  assert (coalesce_ok s ∧ maxFlights (coalescer s) = or_default max DefaultMaxFlights) as [(H1 & H2 & H3 & H4 & H5) Hm].
  { apply (coalesce_reach _ _ Hr). unfold coalesce_ok, NewCoalescer. simpl. rewrite map_size_empty.
    assert (0 < or_default max DefaultMaxFlights) by (apply or_default_pos; vm_compute; done).
    split; [done|]. split; [lia|]. repeat split; intros *; rewrite ?lookup_empty; try done; intros [? ?]; done. }
  split; [|split; [lia|]].
  - intros f g key Hf Hg. apply H3 in Hf, Hg. congruence.
  - intros f key entry okv e Hf. pose proof (proj2 (H3 key f) Hf) as Hk. unfold Finish. rewrite bool_decide_true by done.
    destruct (H4 f) as (fl & Hfl & Hd); [by exists key|]. simpl. by rewrite Hfl, Hd.
Qed.

Lemma coalescer_single_leader_witness :
  let s := mkSystem (Start (NewCoalescer 2) "k").1 {[ 0%nat := "k" ]} in
  Z.of_nat (size (flights (coalescer s))) ≤ 2.
Proof.
  intros s. apply (coalescer_single_leader 2 s). apply rtc_once.
  apply (step_start (NewCoalescer 2) ∅ "k" (Start (NewCoalescer 2) "k").1 (Some 0%nat) true true). reflexivity.
Defined.
