(* ===== verification/CacheKey.v ===== *)
(** * Cache keys (internal/cache/key.go)

    [sha256] is the standard library's hash, a parameter that maps a string
    to its digest bytes.  [BuildKey] trims the values of the vary headers in
    place, so it returns the request too. *)
From S2P Require Import Prelude.
From S2P Require Import GoStrings.
From S2P Require Import GoError.
From S2P Require Import Http.
From S2P Require Import Policy.

Definition hexDigit (n : N) : ascii := ascii_of_N (if (n <? 10)%N then 48 + n else 87 + n)%N.
Fixpoint hexEncode (l : list ascii) : string :=
  match l with
  | [] => ""
  | c :: l => String (hexDigit (code c / 16)%N) (String (hexDigit (code c mod 16)%N) (hexEncode l))
  end.

Section Key.
Context (sha256 : string → list ascii).

Definition cachePartition (req : Request) (p : CachePolicy) : string :=
  if Public p then "public"
  else
    let auth := TrimSpace (header_Get (ReqHeader req) "Authorization") in
    if decide (auth = "") then "priv:anon"
    else ("priv:" ++ hexEncode (take 16 (sha256 auth)))%string.

(** One round of the loop over the vary headers. *)
Definition varyHeader (acc : Request * string) (header : string) : Request * string :=
  let '(req, key) := acc in
  let name := ToLower (TrimSpace header) in
  if decide (name = "") then (req, key)
  else
    let values := TrimSpace <$> header_Values (ReqHeader req) header in
    let req := req <| ReqHeader ::= alter (fmap TrimSpace) (CanonicalHeaderKey header) |> in
    (req, key ++ "|v=" ++ name ++ ":" ++ Join "," values)%string.

(** [BuildKey] on a non-nil request. *)
Definition BuildKey (req : Request) (p : CachePolicy) : Request * string :=
  let method := ToUpper (Method req) in
  let host := ToLower (Host req) in
  let path := if decide (Path req = "") then "/" else Path req in
  let url := if decide (RawQuery req ≠ "") then (path ++ "?" ++ RawQuery req)%string else path in
  let '(req, key) := foldl varyHeader (req, ("m=" ++ method ++ "|h=" ++ host ++ "|u=" ++ url)%string) (VaryHeaders p) in
  (req, (key ++ "|p=" ++ cachePartition req p)%string).

End Key.

(** ** Partitions *)

Fixpoint noBar (s : string) : Prop :=
  match s with EmptyString => True | String c s => c ≠ "|"%char ∧ noBar s end.

(** The rest of a string after its last bar. *)
Fixpoint afterBar (s acc : string) : string :=
  match s with
  | EmptyString => acc
  | String c s => if Ascii.eqb c "|" then afterBar s s else afterBar s acc
  end.

Lemma afterBar_noBar s acc : noBar s → afterBar s acc = acc.
Proof.
  induction s as [|c s IH]; simpl; [done|]. intros [Hc Hs].
  destruct (Ascii.eqb_spec c "|"); [done|]. by apply IH.
Qed.

Lemma afterBar_app s t acc : noBar t → afterBar (s ++ String "|" t) acc = t.
Proof.
  intros Ht. revert acc. induction s as [|c s IH]; intros acc; simpl; [by apply afterBar_noBar|].
  destruct (Ascii.eqb c "|"); apply IH.
Qed.

Lemma hexDigit_noBar n : (n < 16)%N → hexDigit n ≠ "|"%char.
Proof.
  intros Hn E. apply (f_equal N_of_ascii) in E. unfold hexDigit in E.
  rewrite N_ascii_embedding in E by (destruct (N.ltb_spec n 10); lia).
  change (N_of_ascii "|") with 124%N in E. destruct (N.ltb_spec n 10); lia.
Qed.

Lemma code_bound c : (code c < 256)%N.
Proof. apply N_ascii_bounded. Qed.

Lemma hexEncode_noBar l : noBar (hexEncode l).
Proof.
  induction l as [|c l IH]; simpl; [done|]. pose proof (code_bound c).
  split; [|split; [|done]]; apply hexDigit_noBar.
  - apply N.Div0.div_lt_upper_bound. lia.
  - apply N.mod_lt. lia.
Qed.

Lemma partition_noBar sha256 req p : noBar ("p=" ++ cachePartition sha256 req p).
Proof.
  unfold cachePartition. destruct (Public p); [simpl; repeat split; discriminate|].
  case_decide; [simpl; repeat split; discriminate|].
  simpl. repeat (split; [discriminate|]). apply hexEncode_noBar.
Qed.

Lemma hexDigit_inj n m : (n < 16)%N → (m < 16)%N → hexDigit n = hexDigit m → n = m.
Proof.
  intros Hn Hm E. apply (f_equal N_of_ascii) in E. unfold hexDigit in E.
  rewrite !N_ascii_embedding in E by (destruct (N.ltb_spec n 10), (N.ltb_spec m 10); lia).
  destruct (N.ltb_spec n 10), (N.ltb_spec m 10); lia.
Qed.

Lemma hexEncode_inj l k : hexEncode l = hexEncode k → l = k.
Proof.
  revert k. induction l as [|c l IH]; intros [|d k] E; try done. cbn [hexEncode] in E. injection E as E1 E2 E3.
  pose proof (code_bound c). pose proof (code_bound d).
  apply hexDigit_inj in E1; [|apply N.Div0.div_lt_upper_bound; lia..]. apply hexDigit_inj in E2; [|apply N.mod_lt; lia..].
  f_equal; [|by apply IH]. rewrite <- (ascii_N_embedding c), <- (ascii_N_embedding d). f_equal.
  rewrite (N.div_mod (code c) 16), (N.div_mod (code d) 16) by lia. congruence.
Qed.

Lemma hexEncode_not_anon l : hexEncode l ≠ "anon".
Proof.
  destruct l as [|c [|d l]]; [discriminate| |]; cbn [hexEncode]; intros E; injection E; intros; [discriminate|].
  pose proof (code_bound d). assert (hexDigit (code d mod 16) = "n"%char) as Hn by done.
  apply (f_equal N_of_ascii) in Hn. unfold hexDigit in Hn. pose proof (N.mod_lt (code d) 16 ltac:(lia)).
  rewrite N_ascii_embedding in Hn by (destruct (N.ltb_spec (code d mod 16) 10); lia).
  change (N_of_ascii "n") with 110%N in Hn. destruct (N.ltb_spec (code d mod 16) 10); lia.
Qed.

Lemma BuildKey_shape sha256 req p :
  ∃ prefix, (BuildKey sha256 req p).2 = (prefix ++ "|p=" ++ cachePartition sha256 (BuildKey sha256 req p).1 p)%string.
Proof.
  unfold BuildKey. cbn zeta. destruct (foldl _ _ _) as [req' key]. by exists key.
Qed.

Lemma header_Get_alter h k name :
  TrimSpace (header_Get (alter (fmap TrimSpace) k h) name) = TrimSpace (header_Get h name) ∨
  header_Get (alter (fmap TrimSpace) k h) name = TrimSpace (header_Get h name).
Proof.
  unfold header_Get, header_Values. destruct (decide (k = CanonicalHeaderKey name)) as [->|Hne].
  - rewrite lookup_alter_eq. destruct (h !! CanonicalHeaderKey name) as [[|v l]|]; simpl; auto.
  - rewrite lookup_alter_ne by done. auto.
Qed.

(** The credentials of a request, as the cache partitions by them. *)
Definition credentials (req : Request) : string := TrimSpace (header_Get (ReqHeader req) "Authorization").

Lemma varyHeader_credentials acc h : credentials (varyHeader acc h).1 = credentials acc.1.
Proof.
  destruct acc as [req key]. unfold varyHeader. cbn zeta. case_decide; [done|]. unfold credentials. simpl.
  destruct (header_Get_alter (ReqHeader req) (CanonicalHeaderKey h) "Authorization") as [->|E]; [done|].
  by rewrite E, TrimSpace_idemp.
Qed.

Lemma BuildKey_credentials sha256 req p : credentials (BuildKey sha256 req p).1 = credentials req.
Proof.
  unfold BuildKey. cbn zeta.
  assert (∀ l acc, credentials (foldl varyHeader acc l).1 = credentials acc.1) as H.
  { induction l as [|h l IH]; intros acc; simpl; [done|]. by rewrite IH, varyHeader_credentials. }
  match goal with |- context [foldl varyHeader ?acc ?l] => specialize (H l acc); destruct (foldl varyHeader acc l) end.
  exact H.
Qed.

Lemma partition_credentials sha256 r1 r2 p :
  Public p = false → cachePartition sha256 r1 p = cachePartition sha256 r2 p →
  credentials r1 = credentials r2 ∨
  (credentials r1 ≠ "" ∧ credentials r2 ≠ "" ∧ take 16 (sha256 (credentials r1)) = take 16 (sha256 (credentials r2))).
Proof.
  unfold cachePartition. intros ->. fold (credentials r1) (credentials r2). repeat case_decide; intros E; [left; congruence|..].
  - injection E as E. symmetry in E. by apply hexEncode_not_anon in E.
  - injection E as E. by apply hexEncode_not_anon in E.
  - injection E as E. apply hexEncode_inj in E. auto.
Qed.

(** C32. Safety (isolation): two requests that share a cache key under a
    non-public policy carry the same credentials (the same Authorization
    value up to surrounding space, or both none), unless the truncated
    SHA-256 of their two different credentials collides.  Holds for any
    method, host, URL and headers, whatever characters they contain. *)
Theorem cache_key_isolates_credentials sha256 r1 r2 p :
  Public p = false → (BuildKey sha256 r1 p).2 = (BuildKey sha256 r2 p).2 →
  credentials r1 = credentials r2 ∨
  (credentials r1 ≠ "" ∧ credentials r2 ≠ "" ∧ take 16 (sha256 (credentials r1)) = take 16 (sha256 (credentials r2))).
Proof.
  intros Hp E. destruct (BuildKey_shape sha256 r1 p) as [k1 H1], (BuildKey_shape sha256 r2 p) as [k2 H2].
  rewrite H1, H2 in E.
  assert (∀ k r, afterBar (k ++ "|p=" ++ cachePartition sha256 r p) "" = ("p=" ++ cachePartition sha256 r p)%string) as Ha.
  { intros k r. apply (afterBar_app k ("p=" ++ cachePartition sha256 r p)). apply partition_noBar. }
  apply (f_equal (λ s, afterBar s "")) in E. rewrite !Ha in E. injection E as E.
  apply partition_credentials in E; [|done]. by rewrite !BuildKey_credentials in E.
Qed.

Definition example_request (method uri query accept auth : string) : Request :=
  mkRequest method "h" uri query "" (<["Accept" := [accept]]> {[ "Authorization" := [auth] ]}) None 0 "1.2.3.4:5" None.
Definition private_policy : CachePolicy := mkCachePolicy true false Second 1024 ["Accept"] false 0 true.
Definition public_policy : CachePolicy := mkCachePolicy true true Second 1024 ["Accept"] false 0 true.

Lemma cache_key_isolates_credentials_witness :
  credentials (example_request "GET" "/x" "" "a" " tok") = credentials (example_request "get" "/x" "" "a" "tok ").
Proof.
  destruct (cache_key_isolates_credentials (λ s, [" "%char]) (example_request "GET" "/x" "" "a" " tok")
    (example_request "get" "/x" "" "a" "tok ") private_policy eq_refl eq_refl) as [H|_]; [exact H|reflexivity].
Defined.

(** Error: the key does not determine the request.  The parts of the key
    are not escaped, so two requests for different URLs with different vary
    headers can share one: a response stored for the first is served to the
    second, whatever the hash function. *)
Theorem cache_key_collision sha256 :
  let r1 := example_request "GET" "/x" "a|v=accept:b" "c" "" in
  let r2 := example_request "GET" "/x" "a" "b|v=accept:c" "" in
  RawQuery r1 ≠ RawQuery r2 ∧ (BuildKey sha256 r1 public_policy).2 = (BuildKey sha256 r2 public_policy).2.
Proof. split; [discriminate|vm_compute; reflexivity]. Qed.
