(* ===== verification/TrafficSplit.v ===== *)
(** * Traffic splitting (internal/traffic/split.go, cohort.go)

    Weighted choice between the stable and the canary pool, at random or
    sticky by a cohort key.  64-bit values are [Z] reduced by [u64]. *)
From S2P Require Import Prelude.
From S2P Require Import GoStrings.
From S2P Require Import GoError.
From S2P Require Import Http.

Inductive Variant := VariantStable | VariantCanary.
#[export] Instance Variant_eq_dec : EqDecision Variant.
Proof. solve_decision. Defined.
Definition Variant_String (v : Variant) : string :=
  match v with VariantStable => "stable" | VariantCanary => "canary" end.

Record Split := mkSplit { StableWeight : Z; CanaryWeight : Z }.

Definition choose (s : Split) (value : Z) : Variant :=
  let total := i64 (StableWeight s + CanaryWeight s) in
  if (total <=? 0) || (CanaryWeight s <=? 0) then VariantStable
  else if StableWeight s <=? 0 then VariantCanary
  else
    let roll := value `mod` total in
    if roll <? CanaryWeight s then VariantCanary else VariantStable.

(** ** FNV-1a, 64 bits ([hash/fnv]) *)
Definition fnvOffset : Z := 14695981039346656037.
Definition fnvPrime : Z := 1099511628211.
Fixpoint fnv64a (h : Z) (s : string) : Z :=
  match s with
  | EmptyString => h
  | String c s => fnv64a (u64 (Z.lxor h (Z.of_N (code c)) * fnvPrime)) s
  end.
Definition Sum64 (key : string) : Z := fnv64a fnvOffset key.

Example fnv_ex1 : Sum64 "" = 0xcbf29ce484222325. Proof. reflexivity. Qed.
Example fnv_ex2 : Sum64 "a" = 0xaf63dc4c8601ec8c. Proof. reflexivity. Qed.
Example fnv_ex3 : Sum64 "foobar" = 0x85944171f73967e8. Proof. reflexivity. Qed.

Definition ChooseDeterministic (s : Split) (key : string) : Variant := choose s (Sum64 key).

(** ** The random source: the shared seed is the state *)

Definition xorshift (seed : Z) : Z :=
  let x := seed in
  let x := Z.lxor x (Z.shiftr x 12) in
  let x := Z.lxor x (u64 (Z.shiftl x 25)) in
  let x := Z.lxor x (Z.shiftr x 27) in
  u64 (x * 2685821657736338717).

(** One round of [nextRand]'s loop, run without interference: [None] when the
    compare-and-swap fails, which it does for a zero seed, because the
    register holds 0 while 1 is compared. *)
Definition nextRandRound (rngSeed : Z) : option Z :=
  let seed := if rngSeed =? 0 then 1 else rngSeed in
  let x := xorshift seed in
  if rngSeed =? seed then Some x else None.

(** The new seed is also the value returned. *)
Definition ChooseRandom (s : Split) (rngSeed : Z) : option (Z * Variant) :=
  match nextRandRound rngSeed with None => None | Some x => Some (x, choose s x) end.

Definition SetSeedForTests (seed : Z) : Z := if seed =? 0 then 1 else seed.

(** ** Cohorts *)

Inductive CohortExtractor := cohortIP | cohortHeader (header : string).

(** [Ok None] is a nil extractor. *)
Definition NewCohortExtractor (spec : string) : result (option CohortExtractor) :=
  let trimmed := TrimSpace spec in
  if decide (trimmed = "") then Ok None
  else if EqualFold trimmed "ip" then Ok (Some cohortIP)
  else if HasPrefix (ToLower trimmed) "header:" then
    let name := TrimSpace (String.substring 7 (String.length trimmed - 7) trimmed) in
    if decide (name = "") then Err "cohort header key missing"
    else Ok (Some (cohortHeader name))
  else Err "unsupported cohort key".

Definition nonEmpty (value : string) : option string := if decide (value = "") then None else Some value.

(** [None] is the result [("", false)]. *)
Definition Extract (c : option CohortExtractor) (r : Request) : option string :=
  match c with
  | None => None
  | Some cohortIP =>
      let value := TrimSpace (RemoteAddr r) in
      if decide (value = "") then None
      else
        let value := match SplitHostPort value with Some (host, _) => host | None => value end in
        nonEmpty (TrimSpace value)
  | Some (cohortHeader header) => nonEmpty (TrimSpace (header_Get (ReqHeader r) header))
  end.

(** ** Exact weights *)

(** How many of the [n] values from [v] on choose the canary. *)
Fixpoint canaries (s : Split) (v : Z) (n : nat) : Z :=
  match n with
  | O => 0
  | S n => (if decide (choose s v = VariantCanary) then 1 else 0) + canaries s (v + 1) n
  end.

Lemma canaries_app s v n m : canaries s v (n + m) = canaries s v n + canaries s (v + Z.of_nat n) m.
Proof.
  revert v. induction n as [|n IH]; intros v; simpl canaries.
  - by rewrite Z.add_0_r.
  - rewrite IH. replace (v + Z.of_nat (S n)) with (v + 1 + Z.of_nat n) by lia. lia.
Qed.

Lemma canaries_const s v n b :
  (∀ i, (i < n)%nat → choose s (v + Z.of_nat i) = if b : bool then VariantCanary else VariantStable) →
  canaries s v n = if b then Z.of_nat n else 0.
Proof.
  revert v. induction n as [|n IH]; intros v H; simpl canaries; [by destruct b|].
  rewrite IH.
  2: { intros i Hi. specialize (H (S i) ltac:(lia)). replace (v + 1 + Z.of_nat i) with (v + Z.of_nat (S i)) by lia. exact H. }
  specialize (H O ltac:(lia)). rewrite Z.add_0_r in H. rewrite H. destruct b; simpl; lia.
Qed.

(** Both weights positive and within int64. *)
Definition weights_ok (s : Split) : Prop := 0 ≤ StableWeight s ∧ 0 ≤ CanaryWeight s ∧ 0 < StableWeight s + CanaryWeight s ≤ max_i64.

(** Functional: the canary gets exactly its weight.  Among any
    [stable + canary] consecutive values starting at a multiple of that sum,
    exactly [canary] choose the canary pool; weights of zero are never or
    always chosen accordingly. *)
Theorem split_exact_weights s k :
  weights_ok s →
  let total := StableWeight s + CanaryWeight s in
  canaries s (k * total) (Z.to_nat total) = CanaryWeight s.
Proof.
  intros (H1 & H2 & H3 & H4) total. subst total. set (st := StableWeight s) in *. set (cw := CanaryWeight s) in *.
  assert (∀ i, 0 ≤ i < st + cw → choose s (k * (st + cw) + i) = if i <? cw then VariantCanary else VariantStable) as Hc.
  { intros i Hi. unfold choose. fold st cw. rewrite i64_small by lia.
    destruct (Z.leb_spec (st + cw) 0); [lia|]. cbn [orb].
    destruct (Z.leb_spec cw 0); [destruct (Z.ltb_spec i cw); [lia|done]|].
    destruct (Z.leb_spec st 0); [destruct (Z.ltb_spec i cw); [done|lia]|].
    rewrite Z.add_comm, Z_mod_plus_full, Z.mod_small by lia. done. }
  replace (Z.to_nat (st + cw)) with (Z.to_nat cw + Z.to_nat st)%nat by lia. rewrite canaries_app.
  rewrite (canaries_const _ _ _ true).
  2: { intros i Hi. rewrite Hc by lia. destruct (Z.ltb_spec (Z.of_nat i) cw); [done|lia]. }
  rewrite (canaries_const _ _ _ false); [lia|].
  intros i Hi. rewrite <- Z.add_assoc, Hc by lia.
  destruct (Z.ltb_spec (Z.of_nat (Z.to_nat cw) + Z.of_nat i) cw); [lia|done].
Qed.

Lemma split_exact_weights_witness : canaries (mkSplit 95 5) (7 * 100) 100 = 5.
Proof. apply (split_exact_weights (mkSplit 95 5) 7). vm_compute. repeat split; congruence. Defined.

(** ** The generator never sticks *)

Definition word (x : Z) : Prop := 0 < x < 2 ^ 64.

Lemma lxor_word x y : word x → 0 ≤ y < 2 ^ 64 → x ≠ y → word (Z.lxor x y).
Proof.
  unfold word. intros Hx Hy Hne.
  assert (0 ≤ Z.lxor x y) as H0 by (apply Z.lxor_nonneg; lia).
  assert (Z.lxor x y ≠ 0) by (by rewrite Z.lxor_eq_0_iff). split; [lia|].
  apply Z.log2_lt_pow2; [lia|]. pose proof (Z.log2_lxor x y ltac:(lia) ltac:(lia)) as Hl.
  assert (Z.log2 x < 64) by (apply Z.log2_lt_pow2; lia).
  destruct (decide (y = 0)) as [->|]; [simpl in *; lia|].
  assert (Z.log2 y < 64) by (apply Z.log2_lt_pow2; lia). lia.
Qed.

Lemma xorshift_right x n : word x → 0 < n → word (Z.lxor x (Z.shiftr x n)).
Proof.
  intros Hx Hn. unfold word in *. rewrite Z.shiftr_div_pow2 by lia.
  assert (2 ≤ 2 ^ n) by (change 2 with (2 ^ 1) at 1; apply Z.pow_le_mono_r; lia).
  assert (0 ≤ x / 2 ^ n < x) by (split; [apply Z.div_pos; lia|apply Z.div_lt; lia]).
  apply lxor_word; unfold word; lia.
Qed.

(** Multiplying by an odd number modulo 2^64 does not lose a word. *)
Lemma odd_mul_word x m : word x → Z.gcd (2 ^ 64) m = 1 → word (u64 (x * m)).
Proof.
  unfold word, u64. intros Hx Hm. pose proof (Z.mod_pos_bound (x * m) (2 ^ 64) ltac:(lia)).
  destruct (decide ((x * m) `mod` 2 ^ 64 = 0)) as [E|]; [|lia].
  apply Z.mod_divide in E; [|lia]. rewrite Z.mul_comm in E. apply Z.gauss in E; [|done].
  apply Z.divide_pos_le in E; lia.
Qed.

Lemma xorshift_left x : word x → word (Z.lxor x (u64 (Z.shiftl x 25))).
Proof.
  intros Hx. apply lxor_word; [done|apply Z.mod_pos_bound; lia|]. rewrite Z.shiftl_mul_pow2 by lia. intros E.
  assert (word (u64 (x * (2 ^ 25 - 1)))) as [H _] by (by apply odd_mul_word).
  assert (u64 (x * (2 ^ 25 - 1)) = 0); [|lia].
  unfold u64 in *. rewrite Z.mul_sub_distr_l, Z.mul_1_r, Zminus_mod, <- E.
  rewrite (Z.mod_small x) by (unfold word in Hx; lia). by rewrite Z.sub_diag.
Qed.

(** Termination: the random source never gets stuck.  From any non-zero
    64-bit seed, every call of [nextRand] succeeds in its first round and
    leaves a non-zero 64-bit seed, so the compare-and-swap loop cannot spin
    on the seed 0 it would never leave. *)
Theorem nextRand_never_stuck seed :
  0 < seed < 2 ^ 64 → ∃ x, nextRandRound seed = Some x ∧ 0 < x < 2 ^ 64.
Proof.
  intros Hs. unfold nextRandRound. destruct (Z.eqb_spec seed 0); [lia|]. rewrite Z.eqb_refl.
  eexists. split; [done|]. unfold xorshift. apply odd_mul_word; [|vm_compute; done].
  apply xorshift_right; [|lia]. apply xorshift_left. by apply xorshift_right.
Qed.

Lemma nextRand_never_stuck_witness : ∃ x, nextRandRound 1 = Some x ∧ 0 < x < 2 ^ 64.
Proof. apply nextRand_never_stuck. split; reflexivity. Defined.

(** The seed 0 is the one the loop would spin on. *)
Example nextRand_zero : nextRandRound 0 = None.
Proof. reflexivity. Qed.
