(* ===== verification/Overload.v ===== *)
(** * The overload limiter (internal/traffic/overload.go)

    Two buffered channels used as counting semaphores, shared by all requests
    of a route.  [Acquire] is several channel operations, so it is modelled
    as a step relation on the channels and on how many requests stand at each
    point of [Acquire]; every interleaving of requests is a sequence of
    steps. *)
From S2P Require Import Prelude.

(** The capacity of the queue is [None] for the nil channel. *)
Record OverloadLimiter := mkLimiter {
  maxInflight : Z;
  maxQueue : option Z;
  queueTimeout : Duration
}.

Definition NewOverloadLimiter (inflight queue : Z) (timeout : Duration) : option OverloadLimiter :=
  if inflight <=? 0 then None
  else Some (mkLimiter inflight (if 0 <? queue then Some queue else None) timeout).

(** Channel fill and program counters:
    - [running]: [Acquire] returned a release function, not yet called;
    - [waiting]: holds a queue slot and is blocked in the select;
    - [admitted]: sent to [inflight] in the select, about to leave the queue;
    - [giving_up]: timer or context fired, about to leave the queue. *)
Record limiter_state := mkState {
  inflight : Z;
  queue : Z;
  running : Z;
  waiting : Z;
  admitted : Z;
  giving_up : Z;
  rejected : Z
}.
#[export] Instance limiter_state_eta : Eta limiter_state := fun s =>
  mkState (inflight s) (queue s) (running s) (waiting s) (admitted s) (giving_up s) (rejected s).

Definition initial : limiter_state := mkState 0 0 0 0 0 0 0.

Section Limiter.
Context (l : OverloadLimiter).

(** [trySend]: room in the buffer. *)
Definition roomInflight (s : limiter_state) : bool := inflight s <? maxInflight l.
Definition roomQueue (s : limiter_state) : bool :=
  match maxQueue l with None => false | Some q => queue s <? q end.

Inductive step : limiter_state → limiter_state → Prop :=
| acquire_fast s : (* trySend(l.inflight) *)
    roomInflight s = true →
    step s (s <| inflight ::= (λ n, n + 1) |> <| running ::= (λ n, n + 1) |>)
| acquire_reject s : (* no queue, or trySend(l.queue) fails *)
    roomInflight s = false → roomQueue s = false →
    step s (s <| rejected ::= (λ n, n + 1) |>)
| acquire_queue s : (* trySend(l.queue) *)
    roomInflight s = false → roomQueue s = true →
    step s (s <| queue ::= (λ n, n + 1) |> <| waiting ::= (λ n, n + 1) |>)
| select_inflight s : (* case l.inflight <- struct{}{} *)
    0 < waiting s → roomInflight s = true →
    step s (s <| waiting ::= (λ n, n - 1) |> <| inflight ::= (λ n, n + 1) |> <| admitted ::= (λ n, n + 1) |>)
| select_give_up s : (* case <-timer.C, case <-ctx.Done() *)
    0 < waiting s →
    step s (s <| waiting ::= (λ n, n - 1) |> <| giving_up ::= (λ n, n + 1) |>)
| leave_admitted s : (* <-l.queue; return release *)
    0 < admitted s → 0 < queue s →
    step s (s <| admitted ::= (λ n, n - 1) |> <| queue ::= (λ n, n - 1) |> <| running ::= (λ n, n + 1) |>)
| leave_give_up s : (* <-l.queue; return nil, false *)
    0 < giving_up s → 0 < queue s →
    step s (s <| giving_up ::= (λ n, n - 1) |> <| queue ::= (λ n, n - 1) |> <| rejected ::= (λ n, n + 1) |>)
| release s : (* the release function: <-l.inflight *)
    0 < running s → 0 < inflight s →
    step s (s <| running ::= (λ n, n - 1) |> <| inflight ::= (λ n, n - 1) |>).

Record limiter_ok (s : limiter_state) : Prop := mkOk {
  ok_nonneg : 0 ≤ running s ∧ 0 ≤ waiting s ∧ 0 ≤ admitted s ∧ 0 ≤ giving_up s;
  ok_inflight : inflight s = running s + admitted s;
  ok_queue : queue s = waiting s + admitted s + giving_up s;
  ok_cap : inflight s ≤ maxInflight l;
  ok_capq : queue s ≤ default 0 (maxQueue l)
}.

Lemma limiter_step_ok s s' : step s s' → limiter_ok s → limiter_ok s'.
Proof.
  intros Hs [(H1 & H2 & H3 & H4) H5 H6 H7 H8].
  destruct Hs; unfold roomInflight, roomQueue in *; destruct (maxQueue l) eqn:Hq; simpl in *; try discriminate;
    split; rewrite ?Hq; simpl; lia.
Qed.
End Limiter.

(** C33. Invariant: the overload limiter bounds concurrency.  In every
    interleaving of requests, at most [maxInflight] requests hold a slot and
    at most [maxQueue] wait (none without a queue), every slot taken is held
    by exactly one request, and a request that has to give a token back
    always finds one, so no [Acquire] or release blocks for ever. *)
Theorem overload_limits inflightCap queueCap timeout l s :
  NewOverloadLimiter inflightCap queueCap timeout = Some l →
  rtc (step l) initial s →
  running s + admitted s = inflight s ∧ inflight s ≤ inflightCap ∧
  waiting s + admitted s + giving_up s = queue s ∧ queue s ≤ Z.max 0 queueCap ∧
  (0 < running s → ∃ s', step l s s' ∧ running s' = running s - 1 ∧ inflight s' = inflight s - 1) ∧
  (0 < admitted s → ∃ s', step l s s' ∧ admitted s' = admitted s - 1 ∧ running s' = running s + 1) ∧
  (0 < giving_up s → ∃ s', step l s s' ∧ giving_up s' = giving_up s - 1 ∧ rejected s' = rejected s + 1).
Proof.
  unfold NewOverloadLimiter. destruct (Z.leb_spec inflightCap 0); [done|]. intros [= <-] Hr.
  set (l := mkLimiter _ _ _) in *.
  assert (limiter_ok l s) as [(H1 & H2 & H3 & H4) H5 H6 H7 H8].
  { assert (limiter_ok l initial) as H0.
    { split; simpl; try lia. destruct (Z.ltb_spec 0 queueCap); simpl; lia. }
    revert H0. induction Hr as [s|s1 s2 s3 Hs _ IH]; intros H0; [done|]. apply IH. by eapply limiter_step_ok. }
  simpl in H7, H8. split; [lia|]. split; [lia|]. split; [lia|].
  split; [destruct (Z.ltb_spec 0 queueCap); simpl in *; lia|]. repeat split.
  - intros Hp. eexists. split; [by apply release; [|lia]|done].
  - intros Hp. eexists. split; [by apply leave_admitted; [|lia]|done].
  - intros Hp. eexists. split; [by apply leave_give_up; [|lia]|done].
Qed.

Lemma overload_limits_witness : inflight (initial <| inflight := 1 |> <| running := 1 |>) ≤ 1.
Proof.
  apply (overload_limits 1 2 Second (mkLimiter 1 (Some 2) Second) (initial <| inflight := 1 |> <| running := 1 |>));
    [reflexivity|]. apply rtc_once. exact (acquire_fast (mkLimiter 1 (Some 2) Second) initial eq_refl).
Defined.
