(* ===== verification/TrafficPlan.v ===== *)
(** * Traffic plans (internal/traffic/stats.go, traffic.go)

    The sliding statistics of a canary, the auto-drain controller, the plan
    of a route and the registry of plans.  A [Plan] is shared by pointer
    between the registry and the snapshots, so plans live in the registry's
    heap; a plan and its auto-drain controller share one [Stats]. *)
From S2P Require Import Prelude.
From S2P Require Import GoFloat.
From S2P Require Import GoStrings.
From S2P Require Import GoError.
From S2P Require Import Http.
From S2P Require Import TrafficSplit.
From S2P Require Import Overload.

(** ** Statistics *)

Record bucket := mkBucket { start : Time; stableReq : Z; stableErr : Z; canaryReq : Z; canaryErr : Z }.
#[export] Instance bucket_eta : Eta bucket := fun b =>
  mkBucket (start b) (stableReq b) (stableErr b) (canaryReq b) (canaryErr b).
Definition emptyBucket : bucket := mkBucket zeroTime 0 0 0 0.

Record Stats := mkStats {
  buckets : list bucket;
  bucketDuration : Duration;
  window : Duration;
  current : Z;
  currentStart : Time
}.
#[export] Instance Stats_eta : Eta Stats := fun s =>
  mkStats (buckets s) (bucketDuration s) (window s) (current s) (currentStart s).

Record WindowTotals := mkTotals { StableReq : Z; StableErr : Z; CanaryReq : Z; CanaryErr : Z }.

Definition NewStats (w : Duration) : Stats :=
  let w := or_default w Minute in
  let bd := if w <? Second then w else Second in
  let count := f64_ceil_to_int (f64_div (f64_of_Z w) (f64_of_Z bd)) in
  let count := if count <? 1 then 1 else count in
  mkStats (replicate (Z.to_nat count) emptyBucket) bd w 0 zeroTime.

(** The loop of [rotateLocked]: [i] counts from [steps - n]. *)
Fixpoint rotateSteps (n : nat) (i : Z) (s : Stats) : Stats :=
  match n with
  | O => s
  | S n =>
      let s := s <| current := (current s + 1) `rem` len (buckets s) |> in
      let b := emptyBucket <| start := currentStart s + i64 (bucketDuration s * (i + 1)) |> in
      rotateSteps n (i + 1) (s <| buckets ::= <[Z.to_nat (current s) := b]> |>)
  end.

Definition rotateLocked (s : Stats) (now : Time) : Stats :=
  if IsZero (currentStart s) then
    s <| currentStart := now |> <| buckets ::= alter (λ b, b <| start := now |>) (Z.to_nat (current s)) |>
  else if time_Sub now (currentStart s) <? bucketDuration s then s
  else
    let steps := time_Sub now (currentStart s) `quot` bucketDuration s in
    if len (buckets s) <=? steps then
      s <| buckets ::= (λ l, alter (λ b, b <| start := now |>) 0%nat (replicate (List.length l) emptyBucket)) |>
        <| current := 0 |> <| currentStart := now |>
    else
      let s := rotateSteps (Z.to_nat steps) 0 s in
      s <| currentStart := currentStart s + i64 (bucketDuration s * steps) |>.

(** On a non-nil [Stats]. *)
Definition Record_ (s : Stats) (v : Variant) (status : Z) (proxyError : bool) (now : Time) : Stats :=
  let isError := proxyError || (500 <=? status) in
  let s := rotateLocked s now in
  let bump (b : bucket) :=
    match v with
    | VariantCanary =>
        let b := b <| canaryReq ::= (λ n, i64 (n + 1)) |> in
        if isError then b <| canaryErr ::= (λ n, i64 (n + 1)) |> else b
    | VariantStable =>
        let b := b <| stableReq ::= (λ n, i64 (n + 1)) |> in
        if isError then b <| stableErr ::= (λ n, i64 (n + 1)) |> else b
    end in
  s <| buckets ::= alter bump (Z.to_nat (current s)) |>.

Definition addBucket (cutoff : Time) (t : WindowTotals) (b : bucket) : WindowTotals :=
  if IsZero (start b) || (start b <? cutoff) then t
  else mkTotals (i64 (StableReq t + stableReq b)) (i64 (StableErr t + stableErr b))
                (i64 (CanaryReq t + canaryReq b)) (i64 (CanaryErr t + canaryErr b)).

(** [clock] is read only when [now] is the zero time. *)
Definition windowTotals (s : Stats) (now clock : Time) : Stats * WindowTotals :=
  let now := if IsZero now then clock else now in
  let s := rotateLocked s now in
  let cutoff := now + - window s in
  (s, foldl (addBucket cutoff) (mkTotals 0 0 0 0) (buckets s)).

(** ** Auto-drain *)

Record AutoDrainConfig := mkAutoDrainConfig {
  drain_Enabled : bool;
  Window : Duration;
  MinRequests : Z;
  ErrorRateMultiplier : float64;
  Cooloff : Duration
}.

(** [drain_stopped]: the stop channel is closed, the goroutine has ended. *)
Record AutoDrain := mkAutoDrain { drain_config : AutoDrainConfig; drainedUntil : Z; drain_stopped : bool }.
#[export] Instance AutoDrain_eta : Eta AutoDrain := fun a => mkAutoDrain (drain_config a) (drainedUntil a) (drain_stopped a).

Definition NewAutoDrain (cfg : AutoDrainConfig) : AutoDrain := mkAutoDrain cfg 0 false.
Definition Active (a : AutoDrain) (now : Time) : bool := (0 <? drainedUntil a) && (UnixNano now <? drainedUntil a).
Definition DrainStop (a : AutoDrain) : AutoDrain := a <| drain_stopped := true |>.

Definition drainUntil (a : AutoDrain) (now : Time) : AutoDrain :=
  if Cooloff (drain_config a) <=? 0 then a
  else
    let until := UnixNano (now + Cooloff (drain_config a)) in
    if until <=? drainedUntil a then a else a <| drainedUntil := until |>.

(** Whether the totals call for draining. *)
Definition shouldDrain (cfg : AutoDrainConfig) (t : WindowTotals) : bool :=
  if CanaryReq t <? MinRequests cfg then false
  else if CanaryReq t =? 0 then false
  else
    let canaryRate := f64_div (f64_of_Z (CanaryErr t)) (f64_of_Z (CanaryReq t)) in
    if f64_le canaryRate f64_zero then false
    else if StableReq t =? 0 then true
    else
      let stableRate := f64_div (f64_of_Z (StableErr t)) (f64_of_Z (StableReq t)) in
      f64_ge canaryRate (f64_mul (ErrorRateMultiplier cfg) stableRate).

Definition evaluate (s : Stats) (a : AutoDrain) (now clock : Time) : Stats * AutoDrain :=
  let '(s, totals) := windowTotals s now clock in
  (s, if shouldDrain (drain_config a) totals then drainUntil a now else a).

(** ** Plans *)

Record CohortConfig := mkCohortConfig { cohort_Enabled : bool; cohort_Key : string }.
Record OverloadConfig := mkOverloadConfig { overload_Enabled : bool; MaxInflight : Z; MaxQueue : Z; QueueTimeout : Duration }.
Record Config := mkConfig {
  Enabled : bool;
  cfg_StableWeight : Z;
  cfg_CanaryWeight : Z;
  Cohort : CohortConfig;
  Overload : OverloadConfig;
  AutoDrainCfg : AutoDrainConfig
}.

Record Plan := mkPlan {
  plan_split : Split;
  plan_cohort : option CohortExtractor;
  plan_overload : option OverloadLimiter;
  plan_stats : Stats;
  plan_autodrain : option AutoDrain
}.
#[export] Instance Plan_eta : Eta Plan := fun p =>
  mkPlan (plan_split p) (plan_cohort p) (plan_overload p) (plan_stats p) (plan_autodrain p).

Record PickMeta := mkPickMeta { CohortMode : string; CohortKeyPresent : bool; AutoDrainActive : bool }.

(** [PickVariant] on a non-nil plan; [rngSeed] is the shared generator,
    returned when it was used ([None] when it would spin for ever). *)
Definition PickVariant (p : Plan) (r : Request) (now : Time) (rngSeed : Z) : option (Z * Variant * PickMeta) :=
  let active := match plan_autodrain p with None => false | Some a => Active a now end in
  let split := if active then mkSplit (StableWeight (plan_split p)) 0 else plan_split p in
  match Extract (plan_cohort p) r with
  | Some key => Some (rngSeed, ChooseDeterministic split key, mkPickMeta "sticky" true active)
  | None =>
      match ChooseRandom split rngSeed with
      | Some (seed, v) => Some (seed, v, mkPickMeta "random" false active)
      | None => None
      end
  end.

Definition PlanStop (p : Plan) : Plan := p <| plan_autodrain ::= fmap DrainStop |>.

(** A tick of the auto-drain goroutine of a plan. *)
Definition drainTick (p : Plan) (now : Time) : Plan :=
  match plan_autodrain p with
  | None => p
  | Some a =>
      if drain_stopped a then p
      else let '(s, a) := evaluate (plan_stats p) a now now in p <| plan_stats := s |> <| plan_autodrain := Some a |>
  end.

Definition RecordRequest (p : Plan) (v : Variant) (status : Z) (proxyError : bool) (now : Time) : Plan :=
  p <| plan_stats ::= (λ s, Record_ s v status proxyError now) |>.

(** [Ok None] is the nil plan of a disabled configuration. *)
Definition buildPlan (cfg : Config) : result (option Plan) :=
  if negb (Enabled cfg) then Ok None
  else
    let? cohort := if cohort_Enabled (Cohort cfg) then NewCohortExtractor (cohort_Key (Cohort cfg)) else Ok None in
    let overload := if overload_Enabled (Overload cfg)
      then NewOverloadLimiter (MaxInflight (Overload cfg)) (MaxQueue (Overload cfg)) (QueueTimeout (Overload cfg)) else None in
    Ok (Some (mkPlan (mkSplit (cfg_StableWeight cfg) (cfg_CanaryWeight cfg)) cohort overload
      (NewStats (Window (AutoDrainCfg cfg)))
      (if drain_Enabled (AutoDrainCfg cfg) then Some (NewAutoDrain (AutoDrainCfg cfg)) else None))).

(** ** The registry *)

Definition cohortSame (a b : CohortConfig) : bool :=
  Bool.eqb (cohort_Enabled a) (cohort_Enabled b) && bool_decide (cohort_Key a = cohort_Key b).
Definition overloadSame (a b : OverloadConfig) : bool :=
  Bool.eqb (overload_Enabled a) (overload_Enabled b) && (MaxInflight a =? MaxInflight b) && (MaxQueue a =? MaxQueue b) &&
  (QueueTimeout a =? QueueTimeout b).
Definition autoDrainSame (a b : AutoDrainConfig) : bool :=
  Bool.eqb (drain_Enabled a) (drain_Enabled b) && (Window a =? Window b) && (MinRequests a =? MinRequests b) &&
  f64_eq (ErrorRateMultiplier a) (ErrorRateMultiplier b) && (Cooloff a =? Cooloff b).
Definition sameConfig (a b : Config) : bool :=
  Bool.eqb (Enabled a) (Enabled b) && (cfg_StableWeight a =? cfg_StableWeight b) && (cfg_CanaryWeight a =? cfg_CanaryWeight b) &&
  cohortSame (Cohort a) (Cohort b) && overloadSame (Overload a) (Overload b) && autoDrainSame (AutoDrainCfg a) (AutoDrainCfg b).

Record entry := mkEntry { entry_config : Config; entry_plan : option nat; lastSeen : Time }.
#[export] Instance entry_eta : Eta entry := fun e => mkEntry (entry_config e) (entry_plan e) (lastSeen e).

Record Registry := mkRegistry {
  routes : gmap string entry;
  reapInterval : Duration;
  ttl : Duration;
  stopped : bool;
  plans : gmap nat Plan;
  nextPlan : nat
}.
#[export] Instance Registry_eta : Eta Registry := fun r =>
  mkRegistry (routes r) (reapInterval r) (ttl r) (stopped r) (plans r) (nextPlan r).

Definition defaultReapInterval : Duration := 30 * Second.
Definition defaultTTL : Duration := 5 * Minute.
Definition NewRegistry (interval timeToLive : Duration) : Registry :=
  mkRegistry ∅ (or_default interval defaultReapInterval) (or_default timeToLive defaultTTL) false ∅ 0.

Definition stopPlan (r : Registry) (p : option nat) : Registry :=
  match p with None => r | Some id => r <| plans ::= alter PlanStop id |> end.

(** [Plan] on a non-nil registry; the plan is returned by address. *)
Definition GetPlan (r : Registry) (routeID : string) (cfg : Config) (now : Time) : Registry * result (option nat) :=
  if decide (routeID = "") then (r, Err "route id is empty")
  else
    let rebuild (r : Registry) :=
      match buildPlan cfg with
      | Err e => (r, Err e)
      | Ok None => (r <| routes ::= <[routeID := mkEntry cfg None now]> |>, Ok None)
      | Ok (Some p) =>
          let id := nextPlan r in
          (r <| plans ::= <[id := p]> |> <| nextPlan ::= S |> <| routes ::= <[routeID := mkEntry cfg (Some id) now]> |>,
           Ok (Some id))
      end in
    match routes r !! routeID with
    | None => rebuild r
    | Some cur =>
        if sameConfig (entry_config cur) cfg then
          (r <| routes ::= <[routeID := cur <| lastSeen := now |>]> |>, Ok (entry_plan cur))
        else rebuild (stopPlan r (entry_plan cur))
    end.

Definition stopEntries (r : Registry) (es : list (string * entry)) : Registry :=
  foldl (λ r ke, stopPlan r (entry_plan ke.2)) r es.
Definition Close (r : Registry) : Registry := (stopEntries r (map_to_list (routes r))) <| stopped := true |>.
Definition Stop (r : Registry) : Registry * option string := (Close r, None).

Definition reapOnce (r : Registry) (now : Time) : Registry :=
  let cutoff := now + - ttl r in
  let stale := filter (λ ke, lastSeen ke.2 < cutoff) (map_to_list (routes r)) in
  (stopEntries r stale) <| routes ::= filter (λ ke, ¬ (lastSeen ke.2 < cutoff)) |>.
Definition reapTick (r : Registry) (now : Time) : Registry := if stopped r then r else reapOnce r now.

(** Events on a live plan: its goroutine's ticks and the requests it serves. *)
Inductive plan_event :=
| PTick (now : Time)
| PRequest (v : Variant) (status : Z) (proxyError : bool) (now : Time)
| PStop.
Definition plan_step (p : Plan) (ev : plan_event) : Plan :=
  match ev with
  | PTick now => drainTick p now
  | PRequest v status e now => RecordRequest p v status e now
  | PStop => PlanStop p
  end.

(** ** A drained canary gets no traffic *)

Definition drained_at_least (u : Z) (p : Plan) : Prop := ∃ a, plan_autodrain p = Some a ∧ u ≤ drainedUntil a.

Lemma drainUntil_monotone a now : drainedUntil a ≤ drainedUntil (drainUntil a now).
Proof. unfold drainUntil. case_match; [done|]. cbn zeta. case_match; simpl; lia. Qed.

Lemma plan_step_drained u p ev : drained_at_least u p → drained_at_least u (plan_step p ev).
Proof.
  intros (a & Ha & Hu). destruct ev as [now|v st e now|]; simpl.
  - unfold drainTick. rewrite Ha. destruct (drain_stopped a); [by exists a|]. unfold evaluate.
    destruct (windowTotals _ _ _) as [s t]. simpl. eexists. split; [done|].
    destruct (shouldDrain _ _); [|done]. etrans; [exact Hu|apply drainUntil_monotone].
  - by exists a.
  - exists (DrainStop a). split; [|done]. unfold PlanStop. simpl. by rewrite Ha.
Qed.

Lemma choose_no_canary s v : choose (mkSplit s 0) v = VariantStable.
Proof. unfold choose. simpl. by rewrite orb_true_r. Qed.

(** Safety: auto-drain keeps its promise.  Once a tick finds the canary's
    error rate too high, no request is sent to the canary before the cool-off
    has passed, whatever requests, later ticks or stops follow, and for
    sticky and random assignment alike. *)
Theorem traffic_drained_never_canary p a now evs r t seed :
  plan_autodrain p = Some a → drain_stopped a = false → 0 < Cooloff (drain_config a) →
  shouldDrain (drain_config a) (windowTotals (plan_stats p) now now).2 = true →
  0 < now + Cooloff (drain_config a) ≤ max_i64 → min_i64 ≤ t < now + Cooloff (drain_config a) → 0 < seed < 2 ^ 64 →
  let p' := foldl plan_step (drainTick p now) evs in
  ∃ seed' meta, PickVariant p' r t seed = Some (seed', VariantStable, meta) ∧ AutoDrainActive meta = true.
Proof.
  intros Ha Hst Hc Hd Hnow Ht Hseed p'.
  assert (drained_at_least (now + Cooloff (drain_config a)) p') as (a' & Ha' & Hu).
  { assert (drained_at_least (now + Cooloff (drain_config a)) (drainTick p now)) as H0.
    { unfold drainTick. rewrite Ha, Hst. unfold evaluate. destruct (windowTotals _ _ _) as [s tot]; simpl in Hd.
      rewrite Hd. eexists. split; [done|]. unfold drainUntil. destruct (Z.leb_spec (Cooloff (drain_config a)) 0); [lia|].
      unfold UnixNano. rewrite i64_small by lia.
      destruct (Z.leb_spec (now + Cooloff (drain_config a)) (drainedUntil a)); simpl; lia. }
    subst p'. revert H0. generalize (drainTick p now). induction evs as [|ev evs IH]; intros q H0; simpl; [done|].
    by apply IH, plan_step_drained. }
  clearbody p'. unfold PickVariant. rewrite Ha'.
  assert (Active a' t = true) as ->.
  { unfold Active, UnixNano. rewrite i64_small by lia. lia. }
  destruct (Extract _ _) as [key|].
  - unfold ChooseDeterministic. rewrite choose_no_canary. eauto.
  - unfold ChooseRandom. destruct (nextRand_never_stuck seed Hseed) as (x & -> & _). rewrite choose_no_canary. eauto.
Qed.

(** ** Statistics are consistent *)

Definition bucket_ok (n : Z) (b : bucket) : Prop :=
  0 ≤ stableErr b ≤ stableReq b ∧ 0 ≤ canaryErr b ≤ canaryReq b ∧ stableReq b + canaryReq b ≤ n.

(** The buckets hold at most [n] requests together. *)
Definition load (b : bucket) : Z := stableReq b + canaryReq b.
Definition stats_ok (n : Z) (s : Stats) : Prop :=
  0 ≤ current s < len (buckets s) ∧ 0 < bucketDuration s ∧ Forall (bucket_ok n) (buckets s) ∧
  foldr (λ b z, load b + z) 0 (buckets s) ≤ n.

Abbreviation total l := (foldr (λ b z, load b + z) 0 l).

Lemma total_app l k : total (l ++ k) = total l + total k.
Proof. induction l as [|b l IH]; simpl; [done|]. lia. Qed.

Lemma total_alter l i f d :
  (∀ b, load (f b) = load b + d) → 0 ≤ d → total (alter f i l) ≤ total l + d.
Proof.
  intros Hf Hd. revert i. induction l as [|b l IH]; intros [|i]; simpl; try lia.
  - rewrite Hf. lia.
  - specialize (IH i). unfold alter in IH. lia.
Qed.

Lemma total_insert_empty l i b n :
  Forall (bucket_ok n) l → load b = 0 → total (<[i := b]> l) ≤ total l.
Proof.
  intros Hl Hb. revert i. induction Hl as [|x l [Hx1 [Hx2 Hx3]] Hl IH]; intros [|i]; simpl; try lia.
  - unfold load in *. lia.
  - specialize (IH i). lia.
Qed.

Lemma total_replicate k : total (replicate k emptyBucket) = 0.
Proof. induction k; simpl; [done|]. rewrite IHk. done. Qed.

Lemma rotateSteps_ok n k i s : stats_ok n s → 0 ≤ n → stats_ok n (rotateSteps k i s).
Proof.
  revert i s. induction k as [|k IH]; intros i s Hs Hn; cbn [rotateSteps]; [done|]. apply IH; [|done].
  destruct Hs as (H1 & H2 & H3 & H4). unfold stats_ok, len. simpl. rewrite length_insert.
  split; [|split; [done|split]].
  - apply Z.rem_bound_pos; unfold len in *; lia.
  - apply Forall_insert; [done|]. unfold bucket_ok. simpl. lia.
  - etrans; [apply (total_insert_empty _ _ _ n); done|done].
Qed.

Lemma Forall_alter_bucket n (l : list bucket) i f :
  (∀ b, bucket_ok n b → bucket_ok n (f b)) → Forall (bucket_ok n) l → Forall (bucket_ok n) (alter f i l).
Proof. intros Hf Hl. apply Forall_alter; [done|]. intros x Hx Hbx. by apply Hf. Qed.

Lemma rotateLocked_ok n s now : 0 ≤ n → stats_ok n s → stats_ok n (rotateLocked s now).
Proof.
  intros Hn Hs. unfold rotateLocked. destruct (IsZero _).
  - destruct Hs as (H1 & H2 & H3 & H4). unfold stats_ok, len. simpl. rewrite length_alter.
    split; [done|]. split; [done|]. split; [by apply Forall_alter_bucket|].
    etrans; [apply (total_alter _ _ _ 0); [intros b; unfold load; simpl; lia|lia]|lia].
  - destruct (_ <? _); [done|]. cbn zeta. destruct (len (buckets s) <=? _).
    + destruct Hs as (H1 & H2 & H3 & H4). unfold stats_ok, len in *. simpl. rewrite length_alter, length_replicate.
      split; [lia|]. split; [done|]. split.
      * apply Forall_alter_bucket; [done|]. apply Forall_replicate. unfold bucket_ok. simpl. lia.
      * etrans; [apply (total_alter _ _ _ 0); [intros b; unfold load; simpl; lia|lia]|]. rewrite total_replicate. lia.
    + apply (rotateSteps_ok n (Z.to_nat (time_Sub now (currentStart s) `quot` bucketDuration s)) 0) in Hs; done.
Qed.

Lemma Record_ok n s v st e now : 0 ≤ n < max_i64 → stats_ok n s → stats_ok (n + 1) (Record_ s v st e now).
Proof.
  intros Hn Hs. unfold Record_. apply (rotateLocked_ok n s now) in Hs; [|lia].
  destruct Hs as (H1 & H2 & H3 & H4). unfold stats_ok, len in *. simpl. rewrite length_alter.
  split; [done|]. split; [done|]. split.
  - apply Forall_alter.
    + eapply Forall_impl; [exact H3|]. unfold bucket_ok. intros b. lia.
    + intros b Hb. rewrite Forall_lookup in H3. specialize (H3 _ _ Hb). unfold bucket_ok in *.
      destruct v, (e || _); simpl; simp_int; lia.
  - assert (∀ f l i, (∀ b, b ∈ l → load (f b) = load b + 1) → total (alter f i l) ≤ total l + 1) as Hal.
    { clear. intros f l. induction l as [|b l IH]; intros [|i] Hf; simpl; try lia.
      - rewrite Hf by left. lia.
      - specialize (IH i ltac:(intros; apply Hf; by right)). unfold alter in IH. lia. }
    etrans; [apply Hal|lia]. intros b Hb. rewrite Forall_forall in H3. specialize (H3 b Hb). unfold bucket_ok, load in *.
    destruct v, (e || _); simpl; simp_int; lia.
Qed.

Definition totals_ok (t : WindowTotals) : Prop :=
  0 ≤ StableErr t ≤ StableReq t ∧ 0 ≤ CanaryErr t ≤ CanaryReq t.

Lemma addBuckets_ok n cutoff l t :
  Forall (bucket_ok n) l → totals_ok t → StableReq t + CanaryReq t + total l ≤ n → n < max_i64 →
  totals_ok (foldl (addBucket cutoff) t l) ∧
  StableReq (foldl (addBucket cutoff) t l) + CanaryReq (foldl (addBucket cutoff) t l) ≤ n.
Proof.
  intros Hl. revert t. induction Hl as [|b l [B1 [B2 B3]] Hl IH]; intros t Ht Hn Hm; simpl in *; [split; [done|lia]|].
  assert (0 ≤ total l) as Hpos.
  { clear -Hl. induction Hl as [|x l [? [? ?]] _ IH]; simpl; [done|]. assert (0 ≤ load x) by (unfold load; lia). lia. }
  destruct Ht as (T1 & T2). assert (load b = stableReq b + canaryReq b) as Hload by done. apply IH; [| |done]; unfold addBucket, totals_ok; destruct (_ || _); simpl; try lia.
  - simp_int. lia.
  - simp_int. lia.
Qed.

Definition record_all (s : Stats) (evs : list (Variant * Z * bool * Time)) : Stats :=
  foldl (λ s ev, let '(v, st, e, now) := ev in Record_ s v st e now) s evs.

Lemma record_all_ok n s evs :
  0 ≤ n → n + len evs < max_i64 → stats_ok n s → stats_ok (n + len evs) (record_all s evs).
Proof.
  revert n s. induction evs as [|[[[v st] e] now] evs IH]; intros n s Hn Hb Hs.
  { unfold len. simpl. by rewrite Z.add_0_r. }
  rewrite len_cons in *. pose proof (len_nonneg evs).
  replace (n + (len evs + 1)) with (n + 1 + len evs) by lia. apply IH; [lia|lia|]. apply Record_ok; [lia|done].
Qed.

Lemma NewStats_ok w : stats_ok 0 (NewStats w).
Proof.
  unfold NewStats. assert (0 < or_default w Minute) by (apply or_default_pos; vm_compute; done).
  set (c := f64_ceil_to_int _). unfold stats_ok, len. simpl. rewrite length_replicate, total_replicate.
  split; [destruct (Z.ltb_spec c 1); lia|]. split; [destruct (Z.ltb_spec (or_default w Minute) Second); [lia|done]|].
  split; [|done]. apply Forall_replicate. unfold bucket_ok. simpl. lia.
Qed.

(** Invariant: the sliding statistics are consistent.  After any sequence
    of recorded requests, with the clock moving in any way, the totals of a
    window count each request at most once and errors never exceed requests,
    so the canary's error rate is a proper fraction. *)
Theorem traffic_stats_consistent w evs now clock :
  len evs < max_i64 →
  let t := (windowTotals (record_all (NewStats w) evs) now clock).2 in
  0 ≤ CanaryErr t ≤ CanaryReq t ∧ 0 ≤ StableErr t ≤ StableReq t ∧ StableReq t + CanaryReq t ≤ len evs.
Proof.
  intros Hb t. pose proof (len_nonneg evs).
  pose proof (record_all_ok 0 (NewStats w) evs ltac:(lia) ltac:(lia) (NewStats_ok w)) as Hs.
  apply (rotateLocked_ok _ _ (if IsZero now then clock else now)) in Hs; [|lia]. destruct Hs as (_ & _ & H3 & H4).
  subst t. unfold windowTotals. cbn [snd].
  match goal with |- context [foldl (addBucket ?c) _ ?l] =>
    destruct (addBuckets_ok (0 + len evs) c l (mkTotals 0 0 0 0) H3) as [[T1 T2] T3] end.
  - by repeat split.
  - simpl. lia.
  - lia.
  - lia.
Qed.

Lemma traffic_stats_consistent_witness :
  let t := (windowTotals (record_all (NewStats Second) [(VariantCanary, 503, false, 5)]) 6 6).2 in
  StableReq t + CanaryReq t ≤ 1.
Proof. apply (traffic_stats_consistent Second [(VariantCanary, 503, false, 5)] 6 6). reflexivity. Defined.

(** A plan with a failing canary. *)
Definition example_config : Config :=
  mkConfig true 90 10 (mkCohortConfig false "") (mkOverloadConfig false 0 0 0)
    (mkAutoDrainConfig true Second 1 (f64_of_Z 2) Minute).
Definition example_plan : Plan :=
  mkPlan (mkSplit 90 10) None None (Record_ (NewStats Second) VariantCanary 503 false 5)
    (Some (NewAutoDrain (AutoDrainCfg example_config))).
Definition example_request : Request := mkRequest "GET" "h" "/" "" "/" ∅ None 0 "" None.

Lemma traffic_drained_never_canary_witness :
  ∃ seed' meta, PickVariant (foldl plan_step (drainTick example_plan 6) [PStop]) example_request 60 7 =
    Some (seed', VariantStable, meta) ∧ AutoDrainActive meta = true.
Proof.
  apply (traffic_drained_never_canary example_plan (NewAutoDrain (AutoDrainCfg example_config)) 6 [PStop] example_request 60 7);
    vm_compute; try done; split; congruence.
Defined.

(** ** Plans of live routes that stop draining *)

Lemma stopped_tick p a now : plan_autodrain p = Some a → drain_stopped a = true → drainTick p now = p.
Proof. intros H1 H2. unfold drainTick. by rewrite H1, H2. Qed.

(** Liveness, violated: auto-drain of a live route stops for good one TTL
    after the last configuration change.  Only [Plan] refreshes an entry, so
    a reap later than that stops the plan which the current snapshot still
    uses: none of its later ticks can drain the canary. *)
Theorem traffic_reap_stops_live_autodrain routeID cfg t0 t1 p :
  routeID ≠ "" → buildPlan cfg = Ok (Some p) → drain_Enabled (AutoDrainCfg cfg) = true → t0 + defaultTTL < t1 →
  let '(r, res) := GetPlan (NewRegistry 0 0) routeID cfg t0 in
  ∃ id q, res = Ok (Some id) ∧ plans (reapOnce r t1) !! id = Some q ∧ ∀ now, drainTick q now = q.
Proof.
  intros Hid Hb Hd Ht. unfold GetPlan. rewrite decide_False by done. cbn [NewRegistry routes].
  rewrite lookup_empty, Hb. cbn [nextPlan plans].
  exists 0%nat, (PlanStop p). split; [done|]. unfold reapOnce, stopEntries. simpl.
  rewrite (insert_empty routeID), map_to_list_singleton.
  rewrite filter_cons_True by (simpl; unfold or_default; simpl; lia). simpl. split; [by rewrite alter_insert_eq, lookup_insert_eq|].
  intros now. assert (∃ a, plan_autodrain p = Some a) as [a Ha].
  { unfold buildPlan in Hb. destruct (negb (Enabled cfg)); [done|]. apply result_bind_Ok in Hb as (c & _ & Hb).
    injection Hb as <-. simpl. rewrite Hd. eauto. }
  apply (stopped_tick _ (DrainStop a)); [|done]. unfold PlanStop. simpl. by rewrite Ha.
Qed.

Lemma traffic_reap_stops_live_autodrain_witness :
  let '(r, res) := GetPlan (NewRegistry 0 0) "r" example_config 0 in
  ∃ id q, res = Ok (Some id) ∧ plans (reapOnce r (6 * Minute)) !! id = Some q ∧ ∀ now, drainTick q now = q.
Proof.
  eapply (traffic_reap_stops_live_autodrain "r" example_config 0 (6 * Minute)); [discriminate|reflexivity|reflexivity|reflexivity].
Defined.
