(* ===== verification/Config.v ===== *)
(** * Configuration (internal/config)

    The records of config.go, as [json.Unmarshal] fills them, and the
    validation of validation.go.  A pointer to a number or a boolean is an
    [option].  [os.Getenv] is a parameter.  Field names carry a prefix of
    their struct because Rocq's projections share one name space. *)
From S2P Require Import Prelude.
From S2P Require Import GoStrings.
From S2P Require Import GoFloat.

(** A Go slice: nil, or its elements.  Only [reflect.DeepEqual] tells nil from
    an empty slice; the other code looks at the elements, which the
    definitions named like the Go fields give. *)
Inductive slice (A : Type) : Type :=
| SliceNil
| Slice (l : list A).
Arguments SliceNil {A}.
Arguments Slice {A} l.
Definition elems {A} (s : slice A) : list A := match s with SliceNil => [] | Slice l => l end.
Coercion Slice : list >-> slice.

Record TLSCert := mkTLSCert { ServerName : string; CertFile : string; KeyFile : string }.
Record TLSConfig := mkTLSConfig {
  tls_Enabled : bool;
  tls_Addr : string;
  tls_Certs_s : slice TLSCert;
  tls_ClientCAFile : string;
  tls_MinVersion : string;
  tls_CipherSuites_s : slice string
}.

Record LimitsConfig := mkLimitsConfig {
  lim_MaxHeaderBytes : Z;
  lim_MaxHeaderCount : Z;
  lim_MaxURLBytes : Z;
  lim_MaxBodyBytes : option Z;
  lim_ReadHeaderTimeoutMS : Z;
  lim_ReadTimeoutMS : Z;
  lim_WriteTimeoutMS : Z;
  lim_IdleTimeoutMS : Z;
  lim_ResponseStreamTimeoutMS : Z
}.

Record ShutdownConfig := mkShutdownConfig { DrainMS : Z; GracefulTimeoutMS : Z; ForceCloseMS : Z }.
Record LoggingConfig := mkLoggingConfig { RedactQuery : bool }.
Record MetricsConfig := mkMetricsConfig {
  met_Enabled : option bool;
  met_Path : string;
  met_RequireToken : bool;
  met_TokenEnv : string
}.

Record RetryConfig := mkRetryConfig {
  retry_Enabled : bool;
  retry_MaxAttempts : Z;
  retry_PerTryTimeoutMS : Z;
  retry_TotalRetryBudgetMS : Z;
  retry_RetryOnStatus_s : slice Z;
  retry_RetryOnErrors_s : slice string;
  retry_BackoffMS : Z;
  retry_BackoffJitterMS : Z
}.
Record RetryBudgetConfig := mkRetryBudgetConfig { rb_Enabled : bool; rb_PercentOfSuccesses : Z; rb_Burst : Z }.
Record ClientRetryCapConfig := mkClientRetryCapConfig {
  crc_Enabled : bool;
  crc_Key : string;
  crc_PercentOfSuccesses : Z;
  crc_Burst : Z;
  crc_LRUSize : Z
}.
Record CacheConfig := mkCacheConfig {
  cc_Enabled : bool;
  cc_Public : bool;
  cc_TTLMS : Z;
  cc_MaxObjectBytes : Z;
  cc_VaryHeaders_s : slice string;
  cc_CoalesceEnabled : option bool;
  cc_CoalesceTimeoutMS : Z;
  cc_OnlyIfContentLength : option bool
}.

Record CohortConfig := mkCohortConfig { coh_Enabled : bool; coh_Key : string }.
Record OverloadConfig := mkOverloadConfig { ovl_Enabled : bool; ovl_MaxInflight : Z; ovl_MaxQueue : Z; ovl_QueueTimeoutMS : Z }.
Record AutoDrainConfig := mkAutoDrainConfig {
  ad_Enabled : bool;
  ad_WindowMS : Z;
  ad_MinRequests : Z;
  ad_ErrorRateMultiplier : float64;
  ad_CooloffMS : Z
}.
Record TrafficConfig := mkTrafficConfig {
  tc_Enabled : bool;
  tc_StablePool : string;
  tc_CanaryPool : string;
  tc_StableWeight : Z;
  tc_CanaryWeight : Z;
  tc_Cohort : CohortConfig;
  tc_Overload : OverloadConfig;
  tc_AutoDrain : AutoDrainConfig
}.

Record PluginBreakerConfig := mkPluginBreakerConfig {
  pb_Enabled : option bool;
  pb_ConsecutiveFailures : Z;
  pb_OpenMS : Z;
  pb_HalfOpenProbes : Z
}.
Record PluginFilter := mkPluginFilter {
  pf_Name : string;
  pf_Addr : string;
  pf_RequestTimeoutMS : Z;
  pf_ResponseTimeoutMS : Z;
  pf_FailureMode : string;
  pf_Breaker : PluginBreakerConfig
}.
Record PluginConfig := mkPluginConfig { pc_Enabled : bool; pc_Filters_s : slice PluginFilter }.

Record RoutePolicy := mkRoutePolicy {
  rp_RequestTimeoutMS : Z;
  rp_UpstreamDialTimeoutMS : Z;
  rp_UpstreamResponseHeaderTimeoutMS : Z;
  rp_Retry : RetryConfig;
  rp_RetryBudget : RetryBudgetConfig;
  rp_ClientRetryCap : ClientRetryCapConfig;
  rp_RequireMTLS : bool;
  rp_MTLSClientCA : string;
  rp_Cache : CacheConfig;
  rp_Traffic : TrafficConfig;
  rp_Plugins : PluginConfig
}.
Record Route := mkRoute {
  route_ID : string;
  route_Host : string;
  route_PathPrefix : string;
  route_Methods_s : slice string;
  route_Pool : string;
  route_Policy : RoutePolicy;
  route_Overlay : bool
}.

Record HealthConfig := mkHealthConfig {
  hc_Path : string;
  hc_IntervalMS : Z;
  hc_TimeoutMS : Z;
  hc_UnhealthyAfterFailures : Z;
  hc_HealthyAfterSuccesses : Z;
  hc_BaseEjectMS : Z;
  hc_MaxEjectMS : Z
}.
Record PoolTransportConfig := mkPoolTransportConfig { pt_MaxIdlePerHost : Z; pt_MaxConnsPerHost : Z; pt_IdleConnTimeoutMS : Z }.
Record BreakerConfig := mkBreakerConfig {
  br_Enabled : bool;
  br_FailureRateThresholdPercent : Z;
  br_MinimumRequests : Z;
  br_EvaluationWindowMS : Z;
  br_OpenMS : Z;
  br_HalfOpenMaxProbes : Z
}.
Record OutlierConfig := mkOutlierConfig {
  ol_Enabled : bool;
  ol_ConsecutiveFailures : Z;
  ol_ErrorRateThreshold : Z;
  ol_ErrorRateWindowMS : Z;
  ol_MinRequests : Z;
  ol_BaseEjectMS : Z;
  ol_MaxEjectMS : Z;
  ol_MaxEjectPercent : Z;
  ol_LatencyEnabled : bool;
  ol_LatencyWindowSize : Z;
  ol_LatencyEvalIntervalMS : Z;
  ol_LatencyMinSamples : Z;
  ol_LatencyMultiplier : Z;
  ol_LatencyConsecutiveIntervals : Z
}.
Record Pool := mkPool {
  pool_Endpoints_s : slice string;
  pool_Health : HealthConfig;
  pool_Breaker : BreakerConfig;
  pool_Outlier : OutlierConfig;
  pool_Transport : PoolTransportConfig;
  pool_Overlay : bool
}.

Record Config := mkConfig {
  ListenAddr : string;
  TLS : TLSConfig;
  Limits : LimitsConfig;
  Shutdown : ShutdownConfig;
  Logging : LoggingConfig;
  Metrics : option MetricsConfig;
  Routes : list Route;
  Pools : gmap string Pool
}.
#[export] Instance Config_eta : Eta Config := fun c =>
  mkConfig (ListenAddr c) (TLS c) (Limits c) (Shutdown c) (Logging c) (Metrics c) (Routes c) (Pools c).

(** The elements of the slice fields. *)
Definition tls_Certs (t : TLSConfig) : list TLSCert := elems (tls_Certs_s t).
Definition tls_CipherSuites (t : TLSConfig) : list string := elems (tls_CipherSuites_s t).
Definition retry_RetryOnStatus (r : RetryConfig) : list Z := elems (retry_RetryOnStatus_s r).
Definition retry_RetryOnErrors (r : RetryConfig) : list string := elems (retry_RetryOnErrors_s r).
Definition cc_VaryHeaders (c : CacheConfig) : list string := elems (cc_VaryHeaders_s c).
Definition pc_Filters (p : PluginConfig) : list PluginFilter := elems (pc_Filters_s p).
Definition route_Methods (r : Route) : list string := elems (route_Methods_s r).
Definition pool_Endpoints (p : Pool) : list string := elems (pool_Endpoints_s p).
#[global] Arguments pool_Endpoints : simpl never.
#[global] Arguments tls_Certs : simpl never.
#[global] Arguments pc_Filters : simpl never.

(** ** Validation *)

Definition defaultMetricsTokenEnv : string := "METRICS_TOKEN".

Definition limitsConfigured (cfg : LimitsConfig) : bool :=
  if negb (lim_MaxHeaderBytes cfg =? 0) || negb (lim_MaxHeaderCount cfg =? 0) || negb (lim_MaxURLBytes cfg =? 0) then true
  else if match lim_MaxBodyBytes cfg with Some _ => true | None => false end then true
  else if negb (lim_ReadHeaderTimeoutMS cfg =? 0) || negb (lim_ReadTimeoutMS cfg =? 0) || negb (lim_WriteTimeoutMS cfg =? 0) then true
  else if negb (lim_IdleTimeoutMS cfg =? 0) || negb (lim_ResponseStreamTimeoutMS cfg =? 0) then true
  else false.

Definition validateLimits (cfg : Config) : option string :=
  let configured := limitsConfigured (Limits cfg) in
  if match lim_MaxBodyBytes (Limits cfg) with Some n => n <=? 0 | None => false end
  then Some "limits.max_body_bytes must be > 0"
  else if configured && (lim_ReadHeaderTimeoutMS (Limits cfg) <=? 0) then Some "limits.read_header_timeout_ms must be > 0"
  else None.

Definition referencedPools (route : Route) : list string :=
  let trafficCfg := rp_Traffic (route_Policy route) in
  if negb (tc_Enabled trafficCfg) then [route_Pool route]
  else
    (if decide (TrimSpace (tc_StablePool trafficCfg) = "") then [] else [tc_StablePool trafficCfg]) ++
    (if decide (TrimSpace (tc_CanaryPool trafficCfg) = "") then [] else [tc_CanaryPool trafficCfg]).

Section Validation.
Context (Getenv : string → string).

Definition validateMetrics (cfg : Config) : option string :=
  match Metrics cfg with
  | None => None
  | Some m =>
      if negb (met_RequireToken m) then None
      else
        let env := TrimSpace (met_TokenEnv m) in
        let env := if decide (env = "") then defaultMetricsTokenEnv else env in
        if decide (TrimSpace (Getenv env) = "") then Some ("metrics token missing in " ++ env)%string else None
  end.
Definition ValidateMetricsToken (cfg : Config) : option string := validateMetrics cfg.

(** The warning of a route about its fail-closed plugins: the first one. *)
Fixpoint failClosedWarning (id : string) (filters : list PluginFilter) : list string :=
  match filters with
  | [] => []
  | f :: filters =>
      if EqualFold (TrimSpace (pf_FailureMode f)) "fail_closed"
      then ["route " ++ Quote id ++ " uses fail_closed plugin " ++ Quote (pf_Name f) ++ " on public route"]%string
      else failClosedWarning id filters
  end.

(** The loop body: the warnings of a route, or the error that ends it. *)
Definition validateRoute (cfg : Config) (route : Route) : result (list string) :=
  let p := route_Policy route in
  let id := Quote (route_ID route) in
  if retry_Enabled (rp_Retry p) && (retry_MaxAttempts (rp_Retry p) <=? 0)
  then Err ("route " ++ id ++ " retry max_attempts must be > 0")
  else if ovl_Enabled (tc_Overload (rp_Traffic p)) && (ovl_MaxInflight (tc_Overload (rp_Traffic p)) <=? 0)
  then Err ("route " ++ id ++ " overload max_inflight must be > 0")
  else if rp_RequireMTLS p && negb (tls_Enabled (TLS cfg)) then Err ("route " ++ id ++ " requires mtls but tls disabled")
  else if rp_RequireMTLS p && bool_decide (TrimSpace (tls_ClientCAFile (TLS cfg)) = "")
  then Err ("route " ++ id ++ " requires mtls but tls client_ca_file missing")
  else
    let w1 := if cc_Enabled (rp_Cache p) && (Hour <? millis (cc_TTLMS (rp_Cache p)))
              then ["route " ++ id ++ " cache ttl_ms exceeds 1h"]%string else [] in
    let w2 := if pc_Enabled (rp_Plugins p) && negb (rp_RequireMTLS p)
              then failClosedWarning (route_ID route) (pc_Filters (rp_Plugins p)) else [] in
    Ok (w1 ++ w2).

(** The loop with the warnings collected so far and the error, if any. *)
Fixpoint validateRoutes (cfg : Config) (routes : list Route) (warnings : list string) : list string * option string :=
  match routes with
  | [] => (warnings, None)
  | route :: routes =>
      match validateRoute cfg route with
      | Err e => (warnings, Some e)
      | Ok ws => validateRoutes cfg routes (warnings ++ ws)
      end
  end.

Definition poolUsage (routes : list Route) : gmap string Z :=
  foldl (λ usage route,
    foldl (λ usage name, if decide (name = "") then usage else <[name := default 0 (usage !! name) + 1]> usage)
      usage (referencedPools route)) ∅ routes.

(** Go visits the map in any order; here it is the order of [map_to_list]. *)
Definition validatePools (cfg : Config) (warnings : list string) : list string :=
  foldl (λ ws '(name, pool),
    if br_Enabled (pool_Breaker pool) then ws
    else if 1 <? default 0 (poolUsage (Routes cfg) !! name)
    then ws ++ ["pool " ++ Quote name ++ " breaker disabled on multi-route pool"]%string
    else ws) warnings (map_to_list (Pools cfg)).

(** The warnings and the error ([None] is nil). *)
Definition Validate (cfg : option Config) : list string * option string :=
  match cfg with
  | None => ([], Some "config is nil")
  | Some cfg =>
      match validateLimits cfg with
      | Some e => ([], Some e)
      | None =>
          match validateMetrics cfg with
          | Some e => ([], Some e)
          | None =>
              match validateRoutes cfg (Routes cfg) [] with
              | (ws, Some e) => (ws, Some e)
              | (ws, None) => (validatePools cfg ws, None)
              end
          end
      end
  end.

End Validation.

(** ** What validation guarantees *)

Definition limits_valid (l : LimitsConfig) : Prop :=
  (∀ n, lim_MaxBodyBytes l = Some n → 0 < n) ∧ (limitsConfigured l = true → 0 < lim_ReadHeaderTimeoutMS l).
Definition token_present (Getenv : string → string) (m : option MetricsConfig) : Prop :=
  ∀ c, m = Some c → met_RequireToken c = true →
  TrimSpace (Getenv (if decide (TrimSpace (met_TokenEnv c) = "") then defaultMetricsTokenEnv else TrimSpace (met_TokenEnv c))) ≠ "".
Definition route_valid (t : TLSConfig) (p : RoutePolicy) : Prop :=
  (retry_Enabled (rp_Retry p) = true → 0 < retry_MaxAttempts (rp_Retry p)) ∧
  (ovl_Enabled (tc_Overload (rp_Traffic p)) = true → 0 < ovl_MaxInflight (tc_Overload (rp_Traffic p))) ∧
  (rp_RequireMTLS p = true → tls_Enabled t = true ∧ TrimSpace (tls_ClientCAFile t) ≠ "").

(** How often the routes refer to a pool. *)
Definition references (routes : list Route) (name : string) : nat :=
  count_occ String.string_dec (routes ≫= referencedPools) name.

Inductive warning (cfg : Config) : string → Prop :=
| warn_route route ws w : route ∈ Routes cfg → validateRoute cfg route = Ok ws → w ∈ ws → warning cfg w
| warn_pool name pool : Pools cfg !! name = Some pool → name ≠ "" → br_Enabled (pool_Breaker pool) = false →
    (1 < references (Routes cfg) name)%nat → warning cfg ("pool " ++ Quote name ++ " breaker disabled on multi-route pool").

Lemma validateLimits_None cfg : validateLimits cfg = None ↔ limits_valid (Limits cfg).
Proof.
  unfold validateLimits, limits_valid. destruct (lim_MaxBodyBytes _) as [n|] eqn:E; cbn zeta.
  - destruct (Z.leb_spec n 0) as [Hn|Hn].
    { split; [done|]. intros [H _]. specialize (H n eq_refl). lia. }
    destruct (limitsConfigured _), (Z.leb_spec (lim_ReadHeaderTimeoutMS (Limits cfg)) 0); simpl; naive_solver lia.
  - destruct (limitsConfigured _), (Z.leb_spec (lim_ReadHeaderTimeoutMS (Limits cfg)) 0); simpl; naive_solver lia.
Qed.

Lemma validateMetrics_None Getenv cfg : validateMetrics Getenv cfg = None ↔ token_present Getenv (Metrics cfg).
Proof.
  unfold validateMetrics, token_present. destruct (Metrics cfg) as [m|]; [|naive_solver].
  destruct (met_RequireToken m) eqn:E; simpl; [|naive_solver congruence].
  destruct (decide (TrimSpace (Getenv _) = "")) as [H|H]; split; try done.
  - intros Hm. by destruct (Hm m eq_refl E).
  - intros _ c [= <-] _. exact H.
Qed.

Lemma validateRoute_Ok cfg route : (∃ ws, validateRoute cfg route = Ok ws) ↔ route_valid (TLS cfg) (route_Policy route).
Proof.
  unfold validateRoute, route_valid. set (p := route_Policy route).
  destruct (retry_Enabled (rp_Retry p)), (Z.leb_spec (retry_MaxAttempts (rp_Retry p)) 0); simpl;
    try (split; [by intros [? ?]|intros [H1 _]; specialize (H1 eq_refl); lia]);
  (destruct (ovl_Enabled (tc_Overload (rp_Traffic p))), (Z.leb_spec (ovl_MaxInflight (tc_Overload (rp_Traffic p))) 0); simpl;
    try (split; [by intros [? ?]|intros (_ & H2 & _); specialize (H2 eq_refl); lia]));
  (destruct (rp_RequireMTLS p); simpl; [|naive_solver]);
  (destruct (tls_Enabled (TLS cfg)); simpl; [|split; [by intros [? ?]|intros (_ & _ & H3); by destruct (H3 eq_refl)]]);
  (case_bool_decide; [split; [by intros [? ?]|intros (_ & _ & H3); by destruct (H3 eq_refl)]|naive_solver]).
Qed.

Lemma validateRoutes_spec cfg routes acc ws e :
  validateRoutes cfg routes acc = (ws, e) →
  (e = None ↔ Forall (λ r, route_valid (TLS cfg) (route_Policy r)) routes) ∧
  (e = None → ∀ w, w ∈ ws ↔ w ∈ acc ∨ ∃ r rs, r ∈ routes ∧ validateRoute cfg r = Ok rs ∧ w ∈ rs).
Proof.
  revert acc. induction routes as [|r routes IH]; simpl; intros acc H.
  { simplify_eq. split; [by split|]. intros _ w. set_solver. }
  destruct (validateRoute cfg r) as [rs|er] eqn:E.
  - destruct (IH _ H) as [H1 H2]. assert (route_valid (TLS cfg) (route_Policy r)) by (apply validateRoute_Ok; eauto).
    split; [rewrite Forall_cons, H1; naive_solver|]. intros He w. rewrite (H2 He w), elem_of_app.
    split; [|intros [?|(r' & rs' & Hr & E' & ?)]; [by do 2 left|]].
    + intros [[?|?]|(r' & rs' & ? & ? & ?)]; [by left| |]; right; [exists r, rs|exists r', rs']; set_solver.
    + apply elem_of_cons in Hr as [->|?]; [rewrite E in E'; injection E' as <-; by left; right|]. right. eauto.
  - simplify_eq. split; [|done]. split; [done|]. rewrite Forall_cons, <- validateRoute_Ok. intros [[? ?] _]. congruence.
Qed.

(** Counting in one sweep over a list of names. *)
Definition counted (l : list string) (name : string) : Z :=
  if decide (name = "") then 0 else Z.of_nat (count_occ String.string_dec l name).

Lemma usage_sweep (l : list string) (usage : gmap string Z) name :
  default 0 (foldl (λ u n, if decide (n = "") then u else <[n := default 0 (u !! n) + 1]> u) usage l !! name) =
  default 0 (usage !! name) + counted l name.
Proof.
  unfold counted. revert usage. induction l as [|x l IH]; intros usage; [simpl; case_decide; lia|].
  cbn [foldl]. rewrite IH. cbn [count_occ].
  destruct (decide (x = "")) as [->|Hx], (String.string_dec _ name) as [->|Hne]; repeat case_decide; try congruence;
    rewrite ?lookup_insert_eq, ?lookup_insert_ne by congruence; simpl; lia.
Qed.

Lemma poolUsage_from routes name (usage : gmap string Z) :
  default 0 (foldl (λ usage route,
    foldl (λ usage name, if decide (name = "") then usage else <[name := default 0 (usage !! name) + 1]> usage)
      usage (referencedPools route)) usage routes !! name) =
  default 0 (usage !! name) + counted (routes ≫= referencedPools) name.
Proof.
  revert usage. induction routes as [|r routes IH]; intros usage; [unfold counted; simpl; case_decide; lia|].
  cbn [foldl]. rewrite IH, usage_sweep. unfold counted. rewrite bind_cons, count_occ_app. case_decide; lia.
Qed.

Definition lonelyPool (cfg : Config) (name : string) (pool : Pool) : Prop :=
  name ≠ "" ∧ br_Enabled (pool_Breaker pool) = false ∧ (1 < references (Routes cfg) name)%nat.

Lemma validatePools_spec cfg acc w :
  w ∈ validatePools cfg acc ↔ w ∈ acc ∨ ∃ name pool, Pools cfg !! name = Some pool ∧ lonelyPool cfg name pool ∧
    w = ("pool " ++ Quote name ++ " breaker disabled on multi-route pool")%string.
Proof.
  unfold validatePools. setoid_rewrite <- elem_of_map_to_list. revert acc.
  induction (map_to_list (Pools cfg)) as [|[n p] l IH]; intros acc; [set_solver|]. cbn [foldl]. rewrite IH.
  assert (1 <? default 0 (poolUsage (Routes cfg) !! n) = bool_decide (n ≠ "" ∧ (1 < references (Routes cfg) n)%nat)) as ->.
  { unfold poolUsage. rewrite poolUsage_from, lookup_empty. unfold counted, references.
    change (default 0 None) with 0. case_bool_decide; destruct (decide (n = "")); try (destruct_and?; congruence); simpl;
      destruct (Z.ltb_spec 1 (0 + Z.of_nat (count_occ String.string_dec (Routes cfg ≫= referencedPools) n))); naive_solver lia. }
  split.
  - intros [Hw|(n' & p' & ? & ?)]; [|right; exists n', p'; set_solver].
    destruct (br_Enabled _) eqn:E; [by left|]. case_bool_decide; [|by left].
    apply elem_of_app in Hw as [?|Hw]; [by left|]. right. exists n, p. unfold lonelyPool. set_solver.
  - intros [Hw|(n' & p' & Hin & (Hn & E & Hr) & ->)].
    + left. destruct (br_Enabled _); [done|]. case_bool_decide; set_solver.
    + apply elem_of_cons in Hin as [[= -> ->]|?]; [|right; by exists n', p'].
      left. rewrite E, bool_decide_eq_true_2 by done. set_solver.
Qed.

(** Validation accepts exactly the configurations whose limits, metrics token
    and routes are in order, however many routes there are; when it accepts,
    the warnings are exactly those of the routes and one for each pool that
    is referred to more than once and has its breaker disabled. *)
Theorem config_validate_contract Getenv cfg :
  let '(ws, e) := Validate Getenv (Some cfg) in
  (e = None ↔ limits_valid (Limits cfg) ∧ token_present Getenv (Metrics cfg) ∧
              Forall (λ r, route_valid (TLS cfg) (route_Policy r)) (Routes cfg)) ∧
  (e = None → ∀ w, w ∈ ws ↔ warning cfg w).
Proof.
  pose proof (validateLimits_None cfg) as HL. pose proof (validateMetrics_None Getenv cfg) as HM. unfold Validate.
  destruct (validateLimits cfg); [naive_solver|]. destruct (validateMetrics Getenv cfg); [naive_solver|].
  destruct (validateRoutes cfg (Routes cfg) []) as [ws [e|]] eqn:E; apply validateRoutes_spec in E as [H1 H2].
  { split; [|done]. rewrite <- H1. naive_solver. }
  split; [rewrite <- H1; naive_solver|]. intros _ w. rewrite validatePools_spec, (H2 eq_refl) by done. split.
  - intros [[?%elem_of_nil|(r & rs & ? & ? & ?)]|(n & p & ? & (? & ? & ?) & ->)]; [done|by econstructor|].
    by eapply warn_pool.
  - intros [r rs w' ? ? ?|n p ? ? ? ?]; [left; right; eauto|right; by exists n, p].
Qed.
