(* ===== verification/Limits.v ===== *)
(** * Request limits (internal/limits/limits.go) *)
From S2P Require Import Prelude.
From S2P Require Import Config.

Definition defaultMaxHeaderBytes : Z := 64 * 1024.
Definition defaultMaxHeaderCount : Z := 200.
Definition defaultMaxURLBytes : Z := 8 * 1024.
Definition defaultMaxBodyBytes : Z := 10 * 1024 * 1024.
Definition defaultReadHeaderTimeout : Duration := 2 * Second.
Definition defaultIdleTimeout : Duration := 30 * Second.

Record Limits := mkLimits {
  MaxHeaderBytes : Z;
  MaxHeaderCount : Z;
  MaxURLBytes : Z;
  MaxBodyBytes : Z;
  ReadHeaderTimeout : Duration;
  ReadTimeout : Duration;
  WriteTimeout : Duration;
  IdleTimeout : Duration;
  ResponseStreamTimeout : Duration
}.
#[export] Instance Limits_eta : Eta Limits := fun l =>
  mkLimits (MaxHeaderBytes l) (MaxHeaderCount l) (MaxURLBytes l) (MaxBodyBytes l) (ReadHeaderTimeout l)
    (ReadTimeout l) (WriteTimeout l) (IdleTimeout l) (ResponseStreamTimeout l).

Definition Default : Limits :=
  mkLimits defaultMaxHeaderBytes defaultMaxHeaderCount defaultMaxURLBytes defaultMaxBodyBytes defaultReadHeaderTimeout
    0 0 defaultIdleTimeout 0.

Definition durationOrZero (milliseconds : Z) : Duration := if milliseconds <=? 0 then 0 else millis milliseconds.

(** The checks that end [FromConfig]. *)
Definition checkLimits (l : Limits) : result Limits :=
  if MaxHeaderBytes l <=? 0 then Err "max_header_bytes must be positive"
  else if MaxHeaderCount l <=? 0 then Err "max_header_count must be positive"
  else if MaxURLBytes l <=? 0 then Err "max_url_bytes must be positive"
  else if MaxBodyBytes l <? 0 then Err "max_body_bytes must be non-negative"
  else if ReadHeaderTimeout l <=? 0 then Err "read_header_timeout_ms must be positive"
  else Ok l.

Definition FromConfig (cfg : LimitsConfig) : result Limits :=
  let l := Default in
  let l := if 0 <? lim_MaxHeaderBytes cfg then l <| MaxHeaderBytes := lim_MaxHeaderBytes cfg |> else l in
  let l := if 0 <? lim_MaxHeaderCount cfg then l <| MaxHeaderCount := lim_MaxHeaderCount cfg |> else l in
  let l := if 0 <? lim_MaxURLBytes cfg then l <| MaxURLBytes := lim_MaxURLBytes cfg |> else l in
  let l := match lim_MaxBodyBytes cfg with Some n => l <| MaxBodyBytes := n |> | None => l end in
  let? l := if 0 <? lim_ReadHeaderTimeoutMS cfg then Ok (l <| ReadHeaderTimeout := millis (lim_ReadHeaderTimeoutMS cfg) |>)
            else if lim_ReadHeaderTimeoutMS cfg <? 0 then Err "read_header_timeout_ms must be positive"
            else Ok l in
  let l := l <| ReadTimeout := durationOrZero (lim_ReadTimeoutMS cfg) |> in
  let l := l <| WriteTimeout := durationOrZero (lim_WriteTimeoutMS cfg) |> in
  let l := if 0 <? lim_IdleTimeoutMS cfg then l <| IdleTimeout := millis (lim_IdleTimeoutMS cfg) |> else l in
  let l := l <| ResponseStreamTimeout := durationOrZero (lim_ResponseStreamTimeoutMS cfg) |> in
  checkLimits l.

(** ** What the limits are *)

(** The configured value when it is positive, the default otherwise. *)
Definition effective (v d : Z) : Z := if 0 <? v then v else d.

Definition effective_limits (cfg : LimitsConfig) : Limits :=
  mkLimits (effective (lim_MaxHeaderBytes cfg) defaultMaxHeaderBytes) (effective (lim_MaxHeaderCount cfg) defaultMaxHeaderCount)
    (effective (lim_MaxURLBytes cfg) defaultMaxURLBytes) (default defaultMaxBodyBytes (lim_MaxBodyBytes cfg))
    (if 0 <? lim_ReadHeaderTimeoutMS cfg then lim_ReadHeaderTimeoutMS cfg * Millisecond else defaultReadHeaderTimeout)
    (Z.max 0 (lim_ReadTimeoutMS cfg) * Millisecond) (Z.max 0 (lim_WriteTimeoutMS cfg) * Millisecond)
    (if 0 <? lim_IdleTimeoutMS cfg then lim_IdleTimeoutMS cfg * Millisecond else defaultIdleTimeout)
    (Z.max 0 (lim_ResponseStreamTimeoutMS cfg) * Millisecond).

Definition timeouts_fit (cfg : LimitsConfig) : Prop :=
  lim_ReadHeaderTimeoutMS cfg ≤ max_ms ∧ lim_ReadTimeoutMS cfg ≤ max_ms ∧ lim_WriteTimeoutMS cfg ≤ max_ms ∧
  lim_IdleTimeoutMS cfg ≤ max_ms ∧ lim_ResponseStreamTimeoutMS cfg ≤ max_ms.

Lemma durationOrZero_small ms : ms ≤ max_ms → durationOrZero ms = Z.max 0 ms * Millisecond.
Proof. intros. unfold durationOrZero. destruct (Z.leb_spec ms 0); [rewrite Z.max_l by lia; done|]. rewrite millis_small; lia. Qed.

Lemma checkLimits_Ok l :
  0 < MaxHeaderBytes l → 0 < MaxHeaderCount l → 0 < MaxURLBytes l → 0 < ReadHeaderTimeout l →
  checkLimits l = if MaxBodyBytes l <? 0 then Err "max_body_bytes must be non-negative" else Ok l.
Proof.
  intros. unfold checkLimits. rewrite !(proj2 (Z.leb_gt _ 0)) by lia. done.
Qed.

Lemma effective_pos v d : 0 < d → 0 < effective v d.
Proof. unfold effective. destruct (Z.ltb_spec 0 v); lia. Qed.

(** A limits section whose timeouts are representable is refused exactly when
    its body limit or its header timeout is negative; an accepted one gives
    each limit its configured value, or the default where none is set. *)
Theorem limits_from_config cfg :
  timeouts_fit cfg →
  match FromConfig cfg with
  | Ok l => l = effective_limits cfg
  | Err _ => lim_ReadHeaderTimeoutMS cfg < 0 ∨ ∃ n, lim_MaxBodyBytes cfg = Some n ∧ n < 0
  end ∧
  ((∃ l, FromConfig cfg = Ok l) ↔ 0 ≤ lim_ReadHeaderTimeoutMS cfg ∧ ∀ n, lim_MaxBodyBytes cfg = Some n → 0 ≤ n).
Proof.
  intros (H1 & H2 & H3 & H4 & H5).
  assert (FromConfig cfg =
    if lim_ReadHeaderTimeoutMS cfg <? 0 then Err "read_header_timeout_ms must be positive"
    else if MaxBodyBytes (effective_limits cfg) <? 0 then Err "max_body_bytes must be non-negative"
    else Ok (effective_limits cfg)) as ->.
  { unfold FromConfig. rewrite !durationOrZero_small by lia. cbn zeta.
    destruct (Z.ltb_spec (lim_ReadHeaderTimeoutMS cfg) 0) as [Hr|Hr].
    { rewrite (proj2 (Z.ltb_ge 0 _)) by lia. done. }
    pose proof (effective_pos (lim_MaxHeaderBytes cfg) defaultMaxHeaderBytes eq_refl).
    pose proof (effective_pos (lim_MaxHeaderCount cfg) defaultMaxHeaderCount eq_refl).
    pose proof (effective_pos (lim_MaxURLBytes cfg) defaultMaxURLBytes eq_refl).
    transitivity (checkLimits (effective_limits cfg)).
    - unfold effective_limits, effective.
      destruct (Z.ltb_spec 0 (lim_ReadHeaderTimeoutMS cfg)), (Z.ltb_spec 0 (lim_IdleTimeoutMS cfg)),
        (lim_MaxBodyBytes cfg), (0 <? lim_MaxHeaderBytes cfg), (0 <? lim_MaxHeaderCount cfg), (0 <? lim_MaxURLBytes cfg);
        cbn [result_bind]; rewrite ?millis_small by lia; done.
    - apply checkLimits_Ok; try done. simpl. destruct (Z.ltb_spec 0 (lim_ReadHeaderTimeoutMS cfg)); [|done].
      unfold Millisecond. lia. }
  cbn [MaxBodyBytes effective_limits]. destruct (Z.ltb_spec (lim_ReadHeaderTimeoutMS cfg) 0).
  { split; [by left|]. split; [by intros [? ?]|lia]. }
  destruct (lim_MaxBodyBytes cfg) as [n|]; simpl.
  - destruct (Z.ltb_spec n 0); split; [right; eauto| |done|].
    + split; [by intros [? ?]|]. intros [_ Hn]. specialize (Hn n eq_refl). lia.
    + split; [|eauto]. intros _. split; [lia|]. by intros ? [= <-].
  - split; [done|]. split; [|eauto]. intros _. split; [lia|]. by intros ? ?.
Qed.

Definition small_limits : LimitsConfig := mkLimitsConfig 0 50 0 (Some 1024) 500 0 (-1) 0 0.
Lemma limits_from_config_witness :
  FromConfig small_limits = Ok (mkLimits 65536 50 8192 1024 (500 * Millisecond) 0 0 (30 * Second) 0).
Proof.
  pose proof (limits_from_config small_limits ltac:(unfold timeouts_fit; simpl; lia)) as [H _].
  destruct (FromConfig small_limits) as [l|e]; [by subst|]. destruct H as [H|(n & H & Hn)]; [simpl in H; lia|].
  simpl in H. injection H as <-. lia.
Defined.
