(* ===== verification/Plugin.v ===== *)
(** * Filter plugins (internal/plugin)

    Policies, header mutations, the per-filter breaker and the registry of
    gRPC clients.  Dialling is google.golang.org/grpc's: a client is an
    address of [conns], whose value says whether it is still open. *)
From S2P Require Import Prelude.
From S2P Require Import GoStrings.

(** ** plugin.go *)

Inductive FailureMode := FailureModeFailOpen | FailureModeFailClose.
Definition FailureMode_String (m : FailureMode) : string :=
  match m with FailureModeFailOpen => "fail_open" | FailureModeFailClose => "fail_closed" end.

Record BreakerConfig := mkBreakerConfig {
  Enabled : bool;
  ConsecutiveFailures : Z;
  OpenDuration : Duration;
  HalfOpenProbes : Z
}.
Record Filter := mkFilter {
  Name : string;
  Addr : string;
  RequestTimeout : Duration;
  ResponseTimeout : Duration;
  FilterFailureMode : FailureMode;
  FilterBreaker : BreakerConfig
}.
Record Policy := mkPolicy { plugins_Enabled : bool; Filters : list Filter }.

Definition FilterKey (name addr : string) : string := name ++ "@" ++ addr.

(** [None] is the nil map. *)
Definition HeadersToMap (header : Header) : option (gmap string string) :=
  if decide (header = ∅) then None
  else Some (omap (λ values, match values with [] => None | _ => Some (Join "," values) end) header).

Definition isHopByHopHeader (header : string) : bool :=
  bool_decide (header ∈ ["Connection"; "Keep-Alive"; "Transfer-Encoding"; "Upgrade"]).

(** One mutation; [mutations] lists the map in the order Go visits it. *)
Definition applyMutation (acc : Header * bool) (m : string * string) : Header * bool :=
  let '(target, denied) := acc in
  let canon := CanonicalHeaderKey (TrimSpace m.1) in
  if decide (canon = "") then acc
  else if isHopByHopHeader canon then (target, true)
  else (header_Set target canon m.2, denied).
Definition ApplyHeaderMutations (target : Header) (mutations : list (string * string)) : Header * bool :=
  match mutations with
  | [] => (target, false)
  | _ => foldl applyMutation (target, false) mutations
  end.

(** ** breaker.go *)

Inductive BreakerState := BreakerStateClosed | BreakerStateOpen | BreakerStateHalfOpen.
#[export] Instance BreakerState_eq_dec : EqDecision BreakerState.
Proof. solve_decision. Defined.
Definition BreakerState_String (s : BreakerState) : string :=
  match s with BreakerStateClosed => "closed" | BreakerStateOpen => "open" | BreakerStateHalfOpen => "half_open" end.

Record Breaker := mkBreaker {
  config : BreakerConfig;
  state : BreakerState;
  consecutiveFails : Z;
  openUntil : Time;
  halfOpenInFlight : Z;
  halfOpenSuccess : Z
}.
#[export] Instance Breaker_eta : Eta Breaker := fun b =>
  mkBreaker (config b) (state b) (consecutiveFails b) (openUntil b) (halfOpenInFlight b) (halfOpenSuccess b).

Definition NewBreaker (cfg : BreakerConfig) : Breaker := mkBreaker cfg BreakerStateClosed 0 zeroTime 0 0.

Definition UpdateConfig (b : Breaker) (cfg : BreakerConfig) : Breaker :=
  let b := b <| config := cfg |> in
  if negb (Enabled cfg)
  then b <| state := BreakerStateClosed |> <| consecutiveFails := 0 |> <| halfOpenInFlight := 0 |>
         <| halfOpenSuccess := 0 |> <| openUntil := zeroTime |>
  else b.

Definition maxProbes (b : Breaker) : Z := or_default (HalfOpenProbes (config b)) 1.

(** The half-open part of [Allow]. *)
Definition allowProbe (b : Breaker) : Breaker * (BreakerState * bool) :=
  if maxProbes b <=? halfOpenInFlight b then (b, (state b, false))
  else (b <| halfOpenInFlight := i64 (halfOpenInFlight b + 1) |>, (state b, true)).

Definition Allow (b : Breaker) (now : Time) : Breaker * (BreakerState * bool) :=
  if negb (Enabled (config b)) then (b, (BreakerStateClosed, true))
  else match state b with
  | BreakerStateClosed => (b, (BreakerStateClosed, true))
  | BreakerStateOpen =>
      if now <? openUntil b then (b, (BreakerStateOpen, false))
      else allowProbe (b <| state := BreakerStateHalfOpen |> <| halfOpenInFlight := 0 |> <| halfOpenSuccess := 0 |>)
  | BreakerStateHalfOpen => allowProbe b
  end.

(** Opening: [now] is the clock reading of [time.Now().Add(openDuration)]. *)
Definition openFor (b : Breaker) (now : Time) : Breaker :=
  b <| state := BreakerStateOpen |> <| openUntil := now + or_default (OpenDuration (config b)) Second |>.

Definition Report (b : Breaker) (success : bool) (now : Time) : Breaker * BreakerState :=
  if negb (Enabled (config b)) then (b, BreakerStateClosed)
  else match state b with
  | BreakerStateClosed =>
      if success then (b <| consecutiveFails := 0 |>, BreakerStateClosed)
      else
        let b := b <| consecutiveFails := i64 (consecutiveFails b + 1) |> in
        let threshold := or_default (ConsecutiveFailures (config b)) 1 in
        let b := if threshold <=? consecutiveFails b
                 then (openFor b now) <| halfOpenInFlight := 0 |> <| halfOpenSuccess := 0 |> else b in
        (b, state b)
  | BreakerStateHalfOpen =>
      let b := if 0 <? halfOpenInFlight b then b <| halfOpenInFlight := halfOpenInFlight b - 1 |> else b in
      if negb success then
        let b := (openFor b now) <| consecutiveFails := 0 |> <| halfOpenSuccess := 0 |> in (b, state b)
      else
        let b := b <| halfOpenSuccess := i64 (halfOpenSuccess b + 1) |> in
        let b := if (maxProbes b <=? halfOpenSuccess b) && (halfOpenInFlight b =? 0)
                 then b <| state := BreakerStateClosed |> <| consecutiveFails := 0 |> <| halfOpenSuccess := 0 |>
                        <| openUntil := zeroTime |>
                 else b in
        (b, state b)
  | BreakerStateOpen => (b, BreakerStateOpen)
  end.

(** ** registry.go *)

Definition defaultDialTimeout : Duration := 500 * Millisecond.

Record Registry := mkRegistry {
  clients : gmap string nat;
  breakers : gmap string Breaker;
  dialTimeout : Duration;
  conns : gmap nat bool;
  nextConn : nat
}.
#[export] Instance Registry_eta : Eta Registry := fun r =>
  mkRegistry (clients r) (breakers r) (dialTimeout r) (conns r) (nextConn r).

Definition NewRegistry (timeout : Duration) : Registry := mkRegistry ∅ ∅ (or_default timeout defaultDialTimeout) ∅ 0.

(** [GetClient] up to the dial: the cached client, or [None] when a
    connection has to be made. *)
Definition cachedClient (r : Registry) (addr : string) : option nat := clients r !! addr.
(** A successful dial: a new open connection. *)
Definition dial (r : Registry) : Registry * nat :=
  (r <| conns ::= <[nextConn r := true]> |> <| nextConn ::= S |>, nextConn r).
(** [client.Close()]. *)
Definition CloseClient (r : Registry) (c : nat) : Registry := r <| conns ::= alter (λ _, false) c |>.
(** [GetClient] after the dial of [client]: the client another call has
    published in the meantime wins. *)
Definition publishClient (r : Registry) (addr : string) (client : nat) : Registry * nat :=
  match clients r !! addr with
  | Some existing => (CloseClient r client, existing)
  | None => (r <| clients ::= <[addr := client]> |>, client)
  end.

(** A [GetClient] that runs without interruption; [dialErr] is what
    [grpc.DialContext] answers ([None] is success). *)
Definition GetClient (r : Registry) (addr : string) (dialErr : option string) : Registry * result nat :=
  match cachedClient r addr with
  | Some c => (r, Ok c)
  | None =>
      match dialErr with
      | Some e => (r, Err e)
      | None => let '(r, c) := dial r in let '(r, c) := publishClient r addr c in (r, Ok c)
      end
  end.

(** [GetBreaker] makes the entry or updates its configuration; the breaker is
    then found under [filterKey]. *)
Definition GetBreaker (r : Registry) (filterKey : string) (cfg : BreakerConfig) : Registry :=
  match breakers r !! filterKey with
  | None => r <| breakers ::= <[filterKey := NewBreaker cfg]> |>
  | Some b => r <| breakers ::= <[filterKey := UpdateConfig b cfg]> |>
  end.

Definition Close (r : Registry) : Registry :=
  foldl CloseClient (r <| clients := ∅ |>) (map_to_list (clients r)).*2.
Definition Stop (r : Registry) : Registry * option string := (Close r, None).

(** ** Mutations *)

Lemma applyMutation_hop acc m h :
  isHopByHopHeader h = true → (applyMutation acc m).1 !! h = acc.1 !! h.
Proof.
  destruct acc as [target denied]. intros Hh. unfold applyMutation. case_decide; [done|].
  destruct (isHopByHopHeader (CanonicalHeaderKey _)) eqn:E; [done|]. cbn [fst]. unfold header_Set.
  rewrite CanonicalHeaderKey_idem. apply lookup_insert_ne. intros <-. congruence.
Qed.

Definition deniedMutation (m : string * string) : bool := isHopByHopHeader (CanonicalHeaderKey (TrimSpace m.1)).

Lemma applyMutation_denied acc m : (applyMutation acc m).2 = acc.2 || deniedMutation m.
Proof.
  destruct acc as [target denied]. unfold applyMutation, deniedMutation. case_decide as E.
  { rewrite E. by destruct denied. }
  destruct (isHopByHopHeader _); simpl; by destruct denied.
Qed.

Lemma applyMutations_spec acc ms h :
  isHopByHopHeader h = true →
  (foldl applyMutation acc ms).1 !! h = acc.1 !! h ∧ (foldl applyMutation acc ms).2 = acc.2 || existsb deniedMutation ms.
Proof.
  intros Hh. revert acc. induction ms as [|m ms IH]; intros acc; simpl; [by rewrite orb_false_r|].
  destruct (IH (applyMutation acc m)) as [-> ->]. rewrite applyMutation_hop by done. split; [done|].
  rewrite applyMutation_denied. by rewrite orb_assoc.
Qed.

(** Whatever headers a plugin returns, in whatever order Go visits them and
    however they are spelled, the hop-by-hop headers of the message are
    untouched, and the mutation is reported as denied exactly when the plugin
    tried to set one of them. *)
Theorem plugin_mutations_spare_hop_by_hop target ms h :
  h ∈ ["Connection"; "Keep-Alive"; "Transfer-Encoding"; "Upgrade"] →
  (ApplyHeaderMutations target ms).1 !! h = target !! h ∧
  ((ApplyHeaderMutations target ms).2 = true ↔
   ∃ m, m ∈ ms ∧ CanonicalHeaderKey (TrimSpace m.1) ∈ ["Connection"; "Keep-Alive"; "Transfer-Encoding"; "Upgrade"]).
Proof.
  intros Hh. assert (isHopByHopHeader h = true) as Hb by by apply bool_decide_eq_true.
  assert (ApplyHeaderMutations target ms = foldl applyMutation (target, false) ms) as -> by by destruct ms.
  destruct (applyMutations_spec (target, false) ms h Hb) as [-> ->]. split; [done|]. simpl.
  rewrite existsb_exists. setoid_rewrite <- list_elem_of_In. unfold deniedMutation, isHopByHopHeader.
  by setoid_rewrite bool_decide_eq_true.
Qed.

Lemma plugin_mutations_spare_hop_by_hop_witness :
  (ApplyHeaderMutations {["Connection" := ["close"]]} [(" connection ", "x"); ("x-a", "1")]).1 !! "Connection" = Some ["close"].
Proof.
  rewrite (proj1 (plugin_mutations_spare_hop_by_hop _ _ "Connection" ltac:(set_solver))). reflexivity.
Defined.

(** ** The breaker *)

Definition failAll (b : Breaker) (ts : list Time) : Breaker := foldl (λ b t, (Report b false t).1) b ts.

Lemma failAll_closed b ts :
  Enabled (config b) = true → state b = BreakerStateClosed → 0 ≤ consecutiveFails b →
  consecutiveFails b + len ts < or_default (ConsecutiveFailures (config b)) 1 ≤ max_i64 →
  failAll b ts = b <| consecutiveFails := consecutiveFails b + len ts |>.
Proof.
  revert b. induction ts as [|t ts IH]; intros b He Hs H0 Hlt.
  { destruct b. unfold len. simpl. by rewrite Z.add_0_r. }
  rewrite len_cons in *. pose proof (len_nonneg ts). unfold failAll. cbn [foldl].
  assert ((Report b false t).1 = b <| consecutiveFails := consecutiveFails b + 1 |>) as ->.
  { unfold Report. rewrite He, Hs. simpl. rewrite i64_small by lia. rewrite (proj2 (Z.leb_gt _ _)) by lia. done. }
  etrans; [apply IH; simpl; lia || done|]. simpl. f_equal. lia.
Qed.

Definition refuses_until (b : Breaker) (until : Time) : Prop :=
  ∀ now, (now < until → Allow b now = (b, (BreakerStateOpen, false))) ∧
         (until ≤ now → (Allow b now).2 = (BreakerStateHalfOpen, true)).

(** An enabled, closed plugin breaker opens at exactly the configured number
    of consecutive failures (one when none is configured): with fewer it
    keeps admitting calls, with that many it refuses every call for the open
    period after the last failure, and then admits a probe. *)
Theorem plugin_breaker_trips b ts t :
  Enabled (config b) = true → state b = BreakerStateClosed → consecutiveFails b = 0 →
  let threshold := or_default (ConsecutiveFailures (config b)) 1 in
  threshold ≤ max_i64 →
  (len ts < threshold → ∀ now, (Allow (failAll b ts) now).2 = (BreakerStateClosed, true)) ∧
  (len ts = threshold - 1 →
   refuses_until (failAll b (ts ++ [t])) (t + or_default (OpenDuration (config b)) Second)).
Proof.
  intros He Hs H0 threshold Hmax. subst threshold. split; intros Hlen.
  - rewrite failAll_closed by (done || lia). intros now. unfold Allow. simpl. by rewrite He, Hs.
  - unfold failAll. rewrite foldl_app. change (foldl _ b ts) with (failAll b ts). rewrite (failAll_closed b ts) by (done || lia).
    pose proof (len_nonneg ts). cbn [foldl]. unfold Report. simpl. rewrite He, Hs. simpl.
    rewrite i64_small by lia. rewrite (proj2 (Z.leb_le _ _)) by lia. intros now. unfold Allow. simpl. rewrite He.
    split; intros Hnow; [by rewrite (proj2 (Z.ltb_lt _ _))|]. rewrite (proj2 (Z.ltb_ge _ _)) by done.
    unfold allowProbe, maxProbes. simpl. rewrite (proj2 (Z.leb_gt _ _)); [done|]. by apply or_default_pos.
Qed.

Lemma plugin_breaker_trips_witness :
  (Allow (failAll (NewBreaker (mkBreakerConfig true 2 Second 1)) ([0] ++ [5])) (Second + 4)).2.2 = false.
Proof.
  destruct (plugin_breaker_trips (NewBreaker (mkBreakerConfig true 2 Second 1)) [0] 5) as [_ H]; [done..|].
  destruct (H eq_refl (Second + 4)) as [Hr _]. rewrite Hr; done.
Defined.

(** ** The clients *)

(** Concurrent [GetClient] calls: [dialed] are the connections that have been
    made for an address and are not published yet. *)
Record callers := mkCallers { reg : Registry; dialed : gmap nat string }.

Inductive client_step : callers → callers → Prop :=
| step_dial s addr : cachedClient (reg s) addr = None →
    client_step s (mkCallers (dial (reg s)).1 (<[(dial (reg s)).2 := addr]> (dialed s)))
| step_publish s c addr : dialed s !! c = Some addr →
    client_step s (mkCallers (publishClient (reg s) addr c).1 (delete c (dialed s)))
| step_breaker s k cfg : client_step s (mkCallers (GetBreaker (reg s) k cfg) (dialed s))
| step_close s : client_step s (mkCallers (Close (reg s)) (dialed s)).

Record clients_ok (s : callers) : Prop := mkClientsOk {
  ok_open : ∀ c, conns (reg s) !! c = Some true ↔ is_Some (dialed s !! c) ∨ ∃ a, clients (reg s) !! a = Some c;
  ok_inj : ∀ a b c, clients (reg s) !! a = Some c → clients (reg s) !! b = Some c → a = b;
  ok_apart : ∀ a c, clients (reg s) !! a = Some c → dialed s !! c = None;
  ok_fresh : ∀ c, is_Some (conns (reg s) !! c) → (c < nextConn (reg s))%nat
}.

Lemma closeAll_conns r l c :
  conns (foldl CloseClient r l) !! c = if bool_decide (c ∈ l) then (λ _, false) <$> conns r !! c else conns r !! c.
Proof.
  revert r. induction l as [|x l IH]; intros r; [done|]. cbn [foldl]. rewrite IH. simpl.
  destruct (decide (c = x)) as [->|Hne].
  - rewrite lookup_alter_eq. rewrite (bool_decide_eq_true_2 (x ∈ x :: l)) by set_solver.
    case_bool_decide; [|done]. by destruct (conns r !! x).
  - rewrite lookup_alter_ne by done. do 2 case_bool_decide; set_solver.
Qed.

Lemma closeAll_other r l :
  clients (foldl CloseClient r l) = clients r ∧ nextConn (foldl CloseClient r l) = nextConn r.
Proof. revert r. induction l as [|x l IH]; intros r; [done|]. cbn [foldl]. by destruct (IH (CloseClient r x)) as [-> ->]. Qed.

Lemma dial_ok s addr :
  clients_ok s → clients_ok (mkCallers (dial (reg s)).1 (<[(dial (reg s)).2 := addr]> (dialed s))).
Proof.
  intros [Hopen Hinj Hap Hfr]. set (n := nextConn (reg s)).
  assert (conns (reg s) !! n = None) as Hn.
  { destruct (conns (reg s) !! n) eqn:E; [|done]. specialize (Hfr n ltac:(by eexists)). subst n. lia. }
  assert (∀ a, clients (reg s) !! a ≠ Some n) as Hcl by (intros a Ha; assert (conns (reg s) !! n = Some true) by (apply Hopen; eauto); congruence).
  split; simpl; fold n.
  - intros c. destruct (decide (c = n)) as [->|Hne]; [rewrite !lookup_insert_eq; naive_solver|].
    rewrite !lookup_insert_ne by done. apply Hopen.
  - exact Hinj.
  - intros a c Hc. rewrite lookup_insert_ne; [by eapply Hap|]. intros <-. by destruct (Hcl a).
  - intros c. destruct (decide (c = n)) as [->|Hne]; [lia|]. rewrite lookup_insert_ne by done. intros H%Hfr. lia.
Qed.

Lemma publish_ok s c addr :
  dialed s !! c = Some addr → clients_ok s →
  clients_ok (mkCallers (publishClient (reg s) addr c).1 (delete c (dialed s))).
Proof.
  intros Hc [Hopen Hinj Hap Hfr]. unfold publishClient.
  assert (∀ a, clients (reg s) !! a ≠ Some c) as Hcl by (intros a Ha; specialize (Hap a c Ha); congruence).
  destruct (clients (reg s) !! addr) as [ex|] eqn:E; split; simpl.
  - intros d. destruct (decide (d = c)) as [->|Hne].
    + rewrite lookup_alter_eq, lookup_delete_eq. destruct (conns (reg s) !! c); naive_solver.
    + rewrite lookup_alter_ne, lookup_delete_ne by done. apply Hopen.
  - exact Hinj.
  - intros a d Hd. rewrite lookup_delete_ne; [by eapply Hap|]. intros <-. by destruct (Hcl a).
  - intros d. destruct (decide (d = c)) as [->|Hne]; [rewrite lookup_alter_eq|rewrite lookup_alter_ne by done; apply Hfr].
    destruct (conns (reg s) !! c) eqn:Ec; [|intros [? ?]; naive_solver]. intros _. apply Hfr. by eexists.
  - intros d. destruct (decide (d = c)) as [->|Hne].
    + rewrite lookup_delete_eq, Hopen, Hc. split; [intros _; right; exists addr; by rewrite lookup_insert_eq|eauto].
    + rewrite lookup_delete_ne, Hopen by done. split; intros [?|[a Ha]]; auto; right.
      * exists a. rewrite lookup_insert_ne; [done|]. intros ->. congruence.
      * destruct (decide (a = addr)) as [->|]; [rewrite lookup_insert_eq in Ha; congruence|].
        rewrite lookup_insert_ne in Ha by done. eauto.
  - intros a b d. rewrite !lookup_insert_Some. intros [[<- <-]|[? Ha]] [[? ?]|[? Hb]]; try congruence; try done.
    by eapply Hinj.
  - intros a d. rewrite lookup_insert_Some. intros [[<- <-]|[? Ha]]; [apply lookup_delete_eq|].
    rewrite lookup_delete_ne; [by eapply Hap|]. intros <-. by destruct (Hcl a).
  - exact Hfr.
Qed.

Lemma close_ok s : clients_ok s → clients_ok (mkCallers (Close (reg s)) (dialed s)).
Proof.
  intros [Hopen Hinj Hap Hfr]. unfold Close. set (l := (map_to_list (clients (reg s))).*2).
  assert (∀ c, c ∈ l ↔ ∃ a, clients (reg s) !! a = Some c) as Hl.
  { intros c. unfold l. rewrite list_elem_of_fmap. split.
    - intros ([a d] & -> & H%elem_of_map_to_list). eauto.
    - intros [a Ha]. exists (a, c). split; [done|]. by apply elem_of_map_to_list. }
  destruct (closeAll_other ((reg s) <| clients := ∅ |>) l) as [Hc Hn]. split; cbn [reg dialed].
  - intros c. rewrite Hc, closeAll_conns. simpl. setoid_rewrite lookup_empty. case_bool_decide as Hin.
    + apply Hl in Hin as [a Ha]. specialize (Hap a c Ha). split; [by destruct (conns (reg s) !! c)|].
      intros [[? ?]|[? ?]]; congruence.
    + rewrite Hopen. rewrite Hl in Hin. naive_solver.
  - intros a b c. rewrite Hc. simpl. by rewrite lookup_empty.
  - intros a c. rewrite Hc. simpl. by rewrite lookup_empty.
  - intros c. rewrite closeAll_conns, Hn. simpl. case_bool_decide; [|apply Hfr].
    intros [? ?]. apply Hfr. destruct (conns (reg s) !! c); [by eexists|naive_solver].
Qed.

(** However concurrent [GetClient] and [Close] calls interleave, the open
    connections are exactly the published clients and those a caller has just
    dialled: a caller that loses the race closes its own connection, none is
    leaked and no address has two clients. *)
Theorem plugin_clients_no_leak timeout s :
  rtc client_step (mkCallers (NewRegistry timeout) ∅) s →
  (∀ c, conns (reg s) !! c = Some true ↔ is_Some (dialed s !! c) ∨ ∃ a, clients (reg s) !! a = Some c) ∧
  (∀ a b c, clients (reg s) !! a = Some c → clients (reg s) !! b = Some c → a = b).
Proof.
  intros H. assert (clients_ok s) as [Ho Hi _ _]; [|done].
  assert (clients_ok (mkCallers (NewRegistry timeout) ∅)) as H0.
  { split; simpl; try done; intros c; rewrite ?lookup_empty; [split|]; [done| |intros [? ?]; done].
    intros [[? ?]|[a Ha]]; [done|]. by rewrite lookup_empty in Ha. }
  revert H0. induction H as [|s1 s2 s3 Hst _ IH]; intros H0; [done|]. apply IH.
  destruct Hst as [s addr _|s c addr Hc|s k cfg|s]; [by apply dial_ok|by apply publish_ok| |by apply close_ok].
  destruct H0 as [Ho Hi Ha Hf]. unfold GetBreaker. by destruct (breakers (reg s) !! k); split.
Qed.

Lemma plugin_clients_no_leak_witness :
  let s := mkCallers (dial (NewRegistry 0)).1 {[0%nat := "a"]} in
  conns (reg s) !! 0%nat = Some true ↔ is_Some (dialed s !! 0%nat) ∨ ∃ a, clients (reg s) !! a = Some 0%nat.
Proof.
  refine (proj1 (plugin_clients_no_leak 0 _ _) 0%nat).
  apply rtc_once. apply (step_dial (mkCallers (NewRegistry 0) ∅) "a"). reflexivity.
Defined.
