(* ===== verification/TLSStore.v ===== *)
(** * Certificates (internal/tlsstore)

    Loading key pairs, reading files, parsing and verifying certificates are
    crypto/tls, os and crypto/x509: parameters.  A certificate is its bytes,
    a certificate pool the PEM text it was filled from. *)
From S2P Require Import Prelude.
From S2P Require Import GoStrings.

Abbreviation Certificate := string (only parsing).
Abbreviation CertPool := string (only parsing).

Record CertSpec := mkCertSpec { ServerName : string; CertFile : string; KeyFile : string }.

Record Store := mkStore {
  certs : gmap string Certificate;
  defaultCert : option Certificate;
  clientCA : option CertPool
}.

Definition NewStore (cs : gmap string Certificate) (def : option Certificate) (ca : option CertPool) : Store := mkStore cs def ca.

Section Crypto.
Context (LoadX509KeyPair : string → string → result Certificate).
Context (ReadFile : string → result string).
Context (AppendCertsFromPEM : string → bool).
Context (ParseCertificate : string → result Certificate).
Context (Verify : Certificate → CertPool → list Certificate → option string).

(** The loop over the specifications: the certificates in order and by name. *)
Fixpoint loadCerts (specs : list CertSpec) (loaded : list Certificate) (certMap : gmap string Certificate)
    : result (list Certificate * gmap string Certificate) :=
  match specs with
  | [] => Ok (loaded, certMap)
  | spec :: specs =>
      if decide (ServerName spec = "") then Err "certificate server name is required"
      else if decide (CertFile spec = "" ∨ KeyFile spec = "")
      then Err ("certificate files missing for " ++ ServerName spec)
      else match LoadX509KeyPair (CertFile spec) (KeyFile spec) with
      | Err e => Err ("load cert for " ++ ServerName spec ++ ": " ++ e)
      | Ok cert => loadCerts specs (loaded ++ [cert]) (<[ToLower (ServerName spec) := cert]> certMap)
      end
  end.

Definition LoadStore (specs : list CertSpec) (clientCAFile : string) : result Store :=
  match specs with
  | [] => Err "no certificates configured"
  | _ =>
      let? lm := loadCerts specs [] ∅ in
      let? clientCA := if decide (clientCAFile = "") then Ok None
        else match ReadFile clientCAFile with
        | Err e => Err ("read client CA: " ++ e)
        | Ok data => if AppendCertsFromPEM data then Ok (Some data) else Err "parse client CA"
        end in
      Ok (NewStore lm.2 (head lm.1) clientCA)
  end.

(** [serverName] is the SNI of the client hello. *)
Definition GetCertificate (s : Store) (serverName : string) : result Certificate :=
  let byName := if decide (serverName = "") then None else certs s !! ToLower serverName in
  match byName with
  | Some cert => Ok cert
  | None => match defaultCert s with None => Err "default certificate missing" | Some c => Ok c end
  end.

Fixpoint parseAll (rawCerts : list string) : result (list Certificate) :=
  match rawCerts with
  | [] => Ok []
  | raw :: rest =>
      match ParseCertificate raw with
      | Err e => Err e
      | Ok c => let? cs := parseAll rest in Ok (c :: cs)
      end
  end.

(** [None] is nil: the chain is accepted. *)
Definition VerifyClientCert (s : Store) (rawCerts : list string) : option string :=
  match clientCA s with
  | None => Some "client CA pool missing"
  | Some ca =>
      match rawCerts with
      | [] => Some "client certificate missing"
      | _ =>
          match parseAll rawCerts with
          | Err e => Some e
          | Ok (leaf :: intermediates) => Verify leaf ca intermediates
          | Ok [] => None
          end
      end
  end.

(** ** Which certificate answers which name *)

Definition named (name : string) (spec : CertSpec) : bool := bool_decide (ToLower (ServerName spec) = ToLower name).

Lemma loadCerts_spec specs loaded m loaded' m' name :
  loadCerts specs loaded m = Ok (loaded', m') →
  ∃ cs, loaded' = loaded ++ cs ∧ Forall2 (λ spec c, LoadX509KeyPair (CertFile spec) (KeyFile spec) = Ok c) specs cs ∧
    m' !! ToLower name = match List.filter (λ p, named name p.1) (rev (combine specs cs)) with
                         | (_, c) :: _ => Some c
                         | [] => m !! ToLower name
                         end.
Proof.
  revert loaded m. induction specs as [|spec specs IH]; intros loaded m H; simpl in H.
  { simplify_eq. exists []. by rewrite app_nil_r. }
  repeat case_decide; try done. destruct (LoadX509KeyPair _ _) as [c|e] eqn:E; [|done].
  destruct (IH _ _ H) as (cs & -> & Hcs & Hm). exists (c :: cs). rewrite <- app_assoc. split_and!; [done|by constructor|].
  rewrite Hm. simpl. rewrite List.filter_app. simpl.
  destruct (List.filter _ (rev (combine specs cs))) as [|[? ?] ?]; [|done]. unfold named. simpl.
  case_bool_decide as Hn; [by rewrite Hn, lookup_insert_eq|by rewrite lookup_insert_ne].
Qed.

(** A loaded store answers every handshake: a client that asks for a
    configured name, in any case, gets the certificate loaded for the last
    entry of that name; any other client gets the first certificate. *)
Theorem tls_certificate_selection specs caFile s name :
  LoadStore specs caFile = Ok s →
  ∃ cs, Forall2 (λ spec c, LoadX509KeyPair (CertFile spec) (KeyFile spec) = Ok c) specs cs ∧
    GetCertificate s name =
      match List.filter (λ p, named name p.1) (rev (combine specs cs)) with
      | (_, c) :: _ => if decide (name = "") then Ok (default "" (head cs)) else Ok c
      | [] => Ok (default "" (head cs))
      end.
Proof.
  intros H. unfold LoadStore in H. destruct specs as [|spec specs]; [done|].
  apply result_bind_Ok in H as ([loaded m] & Hl & H). apply result_bind_Ok in H as (ca & _ & [= <-]).
  apply (loadCerts_spec _ _ _ _ _ name) in Hl as (cs & -> & Hcs & Hm). exists cs. split; [done|].
  destruct cs as [|c0 cs]; [by inversion Hcs|]. unfold GetCertificate. simpl in *. rewrite Hm, lookup_empty.
  by destruct (List.filter _ _) as [|[? ?] ?], (decide (name = "")).
Qed.

End Crypto.

Lemma tls_certificate_selection_witness :
  ∃ s, LoadStore (λ c _, Ok c) (λ _, Ok "") (λ _, true) [mkCertSpec "a.test" "A" "ka"; mkCertSpec "B.test" "B" "kb"] "" = Ok s ∧
    GetCertificate s "b.TEST" = Ok "B".
Proof.
  eexists. split; [reflexivity|].
  destruct (tls_certificate_selection (λ c _, Ok c) (λ _, Ok "") (λ _, true)
    [mkCertSpec "a.test" "A" "ka"; mkCertSpec "B.test" "B" "kb"] "" _ "b.TEST" eq_refl) as (cs & Hcs & ->).
  apply Forall2_cons_inv_l in Hcs as (c1 & l & [= <-] & Hl & ->). apply Forall2_cons_inv_l in Hl as (c2 & l' & [= <-] & Hl & ->).
  apply Forall2_nil_inv_l in Hl as ->. reflexivity.
Defined.
