(* ===== verification/Router.v ===== *)
(** * Routes and the router (internal/policy/policy.go, internal/router/router.go)

    A route's traffic plan is the address of a plan of the traffic registry.
    [Methods] is [None] for the nil map, which admits every method. *)
From S2P Require Import Prelude.
From S2P Require Import GoStrings.
From S2P Require Import GoError.
From S2P Require Import Http.
From S2P Require Import Policy.
From S2P Require Import Plugin.

Record Policy := mkPolicy {
  RequestTimeout : Duration;
  UpstreamDialTimeout : Duration;
  UpstreamResponseHeaderTimeout : Duration;
  Retry : RetryPolicy;
  RetryBudget : RetryBudgetPolicy;
  ClientRetryCap : ClientRetryCapPolicy;
  RequireMTLS : bool;
  MTLSClientCA : string;
  Cache : CachePolicy;
  Plugins : Plugin.Policy
}.

Record Route := mkRoute {
  ID : string;
  RouteHost : string;
  PathPrefix : string;
  Methods : option (gmap string bool);
  PoolName : string;
  CanaryPoolName : string;
  StablePoolKey : string;
  CanaryPoolKey : string;
  TrafficPlan : option nat;
  RoutePolicy : Policy
}.

Record Router := mkRouter { routes : list Route }.
Definition NewRouter (rs : list Route) : Router := mkRouter rs.

Definition hostOf (req : Request) : string :=
  match SplitHostPort (Host req) with Some (h, _) => h | None => Host req end.

Definition selects (host : string) (req : Request) (route : Route) : bool :=
  bool_decide (RouteHost route = host) && HasPrefix (Path req) (PathPrefix route).

Fixpoint matchRoutes (host : string) (req : Request) (rs : list Route) : option Route :=
  match rs with
  | [] => None
  | route :: rs =>
      if selects host req route then
        if match Methods route with Some _ => negb (mapGet (Methods route) (Method req)) | None => false end
        then None else Some route
      else matchRoutes host req rs
  end.
Definition Match (r : option Router) (req : Request) : option Route :=
  match r with None => None | Some r => matchRoutes (hostOf req) req (routes r) end.

(** ** The answer of the router *)

Definition admits (route : Route) (method : string) : Prop :=
  match Methods route with None => True | Some m => m !! method = Some true end.

Lemma matchRoutes_spec host req rs route :
  matchRoutes host req rs = Some route ↔
  ∃ before after, rs = before ++ route :: after ∧ selects host req route = true ∧
    Forall (λ r, selects host req r = false) before ∧ admits route (Method req).
Proof.
  induction rs as [|r rs IH]; simpl; [split; [done|intros ([] & ? & ? & _); done]|].
  destruct (selects host req r) eqn:E.
  - assert ((if match Methods r with Some _ => negb (mapGet (Methods r) (Method req)) | None => false end then None else Some r)
      = Some route ↔ r = route ∧ admits r (Method req)) as ->.
    { unfold admits, mapGet. destruct (Methods r) as [m|]; [|naive_solver]. destruct (m !! Method req) as [[]|]; naive_solver. }
    split.
    + intros [-> ?]. by exists [], rs.
    + intros ([|r' before] & after & Heq & Hs & Hb & Ha); simplify_eq/=; [done|]. inversion Hb. congruence.
  - rewrite IH. split.
    + intros (before & after & -> & ? & ? & ?). exists (r :: before), after. split_and!; [done..|by constructor|done].
    + intros ([|r' before] & after & Heq & Hs & Hb & Ha); simplify_eq/=; [congruence|]. inversion Hb. by exists before, after.
Qed.

(** C18. A request is routed exactly to the first route, in configuration order,
    whose host is the request's host without its port and whose prefix starts
    the path, provided that route admits the method; a later route never
    takes over when it does not, and routes behind it have no influence. *)
Theorem router_first_match rs req route :
  (Match (Some (NewRouter rs)) req = Some route ↔
   ∃ before after, rs = before ++ route :: after ∧
     (RouteHost route = hostOf req ∧ HasPrefix (Path req) (PathPrefix route) = true) ∧
     (∀ r, r ∈ before → RouteHost r = hostOf req → HasPrefix (Path req) (PathPrefix r) = false) ∧
     admits route (Method req)) ∧
  (∀ more, Match (Some (NewRouter rs)) req = Some route → Match (Some (NewRouter (rs ++ more))) req = Some route).
Proof.
  unfold Match, NewRouter. cbn [routes]. split; [rewrite matchRoutes_spec|intros more].
  - do 2 (apply exist_proper; intros ?). rewrite Forall_forall. unfold selects.
    rewrite andb_true_iff, bool_decide_eq_true. setoid_rewrite andb_false_iff. setoid_rewrite bool_decide_eq_false.
    split; intros (? & ? & Hb & ?); split_and!; try tauto; intros r Hr.
    + intros ?. by destruct (Hb r Hr).
    + destruct (decide (RouteHost r = hostOf req)); [right; by apply Hb|by left].
  - rewrite !matchRoutes_spec. intros (before & after & -> & H). exists before, (after ++ more). by rewrite <- app_assoc.
Qed.
