(* ===== verification/Rolling.v ===== *)
(** * Request counts of the last seconds (internal/obs/rolling.go)

    A ring of one bucket per second.  The rollout gates read it.  [now] is
    [time.Now().Unix()]. *)
From S2P Require Import Prelude.
From S2P Require Import GoFloat.

(** [time.Duration.Seconds]. *)
Definition duration_Seconds (d : Duration) : float64 :=
  f64_add (f64_of_Z (Z.quot d Second)) (f64_div (f64_of_Z (Z.rem d Second)) (f64_of_Z 1000000000)).

Record rollingBucket := mkBucket { second : Z; total : Z; errors : Z }.
Record rollingCounter := mkRolling { buckets : list rollingBucket; window : Duration }.
#[export] Instance rollingCounter_eta : Eta rollingCounter := fun r => mkRolling (buckets r) (window r).

Definition newRollingCounter (w : Duration) : rollingCounter :=
  let w := if w <=? 0 then 10 * Second else w in
  let size := f64_to_int (duration_Seconds w) in
  let size := if size <? 1 then 1 else size in
  mkRolling (replicate (Z.to_nat size) (mkBucket 0 0 0)) w.

(** One request in the bucket of its second. *)
Definition recordIn (now status : Z) (b : rollingBucket) : rollingBucket :=
  let b := if second b =? now then b else mkBucket now 0 0 in
  mkBucket (second b) (total b + 1) (if 500 <=? status then errors b + 1 else errors b).
Definition Record_ (now status : Z) (r : rollingCounter) : rollingCounter :=
  let index := Z.rem now (len (buckets r)) in
  r <| buckets ::= alter (recordIn now status) (Z.to_nat index) |>.

Definition maxAgeOf (w : Duration) (r : rollingCounter) : Z :=
  let w := if w <=? 0 then window r else w in
  let maxAge := f64_to_int (duration_Seconds w) in
  if maxAge <? 1 then 1 else maxAge.
Definition countBucket (now maxAge : Z) (acc : Z * Z) (b : rollingBucket) : Z * Z :=
  if second b =? 0 then acc
  else if now - second b <? maxAge then (acc.1 + total b, acc.2 + errors b) else acc.
Definition Counts (now : Z) (w : Duration) (r : rollingCounter) : Z * Z :=
  foldl (countBucket now (maxAgeOf w r)) (0, 0) (buckets r).

(** ** The requests of the window, from the history *)

(** How many of the requests, given by second and status, satisfy [p]. *)
Definition tally (p : Z * Z → bool) (h : list (Z * Z)) : Z := len (List.filter p h).
Definition failed (x : Z * Z) : bool := 500 <=? x.2.
Definition within (now age : Z) (x : Z * Z) : bool := now - x.1 <? age.
(** In the order of time, from second 1 on. *)
Definition chronological (h : list (Z * Z)) : Prop := StronglySorted (λ a b, b.1 ≤ a.1) h ∧ Forall (λ x, 0 < x.1) h.

(** The history is the list of requests, the last one first. *)
Definition replay (h : list (Z * Z)) (r : rollingCounter) : rollingCounter := foldr (λ x r, Record_ x.1 x.2 r) r h.

(** What the bucket at [i] of [n] holds: the requests of the last second that
    falls on it. *)
Definition slot (n i : nat) (h : list (Z * Z)) : list (Z * Z) := List.filter (λ x, x.1 mod Z.of_nat n =? Z.of_nat i) h.
Definition slotBucket (n i : nat) (h : list (Z * Z)) : rollingBucket :=
  match slot n i h with
  | [] => mkBucket 0 0 0
  | (s, _) :: _ => mkBucket s (tally (λ x, x.1 =? s) h) (tally (λ x, (x.1 =? s) && failed x) h)
  end.

Lemma tally_cons p x h : tally p (x :: h) = (if p x then 1 else 0) + tally p h.
Proof. unfold tally. simpl. destruct (p x); [rewrite len_cons|]; lia. Qed.
Lemma tally_none p h : (∀ x, x ∈ h → p x = false) → tally p h = 0.
Proof.
  induction h as [|x h IH]; intros H; [done|]. rewrite tally_cons, IH, H; [done|left|]. intros y Hy. apply H. by right.
Qed.
Lemma tally_ext p q h : (∀ x, x ∈ h → p x = q x) → tally p h = tally q h.
Proof.
  induction h as [|x h IH]; intros H; [done|]. rewrite !tally_cons, (H x), IH; [done| |left]. intros y Hy. apply H. by right.
Qed.

Lemma slot_cons n i x h : slot n i (x :: h) = if x.1 mod Z.of_nat n =? Z.of_nat i then x :: slot n i h else slot n i h.
Proof. done. Qed.
Lemma slot_elem n i x h : x ∈ slot n i h ↔ x ∈ h ∧ x.1 mod Z.of_nat n = Z.of_nat i.
Proof. unfold slot. rewrite !list_elem_of_In, filter_In, Z.eqb_eq. done. Qed.

Lemma slot_head n i h s st l : chronological h → slot n i h = (s, st) :: l → ∀ x, x ∈ slot n i h → x.1 ≤ s.
Proof.
  induction h as [|y h IH]; [done|]. intros [Hc Hp] E x Hx. apply StronglySorted_inv in Hc as [Hc Hall].
  rewrite slot_cons in E, Hx. destruct (y.1 mod _ =? _).
  - injection E as -> _. apply elem_of_cons in Hx as [->|Hx]; [done|]. apply slot_elem in Hx as [Hx _].
    by eapply Forall_forall in Hall.
  - apply IH; [|done..]. split; [done|]. by apply Forall_cons in Hp as [_ Hp].
Qed.
Lemma chronological_tail x h : chronological (x :: h) → chronological h ∧ 0 < x.1 ∧ ∀ y, y ∈ h → y.1 ≤ x.1.
Proof.
  intros [Hc Hp]. apply StronglySorted_inv in Hc as [Hc Hall]. apply Forall_cons in Hp as [Hs Hp].
  split_and!; [done|done|]. by apply Forall_forall.
Qed.

(** A request goes to its slot and leaves the others alone. *)
Lemma slotBucket_same n i s st h :
  chronological ((s, st) :: h) → s mod Z.of_nat n = Z.of_nat i →
  slotBucket n i ((s, st) :: h) = recordIn s st (slotBucket n i h).
Proof.
  intros (Hc & Hs0 & Hall)%chronological_tail Hs. simpl in Hs0, Hall.
  assert ((∀ x, x ∈ h → x.1 ≠ s) ∨ ∃ st' l, slot n i h = (s, st') :: l) as Hcase.
  { destruct (slot n i h) as [|[s' st'] l] eqn:E.
    - left. intros x Hx <-. assert (x ∈ slot n i h) as Hin by (by apply slot_elem). rewrite E in Hin. by apply elem_of_nil in Hin.
    - destruct (decide (s' = s)) as [->|Hne]; [right; by do 2 eexists|]. left. intros x Hx <-.
      assert (x ∈ slot n i h) as Hin by (by apply slot_elem). apply (slot_head _ _ _ _ _ _ Hc E) in Hin.
      assert ((s', st') ∈ slot n i h) as [Hin' _]%slot_elem by (rewrite E; left). apply Hall in Hin'. simpl in *. lia. }
  unfold slotBucket at 1. rewrite slot_cons. simpl. rewrite Hs, Z.eqb_refl, !tally_cons. unfold failed at 1. simpl. rewrite Z.eqb_refl.
  unfold recordIn. destruct Hcase as [Hno|(st' & l & E)].
  - assert (second (slotBucket n i h) =? s = false) as ->.
    { apply Z.eqb_neq. unfold slotBucket. destruct (slot n i h) as [|[s' st'] l] eqn:E; simpl; [lia|].
      assert ((s', st') ∈ slot n i h) as [Hin _]%slot_elem by (rewrite E; left). by apply Hno in Hin. }
    simpl. rewrite !(tally_none _ h); [by destruct (500 <=? st)|..]; intros x Hx; by rewrite (proj2 (Z.eqb_neq _ _) (Hno x Hx)).
  - unfold slotBucket. rewrite E. simpl. rewrite Z.eqb_refl. simpl. f_equal; [lia|]. destruct (500 <=? st); lia.
Qed.
Lemma slotBucket_other n i s st h :
  s mod Z.of_nat n ≠ Z.of_nat i → chronological ((s, st) :: h) → slotBucket n i ((s, st) :: h) = slotBucket n i h.
Proof.
  intros Hs _. unfold slotBucket. rewrite slot_cons. simpl. rewrite (proj2 (Z.eqb_neq _ _) Hs).
  destruct (slot n i h) as [|[s' st'] l] eqn:E; [done|].
  assert ((s', st') ∈ slot n i h) as [_ Hin]%slot_elem by (rewrite E; left). simpl in Hin.
  rewrite !tally_cons. simpl. destruct (Z.eqb_spec s s') as [->|]; [done|]. done.
Qed.

(** The ring after a history. *)
Lemma replay_buckets n w h :
  (0 < n)%nat → chronological h →
  replay h (mkRolling (replicate n (mkBucket 0 0 0)) w) = mkRolling ((λ i, slotBucket n i h) <$> seq 0 n) w.
Proof.
  intros Hn. induction h as [|[s st] h IH]; intros Hc.
  - unfold replay. simpl. f_equal. apply list_eq. intros i. rewrite list_lookup_fmap. destruct (decide (i < n)%nat).
    + rewrite lookup_replicate_2 by done. by rewrite lookup_seq_lt.
    + rewrite lookup_ge_None_2 by (rewrite length_replicate; lia). by rewrite lookup_ge_None_2 by (rewrite length_seq; lia).
  - pose proof (chronological_tail _ _ Hc) as (Hc' & Hs0 & _). simpl in Hs0. specialize (IH Hc').
    change (replay ((s, st) :: h) ?r) with (Record_ s st (replay h r)). rewrite IH. unfold Record_. simpl. f_equal.
    assert (len ((λ i, slotBucket n i h) <$> seq 0 n) = Z.of_nat n) as -> by (unfold len; by rewrite length_fmap, length_seq).
    rewrite Z.rem_mod_nonneg by lia. pose proof (Z.mod_pos_bound s (Z.of_nat n) ltac:(lia)) as Hb.
    apply list_eq. intros i. rewrite list_lookup_fmap. destruct (decide (i < n)%nat); cycle 1.
    { rewrite lookup_ge_None_2 by (rewrite length_alter, length_fmap, length_seq; lia).
      by rewrite lookup_ge_None_2 by (rewrite length_seq; lia). }
    rewrite lookup_seq_lt by done. simpl. destruct (decide (i = Z.to_nat (s mod Z.of_nat n))) as [E|E].
    + rewrite <- E, list_lookup_alter_eq, list_lookup_fmap, lookup_seq_lt by done. simpl. f_equal. rewrite slotBucket_same; [done..|lia].
    + rewrite list_lookup_alter_ne, list_lookup_fmap, lookup_seq_lt by done. simpl. by rewrite slotBucket_other by (lia || done).
Qed.

(** ** Counting *)

Lemma tally_mono p q h : (∀ x, x ∈ h → p x = true → q x = true) → tally p h ≤ tally q h.
Proof.
  induction h as [|x h IH]; intros H; [done|]. rewrite !tally_cons.
  assert (tally p h ≤ tally q h) by (apply IH; intros y Hy; apply H; by right).
  pose proof (H x ltac:(left)) as Hx. destruct (p x); [rewrite Hx by done; lia|]. destruct (q x); lia.
Qed.

Definition sumZ (f : nat → Z) (l : list nat) : Z := foldr (λ i acc, f i + acc) 0 l.
Lemma sumZ_mono f g l : (∀ i, i ∈ l → f i ≤ g i) → sumZ f l ≤ sumZ g l.
Proof. induction l as [|i l IH]; intros H; simpl; [done|]. pose proof (H i ltac:(left)). assert (sumZ f l ≤ sumZ g l) by (apply IH; intros; apply H; by right). lia. Qed.
Lemma sumZ_add f g l : sumZ (λ i, f i + g i) l = sumZ f l + sumZ g l.
Proof. induction l; simpl; lia. Qed.
Lemma sumZ_indicator (b : bool) k l : NoDup l → sumZ (λ i, if bool_decide (i = k) && b then 1 else 0) l = if bool_decide (k ∈ l) && b then 1 else 0.
Proof.
  induction 1 as [|i l Hi _ IH]; simpl; [done|]. rewrite IH. destruct (decide (i = k)) as [->|Hne].
  - rewrite (bool_decide_true (k = k)), (bool_decide_true (k ∈ k :: l)), (bool_decide_false (k ∈ l)); [by destruct b|done|left|done].
  - rewrite (bool_decide_false (i = k)) by done. simpl. destruct (decide (k ∈ l)).
    + rewrite (bool_decide_true (k ∈ l)), (bool_decide_true (k ∈ i :: l)); [done|by right|done].
    + rewrite (bool_decide_false (k ∈ l)), (bool_decide_false (k ∈ i :: l)); [done| |done]. by intros [->|]%elem_of_cons.
Qed.

(** Every request falls on one slot. *)
Lemma tally_slots n q h : (0 < n)%nat → sumZ (λ i, tally (λ x, (x.1 mod Z.of_nat n =? Z.of_nat i) && q x) h) (seq 0 n) = tally q h.
Proof.
  intros Hn. induction h as [|x h IH].
  - generalize (seq 0 n). induction l as [|i l IHl]; simpl; [done|]. by rewrite IHl.
  - rewrite tally_cons, <- IH.
    pose proof (Z.mod_pos_bound x.1 (Z.of_nat n) ltac:(lia)) as Hb.
    pose proof (sumZ_indicator (q x) (Z.to_nat (x.1 mod Z.of_nat n)) (seq 0 n) (NoDup_seq 0 n)) as Hi.
    rewrite (bool_decide_true (_ ∈ seq 0 n)) in Hi by (apply elem_of_seq; lia). simpl in Hi. rewrite <- Hi, <- sumZ_add.
    generalize (seq 0 n). induction l as [|i l IHl]; simpl; [done|]. rewrite IHl, tally_cons. f_equal. f_equal.
    assert ((x.1 mod Z.of_nat n =? Z.of_nat i) = bool_decide (i = Z.to_nat (x.1 mod Z.of_nat n))) as ->; [|done].
    destruct (Z.eqb_spec (x.1 mod Z.of_nat n) (Z.of_nat i)); [rewrite bool_decide_true|rewrite bool_decide_false]; (done || lia).
Qed.

(** What a bucket adds to the counts: [p] selects the requests that are
    looked for, all of them or the failed ones. *)
Definition contribution (p : Z * Z → bool) (n i : nat) (now age : Z) (h : list (Z * Z)) : Z :=
  match slot n i h with [] => 0 | (s, _) :: _ => if now - s <? age then tally (λ x, (x.1 =? s) && p x) h else 0 end.

Lemma contribution_bounds p n i now age h :
  (0 < n)%nat → chronological h → Forall (λ x, x.1 ≤ now) h →
  tally (λ x, (x.1 mod Z.of_nat n =? Z.of_nat i) && (within now (Z.min age (Z.of_nat n)) x && p x)) h ≤ contribution p n i now age h ∧
  contribution p n i now age h ≤ tally (λ x, (x.1 mod Z.of_nat n =? Z.of_nat i) && (within now age x && p x)) h.
Proof.
  intros Hn Hc Hnow. unfold contribution, within. destruct (slot n i h) as [|[s st] l] eqn:E.
  - rewrite !tally_none; [lia|..]; intros x Hx; (destruct (Z.eqb_spec (x.1 mod Z.of_nat n) (Z.of_nat i)) as [Hi|]; [|done]);
      exfalso; assert (x ∈ slot n i h) as Hin by (by apply slot_elem); rewrite E in Hin; by apply elem_of_nil in Hin.
  - assert ((s, st) ∈ slot n i h) as [Hin Hsi]%slot_elem by (rewrite E; left). simpl in Hsi.
    pose proof (slot_head _ _ _ _ _ _ Hc E) as Hmax. rewrite Forall_forall in Hnow. pose proof (Hnow _ Hin) as Hsn. simpl in Hsn.
    assert (∀ x, x ∈ h → x.1 mod Z.of_nat n = Z.of_nat i → now - x.1 < Z.of_nat n → x.1 = s) as Heq.
    { intros x Hx Hxi Hage. assert (x.1 ≤ s) by (apply Hmax; by apply slot_elem). destruct x as [a b]. simpl in *.
      pose proof (Z.div_mod a (Z.of_nat n) ltac:(lia)). pose proof (Z.div_mod s (Z.of_nat n) ltac:(lia)).
      assert (s / Z.of_nat n - a / Z.of_nat n = 0) by nia. nia. }
    destruct (Z.ltb_spec (now - s) age).
    + split; apply tally_mono; intros x Hx.
      * rewrite !andb_true_iff, Z.eqb_eq, Z.ltb_lt. intros (Hi & Ha & Hp). split; [|done]. apply Z.eqb_eq, Heq; [done..|lia].
      * rewrite !andb_true_iff, !Z.eqb_eq. intros [-> Hp]. split_and!; [done| |done]. by apply Z.ltb_lt.
    + split; [|apply len_nonneg]. rewrite tally_none; [done|]. intros x Hx.
      destruct (Z.eqb_spec (x.1 mod Z.of_nat n) (Z.of_nat i)) as [Hi|]; [|done]. simpl.
      assert (x.1 ≤ s) by (apply Hmax; by apply slot_elem). destruct (Z.ltb_spec (now - x.1) (Z.min age (Z.of_nat n))); [lia|done].
Qed.

Lemma Counts_contributions n w now age h r :
  chronological h → maxAgeOf w r = age → buckets r = (λ i, slotBucket n i h) <$> seq 0 n →
  Counts now w r = (sumZ (λ i, contribution (λ _, true) n i now age h) (seq 0 n), sumZ (λ i, contribution failed n i now age h) (seq 0 n)).
Proof.
  intros Hc Ha Hb. unfold Counts. rewrite Hb, Ha. clear Hb Ha.
  assert (∀ l acc, foldl (countBucket now age) acc ((λ i, slotBucket n i h) <$> l) =
    (acc.1 + sumZ (λ i, contribution (λ _, true) n i now age h) l, acc.2 + sumZ (λ i, contribution failed n i now age h) l)) as Hf;
    [|by rewrite Hf].
  induction l as [|i l IH]; intros [a b]; simpl; [by rewrite !Z.add_0_r|]. rewrite IH. unfold countBucket, slotBucket, contribution.
  destruct (slot n i h) as [|[s st] k] eqn:E; simpl; [done|].
  assert ((s, st) ∈ slot n i h) as [Hin _]%slot_elem by (rewrite E; left).
  destruct Hc as [_ Hpos]. rewrite Forall_forall in Hpos. apply Hpos in Hin. simpl in Hin.
  destruct (Z.eqb_spec s 0); [lia|]. destruct (now - s <? age); simpl; [|done]. f_equal; [|lia].
  rewrite (tally_ext (λ x, (x.1 =? s) && true) (λ x, x.1 =? s)); [lia|]. intros. apply andb_true_r.
Qed.

Lemma newRollingCounter_shape W :
  ∃ n, (0 < n)%nat ∧ length (buckets (newRollingCounter W)) = n ∧
       newRollingCounter W = mkRolling (replicate n (mkBucket 0 0 0)) (window (newRollingCounter W)).
Proof.
  unfold newRollingCounter. simpl. set (size := f64_to_int _). destruct (Z.ltb_spec size 1).
  - exists 1%nat. split_and!; [lia|done..].
  - exists (Z.to_nat size). split_and!; [lia| |done]. by rewrite length_replicate.
Qed.

(** C30. The rolling counter is exact: with requests recorded in the order of
    time, it counts the requests, and the failed ones, of the seconds of the
    window, as long as the window is not longer than the ring; for a longer
    window the counts lie between those of the ring's length and those of
    the window. *)
Theorem rolling_counts_window W h w now :
  let n := len (buckets (newRollingCounter W)) in
  let r := replay h (newRollingCounter W) in
  let age := maxAgeOf w r in
  chronological h → Forall (λ x, x.1 ≤ now) h →
  (tally (within now (Z.min age n)) h ≤ (Counts now w r).1 ≤ tally (within now age) h) ∧
  (tally (λ x, within now (Z.min age n) x && failed x) h ≤ (Counts now w r).2 ≤ tally (λ x, within now age x && failed x) h) ∧
  (age ≤ n → Counts now w r = (tally (within now age) h, tally (λ x, within now age x && failed x) h)).
Proof.
  intros n r age Hc Hnow. destruct (newRollingCounter_shape W) as (k & Hk & Hlen & Hshape).
  assert (n = Z.of_nat k) as En by (unfold n, len; by rewrite Hlen).
  assert (buckets r = (λ i, slotBucket k i h) <$> seq 0 k) as Hb by (unfold r; rewrite Hshape, replay_buckets by done; done).
  rewrite (Counts_contributions k w now age h r Hc eq_refl Hb). simpl.
  assert (∀ p, tally (λ x, within now (Z.min age n) x && p x) h ≤ sumZ (λ i, contribution p k i now age h) (seq 0 k) ≤
               tally (λ x, within now age x && p x) h) as H.
  { intros p. rewrite En. rewrite <- !(tally_slots k _ h Hk). split; apply sumZ_mono; intros i _; by apply contribution_bounds. }
  assert (∀ age', tally (λ x, within now age' x && true) h = tally (within now age') h) as Ht
    by (intros; apply tally_ext; intros; apply andb_true_r).
  pose proof (H (λ _, true)) as H1. pose proof (H failed) as H2. simpl in H1. rewrite !Ht in H1. split_and!; [lia..|].
  intros Hage. rewrite Z.min_l in H1, H2 by lia. f_equal; lia.
Qed.

(** The counter of the metrics: ten buckets, asked for ten seconds. *)
Lemma rolling_counts_window_witness :
  Counts 20 (10 * Second) (replay [(20, 200); (12, 503); (12, 200); (3, 500)] (newRollingCounter (10 * Second))) = (3, 1).
Proof.
  refine (proj2 (proj2 (rolling_counts_window (10 * Second) [(20, 200); (12, 503); (12, 200); (3, 500)] (10 * Second) 20 _ _)) _).
  - split; repeat (constructor; simpl; try lia).
  - repeat (constructor; simpl; try lia).
  - apply Z.leb_le. vm_compute. reflexivity.
Defined.

(** A longer window is cut off: of two requests ten seconds apart only the
    later one is left in the slot they share. *)
Example rolling_long_window :
  Counts 20 (60 * Second) (replay [(18, 200); (8, 500)] (newRollingCounter (10 * Second))) = (1, 0).
Proof. vm_compute. reflexivity. Qed.
