(* ===== verification/TopK.v ===== *)
(** * The labels metrics may use (internal/obs/topk.go)

    Routes and pools are counted; only the [K] busiest keep their own label,
    the others are reported as "other".  The background loop is the operation
    [recompute].  Go sorts with [sort.Slice]; the keys are distinct, so the
    order is total and any sort gives the same result. *)
From S2P Require Import Prelude.

Definition defaultRouteTopK : Z := 200.
Definition defaultPoolTopK : Z := 200.
Definition defaultRecomputeInterval : Duration := 10 * Second.

Record TopK := mkTopK {
  routeCounts : gmap string Z;
  poolCounts : gmap string Z;
  routeTop : gset string;
  poolTop : gset string;
  routeK : Z;
  poolK : Z;
  interval : Duration;
  lastRecompute : Time
}.
#[export] Instance TopK_eta : Eta TopK := fun t =>
  mkTopK (routeCounts t) (poolCounts t) (routeTop t) (poolTop t) (routeK t) (poolK t) (interval t) (lastRecompute t).

Definition NewTopK (rk pk : Z) (every : Duration) : TopK :=
  mkTopK ∅ ∅ ∅ ∅ (or_default rk defaultRouteTopK) (or_default pk defaultPoolTopK) (or_default every defaultRecomputeInterval) zeroTime.

(** ** buildTop *)

(** [a] comes before [b] or is [b]: more hits first, then the smaller key. *)
Definition ranks (a b : string * Z) : Prop := b.2 < a.2 ∨ (a.2 = b.2 ∧ String.le a.1 b.1).
#[export] Instance ranks_dec a b : Decision (ranks a b).
Proof. unfold ranks. apply _. Defined.

Definition buildTop (counts : gmap string Z) (limit : Z) : gset string :=
  let items := merge_sort ranks (map_to_list counts) in
  let limit := if len items <? limit then len items else limit in
  list_to_set (take (Z.to_nat limit) items).*1.

Definition recomputeLocked (t : TopK) : TopK :=
  t <| routeTop := buildTop (routeCounts t) (routeK t) |> <| poolTop := buildTop (poolCounts t) (poolK t) |>.
Definition recompute (now : Time) (t : TopK) : TopK := (recomputeLocked t) <| lastRecompute := now |>.

(** ** ObserveHit *)

Definition unnamed (key : string) : bool := bool_decide (key = "" ∨ key = "none").
Definition count (key : string) (counts : gmap string Z) : gmap string Z :=
  <[key := i64 (default 0 (counts !! key) + 1)]> counts.
Definition admitKey (key : string) (k : Z) (top : gset string) : gset string :=
  if Z.of_nat (size top) <? k then {[key]} ∪ top else top.

Definition hitRoute (key : string) (t : TopK) : TopK :=
  if unnamed key then t else t <| routeCounts ::= count key |> <| routeTop ::= admitKey key (routeK t) |>.
Definition hitPool (key : string) (t : TopK) : TopK :=
  if unnamed key then t else t <| poolCounts ::= count key |> <| poolTop ::= admitKey key (poolK t) |>.
Definition ObserveHit (now : Time) (routeID poolKey : string) (t : TopK) : TopK :=
  let t := hitPool poolKey (hitRoute routeID t) in
  if interval t <=? time_Sub now (lastRecompute t) then recompute now t else t.

(** ** The labels *)

Definition canon (value : string) (top : gset string) : string := if decide (value ∈ top) then value else "other".
Definition CanonRoute (routeID : string) (t : TopK) : string := if unnamed routeID then "none" else canon routeID (routeTop t).
Definition CanonPool (poolKey : string) (t : TopK) : string := if unnamed poolKey then "none" else canon poolKey (poolTop t).

(** ** The order *)

#[export] Instance ranks_total : Total ranks.
Proof. intros a b. unfold ranks. destruct (total String.le a.1 b.1), (Z.lt_trichotomy a.2 b.2) as [|[]]; auto. Qed.
#[export] Instance ranks_trans : Transitive ranks.
Proof.
  intros a b c [H1|[H1 H1']] [H2|[H2 H2']]; [left; lia..|]. right. split; [lia|]. by etrans.
Qed.

(** A sorted list of keys and counts is cut so that what is kept ranks before
    what is not. *)
Lemma take_ranks n (l : list (string * Z)) a b :
  StronglySorted ranks l → a ∈ take n l → b ∈ drop n l → ranks a b.
Proof.
  revert n. induction l as [|x l IH]; intros [|n] Hs Ha Hb; simpl in *; [by apply elem_of_nil in Ha..|].
  apply StronglySorted_inv in Hs as [Hs Hx]. apply elem_of_cons in Ha as [->|Ha]; [|by eapply IH].
  rewrite Forall_forall in Hx. apply Hx. apply (elem_of_subseteq (drop n l) l); [|done]. by apply subseteq_drop.
Qed.

Section BuildTop.
Context (counts : gmap string Z) (limit : Z).
Abbreviation items := (merge_sort ranks (map_to_list counts)).

Lemma items_perm : items ≡ₚ map_to_list counts.
Proof. apply merge_sort_Permutation. Qed.
Lemma items_NoDup : NoDup items.*1.
Proof. rewrite items_perm. apply NoDup_fst_map_to_list. Qed.

Lemma buildTop_take : 0 ≤ limit → buildTop counts limit = list_to_set (take (Z.to_nat limit) items).*1.
Proof.
  intros Hl. unfold buildTop. destruct (Z.ltb_spec (len items) limit) as [H|H]; [|done]. unfold len in H |- *.
  rewrite !take_ge by lia. done.
Qed.
Lemma buildTop_size : 0 ≤ limit → Z.of_nat (size (buildTop counts limit)) = Z.min limit (Z.of_nat (size counts)).
Proof.
  intros Hl. rewrite buildTop_take by done. rewrite size_list_to_set.
  - rewrite length_fmap, length_take, items_perm, length_map_to_list. lia.
  - rewrite fmap_take. pose proof items_NoDup as Hnd. rewrite <- (take_drop (Z.to_nat limit) items.*1) in Hnd. by apply NoDup_app in Hnd as [? _].
Qed.
(** The kept keys rank before the others. *)
Lemma buildTop_best k n k' n' :
  0 ≤ limit → k ∈ buildTop counts limit → counts !! k = Some n → k' ∉ buildTop counts limit → counts !! k' = Some n' →
  ranks (k, n) (k', n').
Proof.
  intros Hl. rewrite buildTop_take by done. rewrite !elem_of_list_to_set. intros Hk Hn Hk' Hn'.
  apply (take_ranks (Z.to_nat limit) items); [apply (StronglySorted_merge_sort ranks)|..].
  - apply list_elem_of_fmap in Hk as ([x m] & E & Hx). simpl in E. subst x. assert ((k, m) ∈ items) as Hin.
    { by apply (elem_of_subseteq (take (Z.to_nat limit) items) items); [apply subseteq_take|]. }
    rewrite items_perm, elem_of_map_to_list in Hin. congruence.
  - assert ((k', n') ∈ items) as Hin by (by rewrite items_perm, elem_of_map_to_list).
    rewrite <- (take_drop (Z.to_nat limit) items) in Hin. apply elem_of_app in Hin as [Hin|Hin]; [|done].
    exfalso. apply Hk'. apply list_elem_of_fmap. by exists (k', n').
Qed.
Lemma buildTop_counted k : k ∈ buildTop counts limit → is_Some (counts !! k).
Proof.
  unfold buildTop. rewrite elem_of_list_to_set. intros ([x m] & E & Hx)%list_elem_of_fmap. simpl in E. subst x. exists m.
  rewrite <- elem_of_map_to_list, <- items_perm. by eapply (elem_of_subseteq (take _ items) items); [apply subseteq_take|].
Qed.
End BuildTop.

(** ** What the labels can be *)

(** The operations, one event each. *)
Inductive event := EHit (now : Time) (routeID poolKey : string) | ERecompute (now : Time).
Definition step (t : TopK) (e : event) : TopK :=
  match e with EHit now r p => ObserveHit now r p t | ERecompute now => recompute now t end.

Definition bounded (t : TopK) : Prop :=
  0 < routeK t ∧ 0 < poolK t ∧ Z.of_nat (size (routeTop t)) ≤ routeK t ∧ Z.of_nat (size (poolTop t)) ≤ poolK t.
Lemma admitKey_bounded key k top : Z.of_nat (size top) ≤ k → Z.of_nat (size (admitKey key k top)) ≤ k.
Proof.
  unfold admitKey. destruct (Z.ltb_spec (Z.of_nat (size top)) k); [|done]. intros _.
  destruct (decide (key ∈ top)); [assert ({[key]} ∪ top = top) as -> by set_solver; lia|].
  rewrite size_union by set_solver. rewrite size_singleton. lia.
Qed.
Lemma recompute_bounded now t : bounded t → bounded (recompute now t).
Proof. intros (H1 & H2 & H3 & H4). split_and!; [done..| |]; simpl; rewrite buildTop_size; lia. Qed.
Lemma hit_bounded r p t : bounded t → bounded (hitPool p (hitRoute r t)).
Proof.
  intros (H1 & H2 & H3 & H4). unfold hitPool, hitRoute.
  destruct (unnamed r), (unnamed p); split_and!; simpl; try done; by apply admitKey_bounded.
Qed.
Lemma step_bounded t e : bounded t → bounded (step t e).
Proof.
  intros H. destruct e as [now r p|now]; simpl; [|by apply recompute_bounded]. unfold ObserveHit.
  pose proof (hit_bounded r p t H). destruct (_ <=? _); [by apply recompute_bounded|done].
Qed.

(** Labels stay bounded and go to the busiest: at any time at most [K]
    routes (and pools) have their own label, every other one is "other" or
    "none"; and after a recomputation a route that has no label of its own
    has no more hits than any route that has one. *)
Theorem topk_labels rk pk every es now :
  let t := foldl step (NewTopK rk pk every) es in
  (∀ r, CanonRoute r t ∈ (routeTop t ∪ {["other"; "none"]} : gset string)) ∧ Z.of_nat (size (routeTop t)) ≤ or_default rk 200 ∧
  (∀ p, CanonPool p t ∈ (poolTop t ∪ {["other"; "none"]} : gset string)) ∧ Z.of_nat (size (poolTop t)) ≤ or_default pk 200 ∧
  let t' := recompute now t in
  ∀ r r' n n', unnamed r = false → unnamed r' = false → routeCounts t' !! r = Some n → routeCounts t' !! r' = Some n' →
    r ∈ routeTop t' → CanonRoute r' t' ≠ r' → n' ≤ n.
Proof.
  intros t.
  assert (bounded t ∧ routeK t = or_default rk 200 ∧ poolK t = or_default pk 200) as ((H1 & H2 & H3 & H4) & E1 & E2).
  { unfold t. rewrite <- (rev_involutive es). generalize (rev es) as l. induction l as [|e l (IH & E1 & E2)]; simpl.
    - split_and!; [|done..]. split_and!; simpl; [by apply or_default_pos..| |]; apply Z.lt_le_incl, or_default_pos; done.
    - rewrite foldl_app. simpl. split; [by apply step_bounded|]. rewrite <- E1, <- E2. destruct e as [w r p|w]; [|done].
      simpl. unfold ObserveHit, hitPool, hitRoute. by destruct (unnamed r), (unnamed p); simpl; case_match. }
  split_and!; [|by rewrite <- E1| |by rewrite <- E2|].
  - intros r. unfold CanonRoute, canon. destruct (unnamed r); [set_solver|]. case_decide; set_solver.
  - intros p. unfold CanonPool, canon. destruct (unnamed p); [set_solver|]. case_decide; set_solver.
  - intros t' r r' n n' Hr Hr' Hn Hn' Hin Hout. assert (r' ∉ routeTop t') as Hnot.
    { unfold CanonRoute, canon in Hout. rewrite Hr' in Hout. by case_decide. }
    destruct (buildTop_best (routeCounts t) (routeK t) r n r' n') as [H|[H _]]; [lia|done..| |]; simpl in H; lia.
Qed.

Lemma topk_labels_witness :
  let t := foldl step (NewTopK 1 1 0) [EHit 0 "a" "p"; EHit 1 "b" "p"; EHit 2 "b" "p"] in
  CanonRoute "a" (recompute 3 t) = "other" ∧ CanonRoute "b" (recompute 3 t) = "b" ∧ 1 ≤ 2.
Proof.
  intros t. split; [vm_compute; reflexivity|]. split; [vm_compute; reflexivity|].
  refine (proj2 (proj2 (proj2 (proj2 (topk_labels 1 1 0 [EHit 0 "a" "p"; EHit 1 "b" "p"; EHit 2 "b" "p"] 3)))) "b" "a" 2 1 _ _ _ _ _ _);
    vm_compute; (reflexivity || discriminate).
Defined.
