(* ===== verification/Metrics.v ===== *)
(** * Metrics (internal/obs/metrics.go)

    The Prometheus client is a library: the model keeps the list of calls the
    proxy makes to it ([calls], the last one first), each with its metric and
    label values, and says nothing about what the client does with them.
    What the proxy itself keeps is modelled: the busiest labels ([TopK]), the
    rolling window of requests ([Rolling]) and the last snapshot reported.

    Every operation but [SetSnapshotInfo] recovers from panics; a panic could
    only come from the client. *)
From S2P Require Import Prelude.
From S2P Require Import GoStrings.
From S2P Require Import GoFloat.
From S2P Require Import Rolling.
From S2P Require Import TopK.

(** ** The metrics that are registered, with their label names *)

Inductive metric :=
| requests
| upstreamErrors
| proxyErrors
| retries
| retryBudgetExhausted
| configApply
| configApplyDuration
| configConflicts
| circuitOpen
| outlierEjections
| outlierFailOpen
| mtlsReject
| cacheRequests
| cacheCoalesceBreakaway
| cacheStoreFail
| variantRequests
| variantErrors
| overloadRejects
| pluginCalls
| pluginBypass
| pluginShortCircuit
| pluginFailClosed
| requestDuration
| upstreamRoundTrip
| snapshotInfo
| breakerOpen
| bundleVerify
| rolloutStage
| rollbackTotal.
Definition metricName (x : metric) : string :=
  match x with
  | requests => "proxy_requests_total"
  | upstreamErrors => "proxy_upstream_errors_total"
  | proxyErrors => "proxy_proxy_errors_total"
  | retries => "proxy_retries_total"
  | retryBudgetExhausted => "proxy_retry_budget_exhausted_total"
  | configApply => "proxy_config_apply_total"
  | configApplyDuration => "proxy_config_apply_duration_seconds"
  | configConflicts => "proxy_config_conflict_total"
  | circuitOpen => "proxy_circuit_open_total"
  | outlierEjections => "proxy_outlier_ejections_total"
  | outlierFailOpen => "proxy_outlier_fail_open_total"
  | mtlsReject => "proxy_mtls_reject_total"
  | cacheRequests => "proxy_cache_requests_total"
  | cacheCoalesceBreakaway => "proxy_cache_coalesce_breakaway_total"
  | cacheStoreFail => "proxy_cache_store_fail_total"
  | variantRequests => "proxy_variant_requests_total"
  | variantErrors => "proxy_variant_errors_total"
  | overloadRejects => "proxy_overload_reject_total"
  | pluginCalls => "proxy_plugin_calls_total"
  | pluginBypass => "proxy_plugin_bypass_total"
  | pluginShortCircuit => "proxy_plugin_shortcircuit_total"
  | pluginFailClosed => "proxy_plugin_failclosed_total"
  | requestDuration => "proxy_request_duration_seconds"
  | upstreamRoundTrip => "proxy_upstream_roundtrip_seconds"
  | snapshotInfo => "proxy_active_snapshot_info"
  | breakerOpen => "proxy_breaker_open"
  | bundleVerify => "proxy_bundle_verify_total"
  | rolloutStage => "proxy_rollout_stage_total"
  | rollbackTotal => "proxy_rollback_total"
  end.
Definition labelNames (x : metric) : list string :=
  match x with
  | requests => ["route"; "status_class"]
  | upstreamErrors => ["pool"; "category"]
  | proxyErrors => ["route"; "category"]
  | retries => ["route"; "reason"]
  | retryBudgetExhausted => ["route"]
  | configApply => ["result"]
  | configApplyDuration => []
  | configConflicts => []
  | circuitOpen => ["pool"]
  | outlierEjections => ["pool"; "reason"]
  | outlierFailOpen => ["pool"]
  | mtlsReject => ["route"]
  | cacheRequests => ["route"; "status"]
  | cacheCoalesceBreakaway => ["route"]
  | cacheStoreFail => ["route"]
  | variantRequests => ["route"; "variant"]
  | variantErrors => ["route"; "variant"]
  | overloadRejects => ["route"]
  | pluginCalls => ["filter"; "phase"; "result"]
  | pluginBypass => ["filter"; "reason"]
  | pluginShortCircuit => ["filter"]
  | pluginFailClosed => ["filter"]
  | requestDuration => ["route"]
  | upstreamRoundTrip => ["pool"]
  | snapshotInfo => ["version"; "source"]
  | breakerOpen => ["pool"]
  | bundleVerify => ["result"]
  | rolloutStage => ["stage"; "result"]
  | rollbackTotal => ["result"]
  end.

(** A call to the client. *)
Inductive promCall :=
| Inc (x : metric) (labels : list string)
| Observe (x : metric) (labels : list string) (seconds : float64)
| SetGauge (x : metric) (labels : list string) (value : Z).
Definition callMetric (c : promCall) : metric := match c with Inc x _ | Observe x _ _ | SetGauge x _ _ => x end.
Definition callLabels (c : promCall) : list string := match c with Inc _ l | Observe _ l _ | SetGauge _ l _ => l end.

Record Metrics := mkMetrics {
  topk : TopK;
  requestWindow : rollingCounter;
  lastVersion : string;
  lastSource : string;
  calls : list promCall
}.
#[export] Instance Metrics_eta : Eta Metrics := fun m =>
  mkMetrics (topk m) (requestWindow m) (lastVersion m) (lastSource m) (calls m).

Record MetricsConfig := mkMetricsConfig { RouteTopK : Z; PoolTopK : Z; RecomputeInterval : Duration }.
Definition NewMetrics (cfg : MetricsConfig) : Metrics :=
  mkMetrics (NewTopK (RouteTopK cfg) (PoolTopK cfg) (RecomputeInterval cfg)) (newRollingCounter (10 * Second)) "" "" [].

Definition call (c : promCall) (m : Metrics) : Metrics := m <| calls ::= cons c |>.

Definition statusClass (status : Z) : string :=
  if status <=? 0 then "unknown" else (Itoa (Z.quot status 100) ++ "xx")%string.
Definition orElse (s d : string) : string := if decide (s = "") then d else s.

(** A hit of a route or of a pool alone, and the label it gets. *)
Definition routeHit (now : Time) (routeID : string) (m : Metrics) : Metrics * string :=
  let m := m <| topk ::= ObserveHit now routeID "" |> in (m, CanonRoute routeID (topk m)).
Definition poolHit (now : Time) (poolKey : string) (m : Metrics) : Metrics * string :=
  let m := m <| topk ::= ObserveHit now "" poolKey |> in (m, CanonPool poolKey (topk m)).

Section Operations.
(** The time of the call, and its Unix second. *)
Context (now : Time).
Definition unixSecond : Z := now / Second.

(** The counters and the window of one request under its label. *)
Definition countRequest (label : string) (status : Z) (duration : Duration) (m : Metrics) : Metrics :=
  let m := call (Inc requests [label; statusClass status]) m in
  let m := call (Observe requestDuration [label] (duration_Seconds duration)) m in
  m <| requestWindow ::= Record_ unixSecond status |>.
Definition ObserveRequest (routeID poolKey : string) (status : Z) (duration : Duration) (m : Metrics) : Metrics :=
  let m := m <| topk ::= ObserveHit now routeID poolKey |> in
  countRequest (CanonRoute routeID (topk m)) status duration m.
Definition Canonicalize (routeID poolKey : string) (m : Metrics) : Metrics * (string * string) :=
  let m := m <| topk ::= ObserveHit now routeID poolKey |> in
  (m, (CanonRoute routeID (topk m), CanonPool poolKey (topk m))).
Definition ObserveRequestCanonical (canonRoute : string) (status : Z) (duration : Duration) : Metrics → Metrics :=
  countRequest (orElse canonRoute "none") status duration.

Definition ObserveUpstreamRoundTrip (poolKey : string) (duration : Duration) (m : Metrics) : Metrics :=
  let '(m, label) := poolHit now poolKey m in call (Observe upstreamRoundTrip [label] (duration_Seconds duration)) m.
Definition RecordUpstreamError (poolKey category : string) (m : Metrics) : Metrics :=
  let '(m, label) := poolHit now poolKey m in call (Inc upstreamErrors [label; category]) m.
Definition RecordProxyError (routeID category : string) (m : Metrics) : Metrics :=
  call (Inc proxyErrors [CanonRoute routeID (topk m); category]) m.
Definition RecordProxyErrorCanonical (canonRoute category : string) : Metrics → Metrics :=
  call (Inc proxyErrors [orElse canonRoute "none"; category]).
Definition RecordRetry (routeID reason : string) (m : Metrics) : Metrics :=
  let '(m, label) := routeHit now routeID m in call (Inc retries [label; orElse reason "unknown"]) m.
Definition RecordRetryBudgetExhausted (routeID : string) (m : Metrics) : Metrics :=
  let '(m, label) := routeHit now routeID m in call (Inc retryBudgetExhausted [label]) m.
Definition RecordConfigApply (result : string) : Metrics → Metrics := call (Inc configApply [result]).
Definition RecordConfigApplyDuration (duration : Duration) : Metrics → Metrics :=
  call (Observe configApplyDuration [] (duration_Seconds duration)).
Definition RecordConfigConflict : Metrics → Metrics := call (Inc configConflicts []).
Definition RecordCircuitOpen (poolKey : string) (m : Metrics) : Metrics :=
  let '(m, label) := poolHit now poolKey m in call (Inc circuitOpen [label]) m.
Definition RecordOutlierEjection (poolKey reason : string) (m : Metrics) : Metrics :=
  let '(m, label) := poolHit now poolKey m in call (Inc outlierEjections [label; orElse reason "unknown"]) m.
Definition RecordOutlierFailOpen (poolKey : string) (m : Metrics) : Metrics :=
  let '(m, label) := poolHit now poolKey m in call (Inc outlierFailOpen [label]) m.
Definition RecordMTLSReject (routeID : string) (m : Metrics) : Metrics := call (Inc mtlsReject [CanonRoute routeID (topk m)]) m.
Definition RecordMTLSRejectCanonical (canonRoute : string) : Metrics → Metrics := call (Inc mtlsReject [orElse canonRoute "none"]).
Definition RecordCacheRequest (routeID status : string) (m : Metrics) : Metrics :=
  let '(m, label) := routeHit now routeID m in call (Inc cacheRequests [label; orElse status "unknown"]) m.
Definition RecordCacheRequestCanonical (canonRoute status : string) : Metrics → Metrics :=
  call (Inc cacheRequests [orElse canonRoute "none"; orElse status "unknown"]).
Definition RecordCacheCoalesceBreakaway (routeID : string) (m : Metrics) : Metrics :=
  let '(m, label) := routeHit now routeID m in call (Inc cacheCoalesceBreakaway [label]) m.
Definition RecordCacheCoalesceBreakawayCanonical (canonRoute : string) : Metrics → Metrics :=
  call (Inc cacheCoalesceBreakaway [orElse canonRoute "none"]).
Definition RecordCacheStoreFail (routeID : string) (m : Metrics) : Metrics :=
  let '(m, label) := routeHit now routeID m in call (Inc cacheStoreFail [label]) m.
Definition RecordCacheStoreFailCanonical (canonRoute : string) : Metrics → Metrics :=
  call (Inc cacheStoreFail [orElse canonRoute "none"]).
Definition RecordVariantRequest (routeID variant : string) (m : Metrics) : Metrics :=
  let '(m, label) := routeHit now routeID m in call (Inc variantRequests [label; orElse variant "unknown"]) m.
Definition RecordVariantRequestCanonical (canonRoute variant : string) : Metrics → Metrics :=
  call (Inc variantRequests [orElse canonRoute "none"; orElse variant "stable"]).
Definition RecordVariantError (routeID variant : string) (m : Metrics) : Metrics :=
  let '(m, label) := routeHit now routeID m in call (Inc variantErrors [label; orElse variant "unknown"]) m.
Definition RecordVariantErrorCanonical (canonRoute variant : string) : Metrics → Metrics :=
  call (Inc variantErrors [orElse canonRoute "none"; orElse variant "stable"]).
Definition RecordOverloadReject (routeID : string) (m : Metrics) : Metrics :=
  let '(m, label) := routeHit now routeID m in call (Inc overloadRejects [label]) m.
Definition RecordOverloadRejectCanonical (canonRoute : string) : Metrics → Metrics :=
  call (Inc overloadRejects [orElse canonRoute "none"]).
Definition RecordBundleVerify (result : string) : Metrics → Metrics := call (Inc bundleVerify [orElse result "unknown"]).
Definition RecordRolloutStage (stage result : string) : Metrics → Metrics :=
  call (Inc rolloutStage [orElse stage "unknown"; orElse result "unknown"]).
Definition RecordRollback (result : string) : Metrics → Metrics := call (Inc rollbackTotal [orElse result "unknown"]).
Definition Rolling5xx (w : Duration) (m : Metrics) : Z * Z := Counts unixSecond w (requestWindow m).
Definition RecordPluginCall (filter phase result : string) : Metrics → Metrics :=
  call (Inc pluginCalls [orElse filter "unknown"; orElse phase "unknown"; orElse result "unknown"]).
Definition RecordPluginBypass (filter reason : string) : Metrics → Metrics :=
  call (Inc pluginBypass [orElse filter "unknown"; orElse reason "unknown"]).
Definition RecordPluginShortCircuit (filter : string) : Metrics → Metrics := call (Inc pluginShortCircuit [orElse filter "unknown"]).
Definition RecordPluginFailClosed (filter : string) : Metrics → Metrics := call (Inc pluginFailClosed [orElse filter "unknown"]).
Definition SetBreakerOpen (poolKey : string) (open : bool) (m : Metrics) : Metrics :=
  let '(m, label) := poolHit now poolKey m in call (SetGauge breakerOpen [label] (if open then 1 else 0)) m.
Definition SetSnapshotInfo (version source : string) (m : Metrics) : Metrics :=
  if decide (version = "") then m
  else
    let source := orElse source "unknown" in
    let m := if decide (lastVersion m = "") then m else call (SetGauge snapshotInfo [lastVersion m; lastSource m] 0) m in
    (call (SetGauge snapshotInfo [version; source] 1) m) <| lastVersion := version |> <| lastSource := source |>.
End Operations.

(** ** Sequences of operations *)

Inductive operation :=
| OObserveRequest (routeID : string) (poolKey : string) (status : Z) (duration : Z)
| OCanonicalize (routeID : string) (poolKey : string)
| OObserveRequestCanonical (route : string) (status : Z) (duration : Z)
| OObserveUpstreamRoundTrip (poolKey : string) (duration : Z)
| ORecordUpstreamError (poolKey : string) (category : string)
| ORecordProxyError (routeID : string) (category : string)
| ORecordProxyErrorCanonical (route : string) (category : string)
| ORecordRetry (routeID : string) (reason : string)
| ORecordRetryBudgetExhausted (routeID : string)
| ORecordConfigApply (result : string)
| ORecordConfigApplyDuration (duration : Z)
| ORecordConfigConflict
| ORecordCircuitOpen (poolKey : string)
| ORecordOutlierEjection (poolKey : string) (reason : string)
| ORecordOutlierFailOpen (poolKey : string)
| ORecordMTLSReject (routeID : string)
| ORecordMTLSRejectCanonical (route : string)
| ORecordCacheRequest (routeID : string) (status : string)
| ORecordCacheRequestCanonical (route : string) (status : string)
| ORecordCacheCoalesceBreakaway (routeID : string)
| ORecordCacheCoalesceBreakawayCanonical (route : string)
| ORecordCacheStoreFail (routeID : string)
| ORecordCacheStoreFailCanonical (route : string)
| ORecordVariantRequest (routeID : string) (variant : string)
| ORecordVariantRequestCanonical (route : string) (variant : string)
| ORecordVariantError (routeID : string) (variant : string)
| ORecordVariantErrorCanonical (route : string) (variant : string)
| ORecordOverloadReject (routeID : string)
| ORecordOverloadRejectCanonical (route : string)
| ORecordBundleVerify (result : string)
| ORecordRolloutStage (stage : string) (result : string)
| ORecordRollback (result : string)
| ORecordPluginCall (filter : string) (phase : string) (result : string)
| ORecordPluginBypass (filter : string) (reason : string)
| ORecordPluginShortCircuit (filter : string)
| ORecordPluginFailClosed (filter : string)
| OSetBreakerOpen (poolKey : string) (open : bool)
| OSetSnapshotInfo (version : string) (source : string).
Definition perform (now : Time) (o : operation) : Metrics → Metrics :=
  match o with
  | OObserveRequest routeID poolKey status duration => ObserveRequest now routeID poolKey status duration
  | OCanonicalize routeID poolKey => λ m, (Canonicalize now routeID poolKey m).1
  | OObserveRequestCanonical route status duration => ObserveRequestCanonical now route status duration
  | OObserveUpstreamRoundTrip poolKey duration => ObserveUpstreamRoundTrip now poolKey duration
  | ORecordUpstreamError poolKey category => RecordUpstreamError now poolKey category
  | ORecordProxyError routeID category => RecordProxyError routeID category
  | ORecordProxyErrorCanonical route category => RecordProxyErrorCanonical route category
  | ORecordRetry routeID reason => RecordRetry now routeID reason
  | ORecordRetryBudgetExhausted routeID => RecordRetryBudgetExhausted now routeID
  | ORecordConfigApply result => RecordConfigApply result
  | ORecordConfigApplyDuration duration => RecordConfigApplyDuration duration
  | ORecordConfigConflict => RecordConfigConflict
  | ORecordCircuitOpen poolKey => RecordCircuitOpen now poolKey
  | ORecordOutlierEjection poolKey reason => RecordOutlierEjection now poolKey reason
  | ORecordOutlierFailOpen poolKey => RecordOutlierFailOpen now poolKey
  | ORecordMTLSReject routeID => RecordMTLSReject routeID
  | ORecordMTLSRejectCanonical route => RecordMTLSRejectCanonical route
  | ORecordCacheRequest routeID status => RecordCacheRequest now routeID status
  | ORecordCacheRequestCanonical route status => RecordCacheRequestCanonical route status
  | ORecordCacheCoalesceBreakaway routeID => RecordCacheCoalesceBreakaway now routeID
  | ORecordCacheCoalesceBreakawayCanonical route => RecordCacheCoalesceBreakawayCanonical route
  | ORecordCacheStoreFail routeID => RecordCacheStoreFail now routeID
  | ORecordCacheStoreFailCanonical route => RecordCacheStoreFailCanonical route
  | ORecordVariantRequest routeID variant => RecordVariantRequest now routeID variant
  | ORecordVariantRequestCanonical route variant => RecordVariantRequestCanonical route variant
  | ORecordVariantError routeID variant => RecordVariantError now routeID variant
  | ORecordVariantErrorCanonical route variant => RecordVariantErrorCanonical route variant
  | ORecordOverloadReject routeID => RecordOverloadReject now routeID
  | ORecordOverloadRejectCanonical route => RecordOverloadRejectCanonical route
  | ORecordBundleVerify result => RecordBundleVerify result
  | ORecordRolloutStage stage result => RecordRolloutStage stage result
  | ORecordRollback result => RecordRollback result
  | ORecordPluginCall filter phase result => RecordPluginCall filter phase result
  | ORecordPluginBypass filter reason => RecordPluginBypass filter reason
  | ORecordPluginShortCircuit filter => RecordPluginShortCircuit filter
  | ORecordPluginFailClosed filter => RecordPluginFailClosed filter
  | OSetBreakerOpen poolKey open => SetBreakerOpen now poolKey open
  | OSetSnapshotInfo version source => SetSnapshotInfo version source
  end.
(** The operations of a run, with their times. *)
Definition run (os : list (Time * operation)) (m : Metrics) : Metrics := foldl (λ m o, perform o.1 o.2 m) m os.

(** What a metric was registered as. *)
Inductive kind := Counter | Histogram | Gauge.
#[export] Instance kind_eq_dec : EqDecision kind.
Proof. solve_decision. Defined.
#[export] Instance metric_eq_dec : EqDecision metric.
Proof. solve_decision. Defined.
Definition metricKind (x : metric) : kind :=
  match x with
  | configApplyDuration | requestDuration | upstreamRoundTrip => Histogram
  | snapshotInfo | breakerOpen => Gauge
  | _ => Counter
  end.
Definition callKind (c : promCall) : kind := match c with Inc _ _ => Counter | Observe _ _ _ => Histogram | SetGauge _ _ _ => Gauge end.
(** A call that fits its metric: the right kind, and one value per label. *)
Definition well_typed (c : promCall) : bool :=
  bool_decide (callKind c = metricKind (callMetric c)) && (length (callLabels c) =? length (labelNames (callMetric c)))%nat.

(** Whether an operation reports a snapshot. *)
Definition reports (o : operation) : bool := match o with OSetSnapshotInfo v _ => negb (bool_decide (v = "")) | _ => false end.

(** What an operation does to the calls: it adds well-typed ones, none of them
    on the snapshot gauge unless it reports a snapshot. *)
Lemma perform_calls now o m :
  (∃ new, calls (perform now o m) = new ++ calls m ∧ Forall (λ c, well_typed c = true) new ∧
     (reports o = false → Forall (λ c, callMetric c ≠ snapshotInfo) new)) ∧
  (reports o = false → lastVersion (perform now o m) = lastVersion m ∧ lastSource (perform now o m) = lastSource m).
Proof.
  assert (∀ new, Forall (λ c, well_typed c = true ∧ callMetric c ≠ snapshotInfo) new →
    Forall (λ c, well_typed c = true) new ∧ Forall (λ c, callMetric c ≠ snapshotInfo) new) as Hs.
  { intros new H. by rewrite <- Forall_and. }
  destruct o; try (split; [|done]); try (eexists [_]; split; [done|]; split; [by repeat constructor|]; intros _; by repeat constructor).
  - eexists [_; _]. split; [done|]. split; [by repeat constructor|]. intros _. by repeat constructor.
  - exists []. by split_and!.
  - eexists [_; _]. split; [done|]. split; [by repeat constructor|]. intros _. by repeat constructor.
  - simpl. unfold SetSnapshotInfo. destruct (decide (version = "")) as [->|Hv]; [split; [exists []; by split_and!|done]|].
    split; [|by rewrite bool_decide_false]. destruct (decide (lastVersion m = "")).
    + eexists [_]. split_and!; [done|by repeat constructor|by rewrite bool_decide_false].
    + eexists [_; _]. split_and!; [done|by repeat constructor|by rewrite bool_decide_false].
Qed.

(** C35. Every call to the metrics client is well typed: in any run, each call
    increments a registered counter, observes a registered histogram or sets
    a registered gauge, with exactly one value per registered label, and no
    two metrics are registered under one name; so neither [MustRegister] nor
    [WithLabelValues] can panic on them. *)
Theorem metrics_calls_typed cfg os :
  Forall (λ c, well_typed c = true) (calls (run os (NewMetrics cfg))) ∧ (∀ x y, metricName x = metricName y → x = y).
Proof.
  split; [|by intros [] []].
  assert (∀ m, Forall (λ c, well_typed c = true) (calls m) → Forall (λ c, well_typed c = true) (calls (run os m))) as H
    by (induction os as [|[now o] os IH]; intros m Hm; [done|]; simpl; apply IH;
        destruct (perform_calls now o m) as [(new & -> & Hn & _) _]; by apply Forall_app).
  by apply H.
Qed.

(** ** The snapshot gauge *)

(** The value of a series: that of the last call that set it. *)
Definition gauge (x : metric) (labels : list string) (cs : list promCall) : option Z :=
  head (omap (λ c, match c with SetGauge y l v => if decide (y = x ∧ l = labels) then Some v else None | _ => None end) cs).

Lemma gauge_cons x labels c cs :
  gauge x labels (c :: cs) = match c with SetGauge y l v => if decide (y = x ∧ l = labels) then Some v else gauge x labels cs | _ => gauge x labels cs end.
Proof. unfold gauge. simpl. destruct c; simpl; try done. by case_decide. Qed.
Lemma gauge_other x labels new cs : Forall (λ c, callMetric c ≠ x) new → gauge x labels (new ++ cs) = gauge x labels cs.
Proof.
  induction 1 as [|c new Hc _ IH]; [done|]. simpl. rewrite gauge_cons. destruct c; try done. rewrite decide_False; [done|]. simpl in Hc. naive_solver.
Qed.

(** The gauge is 1 for the last snapshot reported and 0 for all others that
    were ever reported. *)
Definition one_hot (m : Metrics) : Prop :=
  (lastVersion m = "" → ∀ l, gauge snapshotInfo l (calls m) = None) ∧
  (lastVersion m ≠ "" → ∀ l, gauge snapshotInfo l (calls m) = Some 1 ↔ l = [lastVersion m; lastSource m]) ∧
  (∀ l v, gauge snapshotInfo l (calls m) = Some v → v = 0 ∨ v = 1).
Lemma perform_one_hot now o m : one_hot m → one_hot (perform now o m).
Proof.
  intros (H1 & H2 & H3). destruct (reports o) eqn:Ho.
  - destruct o; try done. simpl in *. unfold SetSnapshotInfo. rewrite decide_False by (intros ->; done).
    assert (version ≠ "") as Hv by (intros ->; done). clear Ho. split_and!.
    + done.
    + intros _ l. simpl. rewrite gauge_cons. case_decide as E; [by destruct E as [_ <-]|].
      destruct (decide (lastVersion m = "")) as [Hl|Hl].
      * rewrite H1 by done. split; [done|]. intros ->. by destruct E.
      * simpl. rewrite gauge_cons. case_decide as E'.
        -- split; [done|]. intros ->. by destruct E.
        -- rewrite H2 by done. split; intros ->; [by destruct E'|by destruct E].
    + intros l v. simpl. rewrite gauge_cons. case_decide; [intros [= <-]; by right|].
      destruct (decide (lastVersion m = "")) as [Hl|Hl]; [apply H3|].
      simpl. rewrite gauge_cons. case_decide; [intros [= <-]; by left|]. apply H3.
  - destruct (perform_calls now o m) as [(new & E & _ & Hn) Hlast]. destruct (Hlast Ho) as [E1 E2]. unfold one_hot.
    rewrite E, E1, E2. assert (∀ l, gauge snapshotInfo l (new ++ calls m) = gauge snapshotInfo l (calls m)) as Hg by (intros; apply gauge_other; auto).
    by setoid_rewrite Hg.
Qed.

Lemma run_one_hot os m : one_hot m → one_hot (run os m).
Proof. revert m. induction os as [|[now o] os IH]; intros m Hm; [done|]. simpl. by apply IH, perform_one_hot. Qed.
Lemma new_one_hot cfg : one_hot (NewMetrics cfg).
Proof. by split_and!. Qed.

(** At most one snapshot is reported as active: after any run the gauge of
    the active snapshot is 1 for the version and source reported last, and 0
    for every other one reported before. *)
Theorem metrics_active_snapshot cfg os : one_hot (run os (NewMetrics cfg)).
Proof. apply run_one_hot, new_one_hot. Qed.

(** ** Operations of one kind *)

(** The metrics, when there are any, after operations of a certain kind. *)
Definition meters (P : operation → bool) (m m' : option Metrics) : Prop :=
  ∃ os, Forall (λ o, P o.2 = true) os ∧ m' = run os <$> m.
#[export] Instance meters_preorder P : PreOrder (meters P).
Proof.
  split.
  - intros m. exists []. split; [done|]. by destruct m.
  - intros m1 m2 m3 (os1 & H1 & ->) (os2 & H2 & ->). exists (os1 ++ os2). split; [by apply Forall_app|].
    destruct m1; [|done]. simpl. f_equal. unfold run. by rewrite foldl_app.
Qed.
Lemma meters_one P now o m : P o = true → meters P m (perform now o <$> m).
Proof. intros H. exists [(now, o)]. split; [by repeat constructor|]. by destruct m. Qed.
Lemma meters_weaken (P Q : operation → bool) m m' : (∀ o, P o = true → Q o = true) → meters P m m' → meters Q m m'.
Proof. intros H (os & Hos & ->). exists os. split; [|done]. eapply Forall_impl; [exact Hos|]. auto. Qed.
#[export] Hint Resolve meters_one : proxy.

(** What the deferred function of a request reports, once per request; all
    other operations are [incidental]. *)
Definition incidental (o : operation) : bool :=
  match o with
  | OObserveRequest _ _ _ _ | OObserveRequestCanonical _ _ _ | ORecordProxyError _ _ | ORecordProxyErrorCanonical _ _
  | ORecordVariantRequest _ _ | ORecordVariantRequestCanonical _ _ | ORecordVariantError _ _ | ORecordVariantErrorCanonical _ _
  | ORecordOverloadReject _ | ORecordOverloadRejectCanonical _ | OSetSnapshotInfo _ _ => false
  | _ => true
  end.
Definition perRequest (x : metric) : bool :=
  match x with requests | requestDuration | proxyErrors | variantRequests | variantErrors | overloadRejects | snapshotInfo => true | _ => false end.

(** How often a metric is called. *)
Definition times (x : metric) (cs : list promCall) : nat := length (List.filter (λ c, bool_decide (callMetric c = x)) cs).

Lemma perform_incidental now o m :
  incidental o = true →
  requestWindow (perform now o m) = requestWindow m ∧ lastVersion (perform now o m) = lastVersion m ∧ lastSource (perform now o m) = lastSource m ∧
  ∀ x, perRequest x = true → times x (calls (perform now o m)) = times x (calls m).
Proof. intros Ho. destruct o; try done; (split_and!; [reflexivity..|]); by intros [] Hx. Qed.

Lemma meters_incidental m m' :
  meters incidental (Some m) m' →
  ∃ m1, m' = Some m1 ∧ requestWindow m1 = requestWindow m ∧ ∀ x, perRequest x = true → times x (calls m1) = times x (calls m).
Proof.
  intros (os & Hos & ->). simpl. exists (run os m). split; [done|]. revert m. induction Hos as [|[now o] os Ho _ IH]; intros m; [done|].
  simpl. destruct (IH (perform now o m)) as [-> H2]. destruct (perform_incidental now o m Ho) as (-> & _ & _ & H3).
  split; [done|]. intros x Hx. by rewrite H2, H3.
Qed.
