(* ===== verification/Snapshot.v ===== *)
(** * Snapshots (internal/runtime/snapshot.go)

    Building the routing snapshot of a configuration.  The registries the
    build reconciles on the way are threaded through as [Deps]: what an
    abandoned build has already done to them stays done.  The clock readings
    of a build are the functions of [Clock], by pool, endpoint or route.  Go
    visits the map of pools in any order, an argument of the build.  The
    outcome is counted in the default metrics. *)
From S2P Require Import Prelude.
From S2P Require Import Metrics.
From S2P Require Import GoStrings.
From S2P Require Import GoFloat.
From S2P Require Import GoError.
From S2P Require Import Http.
From S2P Require Import Policy.
From S2P Require Import Breaker.
From S2P Require Import Outlier.
From S2P Require Import OutlierRegistry.
From S2P Require Import Health.
From S2P Require Import Pool.
From S2P Require Import Transport.
From S2P Require Import Registry.
From S2P Require Import TrafficSplit.
From S2P Require Import TrafficPlan.
From S2P Require Import Plugin.
From S2P Require Import TLSStore.
From S2P Require Import Router.
From S2P Require Import Config.
From S2P Require Import Limits.

Record PoolConfig := mkPoolConfig { Breaker : Breaker.Config; Outlier : Outlier.Config }.

(** The fields of [tls.Config] that the build chooses. *)
Record TLSRuntime := mkTLSRuntime { MinVersion : Z; CipherSuites : list Z }.

Record Snapshot := mkSnapshot {
  SnapshotID : Z;
  SnapshotRouter : option Router.Router;
  Pools : gmap string string;
  PoolConfigs : gmap string PoolConfig;
  TLSEnabled : bool;
  SnapshotTLSStore : option TLSStore.Store;
  SnapshotTLSConfig : option TLSRuntime;
  TLSAddr : string;
  Version : string;
  CreatedAt : Time;
  Source : string;
  RouteCount : Z;
  SnapshotLimits : Limits.Limits;
  SnapshotLogging : LoggingConfig;
  refCount : Z;
  retiredAt : Z
}.
#[export] Instance Snapshot_eta : Eta Snapshot := fun s =>
  mkSnapshot (SnapshotID s) (SnapshotRouter s) (Pools s) (PoolConfigs s) (TLSEnabled s) (SnapshotTLSStore s)
    (SnapshotTLSConfig s) (TLSAddr s) (Version s) (CreatedAt s) (Source s) (RouteCount s) (SnapshotLimits s)
    (SnapshotLogging s) (refCount s) (retiredAt s).

Definition defaultRequestTimeout : Duration := 30 * Second.
Definition defaultUpstreamDialTimeout : Duration := Second.
Definition defaultUpstreamResponseHeaderTimeout : Duration := 5 * Second.
Definition defaultCacheMaxObjectBytes : Z := 1024 * 1024.
Definition defaultCacheMinObjectBytes : Z := 1024.
Definition defaultCacheMaxObjectBytesLimit : Z := 50 * 1024 * 1024.
Definition defaultCacheVaryHeaderMaxLen : Z := 128.
Definition maxPluginFilters : Z := 200.
Definition defaultHealthPath : string := "/healthz".
Definition defaultHealthInterval : Duration := 5 * Second.
Definition defaultHealthTimeout : Duration := Second.
Definition defaultUnhealthyAfterFailures : Z := 3.
Definition defaultHealthyAfterSuccesses : Z := 2.
Definition defaultBaseEject : Duration := 10 * Second.
Definition defaultMaxEject : Duration := 5 * Minute.
Definition defaultRetryMaxAttempts : Z := 1.
Definition defaultRetryClientLRUSize : Z := 10000.
Definition defaultBreakerFailureRateThreshold : Z := 50.
Definition defaultBreakerMinRequests : Z := 20.
Definition defaultBreakerEvalWindow : Duration := 10 * Second.
Definition defaultBreakerOpenDuration : Duration := 2 * Second.
Definition defaultBreakerHalfOpenMaxProbes : Z := 5.
Definition defaultOutlierConsecutiveFailures : Z := 5.
Definition defaultOutlierErrorRateThreshold : Z := 50.
Definition defaultOutlierErrorRateWindow : Duration := 30 * Second.
Definition defaultOutlierMinRequests : Z := 20.
Definition defaultOutlierBaseEject : Duration := 30 * Second.
Definition defaultOutlierMaxEject : Duration := 10 * Minute.
Definition defaultOutlierMaxEjectPercent : Z := 50.
Definition defaultOutlierLatencyWindowSize : Z := 128.
Definition defaultOutlierLatencyEvalInterval : Duration := 10 * Second.
Definition defaultOutlierLatencyMinSamples : Z := 50.
Definition defaultOutlierLatencyMultiplier : Z := 3.
Definition defaultOutlierLatencyConsecutive : Z := 3.
Definition defaultCacheCoalesceTimeout : Duration := 5 * Second.
Definition defaultTLSAddr : string := "127.0.0.1:8443".
Definition defaultTrafficStableWeight : Z := 100.
Definition defaultPluginRequestTimeout : Duration := 50 * Millisecond.
Definition defaultPluginResponseTimeout : Duration := 50 * Millisecond.
Definition defaultPluginBreakerOpenDuration : Duration := 2 * Second.
Definition defaultPluginBreakerConsecutiveFails : Z := 5.
Definition defaultPluginBreakerHalfOpenProbes : Z := 3.
Definition defaultPoolMaxIdlePerHost : Z := 256.
Definition defaultPoolIdleConnTimeout : Duration := 90 * Second.
Definition defaultRetryStatuses : list Z := [502; 503; 504].
Definition defaultRetryErrors : list string := ["dial"; "timeout"].

(** ** Defaults *)

Definition durationOrDefault (ms : Z) (fallback : Duration) : Duration := if ms <=? 0 then fallback else millis ms.
Definition durationOrZero (ms : Z) : Duration := if ms <=? 0 then 0 else millis ms.
Definition intOrDefault (value fallback : Z) : Z := if value <=? 0 then fallback else value.
Definition nonNegative (value : Z) : Z := if value <? 0 then 0 else value.
Definition stringOrDefault (value fallback : string) : string := if decide (value = "") then fallback else value.
Definition boolOrDefault (value : option bool) (fallback : bool) : bool := default fallback value.

Definition retryStatusMap (values : list Z) : gmap Z bool :=
  foldl (λ m v, if v =? 0 then m else <[v := true]> m) ∅ (match values with [] => defaultRetryStatuses | _ => values end).
Definition retryErrorMap (values : list string) : gmap string bool :=
  foldl (λ m v, if decide (v = "") then m else <[v := true]> m) ∅ (match values with [] => defaultRetryErrors | _ => values end).

Definition isASCII (value : string) : bool := forallb (λ c, (code c <? 128)%N) (chars value).

Fixpoint sanitizeVary (routeID : string) (values : list string) : result (list string) :=
  match values with
  | [] => Ok []
  | value :: values =>
      let trimmed := TrimSpace value in
      if decide (trimmed = "") then sanitizeVary routeID values
      else if defaultCacheVaryHeaderMaxLen <? slen trimmed then Err ("route " ++ Quote routeID ++ " cache vary header too long")
      else if negb (isASCII trimmed) then Err ("route " ++ Quote routeID ++ " cache vary header must be ASCII")
      else let? rest := sanitizeVary routeID values in Ok (trimmed :: rest)
  end.
Definition sanitizeVaryHeaders (routeID : string) (values : list string) : result (list string) :=
  match values with [] => Ok [] | _ => sanitizeVary routeID values end.

(** ** Policies *)

Definition cachePolicyFromConfig (routeID : string) (cfg : CacheConfig) : result CachePolicy :=
  let maxObjectBytes := if cc_MaxObjectBytes cfg <=? 0 then defaultCacheMaxObjectBytes else cc_MaxObjectBytes cfg in
  if (maxObjectBytes <? defaultCacheMinObjectBytes) || (defaultCacheMaxObjectBytesLimit <? maxObjectBytes)
  then Err ("route " ++ Quote routeID ++ " cache max_object_bytes out of range")
  else
    let? varyHeaders := sanitizeVaryHeaders routeID (cc_VaryHeaders cfg) in
    let coalesceEnabled := boolOrDefault (cc_CoalesceEnabled cfg) true in
    let onlyIfContentLength := boolOrDefault (cc_OnlyIfContentLength cfg) true in
    let coalesceTimeout := durationOrDefault (cc_CoalesceTimeoutMS cfg) defaultCacheCoalesceTimeout in
    let ttl := durationOrZero (cc_TTLMS cfg) in
    if cc_Enabled cfg && (ttl <=? 0) then Err ("route " ++ Quote routeID ++ " cache ttl_ms must be > 0")
    else Ok (mkCachePolicy (cc_Enabled cfg) (cc_Public cfg) ttl maxObjectBytes varyHeaders coalesceEnabled coalesceTimeout
               onlyIfContentLength).

Definition parseFailureMode (mode : string) : result FailureMode :=
  let trimmed := TrimSpace (ToLower mode) in
  if decide (trimmed = "") then Ok FailureModeFailOpen
  else if decide (trimmed = "fail_open") then Ok FailureModeFailOpen
  else if decide (trimmed = "fail_closed") then Ok FailureModeFailClose
  else Err "failure_mode must be fail_open or fail_closed".

(** One filter: the filter and the names seen so far. *)
Definition pluginFilter (routeID : string) (filter : PluginFilter) (filterNames : gset string)
    : result (Filter * gset string) :=
  let name := TrimSpace (pf_Name filter) in
  let addr := TrimSpace (pf_Addr filter) in
  let where_ := ("route " ++ Quote routeID ++ " plugin filter " ++ Quote name)%string in
  if decide (name = "") then Err ("route " ++ Quote routeID ++ " plugin filter name required")
  else if decide (addr = "") then Err (where_ ++ " addr required")
  else match SplitHostPort addr with
  | None => Err (where_ ++ " addr must be host:port")
  | Some _ =>
      let filterNames := {[name]} ∪ filterNames in
      if maxPluginFilters <? Z.of_nat (size filterNames) then Err ("plugin filter count exceeds " ++ Itoa maxPluginFilters)
      else
        let requestTimeout := durationOrDefault (pf_RequestTimeoutMS filter) defaultPluginRequestTimeout in
        let responseTimeout := durationOrDefault (pf_ResponseTimeoutMS filter) defaultPluginResponseTimeout in
        if requestTimeout <=? 0 then Err (where_ ++ " request_timeout_ms must be > 0")
        else if responseTimeout <=? 0 then Err (where_ ++ " response_timeout_ms must be > 0")
        else match parseFailureMode (pf_FailureMode filter) with
        | Err e => Err (where_ ++ " " ++ e)
        | Ok failureMode =>
            let b := pf_Breaker filter in
            Ok (mkFilter name addr requestTimeout responseTimeout failureMode
                  (Plugin.mkBreakerConfig (boolOrDefault (pb_Enabled b) true) (intOrDefault (pb_ConsecutiveFailures b) defaultPluginBreakerConsecutiveFails)
                     (durationOrDefault (pb_OpenMS b) defaultPluginBreakerOpenDuration)
                     (intOrDefault (pb_HalfOpenProbes b) defaultPluginBreakerHalfOpenProbes)),
                filterNames)
        end
  end.

Fixpoint pluginFilters (routeID : string) (filters : list PluginFilter) (filterNames : gset string)
    : result (list Filter * gset string) :=
  match filters with
  | [] => Ok ([], filterNames)
  | f :: filters =>
      let? fn := pluginFilter routeID f filterNames in
      let? rest := pluginFilters routeID filters fn.2 in
      Ok (fn.1 :: rest.1, rest.2)
  end.

Definition pluginPolicyFromConfig (routeID : string) (cfg : PluginConfig) (filterNames : gset string)
    : result (Plugin.Policy * gset string) :=
  if pc_Enabled cfg && bool_decide (pc_Filters cfg = []) then Err ("route " ++ Quote routeID ++ " plugins enabled but no filters")
  else let? fs := pluginFilters routeID (pc_Filters cfg) filterNames in
       Ok (Plugin.mkPolicy (pc_Enabled cfg) fs.1, fs.2).

(** The zero [traffic.Config]. *)
Definition noTraffic : TrafficPlan.Config :=
  TrafficPlan.mkConfig false 0 0 (TrafficPlan.mkCohortConfig false "") (TrafficPlan.mkOverloadConfig false 0 0 0)
    (TrafficPlan.mkAutoDrainConfig false 0 0 f64_zero 0).

Definition checkOverload (routeID : string) (o : Config.OverloadConfig) : option string :=
  let at_ := ("route " ++ Quote routeID ++ " traffic overload ")%string in
  if negb (ovl_Enabled o) then None
  else if ovl_MaxInflight o <=? 0 then Some (at_ ++ "max_inflight must be > 0")%string
  else if ovl_MaxQueue o <? 0 then Some (at_ ++ "max_queue must be >= 0")%string
  else if (0 <? ovl_MaxQueue o) && (ovl_QueueTimeoutMS o <=? 0) then Some (at_ ++ "queue_timeout_ms must be > 0")%string
  else None.

Definition checkAutoDrain (routeID : string) (a : Config.AutoDrainConfig) : option string :=
  let at_ := ("route " ++ Quote routeID ++ " traffic autodrain ")%string in
  if negb (ad_Enabled a) then None
  else if ad_WindowMS a <=? 0 then Some (at_ ++ "window_ms must be > 0")%string
  else if ad_MinRequests a <=? 0 then Some (at_ ++ "min_requests must be > 0")%string
  else if f64_le (ad_ErrorRateMultiplier a) f64_zero then Some (at_ ++ "error_rate_multiplier must be > 0")%string
  else if ad_CooloffMS a <=? 0 then Some (at_ ++ "cooloff_ms must be > 0")%string
  else None.

(** The traffic configuration and the stable and canary pool names. *)
Definition trafficConfigFromRoute (routeID : string) (cfg : TrafficConfig) : result (TrafficPlan.Config * string * string) :=
  if negb (tc_Enabled cfg) then Ok (noTraffic, "", "")
  else
    let at_ := ("route " ++ Quote routeID ++ " traffic ")%string in
    let stablePool := TrimSpace (tc_StablePool cfg) in
    if decide (stablePool = "") then Err (at_ ++ "stable_pool missing")
    else
      let canaryPool := TrimSpace (tc_CanaryPool cfg) in
      let canaryWeight := tc_CanaryWeight cfg in
      if (tc_StableWeight cfg <? 0) || (canaryWeight <? 0) then Err (at_ ++ "weights must be non-negative")
      else
        let stableWeight :=
          if bool_decide (canaryPool = "") && (tc_StableWeight cfg =? 0) && (canaryWeight =? 0) then defaultTrafficStableWeight else tc_StableWeight cfg in
        if bool_decide (canaryPool = "") && (0 <? canaryWeight) then Err (at_ ++ "canary_pool required when canary_weight > 0")
        else if (stableWeight =? 0) && (canaryWeight =? 0) then Err (at_ ++ "weights cannot both be zero")
        else if coh_Enabled (tc_Cohort cfg) && bool_decide (TrimSpace (coh_Key (tc_Cohort cfg)) = "")
        then Err (at_ ++ "cohort key missing")
        else match checkOverload routeID (tc_Overload cfg) with
        | Some e => Err e
        | None =>
            match checkAutoDrain routeID (tc_AutoDrain cfg) with
            | Some e => Err e
            | None =>
                let o := tc_Overload cfg in
                let a := tc_AutoDrain cfg in
                Ok (TrafficPlan.mkConfig (tc_Enabled cfg) stableWeight canaryWeight
                      (TrafficPlan.mkCohortConfig (coh_Enabled (tc_Cohort cfg)) (TrimSpace (coh_Key (tc_Cohort cfg))))
                      (TrafficPlan.mkOverloadConfig (ovl_Enabled o) (ovl_MaxInflight o) (ovl_MaxQueue o)
                         (durationOrZero (ovl_QueueTimeoutMS o)))
                      (TrafficPlan.mkAutoDrainConfig (ad_Enabled a) (durationOrZero (ad_WindowMS a)) (ad_MinRequests a)
                         (ad_ErrorRateMultiplier a) (durationOrZero (ad_CooloffMS a))),
                    stablePool, canaryPool)
            end
        end.

Definition VersionTLS12 : Z := 771.
Definition VersionTLS13 : Z := 772.
Definition parseTLSMinVersion (value : string) : result Z :=
  let trimmed := TrimSpace value in
  if decide (trimmed = "" ∨ trimmed = "1.2") then Ok VersionTLS12
  else if decide (trimmed = "1.3") then Ok VersionTLS13
  else Err ("unsupported tls min_version " ++ Quote value).

(** ** The build *)

(** The registries a build works on; [snapshotIDCounter] is the package's. *)
Record Deps := mkDeps {
  reg : Registry.Registry;
  outlierReg : option OutlierRegistry.Registry;
  trafficReg : TrafficPlan.Registry;
  snapshotIDCounter : Z;
  defaultMetrics : option Metrics.Metrics   (** [obs.DefaultMetrics] *)
}.
#[export] Instance Deps_eta : Eta Deps := fun d => mkDeps (reg d) (outlierReg d) (trafficReg d) (snapshotIDCounter d) (defaultMetrics d).

Record Clock := mkClock {
  drainAt : string → string → Time;
  transportAt1 : string → Time;
  transportAt2 : string → Time;
  pruneAt : string → Time;
  planAt : string → Time;
  outlierAt : string → Time;
  versionAt : Time;
  createdAt : Time
}.

Definition nextSnapshotID (d : Deps) : Deps * Z :=
  let id := u64 (snapshotIDCounter d + 1) in (d <| snapshotIDCounter := id |>, id).

Definition healthConfig (h : HealthConfig) : Health.Config :=
  Health.mkConfig (stringOrDefault (hc_Path h) defaultHealthPath) (durationOrDefault (hc_IntervalMS h) defaultHealthInterval)
    (durationOrDefault (hc_TimeoutMS h) defaultHealthTimeout) (intOrDefault (hc_UnhealthyAfterFailures h) defaultUnhealthyAfterFailures)
    (intOrDefault (hc_HealthyAfterSuccesses h) defaultHealthyAfterSuccesses) (durationOrDefault (hc_BaseEjectMS h) defaultBaseEject)
    (durationOrDefault (hc_MaxEjectMS h) defaultMaxEject).

(** The other fields of [transport.Options] are zero. *)
Definition transportOptions (t : PoolTransportConfig) : Transport.Options :=
  Transport.mkOptions 0 0 0 0 (durationOrDefault (pt_IdleConnTimeoutMS t) defaultPoolIdleConnTimeout) 0
    (intOrDefault (pt_MaxIdlePerHost t) defaultPoolMaxIdlePerHost) (nonNegative (pt_MaxConnsPerHost t)).

Definition breakerConfig (b : Config.BreakerConfig) : Breaker.Config :=
  Breaker.mkConfig (br_Enabled b) (intOrDefault (br_FailureRateThresholdPercent b) defaultBreakerFailureRateThreshold)
    (intOrDefault (br_MinimumRequests b) defaultBreakerMinRequests)
    (durationOrDefault (br_EvaluationWindowMS b) defaultBreakerEvalWindow) (durationOrDefault (br_OpenMS b) defaultBreakerOpenDuration)
    (intOrDefault (br_HalfOpenMaxProbes b) defaultBreakerHalfOpenMaxProbes).

Definition outlierConfig (o : OutlierConfig) : Outlier.Config :=
  Outlier.mkConfig (ol_Enabled o) (intOrDefault (ol_ConsecutiveFailures o) defaultOutlierConsecutiveFailures)
    (intOrDefault (ol_ErrorRateThreshold o) defaultOutlierErrorRateThreshold)
    (durationOrDefault (ol_ErrorRateWindowMS o) defaultOutlierErrorRateWindow) (intOrDefault (ol_MinRequests o) defaultOutlierMinRequests)
    (durationOrDefault (ol_BaseEjectMS o) defaultOutlierBaseEject) (durationOrDefault (ol_MaxEjectMS o) defaultOutlierMaxEject)
    (intOrDefault (ol_MaxEjectPercent o) defaultOutlierMaxEjectPercent) (ol_LatencyEnabled o)
    (intOrDefault (ol_LatencyWindowSize o) defaultOutlierLatencyWindowSize)
    (durationOrDefault (ol_LatencyEvalIntervalMS o) defaultOutlierLatencyEvalInterval)
    (intOrDefault (ol_LatencyMinSamples o) defaultOutlierLatencyMinSamples)
    (intOrDefault (ol_LatencyMultiplier o) defaultOutlierLatencyMultiplier)
    (intOrDefault (ol_LatencyConsecutiveIntervals o) defaultOutlierLatencyConsecutive).

Definition poolConfig (p : Config.Pool) : PoolConfig := mkPoolConfig (breakerConfig (pool_Breaker p)) (outlierConfig (pool_Outlier p)).

(** The loop over the pools, in the order Go visits the map. *)
Fixpoint buildPools (clk : Clock) (order : list (string * Config.Pool)) (d : Deps) (pools : gmap string string)
    (poolConfigs : gmap string PoolConfig) : Deps * result (gmap string string * gmap string PoolConfig) :=
  match order with
  | [] => (d, Ok (pools, poolConfigs))
  | (name, poolCfg) :: order =>
      match pool_Endpoints poolCfg with
      | [] => (d, Err ("pool " ++ Quote name ++ " has no endpoints"))
      | _ =>
          let d := d <| reg ::= (λ r, Registry.Reconcile r name (pool_Endpoints poolCfg) (healthConfig (pool_Health poolCfg))
                                 (transportOptions (pool_Transport poolCfg)) (drainAt clk name) (transportAt1 clk name)
                                 (transportAt2 clk name)) |> in
          buildPools clk order d (<[name := name]> pools) (<[name := poolConfig poolCfg]> poolConfigs)
      end
  end.

Definition routeMethods (methods : list string) : option (gmap string bool) :=
  let m := foldl (λ m method, if decide (method = "") then m else <[ToUpper method := true]> m) (∅ : gmap string bool) methods in
  if decide (m = ∅) then None else Some m.

Definition routePolicy (p : Config.RoutePolicy) (plugins : Plugin.Policy) (cache : CachePolicy) : Router.Policy :=
  let r := rp_Retry p in
  Router.mkPolicy (durationOrDefault (rp_RequestTimeoutMS p) defaultRequestTimeout)
    (durationOrDefault (rp_UpstreamDialTimeoutMS p) defaultUpstreamDialTimeout)
    (durationOrDefault (rp_UpstreamResponseHeaderTimeoutMS p) defaultUpstreamResponseHeaderTimeout)
    (mkRetryPolicy (retry_Enabled r) (intOrDefault (retry_MaxAttempts r) defaultRetryMaxAttempts) (durationOrZero (retry_PerTryTimeoutMS r))
       (durationOrZero (retry_TotalRetryBudgetMS r)) (Some (retryStatusMap (retry_RetryOnStatus r)))
       (Some (retryErrorMap (retry_RetryOnErrors r))) (durationOrZero (retry_BackoffMS r)) (durationOrZero (retry_BackoffJitterMS r)))
    (mkRetryBudgetPolicy (rb_Enabled (rp_RetryBudget p)) (nonNegative (rb_PercentOfSuccesses (rp_RetryBudget p)))
       (nonNegative (rb_Burst (rp_RetryBudget p))))
    (mkClientRetryCapPolicy (crc_Enabled (rp_ClientRetryCap p)) (crc_Key (rp_ClientRetryCap p))
       (nonNegative (crc_PercentOfSuccesses (rp_ClientRetryCap p))) (nonNegative (crc_Burst (rp_ClientRetryCap p)))
       (intOrDefault (crc_LRUSize (rp_ClientRetryCap p)) defaultRetryClientLRUSize))
    (rp_RequireMTLS p) (rp_MTLSClientCA p) cache plugins.

(** [outlierReg.Reconcile(key, cfg.Pools[name].Endpoints, poolConfigs[name].Outlier)]
    when there is an outlier registry; [name] is a configured pool. *)
Definition reconcileOutlier (clk : Clock) (cfg : Config.Config) (key name : string) (d : Deps) : Deps :=
  match outlierReg d, Config.Pools cfg !! name with
  | Some o, Some p =>
      d <| outlierReg := Some (OutlierRegistry.Reconcile o key (pool_Endpoints p) (outlierConfig (pool_Outlier p)) (outlierAt clk key)) |>
  | _, _ => d
  end.

(** The checks of a route before its policy is built. *)
Definition checkRoute (route : Config.Route) (seenIDs : gset string) (pools : gmap string string) : option string :=
  let id := Quote (route_ID route) in
  let p := route_Policy route in
  if decide (route_Host route = "") then Some ("route " ++ id ++ " host is empty")%string
  else if negb (HasPrefix (route_PathPrefix route) "/") then Some ("route " ++ id ++ " path prefix must start with /")%string
  else if decide (route_ID route ∈ seenIDs) then Some ("route id " ++ id ++ " is not unique")%string
  else if decide (pools !! route_Pool route = None)
  then Some ("route " ++ id ++ " references missing pool " ++ Quote (route_Pool route))%string
  else if rp_RequireMTLS p && bool_decide (rp_MTLSClientCA p ≠ "" ∧ rp_MTLSClientCA p ≠ "default")
  then Some ("route " ++ id ++ " mtls_client_ca must be default")%string
  else None.

(** The traffic part of a route: the registries, and pool name, canary name,
    their keys and the plan. *)
Definition routeTraffic (clk : Clock) (cfg : Config.Config) (pools : gmap string string) (route : Config.Route) (d : Deps)
    (trafficCfg : TrafficPlan.Config) (stable canary : string)
    : Deps * result (string * string * string * string * option nat) :=
  let id := route_ID route in
  let key name := (id ++ "::" ++ name)%string in
  if TrafficPlan.Enabled trafficCfg then
    if decide (pools !! stable = None) then (d, Err ("route " ++ Quote id ++ " traffic stable_pool missing pool " ++ Quote stable))
    else if decide (canary ≠ "" ∧ pools !! canary = None)
    then (d, Err ("route " ++ Quote id ++ " traffic canary_pool missing pool " ++ Quote canary))
    else
      let '(t, plan) := GetPlan (trafficReg d) id trafficCfg (planAt clk id) in
      let d := d <| trafficReg := t |> in
      match plan with
      | Err e => (d, Err e)
      | Ok plan =>
          let d := reconcileOutlier clk cfg (key stable) stable d in
          let d := if decide (canary = "") then d else reconcileOutlier clk cfg (key canary) canary d in
          (d, Ok (stable, canary, key stable, if decide (canary = "") then "" else key canary, plan))
      end
  else
    (reconcileOutlier clk cfg (key (route_Pool route)) (route_Pool route) d,
     Ok (route_Pool route, canary, key (route_Pool route), "", None)).

(** What the loop over the routes carries besides the registries. *)
Record Building := mkBuilding { seenIDs : gset string; filterNames : gset string; requiresMTLS : bool; built : list Router.Route }.

Definition buildRoute (clk : Clock) (cfg : Config.Config) (pools : gmap string string) (d : Deps) (b : Building)
    (route : Config.Route) : Deps * result Building :=
  match checkRoute route (seenIDs b) pools with
  | Some e => (d, Err e)
  | None =>
      let p := route_Policy route in
      match pluginPolicyFromConfig (route_ID route) (rp_Plugins p) (filterNames b) with
      | Err e => (d, Err e)
      | Ok (plugins, filterNames) =>
          match cachePolicyFromConfig (route_ID route) (rp_Cache p) with
          | Err e => (d, Err e)
          | Ok cache =>
              match trafficConfigFromRoute (route_ID route) (rp_Traffic p) with
              | Err e => (d, Err e)
              | Ok (trafficCfg, stable, canary) =>
                  match routeTraffic clk cfg pools route d trafficCfg stable canary with
                  | (d, Err e) => (d, Err e)
                  | (d, Ok (stable, canary, stableKey, canaryKey, plan)) =>
                      (d, Ok (mkBuilding ({[route_ID route]} ∪ seenIDs b) filterNames (requiresMTLS b || rp_RequireMTLS p)
                        (built b ++ [Router.mkRoute (route_ID route) (route_Host route) (route_PathPrefix route)
                           (routeMethods (route_Methods route)) stable canary stableKey canaryKey plan
                           (routePolicy p plugins cache)])))
                  end
              end
          end
      end
  end.

Fixpoint buildRoutes (clk : Clock) (cfg : Config.Config) (pools : gmap string string) (rs : list Config.Route) (d : Deps)
    (b : Building) : Deps * result Building :=
  match rs with
  | [] => (d, Ok b)
  | route :: rs =>
      match buildRoute clk cfg pools d b route with
      | (d, Err e) => (d, Err e)
      | (d, Ok b) => buildRoutes clk cfg pools rs d b
      end
  end.

Section Build.
Context (LoadX509KeyPair : string → string → result Certificate) (ReadFile : string → result string).
Context (AppendCertsFromPEM : string → bool) (suites : gmap string Z).

(** [suites] is the table of [tls.CipherSuites] and [tls.InsecureCipherSuites]. *)
Fixpoint parseCipherSuites (values : list string) : result (list Z) :=
  match values with
  | [] => Ok []
  | name :: values =>
      if decide (name = "") then parseCipherSuites values
      else match suites !! name with
      | None => Err ("unknown tls cipher suite " ++ Quote name)
      | Some id => let? rest := parseCipherSuites values in Ok (id :: rest)
      end
  end.

Definition buildTLS (t : TLSConfig) (requiresMTLS : bool) : result (option TLSStore.Store * option TLSRuntime * string) :=
  if tls_Enabled t then
    if decide (tls_Certs t = []) then Err "tls enabled but no certs configured"
    else if requiresMTLS && bool_decide (tls_ClientCAFile t = "") then Err "mtls required but client_ca_file missing"
    else
      let specs := (λ c, mkCertSpec (Config.ServerName c) (Config.CertFile c) (Config.KeyFile c)) <$> tls_Certs t in
      let? store := LoadStore LoadX509KeyPair ReadFile AppendCertsFromPEM specs (tls_ClientCAFile t) in
      let? minVersion := parseTLSMinVersion (tls_MinVersion t) in
      let? cipherSuites := parseCipherSuites (tls_CipherSuites t) in
      Ok (Some store, Some (mkTLSRuntime minVersion cipherSuites), stringOrDefault (tls_Addr t) defaultTLSAddr)
  else if requiresMTLS then Err "mtls required but tls disabled"
  else Ok (None, None, "").

(** The body of [BuildSnapshot]: the registries as it leaves them, and its
    result.  [order] is the order in which [cfg.Pools] is visited. *)
Definition buildSnapshot (clk : Clock) (order : list (string * Config.Pool)) (cfg : Config.Config) (d : Deps)
    : Deps * result Snapshot :=
  match FromConfig (Config.Limits cfg) with
  | Err e => (d, Err e)
  | Ok limitConfig =>
      match buildPools clk order d ∅ ∅ with
      | (d, Err e) => (d, Err e)
      | (d, Ok (pools, poolConfigs)) =>
          let d := d <| reg ::= (λ r, PrunePools r (dom pools) (pruneAt clk)) |> in
          match buildRoutes clk cfg pools (Routes cfg) d (mkBuilding ∅ ∅ false []) with
          | (d, Err e) => (d, Err e)
          | (d, Ok b) =>
              match buildTLS (Config.TLS cfg) (requiresMTLS b) with
              | Err e => (d, Err e)
              | Ok (store, tlsConfig, addr) =>
                  let '(d, id) := nextSnapshotID d in
                  (d, Ok (mkSnapshot id (Some (NewRouter (built b))) pools poolConfigs (tls_Enabled (Config.TLS cfg)) store
                            tlsConfig addr ("v-" ++ Itoa (UnixNano (versionAt clk))) (createdAt clk) "file" (len (built b))
                            limitConfig (Logging cfg) 0 0))
              end
          end
      end
  end.

(** With the deferred count of the outcome. *)
Definition countApply (res : result Snapshot) (d : Deps) : Deps :=
  d <| defaultMetrics ::= fmap (RecordConfigApply (match res with Ok _ => "success" | Err _ => "rejected" end)) |>.
Definition BuildSnapshot (clk : Clock) (order : list (string * Config.Pool)) (cfg : Config.Config) (d : Deps)
    : Deps * result Snapshot :=
  let '(d, res) := buildSnapshot clk order cfg d in (countApply res d, res).

End Build.

(** ** What a build guarantees *)

Lemma buildPools_failed clk order d P C d' e c :
  registry_ok (reg d) c → buildPools clk order d P C = (d', Err e) → ∃ c', registry_ok (reg d') c'.
Proof.
  revert d P C c. induction order as [|[n p] l IH]; intros d P C c Hok; simpl; [done|]. destruct (pool_Endpoints p) as [|a as_].
  - intros [= <- _]. by exists c.
  - eapply IH. exact (Registry.step_ok _ _ (EReconcile n (a :: as_) _ _ _ _ _) Hok).
Qed.

Lemma buildPools_spec clk order d P C d' P' C' :
  buildPools clk order d P C = (d', Ok (P', C')) →
  (∀ n, P' !! n = if decide (n ∈ order.*1) then Some n else P !! n) ∧
  (∀ n, is_Some (C' !! n) ↔ n ∈ order.*1 ∨ is_Some (C !! n)) ∧
  Forall (λ np, pool_Endpoints np.2 ≠ []) order.
Proof.
  revert d P C. induction order as [|[name p] order IH]; intros d P C H; simpl in H.
  { simplify_eq. split_and!; [done| |done]. intros n. rewrite elem_of_nil. tauto. }
  destruct (pool_Endpoints p) eqn:E; [done|]. destruct (IH _ _ _ H) as (H1 & H2 & H3). clear H IH. split_and!.
  - intros n. rewrite H1. cbn [fmap list_fmap fst].
    destruct (decide (n ∈ order.*1)) as [Hn|Hn]; [by rewrite decide_True by (by right)|].
    destruct (decide (n = name)) as [->|Hne]; [rewrite lookup_insert_eq, decide_True; [done|by left]|].
    rewrite lookup_insert_ne, decide_False by (rewrite ?elem_of_cons; naive_solver). done.
  - intros n. rewrite H2. cbn [fmap list_fmap fst]. rewrite elem_of_cons. destruct (decide (n = name)) as [->|Hne].
    + rewrite lookup_insert_eq. naive_solver.
    + rewrite lookup_insert_ne by done. naive_solver.
  - constructor; [simpl; congruence|done].
Qed.

(** What the pools of a configuration make of the registry's configuration. *)
Definition applyPools (order : list (string * Config.Pool)) (c : gmap string (list string)) : gmap string (list string) :=
  foldl (λ c np, <[np.1 := pool_Endpoints np.2]> c) c order.

Lemma buildPools_registry clk order d P C d' res c :
  buildPools clk order d P C = (d', Ok res) → registry_ok (reg d) c → registry_ok (reg d') (applyPools order c).
Proof.
  revert d P C c. induction order as [|[name p] order IH]; intros d P C c H Hok; simpl in H; [by simplify_eq|].
  destruct (pool_Endpoints p) as [|a l] eqn:E; [done|]. cbn [applyPools foldl]. eapply IH; [exact H|]. simpl. rewrite E.
  exact (Registry.step_ok _ _ (EReconcile name (a :: l) _ _ _ _ _) Hok).
Qed.

Lemma applyPools_lookup order c k :
  applyPools order c !! k = match List.find (λ np, bool_decide (np.1 = k)) (rev order) with
                            | Some np => Some (pool_Endpoints np.2)
                            | None => c !! k
                            end.
Proof.
  unfold applyPools.
  revert c. induction order as [|[n p] order IH]; intros c; [done|]. cbn [foldl rev]. rewrite IH. clear IH.
  induction (rev order) as [|[m q] l IHl]; simpl.
  - case_bool_decide; subst; [by rewrite lookup_insert_eq|by rewrite lookup_insert_ne].
  - case_bool_decide; [done|exact IHl].
Qed.

(** The registry afterwards holds exactly the pools of the configuration. *)
Definition endpoints_of (cfg : Config.Config) : gmap string (list string) := pool_Endpoints <$> Config.Pools cfg.

Lemma pools_exactly cfg order c (P : gmap string string) :
  order ≡ₚ map_to_list (Config.Pools cfg) →
  (∀ n, P !! n = if decide (n ∈ order.*1) then Some n else None) →
  filter (λ kv, kv.1 ∈ (dom P : gset string)) (applyPools order c) = endpoints_of cfg.
Proof.
  intros Hperm HP. apply map_eq. intros k. unfold endpoints_of. rewrite lookup_fmap.
  assert (NoDup order.*1) as Hnd by (rewrite Hperm; apply NoDup_fst_map_to_list).
  assert (∀ n p, (n, p) ∈ order ↔ Config.Pools cfg !! n = Some p) as Hin
    by (intros n p; rewrite Hperm; apply elem_of_map_to_list).
  assert (k ∈ (dom P : gset string) ↔ k ∈ order.*1) as Hk.
  { rewrite elem_of_dom, HP. case_decide; split; try done; by intros [? ?]. }
  rewrite map_lookup_filter. destruct (Config.Pools cfg !! k) as [p|] eqn:E; simpl.
  - assert (applyPools order c !! k = Some (pool_Endpoints p)) as ->.
    { rewrite applyPools_lookup. destruct (List.find _ _) as [[n q]|] eqn:Ef.
      - apply List.find_some in Ef as [Hf Hb]. apply bool_decide_eq_true in Hb. simpl in Hb. subst n.
        rewrite <- in_rev, <- list_elem_of_In in Hf. apply Hin in Hf. simpl. congruence.
      - pose proof (List.find_none _ _ Ef (k, p)) as Hf. rewrite <- in_rev, <- list_elem_of_In in Hf.
        apply Hin, Hf, bool_decide_eq_false in E. by destruct E. }
    simpl. rewrite option_guard_True; [done|]. apply Hk, list_elem_of_fmap. exists (k, p). by rewrite Hin.
  - destruct (applyPools order c !! k); [simpl|done]. rewrite option_guard_False; [done|]. rewrite Hk.
    intros ([n p] & -> & Hf)%list_elem_of_fmap. apply Hin in Hf. simpl in E. congruence.
Qed.

Lemma reconcileOutlier_reg clk cfg key name d : reg (reconcileOutlier clk cfg key name d) = reg d.
Proof. unfold reconcileOutlier. by destruct (outlierReg d), (Config.Pools cfg !! name). Qed.

Lemma trafficConfig_spec id t cfg stable canary :
  trafficConfigFromRoute id t = Ok (cfg, stable, canary) →
  if TrafficPlan.Enabled cfg
  then 0 ≤ cfg_StableWeight cfg ∧ 0 ≤ cfg_CanaryWeight cfg ∧ 0 < cfg_StableWeight cfg + cfg_CanaryWeight cfg
  else canary = "".
Proof.
  unfold trafficConfigFromRoute. destruct (tc_Enabled t) eqn:E; cbn [negb]; [|by intros [= <- <- <-]].
  cbn zeta. case_decide; [done|]. destruct (_ || _) eqn:Hw; [done|]. destruct (bool_decide _ && (0 <? _)); [done|].
  set (sw := if _ && _ then defaultTrafficStableWeight else _). destruct ((sw =? 0) && _) eqn:H0; [done|]. destruct (coh_Enabled _ && _); [done|].
  destruct (checkOverload _ _); [done|]. destruct (checkAutoDrain _ _); [done|]. intros [= <- <- <-]. simpl.
  apply orb_false_iff in Hw as [Hs Hc]. apply Z.ltb_ge in Hs, Hc.
  assert (0 ≤ sw) by (subst sw; unfold defaultTrafficStableWeight; destruct (_ && _ && _); lia). split_and!; [done..|].
  apply andb_false_iff in H0 as [H0|H0]; apply Z.eqb_neq in H0; lia.
Qed.

Lemma routeTraffic_spec clk cfg P route d tc s c d' res :
  routeTraffic clk cfg P route d tc s c = (d', res) →
  reg d' = reg d ∧
  ∀ s' c' sk ck plan, res = Ok (s', c', sk, ck, plan) →
    is_Some (P !! route_Pool route) → (TrafficPlan.Enabled tc = false → c = "") →
    is_Some (P !! s') ∧ (c' = "" ∨ is_Some (P !! c')) ∧ sk = (route_ID route ++ "::" ++ s')%string ∧
    ck = (if decide (c' = "") then "" else route_ID route ++ "::" ++ c')%string.
Proof.
  unfold routeTraffic. cbn zeta. destruct (TrafficPlan.Enabled tc).
  - case_decide as Hs; [by intros [= <- <-]|]. case_decide as Hc; [by intros [= <- <-]|].
    destruct (GetPlan _ _ _ _) as [t [plan|e]]; [|by intros [= <- <-]]. intros [= <- <-]. split.
    + case_decide; by rewrite ?reconcileOutlier_reg.
    + intros s' c' sk ck plan' [= <- <- <- <- <-] _ _. apply not_eq_None_Some in Hs. split_and!; try done.
      destruct (decide (c = "")); [by left|right]. apply not_eq_None_Some. tauto.
  - intros [= <- <-]. split; [by rewrite reconcileOutlier_reg|].
    intros s' c' sk ck plan [= <- <- <- <- <-] Hp Hc. rewrite (Hc eq_refl). by split_and!; [|left| |].
Qed.

(** What a route of a snapshot guarantees to the request path. *)
Record route_ok (P : gmap string string) (src : Config.Route) (r : Router.Route) : Prop := mkRouteOk {
  route_source : Router.ID r = route_ID src ∧ RouteHost r = route_Host src ∧ PathPrefix r = route_PathPrefix src;
  route_host : RouteHost r ≠ "";
  route_prefix : HasPrefix (PathPrefix r) "/" = true;
  route_pool : is_Some (P !! PoolName r);
  route_canary : CanaryPoolName r = "" ∨ is_Some (P !! CanaryPoolName r);
  route_keys : StablePoolKey r = (Router.ID r ++ "::" ++ PoolName r)%string ∧
    CanaryPoolKey r = (if decide (CanaryPoolName r = "") then "" else Router.ID r ++ "::" ++ CanaryPoolName r)%string;
  route_mtls : RequireMTLS (Router.RoutePolicy r) = rp_RequireMTLS (route_Policy src);
  route_attempts : 0 < MaxAttempts (Retry (Router.RoutePolicy r));
  route_cache : 1024 ≤ MaxObjectBytes (Cache (Router.RoutePolicy r)) ≤ 52428800 ∧
    (cache_Enabled (Cache (Router.RoutePolicy r)) = true → 0 < Policy.TTL (Cache (Router.RoutePolicy r)));
  route_plugins : Forall (λ f, Name f ≠ "" ∧ is_Some (SplitHostPort (Addr f)) ∧ 0 < Plugin.RequestTimeout f ∧ 0 < ResponseTimeout f)
    (Filters (Plugins (Router.RoutePolicy r)))
}.

Lemma cachePolicy_spec id cfg p :
  cachePolicyFromConfig id cfg = Ok p →
  1024 ≤ MaxObjectBytes p ≤ 52428800 ∧ (cache_Enabled p = true → 0 < Policy.TTL p).
Proof.
  unfold cachePolicyFromConfig. cbn zeta. set (m := if _ <=? 0 then _ else _). destruct (_ || _) eqn:E; [done|].
  apply orb_false_iff in E as [E1 E2]. apply Z.ltb_ge in E1, E2.
  intros (vary & _ & H)%result_bind_Ok. destruct (cc_Enabled cfg && _) eqn:E3; [done|]. injection H as <-. simpl.
  split; [by split|]. intros He. rewrite He in E3. simpl in E3. apply Z.leb_gt in E3. done.
Qed.

Lemma pluginFilter_spec id f names f' names' :
  pluginFilter id f names = Ok (f', names') →
  Name f' ≠ "" ∧ is_Some (SplitHostPort (Addr f')) ∧ 0 < Plugin.RequestTimeout f' ∧ 0 < ResponseTimeout f'.
Proof.
  unfold pluginFilter. cbn zeta. do 2 (case_decide; [done|]). destruct (SplitHostPort _) eqn:Es; [|done].
  destruct (_ <? _); [done|]. destruct (Z.leb_spec (durationOrDefault (pf_RequestTimeoutMS f) defaultPluginRequestTimeout) 0); [done|].
  destruct (Z.leb_spec (durationOrDefault (pf_ResponseTimeoutMS f) defaultPluginResponseTimeout) 0); [done|].
  destruct (parseFailureMode _); [|done]. intros [= <- <-]. simpl. rewrite Es. by split_and!.
Qed.

Lemma pluginFilters_spec id fs names fs' names' :
  pluginFilters id fs names = Ok (fs', names') →
  Forall (λ f, Name f ≠ "" ∧ is_Some (SplitHostPort (Addr f)) ∧ 0 < Plugin.RequestTimeout f ∧ 0 < ResponseTimeout f) fs'.
Proof.
  revert names fs' names'. induction fs as [|f fs IH]; intros names fs' names'; simpl; [by intros [= <- <-]|].
  intros ([f1 n1] & H1 & ([f2 n2] & H2 & [= <- <-])%result_bind_Ok)%result_bind_Ok.
  constructor; [by eapply pluginFilter_spec|by eapply IH].
Qed.

Lemma pluginPolicy_spec id cfg names p names' :
  pluginPolicyFromConfig id cfg names = Ok (p, names') →
  Forall (λ f, Name f ≠ "" ∧ is_Some (SplitHostPort (Addr f)) ∧ 0 < Plugin.RequestTimeout f ∧ 0 < ResponseTimeout f) (Filters p).
Proof.
  unfold pluginPolicyFromConfig. destruct (_ && _); [done|]. intros ([fs n] & H & [= <- <-])%result_bind_Ok.
  by eapply pluginFilters_spec.
Qed.

Lemma checkRoute_None route seen P :
  checkRoute route seen P = None →
  route_Host route ≠ "" ∧ HasPrefix (route_PathPrefix route) "/" = true ∧ route_ID route ∉ seen ∧ is_Some (P !! route_Pool route).
Proof.
  unfold checkRoute. cbn zeta. case_decide; [done|]. destruct (HasPrefix _ _) eqn:E; [|done]. cbn [negb].
  case_decide; [done|]. case_decide as Hp; [done|]. intros _. apply not_eq_None_Some in Hp. by split_and!.
Qed.

Lemma buildRoute_spec clk cfg P d b route d' res :
  buildRoute clk cfg P d b route = (d', res) →
  reg d' = reg d ∧
  ∀ b', res = Ok b' → ∃ r, built b' = built b ++ [r] ∧ route_ok P route r ∧ Router.ID r ∉ seenIDs b ∧
    seenIDs b' = {[Router.ID r]} ∪ seenIDs b ∧ requiresMTLS b' = requiresMTLS b || RequireMTLS (Router.RoutePolicy r).
Proof.
  unfold buildRoute. destruct (checkRoute route (seenIDs b) P) eqn:Hc; [by intros [= <- <-]|].
  apply checkRoute_None in Hc as (H1 & H2 & H3 & H4).
  destruct (pluginPolicyFromConfig _ _ _) as [[plugins names]|] eqn:Hpl; [|by intros [= <- <-]].
  destruct (cachePolicyFromConfig _ _) as [cache|] eqn:Hca; [|by intros [= <- <-]].
  destruct (trafficConfigFromRoute _ _) as [[[tc s] c]|] eqn:Ht; [|by intros [= <- <-]].
  destruct (routeTraffic clk cfg P route d tc s c) as [d1 [[[[[s' c'] sk] ck] plan]|e]] eqn:Hr;
    apply routeTraffic_spec in Hr as [Hreg Hr]; intros [= <- <-]; split; try done.
  intros b' [= <-]. apply trafficConfig_spec in Ht.
  destruct (Hr _ _ _ _ _ eq_refl H4) as (? & ? & -> & ->); [intros E; by rewrite E in Ht|].
  apply pluginPolicy_spec in Hpl. apply cachePolicy_spec in Hca as [? ?].
  eexists. split; [reflexivity|]. split; [|by split_and!]. split; simpl; try done.
  unfold intOrDefault, defaultRetryMaxAttempts. destruct (Z.leb_spec (retry_MaxAttempts (rp_Retry (route_Policy route))) 0); lia.
Qed.

Lemma buildRoutes_spec clk cfg P rs d b d' res :
  buildRoutes clk cfg P rs d b = (d', res) →
  reg d' = reg d ∧
  ∀ b', res = Ok b' → seenIDs b = list_to_set (Router.ID <$> built b) → NoDup (Router.ID <$> built b) →
    ∃ new, built b' = built b ++ new ∧ Forall2 (route_ok P) rs new ∧ NoDup (Router.ID <$> built b') ∧
      requiresMTLS b' = requiresMTLS b || existsb (λ r, RequireMTLS (Router.RoutePolicy r)) new.
Proof.
  revert d b. induction rs as [|route rs IH]; intros d b H; simpl in H.
  { injection H as <- <-. split; [done|]. intros b' [= <-] _ ?. exists []. rewrite app_nil_r, orb_false_r. by split_and!. }
  destruct (buildRoute clk cfg P d b route) as [d1 [b1|e]] eqn:E; apply buildRoute_spec in E as [Hreg Hb].
  2: { injection H as <- <-. by split. }
  destruct (IH _ _ H) as [Hreg' Hb']. split; [congruence|]. intros b' -> Hseen Hnd.
  destruct (Hb _ eq_refl) as (r & Hbuilt & Hok & Hfresh & Hs & Hm).
  destruct (Hb' _ eq_refl) as (new & -> & Hf & Hnd' & ->).
  - rewrite Hs, Hbuilt, Hseen, fmap_app, list_to_set_app_L. simpl. set_solver.
  - rewrite Hbuilt, fmap_app, NoDup_app. split_and!; [done| |apply NoDup_singleton]. intros x Hx [->|[]%elem_of_nil]%elem_of_cons.
    apply Hfresh. rewrite Hseen. by apply elem_of_list_to_set.
  - exists (r :: new). split_and!; [by rewrite Hbuilt, <- app_assoc|by constructor|done|].
    rewrite Hm. simpl. by rewrite orb_assoc.
Qed.

Section Guarantees.
Context (LoadX509KeyPair : string → string → result Certificate) (ReadFile : string → result string).
Context (AppendCertsFromPEM : string → bool) (suites : gmap string Z).
Abbreviation Build := (BuildSnapshot LoadX509KeyPair ReadFile AppendCertsFromPEM suites).

Lemma buildTLS_mtls t store rt addr :
  buildTLS LoadX509KeyPair ReadFile AppendCertsFromPEM suites t true = Ok (store, rt, addr) →
  ∃ s, store = Some s ∧ is_Some (clientCA s).
Proof.
  unfold buildTLS. destruct (tls_Enabled t); [|done]. case_decide as Hcerts; [done|]. cbn [andb].
  case_bool_decide as Hca; [done|]. intros (s & Hs & (? & _ & (? & _ & [= <- <- <-])%result_bind_Ok)%result_bind_Ok)%result_bind_Ok.
  exists s. split; [done|]. unfold LoadStore in Hs.
  destruct (tls_Certs t); [done|]. cbn [fmap list_fmap] in Hs. apply result_bind_Ok in Hs as (lm & _ & Hs).
  apply result_bind_Ok in Hs as (ca & Hload & [= <-]). case_decide; [done|]. destruct (ReadFile _); [|done].
  destruct (AppendCertsFromPEM _); [|done]. injection Hload as <-. by eexists.
Qed.

(** The pools after the pool loop and the prune, whatever follows. *)
Lemma pruned_registry clk order cfg d d' P C c :
  order ≡ₚ map_to_list (Config.Pools cfg) → registry_ok (reg d) c →
  buildPools clk order d ∅ ∅ = (d', Ok (P, C)) →
  registry_ok (PrunePools (reg d') (dom P) (pruneAt clk)) (endpoints_of cfg) ∧
  (∀ n, is_Some (P !! n) ↔ is_Some (Config.Pools cfg !! n)) ∧ (∀ n, is_Some (C !! n) ↔ is_Some (Config.Pools cfg !! n)).
Proof.
  intros Hperm Hok H. pose proof (buildPools_registry _ _ _ _ _ _ _ _ H Hok) as Hreg.
  apply buildPools_spec in H as (HP & HC & _).
  assert (∀ n, n ∈ order.*1 ↔ is_Some (Config.Pools cfg !! n)) as Hin.
  { intros n. rewrite Hperm, list_elem_of_fmap. split.
    - intros ([m p] & -> & Hm%elem_of_map_to_list). by eexists.
    - intros [p Hp]. exists (n, p). split; [done|]. by apply elem_of_map_to_list. }
  split_and!.
  - rewrite <- (pools_exactly cfg order c P Hperm HP). exact (Registry.step_ok _ _ (EPrune (dom P) (pruneAt clk)) Hreg).
  - intros n. rewrite HP, <- Hin. case_decide; [naive_solver|]. rewrite lookup_empty. split; [by intros [? ?]|done].
  - intros n. rewrite HC, lookup_empty, Hin. split; [intros [?|[? ?]]; done|by left].
Qed.

Lemma BuildSnapshot_body clk order cfg d d' res :
  Build clk order cfg d = (d', res) →
  ∃ d1, buildSnapshot LoadX509KeyPair ReadFile AppendCertsFromPEM suites clk order cfg d = (d1, res) ∧ d' = countApply res d1.
Proof. unfold BuildSnapshot. destruct (buildSnapshot _ _ _ _ _ _ _ _) as [d1 r]. intros [= <- <-]. eauto. Qed.
(** A build counts its outcome, and nothing else. *)
Lemma buildPools_metrics clk order d P C : defaultMetrics (buildPools clk order d P C).1 = defaultMetrics d.
Proof.
  revert d P C. induction order as [|[n p] l IH]; intros d P C; simpl; [done|]. destruct (pool_Endpoints p); [done|]. by rewrite IH.
Qed.
Lemma reconcileOutlier_metrics clk cfg k n d : defaultMetrics (reconcileOutlier clk cfg k n d) = defaultMetrics d.
Proof. unfold reconcileOutlier. by repeat case_match. Qed.
Lemma buildRoutes_metrics clk cfg pools rs d b : defaultMetrics (buildRoutes clk cfg pools rs d b).1 = defaultMetrics d.
Proof.
  revert d b. induction rs as [|r rs IH]; intros d b; simpl; [done|].
  assert (defaultMetrics (buildRoute clk cfg pools d b r).1 = defaultMetrics d) as Hr.
  { unfold buildRoute, routeTraffic. by repeat (case_match; simplify_eq/=); rewrite ?reconcileOutlier_metrics. }
  destruct (buildRoute clk cfg pools d b r) as [d1 [b1|e]]; simpl in *; [by rewrite IH|done].
Qed.
Lemma BuildSnapshot_counted clk order cfg d d' res :
  Build clk order cfg d = (d', res) →
  defaultMetrics d' = RecordConfigApply (match res with Ok _ => "success" | Err _ => "rejected" end) <$> defaultMetrics d.
Proof.
  intros (d1 & H & ->)%BuildSnapshot_body. simpl. f_equal. revert H. unfold buildSnapshot.
  destruct (FromConfig _); [|by intros [= <- _]]. pose proof (buildPools_metrics clk order d ∅ ∅) as Hp.
  destruct (buildPools clk order d ∅ ∅) as [d2 [[P C]|e]]; simpl in Hp; [|by intros [= <- _]]. rewrite <- Hp.
  set (d3 := d2 <| reg ::= _ |>). pose proof (buildRoutes_metrics clk cfg P (Routes cfg) d3 (mkBuilding ∅ ∅ false [])) as Hr.
  destruct (buildRoutes _ _ _ _ _ _) as [d4 [b|e]]; simpl in Hr; [|by intros [= <- _]].
  by destruct (buildTLS _ _ _ _ _ _) as [[[? ?] ?]|]; intros [= <- _].
Qed.
Lemma BuildSnapshot_sound clk order cfg d c d' s :
  order ≡ₚ map_to_list (Config.Pools cfg) → registry_ok (reg d) c → Build clk order cfg d = (d', Ok s) →
  ∃ routes, SnapshotRouter s = Some (NewRouter routes) ∧ Forall2 (route_ok (Pools s)) (Routes cfg) routes ∧
    NoDup (Router.ID <$> routes) ∧ RouteCount s = len (Routes cfg) ∧
    (∀ n, is_Some (Pools s !! n) ↔ is_Some (Config.Pools cfg !! n)) ∧
    (∀ n, is_Some (PoolConfigs s !! n) ↔ is_Some (Config.Pools cfg !! n)) ∧
    registry_ok (reg d') (endpoints_of cfg) ∧
    (∀ r, r ∈ routes → RequireMTLS (Router.RoutePolicy r) = true → ∃ store, SnapshotTLSStore s = Some store ∧ is_Some (clientCA store)) ∧
    FromConfig (Config.Limits cfg) = Ok (SnapshotLimits s) ∧ SnapshotLogging s = Logging cfg ∧ refCount s = 0 ∧ retiredAt s = 0.
Proof.
  intros Hperm Hok (d0 & H & ->)%BuildSnapshot_body. revert H. unfold buildSnapshot. destruct (FromConfig (Config.Limits cfg)) as [lim|]; [|done].
  destruct (buildPools clk order d ∅ ∅) as [d1 [[P C]|e]] eqn:Hp; [|done].
  destruct (pruned_registry _ _ _ _ _ _ _ _ Hperm Hok Hp) as (Hreg & HP & HC).
  destruct (buildRoutes _ _ _ _ _ _) as [d2 [b|e]] eqn:Hr; [|done]. apply buildRoutes_spec in Hr as [Hreg2 Hb].
  destruct (Hb b eq_refl eq_refl NoDup_nil_2) as (new & Hnew & Hf & Hnd & Hm). simpl in Hnew, Hm.
  destruct (buildTLS _ _ _ _ _ _) as [[[store rt] addr]|] eqn:Ht; [|done]. intros [= <- <-].
  exists new. simpl. rewrite Hnew in *. split_and!; try done.
  - unfold len. f_equal. symmetry. by eapply Forall2_length.
  - eapply same_pools_ok; [|exact Hreg]. by rewrite Hreg2.
  - intros r Hin Hrm. assert (requiresMTLS b = true) as E.
    { rewrite Hm. apply existsb_exists. exists r. split; [by apply list_elem_of_In|done]. }
    rewrite E in Ht. by apply buildTLS_mtls in Ht.
Qed.

(** A pool's key is its name, and every pool has endpoints. *)
Lemma BuildSnapshot_pools clk order cfg d d' s n k :
  order ≡ₚ map_to_list (Config.Pools cfg) → Build clk order cfg d = (d', Ok s) → Pools s !! n = Some k →
  k = n ∧ ∃ p, Config.Pools cfg !! n = Some p ∧ pool_Endpoints p ≠ [].
Proof.
  intros Hperm (d0 & H & ->)%BuildSnapshot_body. revert H. unfold buildSnapshot. destruct (FromConfig (Config.Limits cfg)) as [lim|]; [|done].
  destruct (buildPools clk order d ∅ ∅) as [d1 [[P C]|e]] eqn:Hp; [|done]. apply buildPools_spec in Hp as (HP & _ & He).
  destruct (buildRoutes _ _ _ _ _ _) as [d2 [b|e]]; [|done]. destruct (buildTLS _ _ _ _ _ _) as [[[store rt] addr]|]; [|done].
  intros [= <- <-]. simpl. rewrite HP. case_decide as Hn; [|by rewrite lookup_empty]. intros [= <-]. split; [done|].
  apply list_elem_of_fmap in Hn as ([m p] & -> & Hin). exists p. split; [by apply elem_of_map_to_list; rewrite <- Hperm|].
  rewrite Forall_forall in He. exact (He _ Hin).
Qed.

(** Whatever the outcome, the registry stays consistent. *)
Lemma BuildSnapshot_registry clk order cfg d c d' res :
  order ≡ₚ map_to_list (Config.Pools cfg) → registry_ok (reg d) c → Build clk order cfg d = (d', res) → ∃ c', registry_ok (reg d') c'.
Proof.
  intros Hperm Hok (d0 & H & ->)%BuildSnapshot_body. revert H. unfold buildSnapshot. destruct (FromConfig _); [|intros [= <- _]; by exists c].
  destruct (buildPools clk order d ∅ ∅) as [d1 [[P C]|e]] eqn:Hp.
  - destruct (pruned_registry _ _ _ _ _ _ _ _ Hperm Hok Hp) as (Hreg & _ & _).
    destruct (buildRoutes _ _ _ _ _ _) as [d2 r] eqn:Hr. apply buildRoutes_spec in Hr as [Hreg2 _]. simpl in Hreg2.
    intros H. exists (endpoints_of cfg). eapply same_pools_ok; [|exact Hreg]. rewrite <- Hreg2. f_equal. change (reg (countApply res d0)) with (reg d0).
    destruct r; [|by simplify_eq]. destruct (buildTLS _ _ _ _ _ _) as [[[? ?] ?]|]; by simplify_eq/=.
  - intros [= <- _]. destruct (buildPools_failed _ _ _ _ _ _ _ _ Hok Hp) as [c' ?]. by exists c'.
Qed.

(** C16. A snapshot that is built is safe to serve from.  Its routes are the
    configured ones, in order and with distinct ids; each has a host, a
    rooted prefix and pools that exist with their settings, a positive number
    of attempts, a bounded cache entry size and usable plugin filters; the
    pool registry holds exactly the configured endpoints; and when some route
    requires client certificates there is a certificate pool to check them. *)
Theorem snapshot_sound clk order cfg d c d' s :
  order ≡ₚ map_to_list (Config.Pools cfg) → registry_ok (reg d) c → Build clk order cfg d = (d', Ok s) →
  ∃ routes, SnapshotRouter s = Some (NewRouter routes) ∧ Forall2 (route_ok (Pools s)) (Routes cfg) routes ∧
    NoDup (Router.ID <$> routes) ∧ RouteCount s = len (Routes cfg) ∧
    (∀ n, is_Some (Pools s !! n) ↔ is_Some (Config.Pools cfg !! n)) ∧
    (∀ n, is_Some (PoolConfigs s !! n) ↔ is_Some (Config.Pools cfg !! n)) ∧
    registry_ok (reg d') (endpoints_of cfg) ∧
    (∀ r, r ∈ routes → RequireMTLS (Router.RoutePolicy r) = true → ∃ store, SnapshotTLSStore s = Some store ∧ is_Some (clientCA store)).
Proof.
  intros Hperm Hok H. destruct (BuildSnapshot_sound _ _ _ _ _ _ _ Hperm Hok H) as (routes & H1 & H2 & H3 & H4 & H5 & H6 & H7 & H8 & _).
  by exists routes.
Qed.

(** Once the limits and the pools pass, the registry follows the configuration. *)
Lemma BuildSnapshot_follows clk order cfg d c d' res lim :
  order ≡ₚ map_to_list (Config.Pools cfg) → registry_ok (reg d) c →
  FromConfig (Config.Limits cfg) = Ok lim → Forall (λ np, pool_Endpoints np.2 ≠ []) order →
  Build clk order cfg d = (d', res) → registry_ok (reg d') (endpoints_of cfg).
Proof.
  intros Hperm Hok Hl Hne (d0 & H & ->)%BuildSnapshot_body. unfold buildSnapshot in H. rewrite Hl in H.
  destruct (buildPools clk order d ∅ ∅) as [d1 [[P C]|e1]] eqn:Hp.
  - destruct (pruned_registry _ _ _ _ _ _ _ _ Hperm Hok Hp) as (Hreg & _ & _).
    destruct (buildRoutes _ _ _ _ _ _) as [d2 r] eqn:Hr. apply buildRoutes_spec in Hr as [Hreg2 _].
    eapply same_pools_ok; [|exact Hreg]. simpl in Hreg2. rewrite <- Hreg2. f_equal. change (reg (countApply res d0)) with (reg d0).
    destruct r as [b|e2]; [|by simplify_eq]. destruct (buildTLS _ _ _ _ _ _) as [[[? ?] ?]|]; by simplify_eq/=.
  - exfalso. clear - Hne Hp. revert Hp. generalize (∅ : gmap string string) (∅ : gmap string PoolConfig). revert d.
    induction Hne as [|[n p] l Hn _ IH]; intros d P C; simpl; [done|]. destruct (pool_Endpoints p) eqn:E; [done|]. apply IH.
Qed.
Lemma pick_unknown r cfg k out mapOrder now t :
  registry_ok r (endpoints_of cfg) → Config.Pools cfg !! k = None → Registry.Pick r k out mapOrder now t = (r, (emptyPick, false)).
Proof.
  intros Hreg Hk. specialize (Hreg k). unfold Registry.Pick, getPool. unfold endpoints_of in Hreg. rewrite lookup_fmap, Hk in Hreg.
  by destruct (Registry.pools r !! k).
Qed.

(** A rejected configuration is not without effect: once its pools pass, a
    build that fails later (a bad route, a missing certificate) has already
    made the live registry follow it, so a pool that only the current
    snapshot uses can no longer be picked from. *)
Theorem snapshot_rejected_config_applied clk order cfg d c d' e lim k out mapOrder now t :
  order ≡ₚ map_to_list (Config.Pools cfg) → registry_ok (reg d) c →
  FromConfig (Config.Limits cfg) = Ok lim → Forall (λ np, pool_Endpoints np.2 ≠ []) order →
  Build clk order cfg d = (d', Err e) → Config.Pools cfg !! k = None →
  registry_ok (reg d') (endpoints_of cfg) ∧ Registry.Pick (reg d') k out mapOrder now t = (reg d', (emptyPick, false)).
Proof.
  intros Hperm Hok Hl Hne H Hk.
  pose proof (BuildSnapshot_follows _ _ _ _ _ _ _ _ Hperm Hok Hl Hne H) as Hreg. split; [done|]. by eapply pick_unknown.
Qed.

End Guarantees.

(** ** A small configuration *)

Definition example_pool : Config.Pool :=
  Config.mkPool ["10.0.0.1:80"] (mkHealthConfig "" 0 0 0 0 0 0) (Config.mkBreakerConfig true 0 0 0 0 0)
    (mkOutlierConfig false 0 0 0 0 0 0 0 false 0 0 0 0 0) (mkPoolTransportConfig 0 0 0) false.
Definition example_traffic : TrafficConfig :=
  mkTrafficConfig false "" "" 0 0 (Config.mkCohortConfig false "") (Config.mkOverloadConfig false 0 0 0)
    (Config.mkAutoDrainConfig false 0 0 f64_zero 0).
Definition example_policy : Config.RoutePolicy :=
  mkRoutePolicy 0 0 0 (mkRetryConfig false 0 0 0 [] [] 0 0) (mkRetryBudgetConfig false 0 0) (mkClientRetryCapConfig false "" 0 0 0)
    false "" (mkCacheConfig false false 0 0 [] None 0 None) example_traffic (mkPluginConfig false []).
Definition example_route (id pool : string) : Config.Route := Config.mkRoute id "example.local" "/" [] pool example_policy false.
Definition example_snapshot_config (routes : list Config.Route) : Config.Config :=
  Config.mkConfig "" (mkTLSConfig false "" [] "" "" []) (mkLimitsConfig 0 0 0 None 0 0 0 0 0) (mkShutdownConfig 0 0 0)
    (mkLoggingConfig false) None routes {["p" := example_pool]}.
Definition example_clock : Clock := mkClock (λ _ _, 0) (λ _, 0) (λ _, 0) (λ _, 0) (λ _, 0) (λ _, 0) 0 0.
Definition example_deps : Deps := mkDeps (Registry.NewRegistry 0 0) None (TrafficPlan.NewRegistry 0 0) 0 None.

Lemma new_registry_ok interval timeout : registry_ok (Registry.NewRegistry interval timeout) ∅.
Proof. done. Qed.

Lemma snapshot_sound_witness :
  ∃ d s, BuildSnapshot (λ _ _, Err "") (λ _, Err "") (λ _, false) ∅ example_clock [("p", example_pool)]
           (example_snapshot_config [example_route "r" "p"]) example_deps = (d, Ok s) ∧
    ∃ routes, SnapshotRouter s = Some (NewRouter routes) ∧
      Forall2 (route_ok (Pools s)) [example_route "r" "p"] routes.
Proof.
  do 2 eexists. split; [vm_compute; reflexivity|].
  destruct (snapshot_sound (λ _ _, Err "") (λ _, Err "") (λ _, false) ∅ example_clock [("p", example_pool)]
    (example_snapshot_config [example_route "r" "p"]) example_deps ∅ _ _
    (Permutation_refl _) (new_registry_ok 0 0) ltac:(vm_compute; reflexivity)) as (routes & H1 & H2 & _).
  exists routes. split; [exact H1|exact H2].
Defined.

(** A live registry with pool ["live"], and a pushed configuration whose only
    route is wrong: it is rejected, and ["live"] is gone. *)
Definition live_deps : Deps :=
  example_deps <| reg ::= (λ r, Registry.Reconcile r "live" ["10.0.0.9:80"] (healthConfig (pool_Health example_pool)) DefaultOptions (λ _, 0) 0 0) |>.

Lemma snapshot_rejected_config_applied_witness :
  ∃ d e, BuildSnapshot (λ _ _, Err "") (λ _, Err "") (λ _, false) ∅ example_clock [("p", example_pool)]
           (example_snapshot_config [example_route "r" "missing"]) live_deps = (d, Err e) ∧
    (Registry.Pick (reg live_deps) "live" None [] 0 0).2.2 = true ∧ (Registry.Pick (reg d) "live" None [] 0 0).2.2 = false.
Proof.
  do 2 eexists. split; [vm_compute; reflexivity|]. split; [vm_compute; reflexivity|].
  match goal with |- (Registry.Pick (reg ?d) _ _ _ _ _).2.2 = _ =>
    assert (Registry.Pick (reg d) "live" None [] 0 0 = (reg d, (emptyPick, false))) as H end.
  { refine (proj2 (snapshot_rejected_config_applied (λ _ _, Err "") (λ _, Err "") (λ _, false) ∅ example_clock [("p", example_pool)]
      (example_snapshot_config [example_route "r" "missing"]) live_deps {["live" := ["10.0.0.9:80"]]} _ _ _ "live" None [] 0 0
      (Permutation_refl _) _ _ _ _ _)).
    - exact (Registry.step_ok _ ∅ (EReconcile "live" ["10.0.0.9:80"] (healthConfig (pool_Health example_pool)) DefaultOptions (λ _, 0) 0 0) (new_registry_ok 0 0)).
    - vm_compute. reflexivity.
    - by repeat constructor.
    - vm_compute. reflexivity.
    - reflexivity. }
  by rewrite H.
Defined.
