(* ===== verification/Store.v ===== *)
(** * The snapshot store (internal/runtime: store.go, refcount.go, pressure.go, inflight.go, shutdown.go)

    Snapshots are pointers: [heap] maps addresses to snapshots, the store
    holds addresses.  The methods are written as the atomic operations and
    critical sections they consist of; here they run one after the other, and
    StoreSteps.v interleaves their parts.  The atomic counter and the mutex of
    the in-flight tracker are separate steps. *)
From S2P Require Import Prelude.
From S2P Require Import Config.
From S2P Require Import Snapshot.
From stdpp Require Import gmultiset.
#[local] Open Scope Z_scope.

(** ** refcount.go *)

Definition IncRef (s : Snapshot) : Snapshot := s <| refCount := i64 (refCount s + 1) |>.
Definition DecRef (s : Snapshot) : Snapshot := s <| refCount := i64 (refCount s - 1) |>.
Definition RefCount (s : Snapshot) : Z := refCount s.
Definition MarkRetired (s : Snapshot) (now : Time) : Snapshot := s <| retiredAt := UnixNano now |>.
Definition Retired (s : Snapshot) : bool := 0 <? retiredAt s.
Definition RetiredAt (s : Snapshot) : Time := if retiredAt s =? 0 then zeroTime else retiredAt s.

(** ** store.go *)

Definition defaultMaxRetiredSnapshots : Z := 10.

Record Store := mkStore {
  heap : gmap nat Snapshot;
  current : option nat;
  retired : list nat;
  maxRetired : Z
}.
#[export] Instance Store_eta : Eta Store := fun s => mkStore (heap s) (current s) (retired s) (maxRetired s).

Record RetiredSnapshotInfo := mkInfo { InfoID : Z; InfoRefCount : Z; InfoRetiredAt : Time }.

Definition NewStore (h : gmap nat Snapshot) (initial : option nat) : Store := mkStore h initial [] defaultMaxRetiredSnapshots.
Definition Get (s : Store) : option nat := current s.

(** The count of the snapshot at [p], an atomic addition. *)
Definition addRef (p : nat) (s : Store) : Store := s <| heap ::= alter IncRef p |>.
Definition dropRef (p : nat) (s : Store) : Store := s <| heap ::= alter DecRef p |>.

(** A load, then an addition; neither takes the lock. *)
Definition Acquire (s : Store) : Store * option nat :=
  match Get s with
  | None => (s, None)
  | Some p => (addRef p s, Some p)
  end.

(** Whether a retired snapshot is kept: it is still referenced. *)
Definition referenced (s : Store) (p : nat) : bool :=
  match heap s !! p with Some x => negb (RefCount x =? 0) | None => false end.
Definition Reap (s : Store) : Store := s <| retired ::= List.filter (referenced s) |>.

Definition Release (s : Store) (p : nat) : Store :=
  let s := dropRef p s in
  match heap s !! p with
  | Some x => if Retired x && (RefCount x =? 0) then Reap s else s
  | None => s
  end.

(** [Swap] loads the current snapshot without the lock; the snapshot is
    retired and the next one published under it, and [Reap] takes it again. *)
Definition markPrevious (previous : option nat) (now : Time) (s : Store) : Store :=
  match previous with Some p => s <| heap ::= alter (λ x, MarkRetired x now) p |> | None => s end.
Definition publish (previous : option nat) (next : nat) (s : Store) : Store :=
  match previous with Some p => s <| retired ::= (λ l, l ++ [p]) |> | None => s end <| current := Some next |>.
Definition Swap (s : Store) (next : nat) (now : Time) : Store :=
  let previous := Get s in Reap (publish previous next (markPrevious previous now s)).

Definition RetiredCount (s : Store) : Z := len (retired s).
Definition RetiredSnapshots (s : Store) : list RetiredSnapshotInfo :=
  omap (λ p, (λ x, mkInfo (SnapshotID x) (RefCount x) (RetiredAt x)) <$> heap s !! p) (retired s).
Definition SetMaxRetired (s : Store) (limit : Z) : Store := s <| maxRetired := or_default limit defaultMaxRetiredSnapshots |>.
Definition maxRetiredSnapshots (s : Store) : Z := or_default (maxRetired s) defaultMaxRetiredSnapshots.
(** pressure.go *)
Definition UnderPressure (s : Store) : bool := maxRetiredSnapshots s <=? RetiredCount s.

(** ** shutdown.go *)

Record ShutdownConfig := mkShutdown { Drain : Duration; GracefulTimeout : Duration; ForceClose : Duration }.
Definition DefaultShutdownConfig : ShutdownConfig := mkShutdown (2 * Second) (5 * Second) (2 * Second).
Definition ShutdownFromConfig (cfg : Config.ShutdownConfig) : result ShutdownConfig :=
  let pick ms d name := if 0 <? ms then Ok (millis ms) else if ms <? 0 then Err (name ++ " must be non-negative") else Ok d in
  let? drain := pick (DrainMS cfg) (2 * Second) "drain_ms" in
  let? graceful := pick (GracefulTimeoutMS cfg) (5 * Second) "graceful_timeout_ms" in
  let? force := pick (ForceCloseMS cfg) (2 * Second) "force_close_ms" in
  Ok (mkShutdown drain graceful force).
Definition ApplyShutdownDefaults (cfg : ShutdownConfig) : ShutdownConfig :=
  mkShutdown (or_default (Drain cfg) (Drain DefaultShutdownConfig))
    (or_default (GracefulTimeout cfg) (GracefulTimeout DefaultShutdownConfig))
    (or_default (ForceClose cfg) (ForceClose DefaultShutdownConfig)).

(** ** inflight.go

    [closed] is the set of closed channels; [None] as the result of
    [closeZero] is the panic of closing a closed channel. *)
Record InflightTracker := mkTracker { count : Z; zeroCh : nat; closed : gset nat; nextCh : nat }.
#[export] Instance InflightTracker_eta : Eta InflightTracker := fun t => mkTracker (count t) (zeroCh t) (closed t) (nextCh t).

Definition NewInflightTracker : InflightTracker := mkTracker 0 0 {[0%nat]} 1.
(** [count.Add(1)]: whether the channel has to be replaced. *)
Definition incCount (t : InflightTracker) : InflightTracker * bool :=
  let t := t <| count := i64 (count t + 1) |> in (t, count t =? 1).
Definition openZero (t : InflightTracker) : InflightTracker := t <| zeroCh := nextCh t |> <| nextCh ::= S |>.
(** [count.Add(-1)]: whether the channel has to be closed. *)
Definition decCount (t : InflightTracker) : InflightTracker * bool :=
  let t := t <| count := i64 (count t - 1) |> in (t, count t =? 0).
Definition closeZero (t : InflightTracker) : option InflightTracker :=
  if decide (zeroCh t ∈ closed t) then None else Some (t <| closed ::= ({[zeroCh t]} ∪.) |>).

Definition Inc (t : InflightTracker) : InflightTracker := let '(t, first) := incCount t in if first then openZero t else t.
Definition Dec (t : InflightTracker) : option InflightTracker := let '(t, last) := decCount t in if last then closeZero t else Some t.
(** Whether [Wait] returns without waiting for its context. *)
Definition WaitReady (t : InflightTracker) : bool := bool_decide (zeroCh t ∈ closed t).

(** ** References and retirement *)

Inductive event := EAcquire | ERelease (p : nat) | ESwap (next : nat) (now : Time) | EReap | ESetMax (limit : Z).

(** The store and the references held by requests. *)
Definition store_step (sh : Store * gmultiset nat) (ev : event) : Store * gmultiset nat :=
  let '(s, held) := sh in
  match ev with
  | EAcquire => match Acquire s with (s, Some p) => (s, {[+ p +]} ⊎ held) | (s, None) => (s, held) end
  | ERelease p => if decide (p ∈ held) then (Release s p, held ∖ {[+ p +]}) else sh
  | ESwap next now => (Swap s next now, held)
  | EReap => (Reap s, held)
  | ESetMax limit => (SetMaxRetired s limit, held)
  end.

Record store_ok (s : Store) (held : gmultiset nat) (n : Z) : Prop := mkStoreOk {
  ok_counts : ∀ p x, heap s !! p = Some x → refCount x = Z.of_nat (multiplicity p held);
  ok_size : Z.of_nat (size held) ≤ n;
  ok_heap : ∀ p, p ∈ held → is_Some (heap s !! p);
  ok_marked : ∀ p x, p ∈ retired s → heap s !! p = Some x → Retired x = true;
  ok_needed : ∀ p, p ∈ retired s → p ∈ held;
  ok_tracked : ∀ p, p ∈ held → current s = Some p ∨ p ∈ retired s
}.

Lemma multiplicity_size (p : nat) (X : gmultiset nat) : (multiplicity p X ≤ size X)%nat.
Proof.
  induction X as [|y X IH] using gmultiset_ind; [rewrite multiplicity_empty; lia|].
  rewrite multiplicity_disj_union, gmultiset_size_disj_union, gmultiset_size_singleton, multiplicity_singleton. case_decide; lia.
Qed.

(** [referenced] is membership in the held references. *)
Lemma referenced_held s held n p : store_ok s held n → referenced s p = true ↔ p ∈ held.
Proof.
  intros [Hc _ Hh _ _ _]. unfold referenced, RefCount. destruct (heap s !! p) as [x|] eqn:E.
  - rewrite (Hc p x E), negb_true_iff, Z.eqb_neq, elem_of_multiplicity. lia.
  - split; [done|]. intros [y Hy]%Hh. congruence.
Qed.

(** Reaping restores the last two clauses from a weaker state. *)
Lemma store_Reap_ok s held n :
  (∀ p x, heap s !! p = Some x → refCount x = Z.of_nat (multiplicity p held)) → Z.of_nat (size held) ≤ n →
  (∀ p, p ∈ held → is_Some (heap s !! p)) →
  (∀ p x, p ∈ retired s → heap s !! p = Some x → Retired x = true) →
  (∀ p, p ∈ held → current s = Some p ∨ p ∈ retired s) → store_ok (Reap s) held n.
Proof.
  intros Hc Hs Hh Hm Ht.
  assert (∀ p, referenced s p = true ↔ p ∈ held) as Href.
  { intros p. unfold referenced, RefCount. destruct (heap s !! p) as [x|] eqn:E.
    - rewrite (Hc p x E), negb_true_iff, Z.eqb_neq, elem_of_multiplicity. lia.
    - split; [done|]. intros [y Hy]%Hh. congruence. }
  assert (∀ p, p ∈ retired (Reap s) ↔ p ∈ retired s ∧ p ∈ held) as Hr.
  { intros p. simpl. rewrite !list_elem_of_In, filter_In, Href. tauto. }
  split; try done; intros p; [intros x [? _]%Hr; by eapply Hm|by intros [_ ?]%Hr|].
  intros Hp. destruct (Ht p Hp); [by left|right]. by apply Hr.
Qed.

Lemma Acquire_ok s held n p s' :
  n < max_i64 → store_ok s held n → is_Some (heap s !! p) → Acquire s = (s', Some p) → store_ok s' ({[+ p +]} ⊎ held) (n + 1).
Proof.
  intros Hn [Hc Hs Hh Hm Hne Ht] Hp H. unfold Acquire, Get in H. destruct (current s) as [q|] eqn:Hq; [|done]. injection H as <- <-.
  split; simpl.
  - intros r x. rewrite multiplicity_disj_union, multiplicity_singleton. destruct (decide (r = q)) as [->|Hne'].
    + rewrite lookup_alter_eq. intros (y & Hy & ->)%fmap_Some. simpl. rewrite (Hc q y Hy).
      pose proof (multiplicity_size q held). rewrite i64_small by lia. lia.
    + rewrite lookup_alter_ne by done. intros Hx. rewrite (Hc r x Hx). lia.
  - rewrite gmultiset_size_disj_union, gmultiset_size_singleton. lia.
  - intros r Hr. rewrite lookup_alter_is_Some. apply gmultiset_elem_of_disj_union in Hr as [->%gmultiset_elem_of_singleton|?]; auto.
  - intros r x Hr. destruct (decide (r = q)) as [->|]; [rewrite lookup_alter_eq|rewrite lookup_alter_ne by done; by apply Hm].
    intros (y & Hy & ->)%fmap_Some. by apply (Hm q y).
  - intros r Hr. apply gmultiset_elem_of_disj_union. right. by apply Hne.
  - intros r Hr. rewrite Hq. apply gmultiset_elem_of_disj_union in Hr as [->%gmultiset_elem_of_singleton|Hr]; [by left|].
    by apply Ht.
Qed.

Lemma Release_ok s held n p :
  n < max_i64 → p ∈ held → store_ok s held n → store_ok (Release s p) (held ∖ {[+ p +]}) n.
Proof.
  intros Hn Hp [Hc Hs Hh Hm Hne Ht]. unfold Release, dropRef. set (s1 := s <| heap ::= alter DecRef p |>).
  destruct (Hh p Hp) as [x Hx]. assert (heap s1 !! p = Some (DecRef x)) as Hx1 by (simpl; by rewrite lookup_alter_eq, Hx).
  assert (∀ q, multiplicity q (held ∖ {[+ p +]}) = (multiplicity q held - if decide (q = p) then 1 else 0)%nat) as Hmul.
  { intros q. by rewrite multiplicity_difference, multiplicity_singleton. }
  assert (∀ q, q ∈ held ∖ {[+ p +]} → q ∈ held) as Hsub by (intros q; rewrite !elem_of_multiplicity, Hmul; lia).
  rewrite elem_of_multiplicity in Hp.
  assert (∀ q y, heap s1 !! q = Some y → refCount y = Z.of_nat (multiplicity q (held ∖ {[+ p +]}))) as Hc1.
  { intros q y. rewrite Hmul. case_decide as E; [subst q; rewrite Hx1|].
    - intros [= <-]. simpl. rewrite (Hc p x Hx). pose proof (multiplicity_size p held). rewrite i64_small by lia. lia.
    - simpl. rewrite lookup_alter_ne by done. intros Hy. rewrite (Hc q y Hy). lia. }
  assert (Z.of_nat (size (held ∖ {[+ p +]})) ≤ n) as Hs1.
  { rewrite gmultiset_size_difference by (apply gmultiset_singleton_subseteq_l, elem_of_multiplicity; lia).
    rewrite gmultiset_size_singleton. lia. }
  assert (∀ q, q ∈ held ∖ {[+ p +]} → is_Some (heap s1 !! q)) as Hh1.
  { intros q Hq. simpl. rewrite lookup_alter_is_Some. by apply Hh, Hsub. }
  assert (∀ q y, q ∈ retired s1 → heap s1 !! q = Some y → Retired y = true) as Hm1.
  { intros q y Hq. destruct (decide (q = p)) as [->|]; [rewrite Hx1|simpl; rewrite lookup_alter_ne by done; by apply Hm].
    intros [= <-]. by apply (Hm p x). }
  assert (∀ q, q ∈ held ∖ {[+ p +]} → current s1 = Some q ∨ q ∈ retired s1) as Ht1 by (intros q Hq; by apply Ht, Hsub).
  change (alter DecRef p (heap s)) with (heap s1). rewrite Hx1.
  destruct (Retired (DecRef x) && (RefCount (DecRef x) =? 0)) eqn:E; [by apply store_Reap_ok|].
  split; try done. intros q Hq. apply elem_of_multiplicity. rewrite Hmul.
  pose proof (Hne q Hq) as Hin. rewrite elem_of_multiplicity in Hin. case_decide as Eq; [subst q|lia].
  pose proof (Hm1 p _ Hq Hx1) as Hret. rewrite Hret in E. cbn [andb] in E. apply Z.eqb_neq in E. unfold RefCount in E.
  rewrite (Hc1 p _ Hx1), Hmul, decide_True in E by done. lia.
Qed.

Lemma Swap_ok s held n next now :
  0 < UnixNano now → store_ok s held n → store_ok (Swap s next now) held n.
Proof.
  intros Hnow [Hc Hs Hh Hm Hne Ht]. unfold Swap, Get. destruct (current s) as [prev|] eqn:Hcur; apply store_Reap_ok; try done; simpl.
  - intros p x. destruct (decide (p = prev)) as [->|]; [rewrite lookup_alter_eq|rewrite lookup_alter_ne by done; apply Hc].
    intros (y & Hy & ->)%fmap_Some. simpl. by apply Hc.
  - intros p Hp. rewrite lookup_alter_is_Some. by apply Hh.
  - intros p x Hp. destruct (decide (p = prev)) as [->|Hne'].
    + rewrite lookup_alter_eq. intros (y & _ & ->)%fmap_Some. unfold Retired. simpl. lia.
    + rewrite lookup_alter_ne by done. apply elem_of_app in Hp as [Hp|[->|[]%elem_of_nil]%elem_of_cons]; [by apply Hm|done].
  - intros p Hp. rewrite elem_of_app. destruct (Ht p Hp) as [[= ->]|?]; [right; right; by left|right; by left].
  - intros p Hp. destruct (Ht p Hp); [done|by right].
Qed.

(** The clock of the swaps lies after 1970. *)
Definition clock_ok (ev : event) : Prop := match ev with ESwap _ now => 0 < UnixNano now | _ => True end.
(** The snapshots that are ever current exist. *)
Definition known (h : gmap nat Snapshot) (ev : event) : Prop := match ev with ESwap next _ => is_Some (h !! next) | _ => True end.

Lemma heap_dom sh ev p : is_Some (heap (store_step sh ev).1 !! p) ↔ is_Some (heap sh.1 !! p).
Proof.
  destruct sh as [s held], ev as [|q|next now| |limit]; simpl; try done.
  - unfold Acquire. destruct (Get s); [|done]. simpl. by rewrite lookup_alter_is_Some.
  - case_decide; [|done]. unfold Release. simpl. destruct (alter DecRef q (heap s) !! q); [destruct (_ && _)|];
      simpl; by rewrite lookup_alter_is_Some.
  - unfold Swap, Get. destruct (current s); [|done]. simpl. by rewrite lookup_alter_is_Some.
Qed.

Lemma current_known sh ev h :
  (∀ p, is_Some (h !! p) → is_Some (heap sh.1 !! p)) → known h ev →
  (∀ p, current sh.1 = Some p → is_Some (heap sh.1 !! p)) →
  ∀ p, current (store_step sh ev).1 = Some p → is_Some (heap (store_step sh ev).1 !! p).
Proof.
  intros Hh Hk Hc p Hp. apply heap_dom. revert Hp.
  destruct sh as [s held], ev as [|q|next now| |limit]; simpl in *; auto.
  - unfold Acquire. destruct (Get s); simpl; auto.
  - case_decide; [|auto]. unfold Release. simpl. destruct (alter DecRef q (heap s) !! q); [destruct (_ && _)|]; simpl; auto.
  - unfold Swap, Get. destruct (current s); simpl; intros [= <-]; auto.
Qed.

Lemma store_step_ok s held n ev :
  0 ≤ n < max_i64 → clock_ok ev → (∀ p, current s = Some p → is_Some (heap s !! p)) → store_ok s held n →
  store_ok (store_step (s, held) ev).1 (store_step (s, held) ev).2 (n + 1).
Proof.
  intros Hn Hev Hcur Hok.
  assert (∀ s h, store_ok s h n → store_ok s h (n + 1)) as Hw by (intros ? ? []; split; auto; lia).
  destruct ev as [|p|next now| |limit]; simpl.
  - destruct (Acquire s) as [s' [p|]] eqn:E.
    + simpl. eapply Acquire_ok; try done; try lia. apply Hcur. unfold Acquire, Get in E. destruct (current s); simplify_eq; done.
    + apply Hw. unfold Acquire in E. destruct (Get s); simplify_eq. done.
  - case_decide; [|by apply Hw]. apply Hw. simpl. apply Release_ok; [lia|done..].
  - apply Hw. by apply Swap_ok.
  - apply Hw. destruct Hok. by apply store_Reap_ok.
  - apply Hw. destruct Hok. by split.
Qed.

Lemma store_history_ok evs s held n h :
  0 ≤ n → n + len evs < max_i64 → Forall clock_ok evs → Forall (known h) evs →
  (∀ p, is_Some (h !! p) → is_Some (heap s !! p)) → (∀ p, current s = Some p → is_Some (heap s !! p)) → store_ok s held n →
  store_ok (foldl store_step (s, held) evs).1 (foldl store_step (s, held) evs).2 (n + len evs).
Proof.
  revert s held n. induction evs as [|ev evs IH]; intros s held n Hn Hlen Hc Hk Hh Hcur Hok.
  { unfold len. simpl. by rewrite Z.add_0_r. }
  rewrite len_cons in *. pose proof (len_nonneg evs). apply Forall_cons_1 in Hc as [Hc1 Hc]. apply Forall_cons_1 in Hk as [Hk1 Hk].
  cbn [foldl]. rewrite (surjective_pairing (store_step (s, held) ev)).
  replace (n + (len evs + 1)) with (n + 1 + len evs) by lia. apply IH; try done; try lia.
  - intros p Hp. apply heap_dom. by apply Hh.
  - by apply (current_known (s, held) ev h).
  - apply store_step_ok; [lia|done..].
Qed.

(** One after the other: in every history of requests acquiring and releasing the current snapshot
    while configurations are swapped in (new ones, or earlier ones again),
    each snapshot's count is the number of requests holding it; a snapshot
    that is held and no longer current is in the retired list, and the list
    holds no snapshot whose last reference is gone. *)
Theorem store_retired_in_use h initial evs :
  (∀ p x, h !! p = Some x → refCount x = 0) → is_Some (h !! initial) →
  len evs < max_i64 → Forall clock_ok evs → Forall (known h) evs →
  let '(s, held) := foldl store_step (NewStore h (Some initial), ∅) evs in
  (∀ p x, heap s !! p = Some x → RefCount x = Z.of_nat (multiplicity p held)) ∧
  (∀ p, p ∈ retired s → p ∈ held) ∧ (∀ p, p ∈ held → current s = Some p ∨ p ∈ retired s).
Proof.
  intros H0 Hi Hlen Hc Hk.
  assert (store_ok (foldl store_step (NewStore h (Some initial), ∅) evs).1
            (foldl store_step (NewStore h (Some initial), ∅) evs).2 (0 + len evs)) as Hok.
  { apply (store_history_ok evs _ _ 0 h); try done; [by intros p [= <-]|].
    split; simpl.
    - intros p x Hx. rewrite multiplicity_empty. by eapply H0.
    - done.
    - by intros p ?%gmultiset_not_elem_of_empty.
    - by intros p x ?%elem_of_nil.
    - by intros p ?%elem_of_nil.
    - by intros p ?%gmultiset_not_elem_of_empty. }
  by destruct (foldl store_step _ evs) as [s held], Hok.
Qed.

Definition blank_snapshot (id : Z) : Snapshot :=
  mkSnapshot id None ∅ ∅ false None None "" "" 0 "" 0 Limits.Default (mkLoggingConfig false) 0 0.

Lemma store_retired_in_use_witness :
  let '(s, held) := foldl store_step (NewStore {[0%nat := blank_snapshot 1; 1%nat := blank_snapshot 2]} (Some 0%nat), ∅)
                      [EAcquire; ESwap 1 5; EAcquire; ERelease 1] in
  ∀ p, p ∈ retired s → p ∈ held.
Proof.
  pose proof (store_retired_in_use {[0%nat := blank_snapshot 1; 1%nat := blank_snapshot 2]} 0
    [EAcquire; ESwap 1 5; EAcquire; ERelease 1]) as H.
  destruct (foldl store_step _ _) as [s held]. apply H.
  - intros p x. rewrite lookup_insert_Some, lookup_singleton_Some. intros [[_ <-]|[_ [_ <-]]]; done.
  - by eexists.
  - done.
  - repeat constructor.
  - repeat constructor. by eexists.
Defined.

(** ** The in-flight counter *)

(** Two requests; each is where it stands in [Inc] and [Dec]. *)
Inductive pc := PIdle | PIncremented | PServing | PDecremented | PPanicked.

Record tracker_state := mkTrackerState { tracker : InflightTracker; threads : gmap nat pc }.

Inductive tracker_step : tracker_state → tracker_state → Prop :=
| step_inc s i t first : threads s !! i = Some PIdle → incCount (tracker s) = (t, first) →
    tracker_step s (mkTrackerState t (<[i := if first then PIncremented else PServing]> (threads s)))
| step_open s i : threads s !! i = Some PIncremented →
    tracker_step s (mkTrackerState (openZero (tracker s)) (<[i := PServing]> (threads s)))
| step_dec s i t last : threads s !! i = Some PServing → decCount (tracker s) = (t, last) →
    tracker_step s (mkTrackerState t (<[i := if last then PDecremented else PIdle]> (threads s)))
| step_close s i t : threads s !! i = Some PDecremented → closeZero (tracker s) = Some t →
    tracker_step s (mkTrackerState t (<[i := PIdle]> (threads s)))
| step_panic s i : threads s !! i = Some PDecremented → closeZero (tracker s) = None →
    tracker_step s (mkTrackerState (tracker s) (<[i := PPanicked]> (threads s))).

Ltac tracker_run i :=
  eapply rtc_l;
  [first [eapply (step_inc _ i); reflexivity | eapply (step_open _ i); reflexivity | eapply (step_dec _ i); reflexivity
         |eapply (step_close _ i); reflexivity | eapply (step_panic _ i); reflexivity]|].

(** A sequential history: [true] is [Inc], [false] is [Dec] of a request that
    is in flight; [None] after a panic. *)
Definition tracker_event (o : option InflightTracker) (inc : bool) : option InflightTracker :=
  t ← o; if inc then Some (Inc t) else if count t =? 0 then Some t else Dec t.

Definition tracker_ok (n : Z) (t : InflightTracker) : Prop :=
  0 ≤ count t ≤ n ∧ (zeroCh t < nextCh t)%nat ∧ (∀ c, c ∈ closed t → (c < nextCh t)%nat) ∧ (zeroCh t ∈ closed t ↔ count t = 0).

Lemma tracker_event_ok n t b :
  0 ≤ n < max_i64 → tracker_ok n t → ∃ t', tracker_event (Some t) b = Some t' ∧ tracker_ok (n + 1) t'.
Proof.
  intros Hn (H1 & H2 & H3 & H4). simpl. destruct b.
  - eexists. split; [done|]. unfold Inc, incCount. simpl. rewrite i64_small by lia.
    destruct (Z.eqb_spec (count t + 1) 1); unfold tracker_ok; simpl.
    + split_and!; [lia..| |].
      * intros c Hc%H3. lia.
      * split; [intros Hc%H3; lia|lia].
    + split_and!; [lia..|done|]. rewrite H4. lia.
  - destruct (Z.eqb_spec (count t) 0) as [E|E]; [eexists; split; [done|]; unfold tracker_ok; split_and!; try done; lia|].
    unfold Dec, decCount. simpl. rewrite i64_small by lia. destruct (Z.eqb_spec (count t - 1) 0); unfold closeZero; simpl.
    + rewrite decide_False by tauto. eexists. split; [done|]. unfold tracker_ok. simpl. split_and!; [lia..| |].
      * intros c [->%elem_of_singleton|Hc%H3]%elem_of_union; lia.
      * split; [done|]. intros _. set_solver.
    + eexists. split; [done|]. unfold tracker_ok. simpl. split_and!; [lia..|done|]. rewrite H4. lia.
Qed.

Lemma tracker_history_ok evs n t :
  0 ≤ n → n + len evs < max_i64 → tracker_ok n t → ∃ t', foldl tracker_event (Some t) evs = Some t' ∧ tracker_ok (n + len evs) t'.
Proof.
  revert n t. induction evs as [|ev evs IH]; intros n t Hn Hlen Ht.
  { exists t. unfold len. simpl. by rewrite Z.add_0_r. }
  rewrite len_cons in *. pose proof (len_nonneg evs). destruct (tracker_event_ok n t ev) as (t' & E & Ht'); [lia|done|].
  cbn [foldl]. rewrite E. replace (n + (len evs + 1)) with (n + 1 + len evs) by lia. apply IH; [lia..|done].
Qed.

(** When the calls do not overlap, the tracker never panics and [Wait] is
    ready exactly when no request is in flight.  When they do, a request that
    ends while another begins can close the channel the other has just
    opened: [Wait] then reports that all requests are done while one is being
    served, and the end of that one panics on the closed channel. *)
Theorem inflight_tracker_race :
  (∀ evs, len evs < max_i64 →
     ∃ t, foldl tracker_event (Some NewInflightTracker) evs = Some t ∧ WaitReady t = (count t =? 0)) ∧
  ∃ early panicked,
    rtc tracker_step (mkTrackerState NewInflightTracker {[0%nat := PIdle; 1%nat := PIdle]}) early ∧
    WaitReady (tracker early) = true ∧ threads early !! 1%nat = Some PServing ∧
    rtc tracker_step early panicked ∧ threads panicked !! 1%nat = Some PPanicked.
Proof.
  split.
  - intros evs Hlen. destruct (tracker_history_ok evs 0 NewInflightTracker) as (t & E & H1 & H2 & H3 & H4); [lia..| |].
    { unfold tracker_ok. simpl. split_and!; [lia..| |]; set_solver by lia. }
    exists t. split; [done|]. unfold WaitReady. destruct (Z.eqb_spec (count t) 0); case_bool_decide; tauto.
  - do 2 eexists. split_and!.
    + tracker_run 0%nat. tracker_run 0%nat. tracker_run 0%nat. tracker_run 1%nat. tracker_run 1%nat. tracker_run 0%nat. apply rtc_refl.
    + reflexivity.
    + reflexivity.
    + tracker_run 1%nat. tracker_run 1%nat. apply rtc_refl.
    + reflexivity.
Qed.
