(* ===== verification/StoreSteps.v ===== *)
(** * Interleavings of the snapshot store (internal/runtime/store.go)

    Any number of goroutines use one store.  What each of them does next is
    its program counter; a step is one atomic operation (the load of the
    current snapshot, an addition to a reference count, the load of a count or
    of the retirement mark) or one part of a critical section whose outcome
    the others can see without the lock. *)
From S2P Require Import Prelude.
From S2P Require Import Config.
From S2P Require Import Snapshot.
From S2P Require Import Store.
#[local] Open Scope Z_scope.

Inductive pc :=
| Idle
| Loaded (p : nat)                             (** [Acquire] has loaded [p] *)
| Holding (p : nat)
| Dropped (p : nat)                            (** [Release] has counted down *)
| Checked (p : nat)                            (** and has seen it retired *)
| Reaper                                       (** [Reap] is to take the lock *)
| Reaping (todo kept : list nat)               (** in the loop of [Reap] *)
| Swapping (previous : option nat) (next : nat)   (** [Swap] has loaded the current one *)
| Marked (previous : option nat) (next : nat).    (** the previous one is marked, the lock held *)
#[export] Instance pc_eq_dec : EqDecision pc.
Proof. solve_decision. Defined.

Record system := mkSystem { store : Store; pcs : gmap nat pc }.

Definition locking (c : pc) : bool := match c with Reaping _ _ | Marked _ _ => true | _ => false end.
(** Nobody has the lock. *)
Definition unlocked (s : system) : Prop := ∀ i c, pcs s !! i = Some c → locking c = false.
Definition goto (s : system) (i : nat) (st : Store) (c : pc) : system := mkSystem st (<[i := c]> (pcs s)).

Inductive step (s : system) : system → Prop :=
| step_load i p : pcs s !! i = Some Idle → Get (store s) = Some p → step s (goto s i (store s) (Loaded p))
| step_add i p : pcs s !! i = Some (Loaded p) → step s (goto s i (addRef p (store s)) (Holding p))
| step_drop i p : pcs s !! i = Some (Holding p) → step s (goto s i (dropRef p (store s)) (Dropped p))
| step_retired i p x : pcs s !! i = Some (Dropped p) → heap (store s) !! p = Some x →
    step s (goto s i (store s) (if Retired x then Checked p else Idle))
| step_count i p x : pcs s !! i = Some (Checked p) → heap (store s) !! p = Some x →
    step s (goto s i (store s) (if RefCount x =? 0 then Reaper else Idle))
| step_reap i : pcs s !! i = Some Idle → step s (goto s i (store s) Reaper)
| step_lock i : pcs s !! i = Some Reaper → unlocked s → step s (goto s i (store s) (Reaping (retired (store s)) []))
| step_look i q todo kept : pcs s !! i = Some (Reaping (q :: todo) kept) →
    step s (goto s i (store s) (Reaping todo (if referenced (store s) q then kept ++ [q] else kept)))
| step_unlock i kept : pcs s !! i = Some (Reaping [] kept) → step s (goto s i ((store s) <| retired := kept |>) Idle)
| step_swap i next : pcs s !! i = Some Idle → is_Some (heap (store s) !! next) → step s (goto s i (store s) (Swapping (Get (store s)) next))
| step_mark i previous next now : pcs s !! i = Some (Swapping previous next) → unlocked s → 0 < UnixNano now →
    step s (goto s i (markPrevious previous now (store s)) (Marked previous next))
| step_publish i previous next : pcs s !! i = Some (Marked previous next) →
    step s (goto s i (publish previous next (store s)) Reaper).

(** Nothing is under way but requests that hold, or are about to hold, a
    snapshot and swaps that have not taken the lock. *)
Definition resting (c : pc) : bool := match c with Idle | Loaded _ | Holding _ | Swapping _ _ => true | _ => false end.

(** The goroutines that hold [p]. *)
Definition holders (p : nat) (s : system) : nat := size (filter (λ kc, kc.2 = Holding p) (pcs s)).

(** ** The methods, run without interruption *)

Lemma goto_twice s i st c st' c' : goto (goto s i st c) i st' c' = goto s i st' c'.
Proof. unfold goto. simpl. by rewrite insert_insert_eq. Qed.
Lemma goto_at s i st c : pcs (goto s i st c) !! i = Some c.
Proof. simpl. by rewrite lookup_insert_eq. Qed.

(** [Acquire], [Release] and [Swap] of Store.v are runs of these steps. *)
Lemma Reap_run s i : pcs s !! i = Some Reaper → unlocked s → rtc step s (goto s i (Reap (store s)) Idle).
Proof.
  intros Hi Hu. eapply rtc_l; [by apply (step_lock s i)|].
  assert (∀ todo kept, rtc step (goto s i (store s) (Reaping todo kept))
    (goto s i ((store s) <| retired := kept ++ List.filter (referenced (store s)) todo |>) Idle)) as Hloop.
  { induction todo as [|q todo IH]; intros kept.
    - eapply rtc_l; [apply (step_unlock _ i kept), goto_at|]. rewrite goto_twice, app_nil_r. reflexivity.
    - eapply rtc_l; [apply (step_look _ i q todo kept), goto_at|]. rewrite goto_twice. simpl.
      destruct (referenced (store s) q); [|apply IH]. specialize (IH (kept ++ [q])). rewrite <- app_assoc in IH. exact IH. }
  apply (Hloop (retired (store s)) []).
Qed.
Lemma unlocked_goto s i st c : unlocked s → locking c = false → unlocked (goto s i st c).
Proof. intros Hu Hc j d. simpl. destruct (decide (i = j)) as [->|]; [rewrite lookup_insert_eq; by intros [= <-]|rewrite lookup_insert_ne by done; apply Hu]. Qed.
Lemma Acquire_run s i st p : pcs s !! i = Some Idle → Acquire (store s) = (st, Some p) → rtc step s (goto s i st (Holding p)).
Proof.
  unfold Acquire. intros Hi H. destruct (Get (store s)) as [q|] eqn:Hq; [|done]. injection H as <- <-.
  eapply rtc_l; [by apply (step_load s i q)|]. eapply rtc_l; [apply (step_add _ i q), goto_at|]. rewrite goto_twice. reflexivity.
Qed.
Lemma Release_run s i p x :
  pcs s !! i = Some (Holding p) → heap (store s) !! p = Some x → unlocked s → rtc step s (goto s i (Release (store s) p) Idle).
Proof.
  intros Hi Hx Hu. eapply rtc_l; [by apply (step_drop s i p)|]. unfold Release. set (st := dropRef p (store s)).
  assert (heap st !! p = Some (DecRef x)) as Hx' by (unfold st; simpl; by rewrite lookup_alter_eq, Hx). rewrite Hx'.
  eapply rtc_l; [by apply (step_retired _ i p (DecRef x)); [apply goto_at|]|]. rewrite goto_twice.
  destruct (Retired (DecRef x)); cbn [andb]; [|reflexivity].
  eapply rtc_l; [by apply (step_count _ i p (DecRef x)); [apply goto_at|]|]. rewrite goto_twice.
  destruct (RefCount (DecRef x) =? 0); [|reflexivity].
  etrans; [apply (Reap_run _ i); [apply goto_at|by apply unlocked_goto]|]. rewrite goto_twice. reflexivity.
Qed.
Lemma Swap_run s i next now :
  pcs s !! i = Some Idle → is_Some (heap (store s) !! next) → unlocked s → 0 < UnixNano now →
  rtc step s (goto s i (Swap (store s) next now) Idle).
Proof.
  intros Hi Hn Hu Hnow. eapply rtc_l; [by apply (step_swap s i next)|].
  eapply rtc_l; [apply (step_mark _ i (Get (store s)) next now); [apply goto_at|by apply unlocked_goto|done]|]. rewrite goto_twice.
  eapply rtc_l; [apply (step_publish _ i (Get (store s)) next), goto_at|]. rewrite goto_twice.
  etrans; [apply (Reap_run _ i); [apply goto_at|by apply unlocked_goto]|]. rewrite goto_twice. reflexivity.
Qed.

(** ** The invariant *)

Definition marked (st : Store) (q : nat) : Prop := ∃ x, heap st !! q = Some x ∧ Retired x = true.
(** A goroutine that is about to take [q] off the retired list. *)
Definition cleans (q : nat) (c : pc) : Prop := c = Dropped q ∨ c = Checked q ∨ c = Reaper.
Definition owed (s : system) (q : nat) : Prop := referenced (store s) q = true ∨ ∃ i c, pcs s !! i = Some c ∧ cleans q c.
Definition exists_for (st : Store) (c : pc) : Prop :=
  match c with
  | Loaded p | Holding p | Dropped p | Checked p => is_Some (heap st !! p)
  | Swapping previous next => is_Some (heap st !! next) ∧ ∀ p, previous = Some p → is_Some (heap st !! p)
  | Marked previous next => is_Some (heap st !! next) ∧ ∀ p, previous = Some p → marked st p
  | Reaping todo kept => ∀ q, q ∈ todo ∨ q ∈ kept → marked st q
  | Idle | Reaper => True
  end.

Record store_inv (s : system) : Prop := mkStoreInv {
  inv_counts : ∀ p x, heap (store s) !! p = Some x → refCount x = Z.of_nat (holders p s);
  inv_current : ∀ p, current (store s) = Some p → is_Some (heap (store s) !! p);
  inv_exists : ∀ i c, pcs s !! i = Some c → exists_for (store s) c;
  inv_lock : ∀ i j c d, pcs s !! i = Some c → pcs s !! j = Some d → locking c = true → locking d = true → i = j;
  inv_marked : ∀ q, q ∈ retired (store s) → marked (store s) q;
  inv_kept : ∀ i todo kept q, pcs s !! i = Some (Reaping todo kept) → q ∈ kept → owed s q;
  inv_owed : (∀ i todo kept, pcs s !! i ≠ Some (Reaping todo kept)) → ∀ q, q ∈ retired (store s) → owed s q
}.

Definition holds (p : nat) (c : pc) : nat := if decide (c = Holding p) then 1 else 0.
Lemma holders_goto s i c st c' p : pcs s !! i = Some c → (holders p (goto s i st c') + holds p c = holders p s + holds p c')%nat.
Proof.
  intros Hi. unfold holders, holds. simpl. rewrite <- (insert_delete_id (pcs s) i c Hi) at 2. rewrite <- (insert_delete_eq (pcs s)).
  assert (∀ d, size (filter (λ kc : nat * pc, kc.2 = Holding p) (<[i := d]> (delete i (pcs s)))) =
    (size (filter (λ kc : nat * pc, kc.2 = Holding p) (delete i (pcs s))) + if decide (d = Holding p) then 1 else 0)%nat) as H.
  { intros d. rewrite map_filter_insert. simpl. case_decide; [|by rewrite delete_delete_eq, Nat.add_0_r].
    rewrite map_size_insert_None; [lia|]. apply map_lookup_filter_None. left. by rewrite lookup_delete_eq. }
  rewrite !H. lia.
Qed.
Lemma holders_bound p s : (holders p s ≤ size (pcs s))%nat.
Proof. unfold holders. apply map_size_filter. Qed.

Section Goto.
Context (s : system) (i : nat) (c : pc) (st : Store) (c' : pc).
Hypothesis here : pcs s !! i = Some c.
Hypothesis before : store_inv s.
Hypothesis heap_kept : ∀ q, is_Some (heap (store s) !! q) → is_Some (heap st !! q).
Hypothesis marks_kept : ∀ q, marked (store s) q → marked st q.
Hypothesis cleaned : ∀ q, cleans q c → owed (goto s i st c') q.
Hypothesis references : ∀ q, referenced (store s) q = true → owed (goto s i st c') q.

Lemma owed_goto q : owed s q → owed (goto s i st c') q.
Proof.
  intros [H|(j & d & Hj & Hd)]; [by apply references|]. destruct (decide (j = i)) as [->|Hne]; [apply cleaned; by simplify_eq|].
  right. exists j, d. simpl. by rewrite lookup_insert_ne.
Qed.
Lemma exists_for_kept d : exists_for (store s) d → exists_for st d.
Proof. destruct d; simpl; naive_solver. Qed.

Lemma store_inv_goto :
  (∀ p x, heap st !! p = Some x → refCount x = Z.of_nat (holders p (goto s i st c'))) →
  (∀ p, current st = Some p → is_Some (heap st !! p)) → exists_for st c' →
  (locking c' = true → locking c = true ∨ unlocked s) →
  (∀ q, q ∈ retired st → marked st q) →
  (∀ todo kept q, c' = Reaping todo kept → q ∈ kept → owed (goto s i st c') q) →
  ((∀ j todo kept, pcs (goto s i st c') !! j ≠ Some (Reaping todo kept)) → ∀ q, q ∈ retired st → owed (goto s i st c') q) →
  store_inv (goto s i st c').
Proof.
  intros Hcount Hcur Hex Hlock Hm Hkept Howed. destruct before as [B1 B2 B3 B4 B5 B6 B7]. split; try done; simpl.
  - intros j d. destruct (decide (i = j)) as [<-|]; [rewrite lookup_insert_eq; by intros [= <-]|rewrite lookup_insert_ne by done].
    intros Hd. by apply exists_for_kept, (B3 j).
  - assert (∀ j d, i ≠ j → pcs s !! j = Some d → locking c' = true → locking d = true → False) as Hx.
    { intros j d Hne Hj Hc Hd. destruct (Hlock Hc) as [Hl|Hu]; [by apply Hne, (B4 i j c d)|]. by rewrite (Hu j d) in Hd. }
    intros j k d e. destruct (decide (i = j)) as [<-|Hj], (decide (i = k)) as [<-|Hk];
      rewrite ?lookup_insert_eq, ?lookup_insert_ne by done; intros; simplify_eq; try done; try (exfalso; by eapply Hx). by eapply B4.
  - intros j todo kept q. destruct (decide (i = j)) as [<-|]; [rewrite lookup_insert_eq; intros [= ->]; by apply (Hkept todo kept)|].
    rewrite lookup_insert_ne by done. intros Hj Hq. by eapply owed_goto, B6.
Qed.
End Goto.

(** Steps that leave the snapshots alone. *)
Lemma store_inv_control s i c st c' :
  pcs s !! i = Some c → store_inv s → heap st = heap (store s) → (∀ p, holds p c = holds p c') →
  (∀ p, current st = Some p → is_Some (heap st !! p)) → exists_for st c' →
  (locking c' = true → locking c = true ∨ unlocked s) →
  (∀ q, q ∈ retired st → marked st q) → (∀ q, cleans q c → owed (goto s i st c') q) →
  (∀ todo kept q, c' = Reaping todo kept → q ∈ kept → owed (goto s i st c') q) →
  ((∀ j todo kept, pcs (goto s i st c') !! j ≠ Some (Reaping todo kept)) → ∀ q, q ∈ retired st → owed (goto s i st c') q) →
  store_inv (goto s i st c').
Proof.
  intros Hi Hinv Hh Hholds Hcur Hex Hlock Hm Hc Hk Ho. apply (store_inv_goto s i c); try done.
  - intros q. by rewrite Hh.
  - intros q. unfold marked. by rewrite Hh.
  - intros q Hq. left. unfold referenced in *. simpl. by rewrite Hh.
  - intros p x Hx. rewrite Hh in Hx. rewrite (inv_counts s Hinv p x Hx). pose proof (holders_goto s i c st c' p Hi). rewrite Hholds in *. lia.
Qed.

Lemma counted s i c st c' p (f : Snapshot → Snapshot) :
  pcs s !! i = Some c → store_inv s → st = (store s) <| heap ::= alter f p |> → (∀ q, q ≠ p → holds q c = holds q c') →
  (∀ x, refCount x = Z.of_nat (holders p s) → refCount (f x) = Z.of_nat (holders p (goto s i st c'))) →
  ∀ q x, heap st !! q = Some x → refCount x = Z.of_nat (holders q (goto s i st c')).
Proof.
  intros Hi Hinv Hst Hne Hf q x. assert (heap st = alter f p (heap (store s))) as -> by (by rewrite Hst). destruct (decide (q = p)) as [->|Hq].
  - rewrite lookup_alter_eq. intros (y & Hy & ->)%fmap_Some. by apply Hf, (inv_counts s Hinv p).
  - rewrite lookup_alter_ne by done. intros Hx. rewrite (inv_counts s Hinv q x Hx).
    pose proof (holders_goto s i c st c' q Hi). specialize (Hne q Hq). lia.
Qed.
Lemma marked_alter st p f q : (∀ x, Retired x = true → Retired (f x) = true) → marked st q → marked (st <| heap ::= alter f p |>) q.
Proof.
  intros Hf (x & Hx & Hr). unfold marked. simpl. destruct (decide (q = p)) as [->|].
  - rewrite lookup_alter_eq, Hx. eexists. split; [done|]. by apply Hf.
  - rewrite lookup_alter_ne by done. by exists x.
Qed.

Lemma step_add_inv s i p :
  Z.of_nat (size (pcs s)) < max_i64 → store_inv s → pcs s !! i = Some (Loaded p) → store_inv (goto s i (addRef p (store s)) (Holding p)).
Proof.
  intros Hn Hinv Hi. pose proof (inv_exists s Hinv _ _ Hi) as [x0 Hx0].
  assert (∀ st, holders p (goto s i st (Holding p)) = S (holders p s)) as Hh.
  { intros st. pose proof (holders_goto s i (Loaded p) st (Holding p) p Hi) as H. unfold holds in H. rewrite decide_False, decide_True in H by done. lia. }
  assert (∀ q, referenced (store s) q = true → referenced (addRef p (store s)) q = true) as Href.
  { intros q. unfold referenced. simpl. destruct (decide (q = p)) as [->|]; [|by rewrite lookup_alter_ne].
    rewrite lookup_alter_eq, Hx0. simpl. unfold RefCount. simpl. rewrite (inv_counts s Hinv p x0 Hx0).
    pose proof (holders_bound p (goto s i (store s) (Holding p))) as Hb. rewrite Hh in Hb. simpl in Hb. rewrite map_size_insert_Some in Hb by done.
    rewrite i64_small by lia. intros _. apply negb_true_iff, Z.eqb_neq. lia. }
  apply (store_inv_goto s i (Loaded p)); try done.
  - intros q. simpl. by rewrite lookup_alter_is_Some.
  - intros q. by apply marked_alter.
  - by intros q [|[|]].
  - intros q Hq. left. by apply Href.
  - apply (counted s i (Loaded p) _ _ p IncRef); [done..| |].
    + intros q Hne. unfold holds. rewrite !decide_False; [done|congruence|done].
    + intros x Hx. simpl. rewrite Hh, Hx. pose proof (holders_bound p (goto s i (store s) (Holding p))) as Hb. rewrite Hh in Hb. simpl in Hb.
      rewrite map_size_insert_Some in Hb by done. rewrite i64_small by lia. lia.
  - intros q Hq. simpl in *. rewrite lookup_alter_is_Some. by apply (inv_current s).
  - simpl. rewrite lookup_alter_is_Some. by eexists.
  - intros q Hq. apply marked_alter; [done|]. by apply (inv_marked s).
  - intros Hr q Hq. apply (owed_goto s i (Loaded p)); [done|by intros ? [|[|]]|intros ? ?; left; by apply Href|].
    apply (inv_owed s Hinv); [|done]. intros j todo kept Hj. apply (Hr j todo kept). simpl. rewrite lookup_insert_ne; [done|]. intros ->. congruence.
Qed.
Lemma owed_before s i st c c' q :
  store_inv s → pcs s !! i = Some c → (∀ todo kept, c ≠ Reaping todo kept) →
  (∀ j todo kept, pcs (goto s i st c') !! j ≠ Some (Reaping todo kept)) → q ∈ retired (store s) → owed s q.
Proof.
  intros Hinv Hi Hc Hr Hq. apply (inv_owed s Hinv); [|done]. intros j todo kept Hj. destruct (decide (i = j)) as [<-|Hne].
  - rewrite Hi in Hj. injection Hj as ->. by eapply Hc.
  - apply (Hr j todo kept). simpl. by rewrite lookup_insert_ne.
Qed.

Lemma step_drop_inv s i p :
  Z.of_nat (size (pcs s)) < max_i64 → store_inv s → pcs s !! i = Some (Holding p) → store_inv (goto s i (dropRef p (store s)) (Dropped p)).
Proof.
  intros Hn Hinv Hi. pose proof (inv_exists s Hinv _ _ Hi) as Hx0.
  assert (∀ st, S (holders p (goto s i st (Dropped p))) = holders p s) as Hh.
  { intros st. pose proof (holders_goto s i (Holding p) st (Dropped p) p Hi) as H. unfold holds in H. rewrite decide_True, decide_False in H by done. lia. }
  pose proof (holders_bound p s) as Hb.
  assert (∀ q, referenced (store s) q = true → owed (goto s i (dropRef p (store s)) (Dropped p)) q) as Href.
  { intros q Hq. destruct (decide (q = p)) as [->|Hne]; [right; exists i, (Dropped p); split; [apply goto_at|by left]|].
    left. unfold referenced in *. simpl. by rewrite lookup_alter_ne. }
  apply (store_inv_goto s i (Holding p)); try done.
  - intros q. simpl. by rewrite lookup_alter_is_Some.
  - intros q. by apply marked_alter.
  - by intros q [|[|]].
  - apply (counted s i (Holding p) _ _ p DecRef); [done..| |].
    + intros q Hne. unfold holds. rewrite !decide_False; [done|done|congruence].
    + intros x Hx. specialize (Hh (dropRef p (store s))). simpl. rewrite Hx. rewrite i64_small by lia. lia.
  - intros q Hq. simpl in *. rewrite lookup_alter_is_Some. by apply (inv_current s).
  - simpl. by rewrite lookup_alter_is_Some.
  - intros q Hq. apply marked_alter; [done|]. by apply (inv_marked s).
  - intros Hr q Hq. apply (owed_goto s i (Holding p)); [done|by intros ? [|[|]]|done|]. by eapply owed_before.
Qed.

Lemma step_mark_inv s i previous next now :
  store_inv s → pcs s !! i = Some (Swapping previous next) → unlocked s → 0 < UnixNano now →
  store_inv (goto s i (markPrevious previous now (store s)) (Marked previous next)).
Proof.
  intros Hinv Hi Hu Hnow. pose proof (inv_exists s Hinv _ _ Hi) as [Hnext Hprev].
  assert (∀ q, is_Some (heap (markPrevious previous now (store s)) !! q) ↔ is_Some (heap (store s) !! q)) as Hdom.
  { intros q. destruct previous as [p|]; [|done]. simpl. by rewrite lookup_alter_is_Some. }
  assert (∀ q, marked (store s) q → marked (markPrevious previous now (store s)) q) as Hmk.
  { intros q. destruct previous as [p|]; [|done]. apply marked_alter. intros x _. unfold Retired. simpl. lia. }
  assert (∀ q x, heap (markPrevious previous now (store s)) !! q = Some x → ∃ y, heap (store s) !! q = Some y ∧ refCount x = refCount y) as Hrc.
  { intros q x. destruct previous as [p|]; [|by eauto]. simpl. destruct (decide (q = p)) as [->|]; [rewrite lookup_alter_eq|rewrite lookup_alter_ne by done; by eauto].
    intros (y & Hy & ->)%fmap_Some. by exists y. }
  assert (∀ q, referenced (store s) q = true → referenced (markPrevious previous now (store s)) q = true) as Href.
  { intros q. unfold referenced, RefCount. destruct (heap (store s) !! q) as [y|] eqn:Hy; [|done].
    destruct (proj2 (Hdom q)) as [x Hx]; [by eexists|]. rewrite Hx. destruct (Hrc q x Hx) as (y' & Hy' & ->). by simplify_eq. }
  apply (store_inv_goto s i (Swapping previous next)); try done.
  - intros q. by rewrite Hdom.
  - by intros q [|[|]].
  - intros q Hq. left. by apply Href.
  - intros q x Hx. destruct (Hrc q x Hx) as (y & Hy & ->). rewrite (inv_counts s Hinv q y Hy).
    pose proof (holders_goto s i (Swapping previous next) (markPrevious previous now (store s)) (Marked previous next) q Hi) as H. unfold holds in H.
    rewrite !decide_False in H by done. lia.
  - intros q Hq. apply Hdom, (inv_current s Hinv). by destruct previous.
  - simpl. rewrite Hdom. split; [done|]. intros p ->. destruct (Hprev p eq_refl) as [x Hx]. unfold marked. simpl. rewrite lookup_alter_eq, Hx.
    eexists. split; [done|]. unfold Retired. simpl. lia.
  - intros _. by right.
  - intros q Hq. apply Hmk, (inv_marked s Hinv). by destruct previous.
  - intros Hr q Hq. apply (owed_goto s i (Swapping previous next)); [done|by intros ? [|[|]]|intros ? ?; left; by apply Href|].
    eapply owed_before; try done. by destruct previous.
Qed.


Lemma cleaner s i st c q : cleans q c → owed (goto s i st c) q.
Proof. intros H. right. exists i, c. split; [apply goto_at|done]. Qed.
Lemma owed_other s i c st c' q :
  pcs s !! i = Some c → heap st = heap (store s) → (cleans q c → owed (goto s i st c') q) → owed s q → owed (goto s i st c') q.
Proof.
  intros Hi Hh Hc [H|(j & d & Hj & Hd)]; [left; unfold referenced in *; simpl; by rewrite Hh|].
  destruct (decide (j = i)) as [->|Hne]; [apply Hc; by simplify_eq|]. right. exists j, d. simpl. by rewrite lookup_insert_ne.
Qed.

(** A step from a counter that holds and reaps nothing to one that does not
    either, on the same store: all that can be lost is a promise to clean. *)
Lemma step_plain_inv s i c c' :
  store_inv s → pcs s !! i = Some c → (∀ p, c ≠ Holding p ∧ c' ≠ Holding p) → (∀ todo kept, c ≠ Reaping todo kept ∧ c' ≠ Reaping todo kept) →
  exists_for (store s) c' → locking c' = false →
  (∀ q, marked (store s) q → cleans q c → referenced (store s) q = true ∨ cleans q c') →
  store_inv (goto s i (store s) c').
Proof.
  intros Hinv Hi Hhold Hreap Hex Hlock Hclean.
  assert (∀ q, marked (store s) q → owed s q → owed (goto s i (store s) c') q) as Ho.
  { intros q Hq. apply (owed_other s i c); [done..|]. intros Hc. destruct (Hclean q Hq Hc); [by left|by apply cleaner]. }
  destruct Hinv as [B1 B2 B3 B4 B5 B6 B7]. split; simpl; try done.
  - intros p x Hx. rewrite (B1 p x Hx). pose proof (holders_goto s i c (store s) c' p Hi) as H. unfold holds in H. destruct (Hhold p).
    rewrite !decide_False in H by done. lia.
  - intros j d. destruct (decide (i = j)) as [<-|]; [rewrite lookup_insert_eq; by intros [= <-]|rewrite lookup_insert_ne by done; apply B3].
  - intros j k d e. destruct (decide (i = j)) as [<-|Hj], (decide (i = k)) as [<-|Hk]; rewrite ?lookup_insert_eq, ?lookup_insert_ne by done;
      intros; simplify_eq; try done; try congruence. by eapply B4.
  - intros j todo kept q. destruct (decide (i = j)) as [<-|]; [rewrite lookup_insert_eq; intros [= ->]; by destruct (Hreap todo kept)|].
    rewrite lookup_insert_ne by done. intros Hj Hq. apply Ho; [by apply (B3 j _ Hj); right|by eapply B6].
  - intros Hr q Hq. apply Ho; [by apply B5|]. apply (owed_before s i (store s) c c'); [by split|done| |done|done]. intros todo kept. by destruct (Hreap todo kept).
Qed.

Lemma step_retired_inv s i p x :
  store_inv s → pcs s !! i = Some (Dropped p) → heap (store s) !! p = Some x →
  store_inv (goto s i (store s) (if Retired x then Checked p else Idle)).
Proof.
  intros Hinv Hi Hx. eapply step_plain_inv; try done; try (by destruct (Retired x)).
  - destruct (Retired x); [|done]. by eexists.
  - intros q (y & Hy & Hr) [[= ->]|[|]]; [|done..]. simplify_eq. rewrite Hr. right. right. by left.
Qed.
Lemma step_count_inv s i p x :
  store_inv s → pcs s !! i = Some (Checked p) → heap (store s) !! p = Some x →
  store_inv (goto s i (store s) (if RefCount x =? 0 then Reaper else Idle)).
Proof.
  intros Hinv Hi Hx. eapply step_plain_inv; try done; try (by destruct (RefCount x =? 0)).
  intros q _ [|[[= ->]|]]; [done| |done]. unfold referenced. rewrite Hx. destruct (RefCount x =? 0); [right; by right; right|by left].
Qed.
Lemma step_lock_inv s i :
  store_inv s → pcs s !! i = Some Reaper → unlocked s → store_inv (goto s i (store s) (Reaping (retired (store s)) [])).
Proof.
  intros Hinv Hi Hu.
  destruct Hinv as [B1 B2 B3 B4 B5 B6 B7]. split; simpl; try done.
  - intros p x Hx. rewrite (B1 p x Hx). pose proof (holders_goto s i Reaper (store s) (Reaping (retired (store s)) []) p Hi) as H. unfold holds in H.
    rewrite !decide_False in H by done. lia.
  - intros j d. destruct (decide (i = j)) as [<-|]; [rewrite lookup_insert_eq; intros [= <-]; intros q [Hq|[]%elem_of_nil]; by apply B5|].
    rewrite lookup_insert_ne by done. apply B3.
  - intros j k d e. destruct (decide (i = j)) as [<-|Hj], (decide (i = k)) as [<-|Hk]; rewrite ?lookup_insert_eq, ?lookup_insert_ne by done; try done.
    + intros _ Hk' _ H. by rewrite (Hu k e Hk') in H.
    + intros Hj' _ H. by rewrite (Hu j d Hj') in H.
    + apply B4.
  - intros j todo kept q. destruct (decide (i = j)) as [<-|]; [rewrite lookup_insert_eq; intros [= <- <-]; by intros ?%elem_of_nil|].
    rewrite lookup_insert_ne by done. intros Hj. apply Hu in Hj. done.
  - intros Hr. destruct (Hr i (retired (store s)) []). by rewrite lookup_insert_eq.
Qed.
Lemma step_look_inv s i q todo kept :
  store_inv s → pcs s !! i = Some (Reaping (q :: todo) kept) →
  store_inv (goto s i (store s) (Reaping todo (if referenced (store s) q then kept ++ [q] else kept))).
Proof.
  intros Hinv Hi. set (c := Reaping (q :: todo) kept) in *. set (kept' := if referenced (store s) q then kept ++ [q] else kept).
  assert (∀ r, owed s r → owed (goto s i (store s) (Reaping todo kept')) r) as Ho by (intros r; apply (owed_other s i c); [done..|by intros [|[|]]]).
  assert (∀ r, r ∈ kept' → r ∈ kept ∨ r = q ∧ referenced (store s) q = true) as Hk.
  { intros r. unfold kept'. destruct (referenced (store s) q); [|by left]. rewrite elem_of_app, list_elem_of_singleton. intros [|]; auto. }
  pose proof (inv_exists s Hinv _ _ Hi) as Hex. apply (store_inv_control s i c); try done.
  - apply (inv_current s Hinv).
  - intros r [Hr|[Hr|[-> _]]%Hk]; apply Hex; [left; by right|by right|left; left].
  - intros _. by left.
  - apply (inv_marked s Hinv).
  - by intros r [|[|]].
  - intros todo' kept0 r [= <- <-] [Hr|[-> Hr]]%Hk; [|by left]. by eapply Ho, inv_kept.
  - intros Hr. destruct (Hr i todo kept'). by rewrite goto_at.
Qed.
Lemma step_unlock_inv s i kept :
  store_inv s → pcs s !! i = Some (Reaping [] kept) → store_inv (goto s i ((store s) <| retired := kept |>) Idle).
Proof.
  intros Hinv Hi. pose proof (inv_exists s Hinv _ _ Hi) as Hex. apply (store_inv_control s i (Reaping [] kept)); try done.
  - apply (inv_current s Hinv).
  - intros q Hq. apply Hex. by right.
  - by intros q [|[|]].
  - intros _ q Hq. apply (owed_other s i (Reaping [] kept)); [done..|by intros [|[|]]|]. by eapply inv_kept.
Qed.
Lemma step_publish_inv s i previous next :
  store_inv s → pcs s !! i = Some (Marked previous next) → store_inv (goto s i (publish previous next (store s)) Reaper).
Proof.
  intros Hinv Hi. pose proof (inv_exists s Hinv _ _ Hi) as [Hnext Hprev].
  assert (heap (publish previous next (store s)) = heap (store s)) as Hh by by destruct previous.
  assert (∀ q, q ∈ retired (publish previous next (store s)) → q ∈ retired (store s) ∨ previous = Some q) as Hr.
  { intros q. destruct previous as [p|]; simpl; [|by left]. rewrite elem_of_app, list_elem_of_singleton. intros [|]; [by left|right; congruence]. }
  apply (store_inv_control s i (Marked previous next)); try done.
  - intros p. destruct previous; simpl; intros [= <-]; done.
  - intros q Hq. unfold marked. rewrite Hh. destruct (Hr q Hq); [by apply (inv_marked s Hinv)|by apply Hprev].
  - by intros q [|[|]].
  - intros _ q _. apply cleaner. by right; right.
Qed.

Lemma step_inv s s' :
  Z.of_nat (size (pcs s)) < max_i64 → step s s' → store_inv s → store_inv s' ∧ size (pcs s') = size (pcs s).
Proof.
  intros Hn Hs Hinv. assert (∀ i c st c', pcs s !! i = Some c → size (pcs (goto s i st c')) = size (pcs s)) as Hsize
    by (intros; by apply map_size_insert_Some).
  destruct Hs; (split; [|by eapply Hsize]).
  - eapply step_plain_inv; try done; [by apply (inv_current s)|by intros q _ [|[|]]].
  - by apply step_add_inv.
  - by apply step_drop_inv.
  - by eapply step_retired_inv.
  - by eapply step_count_inv.
  - eapply step_plain_inv; try done. by intros q _ [|[|]].
  - by apply step_lock_inv.
  - by apply step_look_inv.
  - by apply step_unlock_inv.
  - eapply step_plain_inv; try done; [|by intros q _ [|[|]]]. split; [done|]. intros p. apply (inv_current s Hinv).
  - by apply step_mark_inv.
  - by apply step_publish_inv.
Qed.

(** A store with its first snapshot, and goroutines that have not begun. *)
Definition started (h : gmap nat Snapshot) (initial : nat) (goroutines : gmap nat pc) : system := mkSystem (NewStore h (Some initial)) goroutines.
Lemma started_inv h initial goroutines :
  (∀ p x, h !! p = Some x → refCount x = 0) → is_Some (h !! initial) → (∀ i c, goroutines !! i = Some c → c = Idle) →
  store_inv (started h initial goroutines).
Proof.
  intros Hz Hi Hidle. split; simpl.
  - intros p x Hx. rewrite (Hz p x Hx). unfold holders. simpl.
    assert (filter (λ kc, kc.2 = Holding p) goroutines = ∅) as ->; [|done].
    apply map_empty. intros i. apply map_lookup_filter_None. right. intros c Hc. by rewrite (Hidle i c Hc).
  - by intros p [= <-].
  - intros i c Hc. by rewrite (Hidle i c Hc).
  - intros i j c d Hc _ H. by rewrite (Hidle i c Hc) in H.
  - by intros q ?%elem_of_nil.
  - intros i todo kept q Hc. by apply Hidle in Hc.
  - by intros _ q ?%elem_of_nil.
Qed.

(** C26. In every interleaving of any number of goroutines that acquire, release,
    swap and reap, atomic operation by atomic operation, a snapshot's count is
    the number of goroutines holding it.  The retired list holds no snapshot
    for nothing: unless somebody is at work on it, all that is on it is marked
    retired and still referenced, or a goroutine is under way to take it off;
    when none is, every snapshot on it is held.  (That a held snapshot is the
    current one or on the list is not promised: see [store_acquire_race].) *)
Theorem store_interleaved h initial goroutines s :
  (∀ p x, h !! p = Some x → refCount x = 0) → is_Some (h !! initial) → (∀ i c, goroutines !! i = Some c → c = Idle) →
  Z.of_nat (size goroutines) < max_i64 → rtc step (started h initial goroutines) s →
  (∀ p x, heap (store s) !! p = Some x → RefCount x = Z.of_nat (holders p s)) ∧
  (∀ q, q ∈ retired (store s) → marked (store s) q) ∧
  ((∀ i todo kept, pcs s !! i ≠ Some (Reaping todo kept)) → ∀ q, q ∈ retired (store s) → owed s q) ∧
  ((∀ i c, pcs s !! i = Some c → resting c = true) → ∀ q, q ∈ retired (store s) → ∃ i, pcs s !! i = Some (Holding q)).
Proof.
  intros Hz Hi Hidle Hn Hrun.
  assert (store_inv s) as Hinv.
  { assert (store_inv (started h initial goroutines)) as H0 by by apply started_inv.
    change goroutines with (pcs (started h initial goroutines)) in Hn. clear -Hrun Hn H0. induction Hrun as [s|s1 s2 s3 Hs _ IH]; [done|].
    destruct (step_inv s1 s2 Hn Hs H0) as [H1 H2]. apply IH; [by rewrite H2|done]. }
  split_and!; [apply (inv_counts s Hinv)|apply (inv_marked s Hinv)|apply (inv_owed s Hinv)|].
  intros Hrest q Hq. assert (owed s q) as [Hr|(i & c & Hc & Hcl)].
  - apply (inv_owed s Hinv); [|done]. intros i todo kept Hc. by apply Hrest in Hc.
  - destruct (inv_marked s Hinv q Hq) as (x & Hx & _). unfold referenced, RefCount in Hr. rewrite Hx, (inv_counts s Hinv q x Hx) in Hr.
    unfold holders in Hr. destruct (map_choose (filter (λ kc, kc.2 = Holding q) (pcs s))) as (i & c & Hc).
    { intros E. rewrite E in Hr. done. }
    apply map_lookup_filter_Some in Hc as [Hc E]. simpl in E. subst c. by exists i.
  - apply Hrest in Hc. by destruct Hcl as [->|[->| ->]].
Qed.

Definition two_snapshots : gmap nat Snapshot := {[0%nat := blank_snapshot 1; 1%nat := blank_snapshot 2]}.
Definition two_goroutines : system := started two_snapshots 0 {[0%nat := Idle; 1%nat := Idle]}.

Lemma two_goroutines_unlocked st c : locking c = false → unlocked (goto two_goroutines 0 st c).
Proof. intros Hc. apply unlocked_goto; [|done]. intros i d. simpl. rewrite lookup_insert_Some, lookup_singleton_Some. naive_solver. Qed.

(** A request takes the first snapshot, the other goroutine publishes the
    second one: the first stays listed, and it is held. *)
Lemma store_interleaved_witness :
  ∃ s, rtc step two_goroutines s ∧ retired (store s) = [0%nat] ∧ (∃ i, pcs s !! i = Some (Holding 0)).
Proof.
  set (s1 := goto two_goroutines 0 (Acquire (store two_goroutines)).1 (Holding 0)).
  set (s2 := goto s1 1 (Swap (store s1) 1 5) Idle).
  assert (rtc step two_goroutines s2) as Hrun.
  { etrans; [apply (Acquire_run two_goroutines 0); reflexivity|].
    apply (Swap_run s1 1 1 5); [reflexivity|by eexists|by apply two_goroutines_unlocked|done]. }
  exists s2. split_and!; [done|reflexivity|].
  refine (proj2 (proj2 (proj2 (store_interleaved two_snapshots 0 {[0%nat := Idle; 1%nat := Idle]} s2 _ _ _ _ Hrun))) _ 0%nat _).
  - intros p x. unfold two_snapshots. rewrite lookup_insert_Some, lookup_singleton_Some. intros [[_ <-]|[_ [_ <-]]]; done.
  - by eexists.
  - intros i c. rewrite lookup_insert_Some, lookup_singleton_Some. naive_solver.
  - done.
  - intros i c. simpl. rewrite !lookup_insert_Some, lookup_singleton_Some. naive_solver.
  - left.
Defined.

(** What the invariant cannot promise: [Acquire] loads the current snapshot
    and counts itself in afterwards, without the lock.  A swap that completes
    between the two finds no reference and takes the snapshot off the retired
    list, and the request then holds one that the store no longer knows. *)
Theorem store_acquire_race :
  ∃ s, rtc step two_goroutines s ∧ pcs s !! 0%nat = Some (Holding 0) ∧ pcs s !! 1%nat = Some Idle ∧
    current (store s) = Some 1%nat ∧ retired (store s) = [].
Proof.
  set (s1 := goto two_goroutines 0 (store two_goroutines) (Loaded 0)). set (s2 := goto s1 1 (Swap (store s1) 1 5) Idle).
  exists (goto s2 0 (addRef 0 (store s2)) (Holding 0)). split; [|done].
  eapply rtc_l; [by apply (step_load two_goroutines 0)|]. etrans.
  - apply (Swap_run s1 1 1 5); [reflexivity|by eexists|by apply two_goroutines_unlocked|done].
  - apply rtc_once. by apply (step_add s2 0 0).
Qed.
