(* ===== verification/Provider.v ===== *)
(** * Configuration providers (internal/provider)

    A provider is the operations of Go's interface: its name, its priority
    and what [Load] answers when it is asked.  [Merge] combines what the
    providers load; the order in which Go visits the pools of a configuration
    is a parameter.  Reading a file and parsing JSON are parameters. *)
From S2P Require Import Prelude.
From S2P Require Import GoStrings.
From S2P Require Import GoFloat.
From S2P Require Import Config.
From Stdlib Require Import SpecFloat.

(** ** Deep equality

    [reflect.DeepEqual] on configuration values is equality, except that the
    one floating point field compares with [==], for which the two zeros are
    equal. *)
#[export] Instance float64_eq_dec : EqDecision float64.
Proof. intros x y. change (Decision (x = y :> spec_float)). solve_decision. Defined.
#[export] Instance slice_eq_dec {A} `{EqDecision A} : EqDecision (slice A).
Proof. solve_decision. Defined.
#[export] Instance TLSCert_eq_dec : EqDecision TLSCert.
Proof. solve_decision. Defined.
#[export] Instance TLSConfig_eq_dec : EqDecision TLSConfig.
Proof. solve_decision. Defined.
#[export] Instance RetryConfig_eq_dec : EqDecision RetryConfig.
Proof. solve_decision. Defined.
#[export] Instance RetryBudgetConfig_eq_dec : EqDecision RetryBudgetConfig.
Proof. solve_decision. Defined.
#[export] Instance ClientRetryCapConfig_eq_dec : EqDecision ClientRetryCapConfig.
Proof. solve_decision. Defined.
#[export] Instance CacheConfig_eq_dec : EqDecision CacheConfig.
Proof. solve_decision. Defined.
#[export] Instance CohortConfig_eq_dec : EqDecision CohortConfig.
Proof. solve_decision. Defined.
#[export] Instance OverloadConfig_eq_dec : EqDecision OverloadConfig.
Proof. solve_decision. Defined.
#[export] Instance AutoDrainConfig_eq_dec : EqDecision AutoDrainConfig.
Proof. solve_decision. Defined.
#[export] Instance TrafficConfig_eq_dec : EqDecision TrafficConfig.
Proof. solve_decision. Defined.
#[export] Instance PluginBreakerConfig_eq_dec : EqDecision PluginBreakerConfig.
Proof. solve_decision. Defined.
#[export] Instance PluginFilter_eq_dec : EqDecision PluginFilter.
Proof. solve_decision. Defined.
#[export] Instance PluginConfig_eq_dec : EqDecision PluginConfig.
Proof. solve_decision. Defined.
#[export] Instance RoutePolicy_eq_dec : EqDecision RoutePolicy.
Proof. solve_decision. Defined.
#[export] Instance Route_eq_dec : EqDecision Route.
Proof. solve_decision. Defined.
#[export] Instance HealthConfig_eq_dec : EqDecision HealthConfig.
Proof. solve_decision. Defined.
#[export] Instance PoolTransportConfig_eq_dec : EqDecision PoolTransportConfig.
Proof. solve_decision. Defined.
#[export] Instance BreakerConfig_eq_dec : EqDecision BreakerConfig.
Proof. solve_decision. Defined.
#[export] Instance OutlierConfig_eq_dec : EqDecision OutlierConfig.
Proof. solve_decision. Defined.
#[export] Instance Pool_eq_dec : EqDecision Pool.
Proof. solve_decision. Defined.

#[export] Instance AutoDrainConfig_eta : Eta AutoDrainConfig := fun a =>
  mkAutoDrainConfig (ad_Enabled a) (ad_WindowMS a) (ad_MinRequests a) (ad_ErrorRateMultiplier a) (ad_CooloffMS a).
#[export] Instance TrafficConfig_eta : Eta TrafficConfig := fun t =>
  mkTrafficConfig (tc_Enabled t) (tc_StablePool t) (tc_CanaryPool t) (tc_StableWeight t) (tc_CanaryWeight t) (tc_Cohort t)
    (tc_Overload t) (tc_AutoDrain t).
#[export] Instance RoutePolicy_eta : Eta RoutePolicy := fun p =>
  mkRoutePolicy (rp_RequestTimeoutMS p) (rp_UpstreamDialTimeoutMS p) (rp_UpstreamResponseHeaderTimeoutMS p) (rp_Retry p)
    (rp_RetryBudget p) (rp_ClientRetryCap p) (rp_RequireMTLS p) (rp_MTLSClientCA p) (rp_Cache p) (rp_Traffic p) (rp_Plugins p).
#[export] Instance Route_eta : Eta Route := fun r =>
  mkRoute (route_ID r) (route_Host r) (route_PathPrefix r) (route_Methods_s r) (route_Pool r) (route_Policy r) (route_Overlay r).
#[export] Instance Pool_eta : Eta Pool := fun p =>
  mkPool (pool_Endpoints_s p) (pool_Health p) (pool_Breaker p) (pool_Outlier p) (pool_Transport p) (pool_Overlay p).

(** Values that differ in the multiplier only become equal. *)
Definition eraseMultiplier (t : TrafficConfig) : TrafficConfig :=
  t <| tc_AutoDrain ::= (λ a, a <| ad_ErrorRateMultiplier := f64_zero |>) |>.
Definition multiplier (t : TrafficConfig) : float64 := ad_ErrorRateMultiplier (tc_AutoDrain t).
Definition trafficDeepEqual (a b : TrafficConfig) : bool :=
  f64_eq (multiplier a) (multiplier b) && bool_decide (eraseMultiplier a = eraseMultiplier b).
Definition routeTrafficOf (r : Route) : TrafficConfig := rp_Traffic (route_Policy r).
Definition eraseRoute (r : Route) : Route := r <| route_Policy ::= (λ p, p <| rp_Traffic ::= eraseMultiplier |>) |>.
Definition routeDeepEqual (a b : Route) : bool :=
  f64_eq (multiplier (routeTrafficOf a)) (multiplier (routeTrafficOf b)) && bool_decide (eraseRoute a = eraseRoute b).

(** ** provider.go, adminpush.go, file.go *)

Record Provider := mkProvider {
  Name : string;
  Priority : Z;
  Load : result (option Config)
}.

Definition AdminPriority : Z := 100.
Definition FilePriority : Z := 50.

Record AdminPush := mkAdminPush { admin_cfg : option Config }.
Definition NewAdminPush : AdminPush := mkAdminPush None.
Definition Swap (p : AdminPush) (cfg : option Config) : AdminPush * option Config := (mkAdminPush cfg, admin_cfg p).
Definition adminProvider (p : AdminPush) : Provider := mkProvider "admin" AdminPriority (Ok (admin_cfg p)).

Section File.
Context (ReadFile : string → result string) (ParseJSON : string → result Config).
Definition fileLoad (path : string) : result (option Config) :=
  if decide (path = "") then Ok None
  else let? data := ReadFile path in let? cfg := ParseJSON data in Ok (Some cfg).
Definition fileProvider (path : string) : Provider := mkProvider "file" FilePriority (fileLoad path).
End File.

(** ** errors.go *)

Record ConflictError := mkConflict {
  ObjectType : string;
  ObjectID : string;
  Field : string;
  ExistingProvider : string;
  IncomingProvider : string
}.
Definition ConflictError_Error (e : ConflictError) : string :=
  let field := if decide (Field e = "") then "unknown" else Field e in
  ("conflict on " ++ ObjectType e ++ " " ++ Quote (ObjectID e) ++ " field " ++ field ++ " between " ++ ExistingProvider e ++
   " and " ++ IncomingProvider e)%string.

Inductive mergeError := LoadFailed (e : string) | Conflict (c : ConflictError).

(** ** merge.go *)

Definition tlsEmpty (cfg : TLSConfig) : bool :=
  negb (tls_Enabled cfg) && bool_decide (tls_Addr cfg = "") && (len (tls_Certs cfg) =? 0) &&
  bool_decide (tls_ClientCAFile cfg = "") && bool_decide (tls_MinVersion cfg = "") && (len (tls_CipherSuites cfg) =? 0).

Definition cleanRoute (r : Route) : Route := r <| route_Overlay := false |>.
Definition cleanPool (p : Pool) : Pool := p <| pool_Overlay := false |>.
Definition routesEqual (a b : Route) : bool := routeDeepEqual (cleanRoute a) (cleanRoute b).
Definition poolsEqual (a b : Pool) : bool := bool_decide (cleanPool a = cleanPool b).

Definition routeConflictField (a b : Route) : string :=
  let p := route_Policy a in
  let q := route_Policy b in
  if negb (bool_decide (route_Host a = route_Host b)) then "host"
  else if negb (bool_decide (route_PathPrefix a = route_PathPrefix b)) then "path_prefix"
  else if negb (bool_decide (route_Methods_s a = route_Methods_s b)) then "methods"
  else if negb (bool_decide (route_Pool a = route_Pool b)) then "pool"
  else if negb (rp_RequestTimeoutMS p =? rp_RequestTimeoutMS q) then "policy.request_timeout_ms"
  else if negb (rp_UpstreamDialTimeoutMS p =? rp_UpstreamDialTimeoutMS q) then "policy.upstream_dial_timeout_ms"
  else if negb (rp_UpstreamResponseHeaderTimeoutMS p =? rp_UpstreamResponseHeaderTimeoutMS q)
  then "policy.upstream_response_header_timeout_ms"
  else if negb (Bool.eqb (rp_RequireMTLS p) (rp_RequireMTLS q)) then "policy.require_mtls"
  else if negb (bool_decide (rp_MTLSClientCA p = rp_MTLSClientCA q)) then "policy.mtls_client_ca"
  else if negb (bool_decide (rp_Retry p = rp_Retry q)) then "policy.retry"
  else if negb (bool_decide (rp_RetryBudget p = rp_RetryBudget q)) then "policy.retry_budget"
  else if negb (bool_decide (rp_ClientRetryCap p = rp_ClientRetryCap q)) then "policy.client_retry_cap"
  else if negb (bool_decide (rp_Cache p = rp_Cache q)) then "policy.cache"
  else if negb (bool_decide (rp_Plugins p = rp_Plugins q)) then "policy.plugins"
  else if negb (trafficDeepEqual (rp_Traffic p) (rp_Traffic q)) then "policy.traffic"
  else "route".

Definition poolConflictField (a b : Pool) : string :=
  if negb (bool_decide (pool_Endpoints_s a = pool_Endpoints_s b)) then "endpoints"
  else if negb (bool_decide (pool_Health a = pool_Health b)) then "health"
  else if negb (bool_decide (pool_Breaker a = pool_Breaker b)) then "breaker"
  else if negb (bool_decide (pool_Outlier a = pool_Outlier b)) then "outlier"
  else "pool".

(** [r] with the traffic weights of [w]. *)
Definition withWeights (r w : Route) : Route :=
  r <| route_Policy ::= (λ p, p <| rp_Traffic ::= (λ t,
         t <| tc_StableWeight := tc_StableWeight (routeTrafficOf w) |> <| tc_CanaryWeight := tc_CanaryWeight (routeTrafficOf w) |>) |>) |>.
Definition withEndpoints (p e : Pool) : Pool := p <| pool_Endpoints_s := pool_Endpoints_s e |>.

(** The merged value, or the field in conflict. *)
Definition overlayRoute (base overlay : Route) : string + Route :=
  let normalized := withWeights (cleanRoute overlay) base in
  if negb (routesEqual base normalized) then inl (routeConflictField base normalized)
  else inr (cleanRoute (withWeights base overlay)).
Definition overlayPool (base overlay : Pool) : string + Pool :=
  let normalized := withEndpoints (cleanPool overlay) base in
  if negb (poolsEqual base normalized) then inl (poolConflictField base normalized)
  else inr (cleanPool (withEndpoints base overlay)).

(** What the loop of [Merge] carries; the result's other fields stay zero. *)
Record Merging := mkMerging {
  m_ListenAddr : string;
  m_TLS : TLSConfig;
  m_Routes : list Route;
  m_Pools : gmap string Pool;
  routeIndex : gmap string nat;
  routeProviders : gmap string string;
  poolProviders : gmap string string;
  listenProvider : string;
  tlsProvider : string
}.
#[export] Instance Merging_eta : Eta Merging := fun m =>
  mkMerging (m_ListenAddr m) (m_TLS m) (m_Routes m) (m_Pools m) (routeIndex m) (routeProviders m) (poolProviders m)
    (listenProvider m) (tlsProvider m).

Definition emptyTLS : TLSConfig := mkTLSConfig false "" SliceNil "" "" SliceNil.
Definition emptyMerging : Merging := mkMerging "" emptyTLS [] ∅ ∅ ∅ ∅ "" "".

(** A loop that stops at the first error. *)
Fixpoint foldE {S X E} (f : S → X → E + S) (s : S) (l : list X) : E + S :=
  match l with
  | [] => inr s
  | x :: l => match f s x with inl e => inl e | inr s => foldE f s l end
  end.

Definition mergeListen (name : string) (cfg : Config) (m : Merging) : ConflictError + Merging :=
  if decide (ListenAddr cfg = "") then inr m
  else if decide (m_ListenAddr m = "") then inr (m <| m_ListenAddr := ListenAddr cfg |> <| listenProvider := name |>)
  else if decide (m_ListenAddr m = ListenAddr cfg) then inr m
  else inl (mkConflict "config" "listen_addr" "listen_addr" (listenProvider m) name).

Definition mergeTLS (name : string) (cfg : Config) (m : Merging) : ConflictError + Merging :=
  if tlsEmpty (TLS cfg) then inr m
  else if tlsEmpty (m_TLS m) then inr (m <| m_TLS := TLS cfg |> <| tlsProvider := name |>)
  else if decide (m_TLS m = TLS cfg) then inr m
  else inl (mkConflict "config" "tls" "tls" (tlsProvider m) name).

(** [routeIndex] always points into the routes ([merge_index_ok]); [None]
    there is Go's index panic. *)
Definition mergeRoute (name : string) (m : Merging) (route : Route) : ConflictError + Merging :=
  let id := route_ID route in
  if decide (id = "") then inr m
  else match routeIndex m !! id with
  | None =>
      inr (m <| m_Routes := m_Routes m ++ [cleanRoute route] |> <| routeIndex ::= <[id := length (m_Routes m)]> |>
             <| routeProviders ::= <[id := name]> |>)
  | Some idx =>
      match m_Routes m !! idx with
      | None => inl (mkConflict "" "" "" "" "")
      | Some existing =>
          let conflict field := mkConflict "route" id field (default "" (routeProviders m !! id)) name in
          if routesEqual existing route then inr m
          else if route_Overlay route then
            match overlayRoute existing route with
            | inl field => inl (conflict field)
            | inr merged => inr (m <| m_Routes ::= <[idx := merged]> |> <| routeProviders ::= <[id := name]> |>)
            end
          else inl (conflict (routeConflictField existing route))
      end
  end.

Definition mergePool (name : string) (m : Merging) (np : string * Pool) : ConflictError + Merging :=
  let '(id, pool) := np in
  if decide (id = "") then inr m
  else match m_Pools m !! id with
  | None => inr (m <| m_Pools ::= <[id := cleanPool pool]> |> <| poolProviders ::= <[id := name]> |>)
  | Some existing =>
      let conflict field := mkConflict "pool" id field (default "" (poolProviders m !! id)) name in
      if poolsEqual existing pool then inr m
      else if pool_Overlay pool then
        match overlayPool existing pool with
        | inl field => inl (conflict field)
        | inr merged => inr (m <| m_Pools ::= <[id := merged]> |> <| poolProviders ::= <[id := name]> |>)
        end
      else inl (conflict (poolConflictField existing pool))
  end.

Section Merge.
(** The order in which Go visits the pools of a configuration. *)
Context (visit : Config → list (string * Pool)).

Definition mergeEntry (m : Merging) (entry : string * Config) : ConflictError + Merging :=
  let '(name, cfg) := entry in
  match mergeListen name cfg m with
  | inl e => inl e
  | inr m =>
      match mergeTLS name cfg m with
      | inl e => inl e
      | inr m =>
          match foldE (mergeRoute name) m (Routes cfg) with
          | inl e => inl e
          | inr m => foldE (mergePool name) m (visit cfg)
          end
      end
  end.

(** The configurations that are loaded, with their providers; a nil provider
    and a nil configuration are skipped. *)
Fixpoint loadAll (providers : list (option Provider)) : result (list (Provider * Config)) :=
  match providers with
  | [] => Ok []
  | None :: providers => loadAll providers
  | Some p :: providers =>
      let? cfg := Load p in
      let? rest := loadAll providers in
      Ok (match cfg with None => rest | Some cfg => (p, cfg) :: rest end)
  end.

(** [sort.SliceStable] by priority. *)
Fixpoint insertByPriority (e : Provider * Config) (l : list (Provider * Config)) : list (Provider * Config) :=
  match l with
  | [] => [e]
  | x :: l => if Priority x.1 <? Priority e.1 then x :: insertByPriority e l else e :: x :: l
  end.
Definition sortByPriority (l : list (Provider * Config)) : list (Provider * Config) := foldr insertByPriority [] l.

Definition resultOf (m : Merging) : Config :=
  mkConfig (m_ListenAddr m) (m_TLS m) (mkLimitsConfig 0 0 0 None 0 0 0 0 0) (mkShutdownConfig 0 0 0) (mkLoggingConfig false) None
    (m_Routes m) (m_Pools m).

Definition Merge (providers : list (option Provider)) : mergeError + Config :=
  match loadAll providers with
  | Err e => inl (LoadFailed e)
  | Ok entries =>
      match foldE mergeEntry emptyMerging ((λ e, (Name e.1, e.2)) <$> sortByPriority entries) with
      | inl c => inl (Conflict c)
      | inr m => inr (resultOf m)
      end
  end.
End Merge.

#[local] Arguments mergePool : simpl never.
#[local] Arguments mergeRoute : simpl never.
#[local] Arguments mergeEntry : simpl never.

(** ** Equality of configuration values *)

Lemma f64_eq_cases a b : f64_eq a b = true → a = b ∨ (∃ s s', a = S754_zero s ∧ b = S754_zero s').
Proof.
  unfold f64_eq. destruct a as [s|s| |s m e], b as [s'|s'| |s' m' e']; simpl; try done; try (destruct s; done); try (destruct s'; done); eauto.
  - destruct s, s'; try done; auto.
  - destruct s, s'; try done; destruct (Z.compare_spec e e'); try done; subst.
    all: destruct (Pos.compare_cont Eq m m') eqn:E; try done; apply Pos.compare_eq in E; subst; by left.
Qed.
Lemma f64_eq_sym a b : f64_eq a b = true → f64_eq b a = true.
Proof. intros H. by destruct (f64_eq_cases _ _ H) as [->|(s & s' & -> & ->)]. Qed.
Lemma f64_eq_trans a b c : f64_eq a b = true → f64_eq b c = true → f64_eq a c = true.
Proof.
  intros H1 H2. destruct (f64_eq_cases _ _ H1) as [->|(s & s' & -> & ->)]; [done|].
  destruct (f64_eq_cases _ _ H2) as [<-|(t & t' & _ & ->)]; [done|]. done.
Qed.

(** Equal up to the overlay flag: what [routesEqual] decides. *)
Lemma routesEqual_spec a b :
  routesEqual a b = true ↔
  f64_eq (multiplier (routeTrafficOf a)) (multiplier (routeTrafficOf b)) = true ∧ eraseRoute (cleanRoute a) = eraseRoute (cleanRoute b).
Proof. unfold routesEqual, routeDeepEqual. by rewrite andb_true_iff, bool_decide_eq_true. Qed.
Lemma routesEqual_sym a b : routesEqual a b = true → routesEqual b a = true.
Proof. rewrite !routesEqual_spec. intros [H1 H2]. split; [by apply f64_eq_sym|done]. Qed.
Lemma routesEqual_trans a b c : routesEqual a b = true → routesEqual b c = true → routesEqual a c = true.
Proof. rewrite !routesEqual_spec. intros [H1 H2] [H3 H4]. split; [by eapply f64_eq_trans|congruence]. Qed.
Lemma routesEqual_clean_l a b : routesEqual (cleanRoute a) b = routesEqual a b.
Proof. done. Qed.
Lemma routesEqual_clean_r a b : routesEqual a (cleanRoute b) = routesEqual a b.
Proof. done. Qed.
Lemma routesEqual_ID a b : routesEqual a b = true → route_ID a = route_ID b.
Proof. rewrite routesEqual_spec. intros [_ H]. by apply (f_equal route_ID) in H. Qed.

Lemma withWeights_self r : withWeights r r = r.
Proof. by destruct r as [?????[?????????[] ?] ?]. Qed.
Lemma withWeights_last r v w : withWeights (withWeights r v) w = withWeights r w.
Proof. done. Qed.
Lemma withWeights_eq a b w : routesEqual a b = true → routesEqual (withWeights a w) (withWeights b w) = true.
Proof.
  rewrite !routesEqual_spec. intros [H1 H2]. split; [done|]. by apply (f_equal (λ r, withWeights r w)) in H2.
Qed.

(** Equal but for the weights of the traffic, the fields an overlay sets. *)
Definition route_agrees (a b : Route) : Prop := routesEqual (withWeights a b) b = true.
Lemma agrees_of_equal a b : routesEqual a b = true → route_agrees a b.
Proof. intros H%(withWeights_eq _ _ b). by rewrite withWeights_self in H. Qed.
Lemma overlayRoute_spec base overlay r :
  overlayRoute base overlay = inr r → routesEqual r overlay = true ∧ (∀ x, route_agrees base x → route_agrees r x).
Proof.
  unfold overlayRoute. destruct (routesEqual base _) eqn:E; [|done]. intros [= <-]. split; [|done].
  apply (withWeights_eq _ _ overlay) in E. rewrite withWeights_last in E.
  change (withWeights (cleanRoute overlay) overlay) with (cleanRoute (withWeights overlay overlay)) in E.
  by rewrite withWeights_self in E.
Qed.

Definition pool_agrees (a b : Pool) : Prop := cleanPool (withEndpoints a b) = cleanPool b.
Lemma poolsEqual_spec a b : poolsEqual a b = true ↔ cleanPool a = cleanPool b.
Proof. apply bool_decide_eq_true. Qed.
Lemma pool_agrees_of_equal a b : poolsEqual a b = true → pool_agrees a b.
Proof. rewrite poolsEqual_spec. unfold pool_agrees. destruct a, b. by intros [= -> -> -> -> ->]. Qed.
Lemma overlayPool_spec base overlay p :
  overlayPool base overlay = inr p → poolsEqual p overlay = true ∧ (∀ x, pool_agrees base x → pool_agrees p x).
Proof.
  unfold overlayPool. destruct (poolsEqual base _) eqn:E; [|done]. intros [= <-]. apply poolsEqual_spec in E.
  destruct base, overlay. injection E as -> -> -> ->. split; [by apply poolsEqual_spec|done].
Qed.

(** ** Routes *)

(** The routes merged from the definitions [defs], in their order. *)
Record routes_ok (defs : list Route) (m : Merging) : Prop := mkRoutesOk {
  ro_index : ∀ id i, routeIndex m !! id = Some i ↔ ∃ r, m_Routes m !! i = Some r ∧ route_ID r = id;
  ro_clean : ∀ i r, m_Routes m !! i = Some r → route_ID r ≠ "" ∧ route_Overlay r = false;
  ro_agree : ∀ d, d ∈ defs → route_ID d ≠ "" → ∃ i r, m_Routes m !! i = Some r ∧ route_ID r = route_ID d ∧ route_agrees r d;
  ro_last : ∀ i r, m_Routes m !! i = Some r →
    ∃ d, last (filter (λ d, route_ID d = route_ID r) defs) = Some d ∧ routesEqual r d = true
}.

(** A number, not NaN: what JSON can denote. *)
Definition numeric (r : Route) : Prop := f64_eq (multiplier (routeTrafficOf r)) (multiplier (routeTrafficOf r)) = true.
Lemma routesEqual_refl r : numeric r → routesEqual r r = true.
Proof. intros. by apply routesEqual_spec. Qed.

Lemma last_filter_snoc (P : Route → Prop) `{∀ x, Decision (P x)} l x :
  last (filter P (l ++ [x])) = if decide (P x) then Some x else last (filter P l).
Proof. rewrite filter_app, filter_cons, filter_nil. case_decide; [by rewrite last_snoc|by rewrite app_nil_r]. Qed.

(** One entry of the routes is added or replaced by [r], which stands for [d]. *)
Lemma routes_ok_update defs m m' d idx r :
  routes_ok defs m → route_ID d ≠ "" → route_ID r = route_ID d → route_Overlay r = false → routesEqual r d = true →
  m_Routes m' !! idx = Some r → routeIndex m' = <[route_ID d := idx]> (routeIndex m) →
  (∀ i, i ≠ idx → m_Routes m' !! i = m_Routes m !! i) →
  (∀ old, m_Routes m !! idx = Some old → route_ID old = route_ID d ∧ ∀ x, route_agrees old x → route_agrees r x) →
  (∀ j, routeIndex m !! route_ID d = Some j → j = idx) →
  routes_ok (defs ++ [d]) m'.
Proof.
  intros [Hix Hcl Hag Hla] Hd Hid Hov Heq Hr Hindex Hother Hold Huniq. split.
  - intros id i. rewrite Hindex, lookup_insert_Some, Hix. split.
    + intros [[<- <-]|[Hne (x & Hx & <-)]]; [by exists r|]. destruct (decide (i = idx)) as [->|Hi].
      * destruct (Hold _ Hx) as [E _]. congruence.
      * exists x. by rewrite Hother.
    + intros (x & Hx & <-). destruct (decide (i = idx)) as [->|Hi]; [left; rewrite Hr in Hx; by simplify_eq|right].
      rewrite Hother in Hx by done. split; [|by exists x]. intros E. destruct Hi. apply Huniq, Hix. by exists x.
  - intros i x Hx. destruct (decide (i = idx)) as [->|Hi]; [rewrite Hr in Hx; simplify_eq; by rewrite Hid|].
    rewrite Hother in Hx by done. by eapply Hcl.
  - intros x [Hx|Hx]%elem_of_app Hne.
    + destruct (Hag x Hx Hne) as (i & y & Hy & Hyid & Hya). destruct (decide (i = idx)) as [->|Hi].
      * destruct (Hold _ Hy) as [E Hkeep]. exists idx, r. split_and!; [done|congruence|by apply Hkeep].
      * exists i, y. by rewrite Hother.
    + apply list_elem_of_singleton in Hx as ->. exists idx, r. split_and!; [done..|by apply agrees_of_equal].
  - intros i x Hx. rewrite last_filter_snoc. destruct (decide (i = idx)) as [->|Hi].
    + rewrite Hr in Hx. simplify_eq. rewrite decide_True by done. by exists d.
    + rewrite Hother in Hx by done. rewrite decide_False; [by eapply Hla|]. intros E. destruct Hi. apply Huniq, Hix. by exists x.
Qed.

Lemma mergeRoute_ok name defs m d m' :
  routes_ok defs m → numeric d → mergeRoute name m d = inr m' → routes_ok (defs ++ [d]) m' ∧ m_Pools m' = m_Pools m.
Proof.
  intros Hok Hnum. pose proof Hok as [Hix Hcl Hag Hla]. unfold mergeRoute. destruct (decide (route_ID d = "")) as [Hd|Hd].
  { intros [= <-]. split; [|done]. split; [done..| |].
    - intros x [Hx|Hx]%elem_of_app; [by apply Hag|]. apply list_elem_of_singleton in Hx as ->. done.
    - intros i x Hx. rewrite last_filter_snoc, decide_False; [by eapply Hla|]. apply Hcl in Hx as [Hx _]. congruence. }
  destruct (routeIndex m !! route_ID d) as [idx|] eqn:Ei.
  - assert (∃ old, m_Routes m !! idx = Some old ∧ route_ID old = route_ID d) as (old & Hold & Hid) by by apply Hix.
    rewrite Hold. destruct (routesEqual old d) eqn:Eq.
    + intros [= <-]. split; [|done]. eapply (routes_ok_update defs m m d idx old); try done.
      * by eapply Hcl.
      * by rewrite insert_id.
      * intros x Hx. rewrite Hold in Hx. by simplify_eq.
      * intros j Hj. congruence.
    + destruct (route_Overlay d); [|done]. destruct (overlayRoute old d) as [|r] eqn:Eo; [done|]. intros [= <-]. split; [|done].
      assert (route_Overlay r = false ∧ route_ID r = route_ID d) as [Hov Hrid].
      { revert Eo. unfold overlayRoute. destruct (negb _); [done|]. by intros [= <-]. }
      apply overlayRoute_spec in Eo as [Hr Hkeep]. eapply (routes_ok_update defs m _ d idx r); try done; simpl.
      * apply list_lookup_insert_eq. by eapply lookup_lt_Some.
      * by rewrite insert_id.
      * intros i Hi. by apply list_lookup_insert_ne.
      * intros x Hx. rewrite Hold in Hx. by simplify_eq.
      * intros j Hj. congruence.
  - intros [= <-]. split; [|done]. eapply (routes_ok_update defs m _ d (length (m_Routes m)) (cleanRoute d)); try done; simpl.
    + exact (routesEqual_refl d Hnum).
    + apply list_lookup_middle. done.
    + intros i Hi. destruct (decide (i < length (m_Routes m))%nat); [by apply lookup_app_l|].
      rewrite !(lookup_ge_None_2); [done|lia|rewrite length_app; simpl; lia].
    + intros x Hx%lookup_lt_Some. lia.
    + congruence.
Qed.

Lemma mergeRoutes_ok name ds defs m m' :
  routes_ok defs m → Forall numeric ds → foldE (mergeRoute name) m ds = inr m' → routes_ok (defs ++ ds) m' ∧ m_Pools m' = m_Pools m.
Proof.
  revert defs m. induction ds as [|d ds IH]; intros defs m Hok Hnum H; simpl in H.
  { simplify_eq. by rewrite app_nil_r. }
  apply Forall_cons in Hnum as [Hd Hnum]. destruct (mergeRoute name m d) as [|m1] eqn:E; [done|].
  apply (mergeRoute_ok _ defs) in E as [E1 E2]; [|done..].
  destruct (IH _ _ E1 Hnum H) as [H1 H2]. rewrite <- app_assoc in H1. split; [done|congruence].
Qed.

(** ** Pools *)

(** What a definition makes of the pool merged so far; [None] is a conflict. *)
Definition combinePool (o : option Pool) (p : Pool) : option Pool :=
  match o with
  | None => Some (cleanPool p)
  | Some e =>
      if poolsEqual e p then Some e
      else if pool_Overlay p then match overlayPool e p with inr r => Some r | inl _ => None end else None
  end.

(** Processing a pool changes the entry of its name only. *)
Lemma mergePool_spec name m id p m' :
  id ≠ "" → mergePool name m (id, p) = inr m' →
  ∃ r owners, combinePool (m_Pools m !! id) p = Some r ∧ m' = m <| m_Pools ::= <[id := r]> |> <| poolProviders := owners |> ∧
    (∀ x, x ≠ id → owners !! x = poolProviders m !! x) ∧ owners !! id = (if decide (m_Pools m !! id = Some r) then poolProviders m !! id else Some name).
Proof.
  intros Hid. unfold mergePool. rewrite decide_False by done. destruct (m_Pools m !! id) as [e|] eqn:E; cbn [combinePool].
  - destruct (poolsEqual e p) eqn:Eq.
    + intros [= <-]. exists e, (poolProviders m). split_and!; [done| |done|by rewrite decide_True].
      destruct m; simpl in *. by rewrite insert_id.
    + destruct (pool_Overlay p); [|done]. destruct (overlayPool e p) as [|r] eqn:Eo; [done|]. intros [= <-].
      exists r, (<[id := name]> (poolProviders m)). split_and!; [done..| |].
      * intros x Hx. by rewrite lookup_insert_ne.
      * rewrite lookup_insert_eq. case_decide as Hd; [|done]. injection Hd as ->. apply overlayPool_spec in Eo as [Eo _]. congruence.
  - intros [= <-]. exists (cleanPool p), (<[id := name]> (poolProviders m)). split_and!; [done..| |].
    + intros x Hx. by rewrite lookup_insert_ne.
    + by rewrite lookup_insert_eq, decide_False.
Qed.
Lemma mergePool_total name m id p r :
  id ≠ "" → combinePool (m_Pools m !! id) p = Some r → ∃ m', mergePool name m (id, p) = inr m'.
Proof.
  intros Hid. unfold mergePool. rewrite decide_False by done. destruct (m_Pools m !! id) as [e|]; simpl; [|by eexists].
  destruct (poolsEqual e p); [by eexists|]. destruct (pool_Overlay p); [|done]. destruct (overlayPool e p); [done|by eexists].
Qed.
Lemma mergePool_skip name m p : mergePool name m ("", p) = inr m.
Proof. done. Qed.

Lemma mergePool_swap name m x y m1 m2 :
  x.1 ≠ y.1 → mergePool name m x = inr m1 → mergePool name m1 y = inr m2 →
  ∃ m1', mergePool name m y = inr m1' ∧ mergePool name m1' x = inr m2.
Proof.
  destruct x as [x p], y as [y q]. cbn [fst]. intros Hne H1 H2.
  destruct (decide (x = "")) as [->|Hx]; [rewrite mergePool_skip in H1; simplify_eq; by exists m2|].
  destruct (decide (y = "")) as [->|Hy]; [rewrite mergePool_skip in H2; simplify_eq; by exists m|].
  destruct (mergePool_spec _ _ _ _ _ Hx H1) as (r & o1 & Hr & -> & Ho1 & Ho1').
  destruct (mergePool_spec _ _ _ _ _ Hy H2) as (t & o2 & Ht & -> & Ho2 & Ho2'). simpl in *.
  rewrite lookup_insert_ne in Ht, Ho2' by done.
  destruct (mergePool_total name m y q t Hy Ht) as [m1' E]. exists m1'. split; [done|].
  destruct (mergePool_spec _ _ _ _ _ Hy E) as (t' & o1b & Ht' & -> & Hb & Hb'). simplify_eq.
  destruct (mergePool_total name (m <| m_Pools ::= <[y := t]> |> <| poolProviders := o1b |>) x p r Hx) as [m2' E'].
  { simpl. by rewrite lookup_insert_ne. }
  refine (eq_trans E' _). f_equal. destruct (mergePool_spec _ _ _ _ _ Hx E') as (r' & o2b & Hr' & -> & Hc & Hc'). simpl in *.
  rewrite lookup_insert_ne in Hr', Hc' by done. simplify_eq. unfold upd. simpl. f_equal; [by apply insert_insert_ne|].
  apply map_eq. intros k. destruct (decide (k = x)) as [->|Hkx].
  - rewrite Hc', Ho2, Ho1', Hb by done. done.
  - rewrite Hc by done. destruct (decide (k = y)) as [->|Hky]; [by rewrite Hb', Ho2', Ho1|]. by rewrite Hb, Ho2, Ho1.
Qed.

(** The order of visiting the pools does not matter. *)
Lemma mergePools_perm name l l' m m' :
  l ≡ₚ l' → NoDup l.*1 → foldE (mergePool name) m l = inr m' → foldE (mergePool name) m l' = inr m'.
Proof.
  intros HP. revert m. induction HP as [|x l l' HP IH|x y l|l1 l2 l3 H1 IH1 H2 IH2]; intros m Hnd H; simpl in *.
  - done.
  - apply NoDup_cons in Hnd as [_ Hnd]. destruct (mergePool name m x) as [|m1]; [done|]. by apply IH.
  - destruct (mergePool name m y) as [|m1] eqn:E1; [done|]. destruct (mergePool name m1 x) as [|m2] eqn:E2; [done|].
    apply NoDup_cons in Hnd as [Hy _]. rewrite elem_of_cons in Hy.
    destruct (mergePool_swap name m y x m1 m2) as (m1' & -> & ->); [naive_solver|done..].
  - apply IH2; [by rewrite <- H1|]. by apply IH1.
Qed.

Lemma mergePools_pointwise name l m m' :
  NoDup l.*1 → foldE (mergePool name) m l = inr m' →
  m_Routes m' = m_Routes m ∧ routeIndex m' = routeIndex m ∧ m_Pools m' !! "" = m_Pools m !! "" ∧
  ∀ n, n ≠ "" → (∀ p, (n, p) ∈ l → ∃ r, combinePool (m_Pools m !! n) p = Some r ∧ m_Pools m' !! n = Some r) ∧
                (n ∉ l.*1 → m_Pools m' !! n = m_Pools m !! n).
Proof.
  revert m. induction l as [|[x q] l IH]; intros m Hnd H; simpl in H.
  { simplify_eq. split_and!; [done..|]. intros n Hn. split; [by intros p ?%elem_of_nil|done]. }
  apply NoDup_cons in Hnd as [Hx Hnd]. destruct (mergePool name m (x, q)) as [|m1] eqn:E; [done|].
  destruct (IH m1 Hnd H) as (H1 & H2 & H3 & H4). destruct (decide (x = "")) as [->|Hxe].
  { rewrite mergePool_skip in E. simplify_eq. split_and!; [done..|]. intros n Hn. destruct (H4 n Hn) as [Ha Hb]. split.
    - intros p [[= -> ->]|Hp]%elem_of_cons; [done|by apply Ha].
    - intros Hin. apply Hb. cbn [fmap list_fmap] in Hin. rewrite elem_of_cons in Hin. tauto. }
  destruct (mergePool_spec _ _ _ _ _ Hxe E) as (r & owners & Hr & -> & _). simpl in *.
  split_and!; [done..|by rewrite H3, lookup_insert_ne|]. intros n Hn. destruct (H4 n Hn) as [Ha Hb]. split.
  - intros p [[= -> ->]|Hp]%elem_of_cons.
    + exists r. split; [done|]. by rewrite Hb, lookup_insert_eq.
    + rewrite lookup_insert_ne in Ha; [by apply Ha|]. intros ->. apply Hx. apply list_elem_of_fmap. by exists (n, p).
  - rewrite elem_of_cons. intros Hin. rewrite Hb by tauto. rewrite lookup_insert_ne; [done|]. intros ->. tauto.
Qed.

Lemma combinePool_spec o p r :
  combinePool o p = Some r → (∀ e, o = Some e → pool_Overlay e = false) →
  poolsEqual r p = true ∧ pool_Overlay r = false ∧ ∀ e x, o = Some e → pool_agrees e x → pool_agrees r x.
Proof.
  destruct o as [e|]; simpl; intros H Hov.
  - destruct (poolsEqual e p) eqn:E; [simplify_eq; split_and!; [done|by apply Hov|by intros ? ? [= ->]]|].
    destruct (pool_Overlay p); [|done]. destruct (overlayPool e p) as [|r'] eqn:Eo; [done|]. simplify_eq.
    assert (pool_Overlay r = false) as Hr. { revert Eo. unfold overlayPool. destruct (negb _); [done|]. by intros [= <-]. }
    apply overlayPool_spec in Eo as [H1 H2]. split_and!; [done..|]. intros ? ? [= <-]. apply H2.
  - simplify_eq. by split_and!; [apply poolsEqual_spec|..].
Qed.

(** The pools merged from the configurations [cs], in their order. *)
Definition pools_ok (cs : list Config) (m : Merging) : Prop :=
  m_Pools m !! "" = None ∧
  ∀ n, n ≠ "" →
    match last (omap (λ c, Pools c !! n) cs) with
    | None => m_Pools m !! n = None
    | Some top => ∃ p, m_Pools m !! n = Some p ∧ poolsEqual p top = true ∧ pool_Overlay p = false ∧
        ∀ c d, c ∈ cs → Pools c !! n = Some d → pool_agrees p d
    end.

Lemma mergePools_ok name cs cfg l m m' :
  l ≡ₚ map_to_list (Pools cfg) → pools_ok cs m → foldE (mergePool name) m l = inr m' → pools_ok (cs ++ [cfg]) m'.
Proof.
  intros Hl [He Hok] H.
  assert (NoDup l.*1) as Hnd by (rewrite Hl; apply NoDup_fst_map_to_list).
  destruct (mergePools_pointwise _ _ _ _ Hnd H) as (_ & _ & H3 & H4). split; [by rewrite H3|]. intros n Hn.
  specialize (Hok n Hn). destruct (H4 n Hn) as [Ha Hb]. rewrite omap_app. simpl.
  destruct (Pools cfg !! n) as [q|] eqn:Eq.
  - rewrite last_snoc. assert ((n, q) ∈ l) as Hin by by rewrite Hl; apply elem_of_map_to_list.
    destruct (Ha q Hin) as (r & Hr & Hr'). exists r. split; [done|].
    assert (∀ e, m_Pools m !! n = Some e → pool_Overlay e = false) as Hov.
    { intros e E. rewrite E in Hok. destruct (last _); [|done]. by destruct Hok as (? & [= <-] & _ & ? & _). }
    destruct (combinePool_spec _ _ _ Hr Hov) as (H5 & H6 & H7). split_and!; [done..|].
    intros c d [Hc|Hc]%elem_of_app Hd.
    + destruct (last (omap (λ c, Pools c !! n) cs)) as [top|] eqn:El.
      * destruct Hok as (p & Hp & _ & _ & Hag). eapply (H7 p); [done|by eapply Hag].
      * exfalso. apply last_None in El. assert (d ∈ omap (λ c, Pools c !! n) cs) as Hin' by (apply list_elem_of_omap; by exists c).
        rewrite El in Hin'. by apply elem_of_nil in Hin'.
    + apply list_elem_of_singleton in Hc as ->. simplify_eq. by apply pool_agrees_of_equal.
  - rewrite app_nil_r, Hb.
    + destruct (last _) as [top|]; [|done]. destruct Hok as (p & Hp & Hpe & Hov & Hag). exists p. split_and!; [done..|].
      intros c d [Hc|Hc]%elem_of_app Hd; [by eapply Hag|]. apply list_elem_of_singleton in Hc as ->. congruence.
    + rewrite Hl. intros ([x p] & -> & Hin)%list_elem_of_fmap. apply elem_of_map_to_list in Hin. simpl in Eq. congruence.
Qed.

(** ** The merge *)

Lemma mergeListen_frame name cfg m m' :
  mergeListen name cfg m = inr m' → m_Routes m' = m_Routes m ∧ routeIndex m' = routeIndex m ∧ m_Pools m' = m_Pools m.
Proof. unfold mergeListen. repeat case_decide; intros; simplify_eq; done. Qed.
Lemma mergeTLS_frame name cfg m m' :
  mergeTLS name cfg m = inr m' → m_Routes m' = m_Routes m ∧ routeIndex m' = routeIndex m ∧ m_Pools m' = m_Pools m.
Proof. unfold mergeTLS. repeat case_match; intros; simplify_eq; done. Qed.
Lemma routes_ok_frame defs m m' :
  m_Routes m' = m_Routes m → routeIndex m' = routeIndex m → routes_ok defs m → routes_ok defs m'.
Proof. intros E1 E2 [H1 H2 H3 H4]. split; by rewrite ?E1, ?E2. Qed.
Lemma pools_ok_frame cs m m' : m_Pools m' = m_Pools m → pools_ok cs m → pools_ok cs m'.
Proof. unfold pools_ok. by intros ->. Qed.

Lemma empty_routes_ok : routes_ok [] emptyMerging.
Proof.
  split; simpl.
  - intros id i. rewrite lookup_empty. split; [done|]. by intros (r & H & _).
  - intros i r H. by rewrite lookup_nil in H.
  - by intros d ?%elem_of_nil.
  - intros i r H. by rewrite lookup_nil in H.
Qed.
Lemma empty_pools_ok : pools_ok [] emptyMerging.
Proof. done. Qed.

Lemma routes_ok_NoDup defs m : routes_ok defs m → NoDup (route_ID <$> m_Routes m).
Proof.
  intros [H1 _ _ _]. apply NoDup_alt. intros i j id Hi Hj. rewrite list_lookup_fmap in Hi, Hj.
  apply fmap_Some in Hi as (r & Hi & ->). apply fmap_Some in Hj as (r' & Hj & E).
  assert (routeIndex m !! route_ID r = Some i) as Ei by (apply H1; eauto).
  assert (routeIndex m !! route_ID r = Some j) as Ej by (apply H1; eauto). congruence.
Qed.
Lemma routes_ok_last cs m id :
  routes_ok (cs ≫= Routes) m → id ≠ "" →
  match last (filter (λ d, route_ID d = id) (cs ≫= Routes)) with
  | None => ∀ r, r ∈ m_Routes m → route_ID r ≠ id
  | Some top => ∃ r, r ∈ m_Routes m ∧ routesEqual r top = true ∧
      ∀ c d, c ∈ cs → d ∈ Routes c → route_ID d = id → route_agrees r d
  end.
Proof.
  intros [H1 H2 H3 H4] Hid. destruct (last _) as [top|] eqn:E.
  - assert (top ∈ filter (λ d, route_ID d = id) (cs ≫= Routes)) as [Htid Htop]%list_elem_of_filter.
    { apply last_Some in E as [l ->]. apply elem_of_app. right. by apply list_elem_of_singleton. }
    destruct (H3 top Htop) as (i & r & Hr & Hrid & _); [congruence|]. exists r.
    split_and!; [by eapply list_elem_of_lookup_2| |].
    + destruct (H4 _ _ Hr) as (d & Hd & Heq). rewrite Hrid, Htid, E in Hd. by simplify_eq.
    + intros c d Hc Hd Hdid. destruct (H3 d) as (j & r' & Hr' & Hrid' & Hag); [apply list_elem_of_bind; by exists c|congruence|].
      assert (i = j) as ->.
      { assert (routeIndex m !! id = Some i) as Ei by (apply H1; exists r; split; [done|congruence]).
        assert (routeIndex m !! id = Some j) as Ej by (apply H1; exists r'; split; [done|congruence]). congruence. }
      by simplify_eq.
  - intros r (i & Hr)%list_elem_of_lookup <-. destruct (H4 _ _ Hr) as (d & Hd & _). congruence.
Qed.

(** The sort is one: ordered by priority, a permutation, and stable. *)
Lemma insertByPriority_perm e l : insertByPriority e l ≡ₚ e :: l.
Proof. induction l as [|x l IH]; simpl; [done|]. case_match; [|done]. rewrite IH. apply Permutation_swap. Qed.
Lemma sortByPriority_perm l : sortByPriority l ≡ₚ l.
Proof. induction l as [|e l IH]; simpl; [done|]. by rewrite insertByPriority_perm, IH. Qed.
Lemma sortByPriority_sorted l : StronglySorted (λ a b, Priority a.1 ≤ Priority b.1) (sortByPriority l).
Proof.
  induction l as [|e l IH]; simpl; [constructor|]. revert IH. generalize (sortByPriority l). clear l.
  induction 1 as [|x l Hs IH Hf]; simpl; [by repeat constructor|].
  destruct (Z.ltb_spec (Priority x.1) (Priority e.1)).
  - constructor; [done|]. rewrite insertByPriority_perm. constructor; [lia|done].
  - constructor; [by constructor|]. constructor; [done|]. eapply Forall_impl; [exact Hf|]. simpl. lia.
Qed.
Lemma sortByPriority_stable p l :
  filter (λ e, Priority e.1 = p) (sortByPriority l) = filter (λ e, Priority e.1 = p) l.
Proof.
  induction l as [|e l IH]; simpl; [done|]. rewrite filter_cons, <- IH. generalize (sortByPriority l). clear IH l.
  induction l as [|x l IH]; simpl; [by rewrite filter_cons, filter_nil|].
  destruct (Z.ltb_spec (Priority x.1) (Priority e.1)).
  - rewrite !filter_cons, IH. repeat case_decide; try done. lia.
  - by rewrite filter_cons.
Qed.
Lemma entries_numeric entries :
  Forall (λ e : Provider * Config, Forall numeric (Routes e.2)) entries →
  Forall (λ e, Forall numeric (Routes e.2)) ((λ e : Provider * Config, (Name e.1, e.2)) <$> sortByPriority entries).
Proof. rewrite Forall_fmap. unfold compose. by rewrite sortByPriority_perm. Qed.

Section Correct.
Context (visit : Config → list (string * Pool)).
Hypothesis visits : ∀ c, visit c ≡ₚ map_to_list (Pools c).

Lemma mergeEntry_visit visit' m e m' :
  (∀ c, visit' c ≡ₚ map_to_list (Pools c)) → mergeEntry visit m e = inr m' → mergeEntry visit' m e = inr m'.
Proof.
  intros Hv' H. destruct e as [name cfg]. unfold mergeEntry in *. destruct (mergeListen _ _ _) as [|m1]; [done|].
  destruct (mergeTLS _ _ _) as [|m2]; [done|]. destruct (foldE (mergeRoute name) m2 _) as [|m3]; [done|].
  apply (mergePools_perm name (visit cfg)); [by rewrite visits, Hv'|rewrite visits; apply NoDup_fst_map_to_list|exact H].
Qed.

Lemma mergeEntry_ok cs m name cfg m' :
  routes_ok (cs ≫= Routes) m → pools_ok cs m → Forall numeric (Routes cfg) → mergeEntry visit m (name, cfg) = inr m' →
  routes_ok ((cs ++ [cfg]) ≫= Routes) m' ∧ pools_ok (cs ++ [cfg]) m'.
Proof.
  intros Hr Hp Hnum H. unfold mergeEntry in H. destruct (mergeListen name cfg m) as [|m1] eqn:E1; [done|].
  destruct (mergeTLS name cfg m1) as [|m2] eqn:E2; [done|].
  destruct (foldE (mergeRoute name) m2 (Routes cfg)) as [|m3] eqn:E3; [done|].
  apply mergeListen_frame in E1 as (A1 & A2 & A3). apply mergeTLS_frame in E2 as (B1 & B2 & B3).
  apply (mergeRoutes_ok _ _ (cs ≫= Routes)) in E3 as [E3 E3']; [|by eapply routes_ok_frame; [..|eapply routes_ok_frame]|done].
  rewrite bind_app. simpl. rewrite app_nil_r.
  assert (NoDup (visit cfg).*1) as Hnd by (rewrite visits; apply NoDup_fst_map_to_list).
  destruct (mergePools_pointwise _ _ _ _ Hnd H) as (P1 & P2 & _). split; [by eapply routes_ok_frame|].
  eapply mergePools_ok; [apply visits| |exact H]. eapply pools_ok_frame; [|exact Hp]. congruence.
Qed.

Lemma mergeEntries_ok entries cs m m' :
  routes_ok (cs ≫= Routes) m → pools_ok cs m → Forall (λ e, Forall numeric (Routes e.2)) entries →
  foldE (mergeEntry visit) m entries = inr m' →
  routes_ok ((cs ++ entries.*2) ≫= Routes) m' ∧ pools_ok (cs ++ entries.*2) m'.
Proof.
  revert cs m. induction entries as [|[name cfg] entries IH]; intros cs m Hr Hp Hnum H; simpl in H.
  { simplify_eq. by rewrite app_nil_r. }
  apply Forall_cons in Hnum as [Hn Hnum]. simpl in Hn.
  destruct (mergeEntry visit m (name, cfg)) as [|m1] eqn:E; [done|].
  destruct (mergeEntry_ok cs m name cfg m1) as [H1 H2]; [done..|].
  destruct (IH (cs ++ [cfg]) m1) as [H3 H4]; [done..|].
  rewrite <- app_assoc in H3, H4. done.
Qed.

(** C22. Merging never overrides silently.  When it succeeds, a route or pool has
    the value of its definition of highest priority (the last one in the
    order of priorities), and every other definition of it agrees with that
    value on everything but what an overlay may set, the traffic weights of a
    route and the endpoints of a pool; nothing else is in the result. *)
Theorem merge_priority_wins providers entries cfg :
  loadAll providers = Ok entries → Merge visit providers = inr cfg → Forall (λ e, Forall numeric (Routes e.2)) entries →
  let cs := (sortByPriority entries).*2 in
  NoDup (route_ID <$> Routes cfg) ∧
  (∀ id, id ≠ "" →
     match last (filter (λ d, route_ID d = id) (cs ≫= Routes)) with
     | None => ∀ r, r ∈ Routes cfg → route_ID r ≠ id
     | Some top => ∃ r, r ∈ Routes cfg ∧ routesEqual r top = true ∧
         ∀ c d, c ∈ cs → d ∈ Routes c → route_ID d = id → route_agrees r d
     end) ∧
  (∀ n, n ≠ "" →
     match last (omap (λ c, Pools c !! n) cs) with
     | None => Pools cfg !! n = None
     | Some top => ∃ p, Pools cfg !! n = Some p ∧ poolsEqual p top = true ∧
         ∀ c d, c ∈ cs → Pools c !! n = Some d → pool_agrees p d
     end).
Proof.
  intros Hl H Hnum cs. unfold Merge in H. rewrite Hl in H.
  destruct (foldE _ _ _) as [|m] eqn:E; [done|]. injection H as <-.
  apply (mergeEntries_ok _ []) in E as [Hr Hp]; [|apply empty_routes_ok|apply empty_pools_ok|by apply entries_numeric].
  rewrite app_nil_l, <- list_fmap_compose in Hr, Hp. fold cs in Hr, Hp. split_and!.
  - by eapply routes_ok_NoDup.
  - intros id Hid. by apply routes_ok_last.
  - intros n Hn. apply Hp in Hn. destruct (last _); naive_solver.
Qed.

(** The result of a successful merge does not depend on the order in which
    Go visits the pools. *)
Theorem merge_order_independent (visit' : Config → list (string * Pool)) providers cfg :
  (∀ c, visit' c ≡ₚ map_to_list (Pools c)) → Merge visit providers = inr cfg → Merge visit' providers = inr cfg.
Proof.
  intros Hv'. unfold Merge. destruct (loadAll providers) as [entries|]; [|done].
  generalize ((λ e : Provider * Config, (Name e.1, e.2)) <$> sortByPriority entries) as l. intros l.
  destruct (foldE (mergeEntry visit) emptyMerging l) as [|m] eqn:E; [done|]. intros [= <-].
  enough (foldE (mergeEntry visit') emptyMerging l = inr m) as -> by done.
  revert E. generalize emptyMerging. induction l as [|e l IH]; intros m0 H; simpl in *; [done|].
  destruct (mergeEntry visit m0 e) as [|m1] eqn:E; [done|]. by rewrite (mergeEntry_visit visit' _ _ _ Hv' E), (IH _ H).
Qed.
End Correct.

(** ** A file and an administrator's overlay *)

Definition demo_policy (stable canary : Z) : RoutePolicy :=
  mkRoutePolicy 0 0 0 (mkRetryConfig false 0 0 0 SliceNil SliceNil 0 0) (mkRetryBudgetConfig false 0 0) (mkClientRetryCapConfig false "" 0 0 0)
    false "" (mkCacheConfig false false 0 0 SliceNil None 0 None)
    (mkTrafficConfig true "p" "q" stable canary (mkCohortConfig false "") (mkOverloadConfig false 0 0 0)
       (mkAutoDrainConfig false 0 0 f64_zero 0)) (mkPluginConfig false SliceNil).
Definition demo_route (stable canary : Z) (overlay : bool) : Route :=
  mkRoute "r" "example.local" "/" SliceNil "p" (demo_policy stable canary) overlay.
Definition demo_pool (addr : string) (overlay : bool) : Pool :=
  mkPool [addr] (mkHealthConfig "" 0 0 0 0 0 0) (mkBreakerConfig false 0 0 0 0 0) (mkOutlierConfig false 0 0 0 0 0 0 0 false 0 0 0 0 0)
    (mkPoolTransportConfig 0 0 0) overlay.
Definition demo_config (limits : LimitsConfig) (routes : list Route) (pools : gmap string Pool) : Config :=
  mkConfig "" emptyTLS limits (mkShutdownConfig 0 0 0) (mkLoggingConfig true) None routes pools.
Definition demo_file : Config :=
  demo_config (mkLimitsConfig 0 0 0 (Some 1000) 5000 0 0 0 0) [demo_route 90 10 false]
    {["p" := demo_pool "10.0.0.1:80" false; "q" := demo_pool "10.0.0.2:80" false]}.
Definition demo_overlay : Config :=
  demo_config (mkLimitsConfig 0 0 0 None 0 0 0 0 0) [demo_route 50 50 true] {["p" := demo_pool "10.0.0.9:80" true]}.
Definition demo_providers : list (option Provider) :=
  [Some (mkProvider "admin" AdminPriority (Ok (Some demo_overlay))); None; Some (mkProvider "file" FilePriority (Ok (Some demo_file)))].
Definition demo_visit (c : Config) : list (string * Pool) := map_to_list (Pools c).

Lemma merge_priority_wins_witness :
  ∃ cfg p, Merge demo_visit demo_providers = inr cfg ∧ Pools cfg !! "p" = Some p ∧ poolsEqual p (demo_pool "10.0.0.9:80" true) = true.
Proof.
  destruct (Merge demo_visit demo_providers) as [e|cfg] eqn:E; [exfalso; revert E; vm_compute; discriminate|].
  destruct (merge_priority_wins demo_visit (λ c, reflexivity _) demo_providers _ cfg eq_refl E) as (_ & _ & Hp).
  { repeat constructor. }
  destruct (Hp "p") as (p & Hp1 & Hp2 & _); [done|]. by exists cfg, p.
Defined.

Lemma merge_order_independent_witness :
  ∃ cfg, Merge demo_visit demo_providers = inr cfg ∧ Merge (λ c, rev (demo_visit c)) demo_providers = inr cfg.
Proof.
  destruct (Merge demo_visit demo_providers) as [e|cfg] eqn:E; [exfalso; revert E; vm_compute; discriminate|].
  exists cfg. split; [done|]. apply (merge_order_independent demo_visit (λ c, reflexivity _)); [|done].
  intros c. symmetry. apply Permutation_rev.
Defined.
