(* ===== verification/Apply.v ===== *)
(** * Applying configurations (internal/apply)

    The manager with everything an apply works on.  Compiling runs in a
    goroutine of its own; when the context ends first, [Apply] returns an
    error and the goroutine goes on: it is then a job in [background], which
    [runBackground] finishes later, on the registries as they are then.

    Parameters: the JSON decoder, reading files, the environment variables,
    sha256 and what [BuildSnapshot] needs of crypto/tls.  The log of the
    warnings is left out. *)
From S2P Require Import Prelude.
From S2P Require Import Metrics.
From S2P Require Import GoStrings.
From S2P Require Import Rolling.
From S2P Require Import GoError.
From S2P Require Import CacheKey.
From S2P Require Import Config.
From S2P Require Import Limits.
From S2P Require Import TLSStore.
From S2P Require Import Registry.
From S2P Require Import OutlierRegistry.
From S2P Require Import TrafficPlan.
From S2P Require Import Router.
From S2P Require Import Snapshot.
From S2P Require Import Store.
From S2P Require Import Provider.

Definition DefaultMaxConfigBytes : Z := 10 * 1024 * 1024.
Definition DefaultCompileTimeout : Duration := 2 * Second.

Inductive Mode := ModeApply | ModeValidate.
#[export] Instance Mode_eq_dec : EqDecision Mode.
Proof. solve_decision. Defined.

(** The sentinel errors, a context's error, a conflict of providers, and any
    other error by its text. *)
Inductive applyError :=
| ErrConfigTooLarge
| ErrCompileTimeout
| ErrPressure
| ErrContext (e : error)
| ErrConflict (c : ConflictError)
| ErrOther (message : string).

(** The providers of a manager; a static one holds its configuration. *)
Inductive providerRef :=
| RefAdmin
| RefFile (path : string)
| RefStatic (cfg : Config.Config).

(** A goroutine of [compile] that outlives its call: what it still has to
    merge or has merged, and on which registries it works. *)
Record Job := mkJob { job_mode : Mode; job_input : list (option providerRef) + (mergeError + Config.Config) }.

Record Manager := mkManager {
  store : Store.Store;
  deps : Deps;
  providers : list (option providerRef);
  admin : option AdminPush;
  maxConfigBytes : Z;
  compileTimeout : Duration;
  pressure : bool;
  background : list Job
}.
#[export] Instance Manager_eta : Eta Manager := fun m =>
  mkManager (store m) (deps m) (providers m) (admin m) (maxConfigBytes m) (compileTimeout m) (pressure m) (background m).

Record Result := mkResult {
  res_Snapshot : Snapshot.Snapshot;
  res_Version : string;
  res_Config : Config.Config;
  res_Warnings : list string
}.

(** [NewManager]; nothing runs in the background yet. *)
Definition NewManager (st : Store.Store) (d : Deps) (ps : list (option providerRef)) (a : option AdminPush) (maxBytes : Z)
    (timeout : Duration) (checkPressure : bool) : Manager := mkManager st d ps a maxBytes timeout checkPressure [].

(** What one call meets: the clock, the orders in which maps are visited,
    whether the context ends before the compilation (with which error, and
    whether the providers had been loaded by then). *)
Record ApplyEnv := mkApplyEnv {
  clk : Clock;
  visitMerge : Config.Config → list (string * Config.Pool);
  visitBuild : Config.Config → list (string * Config.Pool);
  ended : option (error * bool);
  swapAt : Time;
  elapsed : Duration   (** how long the call took, for the metrics *)
}.

Section Apply.
Context (ParseJSON : string → result Config.Config) (ReadFile : string → result string) (Getenv : string → string).
Context (sha256 : string → list ascii).
Context (LoadX509KeyPair : string → string → result Certificate) (AppendCertsFromPEM : string → bool) (suites : gmap string Z).

Abbreviation Build := (BuildSnapshot LoadX509KeyPair ReadFile AppendCertsFromPEM suites).

Definition configVersion (raw : string) : string := hexEncode (sha256 raw).

Definition isAdmin (r : option providerRef) : bool := match r with Some RefAdmin => true | _ => false end.
Definition containsProvider (list : list (option providerRef)) : bool := existsb isAdmin list.

Definition buildProviders (m : Manager) (cfg : Config.Config) : list (option providerRef) :=
  match admin m with
  | Some _ => if containsProvider (providers m) then providers m else providers m ++ [Some RefAdmin]
  | None => providers m ++ [Some (RefStatic cfg)]
  end.

Definition providerOf (a : option AdminPush) (r : providerRef) : option Provider :=
  match r with
  | RefAdmin => adminProvider <$> a
  | RefFile path => Some (fileProvider ReadFile ParseJSON path)
  | RefStatic cfg => Some (mkProvider "admin" AdminPriority (Ok (Some cfg)))
  end.

(** ** compile.go *)

(** What the goroutine does once the configurations are merged. *)
Definition build (env : ApplyEnv) (merged : mergeError + Config.Config) (d : Deps)
    : Deps * (applyError + Snapshot.Snapshot * Config.Config * list string) :=
  match merged with
  | inl (LoadFailed e) => (d, inl (ErrOther e))
  | inl (Conflict c) => (d, inl (ErrConflict c))
  | inr cfg =>
      match Validate Getenv (Some cfg) with
      | (_, Some e) => (d, inl (ErrOther e))
      | (warnings, None) =>
          match Build (clk env) (visitBuild env cfg) cfg d with
          | (d, Err e) => (d, inl (ErrOther e))
          | (d, Ok s) => (d, inr (s, cfg, warnings))
          end
      end
  end.

(** The registries the goroutine works on; those of a validation are
    discarded, but the counter of snapshots is the package's. *)
Definition scratch (d : Deps) : Deps :=
  mkDeps (Registry.NewRegistry 0 0) (Some (OutlierRegistry.NewRegistry 0 0 false)) (TrafficPlan.NewRegistry 0 0) (snapshotIDCounter d)
    (defaultMetrics d).
Definition onDeps {A} (mode : Mode) (f : Deps → Deps * A) (d : Deps) : Deps * A :=
  match mode with
  | ModeApply => f d
  | ModeValidate => let '(d', a) := f (scratch d) in (d <| snapshotIDCounter := snapshotIDCounter d' |> <| defaultMetrics := defaultMetrics d' |>, a)
  end.

Definition mergeNow (env : ApplyEnv) (m : Manager) (ps : list (option providerRef)) : mergeError + Config.Config :=
  Merge (visitMerge env) ((λ r, r ≫= providerOf (admin m)) <$> ps).

(** [select]: the context's end, or the goroutine's result. *)
Definition endError (e : error) : applyError := if Is e DeadlineExceeded then ErrCompileTimeout else ErrContext e.

Definition compile (env : ApplyEnv) (mode : Mode) (ps : list (option providerRef)) (m : Manager)
    : Manager * (applyError + Snapshot.Snapshot * Config.Config * list string) :=
  match ended env with
  | Some (e, loaded) =>
      let input := if loaded then inr (mergeNow env m ps) else inl ps in
      (m <| background ::= (λ l, l ++ [mkJob mode input]) |>, inl (endError e))
  | None =>
      let '(d, r) := onDeps mode (build env (mergeNow env m ps)) (deps m) in
      (m <| deps := d |>, r)
  end.

(** The first job of the background runs to its end; nobody reads its result. *)
Definition runBackground (env : ApplyEnv) (m : Manager) : Manager :=
  match background m with
  | [] => m
  | j :: rest =>
      let merged := match job_input j with inl ps => mergeNow env m ps | inr merged => merged end in
      m <| deps := (onDeps (job_mode j) (build env merged) (deps m)).1 |> <| background := rest |>
  end.

(** ** apply.go *)

Definition onMetrics (f : Metrics.Metrics → Metrics.Metrics) (m : Manager) : Manager :=
  m <| deps ::= (λ d, d <| defaultMetrics ::= fmap f |>) |>.
(** The deferred measurement of both kinds of apply. *)
Definition measured (env : ApplyEnv) (m : Manager) : Manager := onMetrics (RecordConfigApplyDuration (elapsed env)) m.
Definition timed {A} (env : ApplyEnv) (x : Manager * A) : Manager * A := let '(m, r) := x in (measured env m, r).
Definition countConflict (e : applyError) (m : Manager) : Manager :=
  match e with ErrConflict _ => onMetrics RecordConfigConflict m | _ => m end.

(** The checks before anything is done. *)
Definition admission (raw : string) (m : Manager) : option applyError :=
  if or_default (maxConfigBytes m) DefaultMaxConfigBytes <? slen raw then Some ErrConfigTooLarge
  else if pressure m && UnderPressure (store m) then Some ErrPressure
  else None.

(** The new snapshot becomes the current one. *)
Definition install (env : ApplyEnv) (s : Snapshot.Snapshot) (m : Manager) : Manager :=
  let p := fresh (dom (heap (store m))) in
  m <| store ::= (λ st, Store.Swap (st <| heap ::= <[p := s]> |>) p (swapAt env)) |>.

Definition withOrigin (s : Snapshot.Snapshot) (version source : string) : Snapshot.Snapshot :=
  s <| Snapshot.Version := version |> <| Snapshot.Source := source |>.

Definition Apply (env : ApplyEnv) (raw source : string) (mode : Mode) (m : Manager) : Manager * (applyError + Result) := timed env
  (match admission raw m with
  | Some e => (m, inl e)
  | None =>
      match ParseJSON raw with
      | Err e => (m, inl (ErrOther e))
      | Ok cfg =>
          match ValidateMetricsToken Getenv cfg with
          | Some e => (m, inl (ErrOther e))
          | None =>
              let version := configVersion raw in
              let previous := admin m in
              let m := m <| admin ::= fmap (λ a, (Swap a (Some cfg)).1) |> in
              match compile env mode (buildProviders m cfg) m with
              | (m, inl e) => (countConflict e (m <| admin := previous |>), inl e)
              | (m, inr (s, resolved, warnings)) =>
                  let s := withOrigin s version source in
                  let m := match mode with ModeApply => install env s m | ModeValidate => m <| admin := previous |> end in
                  (m, inr (mkResult s version resolved warnings))
              end
          end
      end
  end).

(** ** resolved.go *)

Definition compileResolved (env : ApplyEnv) (mode : Mode) (cfg : Config.Config) (m : Manager)
    : Manager * (applyError + Snapshot.Snapshot * Config.Config * list string) :=
  match ended env with
  | Some (e, _) => (m <| background ::= (λ l, l ++ [mkJob mode (inr (inr cfg))]) |>, inl (endError e))
  | None => let '(d, r) := onDeps mode (build env (inr cfg)) (deps m) in (m <| deps := d |>, r)
  end.

Definition ApplyResolvedVersion (env : ApplyEnv) (raw source version : string) (mode : Mode) (m : Manager)
    : Manager * (applyError + Result) := timed env
  (match admission raw m with
  | Some e => (m, inl e)
  | None =>
      match ParseJSON raw with
      | Err e => (m, inl (ErrOther e))
      | Ok cfg =>
          let version := if decide (version = "") then configVersion raw else version in
          match compileResolved env mode cfg m with
          | (m, inl e) => (m, inl e)
          | (m, inr (s, _, warnings)) =>
              let s := withOrigin s version source in
              let m := match mode with ModeApply => install env s m | ModeValidate => m end in
              (m, inr (mkResult s version cfg warnings))
          end
      end
  end).
Definition ApplyResolved (env : ApplyEnv) (raw source : string) (mode : Mode) : Manager → Manager * (applyError + Result) :=
  ApplyResolvedVersion env raw source "" mode.

End Apply.

(** ** What an apply leaves behind *)

(** What new requests are served with, and what the next merge starts from. *)
Definition serving_unchanged (m m' : Manager) : Prop := store m' = store m ∧ admin m' = admin m.
Definition registries_unchanged (m m' : Manager) : Prop :=
  reg (deps m') = reg (deps m) ∧ outlierReg (deps m') = outlierReg (deps m) ∧ trafficReg (deps m') = trafficReg (deps m).

(** The manager apart from what has been counted. *)
Definition uncounted (m : Manager) : Manager := m <| deps ::= (λ d, d <| defaultMetrics := None |>) |>.

Section Guarantees.
Context (ParseJSON : string → result Config.Config) (ReadFile : string → result string) (Getenv : string → string).
Context (sha256 : string → list ascii).
Context (LoadX509KeyPair : string → string → result Certificate) (AppendCertsFromPEM : string → bool) (suites : gmap string Z).

Abbreviation apply := (Apply ParseJSON ReadFile Getenv sha256 LoadX509KeyPair AppendCertsFromPEM suites).
Abbreviation applyResolved := (ApplyResolvedVersion ParseJSON ReadFile Getenv sha256 LoadX509KeyPair AppendCertsFromPEM suites).
Abbreviation compileM := (compile ParseJSON ReadFile Getenv LoadX509KeyPair AppendCertsFromPEM suites).
Abbreviation buildM := (build ReadFile Getenv LoadX509KeyPair AppendCertsFromPEM suites).
Abbreviation mergeM := (mergeNow ParseJSON ReadFile).

Lemma onDeps_validate {A} (f : Deps → Deps * A) d :
  reg (onDeps ModeValidate f d).1 = reg d ∧ outlierReg (onDeps ModeValidate f d).1 = outlierReg d ∧
  trafficReg (onDeps ModeValidate f d).1 = trafficReg d.
Proof. simpl. by destruct (f _). Qed.

(** A compilation touches the registries only, and those only to apply. *)
Lemma compile_frame env mode ps m m' r :
  compileM env mode ps m = (m', r) →
  store m' = store m ∧ admin m' = admin m ∧ providers m' = providers m ∧ (mode = ModeValidate → registries_unchanged m m').
Proof.
  unfold compile. destruct (ended env) as [[e loaded]|]; [intros [= <- _]; by split_and!|].
  destruct (onDeps mode _ (deps m)) as [d r'] eqn:E. intros [= <- _]. split_and!; [done..|]. intros ->.
  pose proof (onDeps_validate (buildM env (mergeM env m ps)) (deps m)) as H. by rewrite E in H.
Qed.
Lemma compileResolved_frame env mode cfg m m' r :
  compileResolved ReadFile Getenv LoadX509KeyPair AppendCertsFromPEM suites env mode cfg m = (m', r) →
  store m' = store m ∧ admin m' = admin m ∧ (mode = ModeValidate → registries_unchanged m m').
Proof.
  unfold compileResolved. destruct (ended env) as [[e loaded]|]; [intros [= <- _]; by split_and!|].
  destruct (onDeps mode _ (deps m)) as [d r'] eqn:E. intros [= <- _]. split_and!; [done..|]. intros ->.
  pose proof (onDeps_validate (buildM env (inr cfg)) (deps m)) as H. by rewrite E in H.
Qed.

(** A failed apply and a validation leave what is served alone. *)
Definition harmless (mode : Mode) (m m' : Manager) (r : applyError + Result) : Prop :=
  ((∃ e, r = inl e) ∨ mode = ModeValidate → serving_unchanged m m') ∧ (mode = ModeValidate → registries_unchanged m m').
Lemma apply_harmless env raw source mode m m' r : apply env raw source mode m = (m', r) → harmless mode m m' r.
Proof.
  unfold Apply. destruct (admission raw m); [by intros [= <- <-]|]. destruct (ParseJSON raw) as [cfg|]; [|by intros [= <- <-]].
  destruct (ValidateMetricsToken _ _); [by intros [= <- <-]|]. cbv zeta.
  set (m1 := m <| admin ::= _ |>). destruct (compileM env mode _ m1) as [m2 [e|[[s cfg'] ws]]] eqn:E;
    apply compile_frame in E as (H1 & H2 & _ & H3); intros [= <- <-]; [destruct e; (split; [done|intros ->; by apply H3])|].
  split; [|intros ->; by apply H3]. intros [[e [=]]| ->]. by split.
Qed.
Lemma applyResolved_harmless env raw source version mode m m' r :
  applyResolved env raw source version mode m = (m', r) → harmless mode m m' r.
Proof.
  unfold ApplyResolvedVersion. destruct (admission raw m); [by intros [= <- <-]|].
  destruct (ParseJSON raw) as [cfg|]; [|by intros [= <- <-]]. cbv zeta.
  destruct (compileResolved _ _ _ _ _ env mode cfg m) as [m2 [e|[[s cfg'] ws]]] eqn:E;
    apply compileResolved_frame in E as (H1 & H2 & H3); intros [= <- <-]; [by split; [|intros ->; apply H3]|].
  split; [|intros ->; by apply H3]. intros [[e [=]]| ->]. by split.
Qed.

(** C13. An apply takes effect completely or not at all: when it fails, or only
    validates, the current snapshot, the retired ones and the administrator's
    configuration are as before; a validation leaves the live registries
    alone too, whether it succeeds, fails or times out. *)
Theorem apply_all_or_nothing env raw source version mode m :
  (let '(m', r) := apply env raw source mode m in harmless mode m m' r) ∧
  (let '(m', r) := applyResolved env raw source version mode m in harmless mode m m' r).
Proof.
  split.
  - destruct (apply _ _ _ _ m) as [m' r] eqn:E. by eapply apply_harmless.
  - destruct (applyResolved _ _ _ _ _ m) as [m' r] eqn:E. by eapply applyResolved_harmless.
Qed.

(** ** What a successful apply installs *)

Lemma build_ok env merged d d' s cfg ws :
  buildM env merged d = (d', inr (s, cfg, ws)) →
  merged = inr cfg ∧ Validate Getenv (Some cfg) = (ws, None) ∧
  BuildSnapshot LoadX509KeyPair ReadFile AppendCertsFromPEM suites (clk env) (visitBuild env cfg) cfg d = (d', Ok s).
Proof.
  unfold build. destruct merged as [[]|c]; [done..|]. destruct (Validate Getenv (Some c)) as [w [e|]] eqn:Ev; [done|].
  destruct (BuildSnapshot _ _ _ _ _ _ c d) as [d1 [s1|]] eqn:Eb; [|done]. by intros [= <- <- <- <-].
Qed.

(** A snapshot that has been made current under a new address. *)
Definition installed (m m' : Manager) (s : Snapshot.Snapshot) : Prop :=
  ∃ p, heap (store m) !! p = None ∧ Store.current (store m') = Some p ∧ heap (store m') !! p = Some s.

Lemma install_spec env s m :
  (∀ p, Store.current (store m) = Some p → is_Some (heap (store m) !! p)) → installed m (install env s m) s.
Proof.
  intros Hc. exists (fresh (dom (heap (store m)))).
  assert (heap (store m) !! fresh (dom (heap (store m))) = None) as Hf by apply not_elem_of_dom, is_fresh.
  split_and!; [done| |].
  - unfold install, Store.Swap. simpl. by destruct (Store.current (store m)).
  - unfold install, Store.Swap. simpl. destruct (Store.current (store m)) as [q|] eqn:E; simpl; [|by rewrite lookup_insert_eq].
    rewrite lookup_alter_ne; [by rewrite lookup_insert_eq|]. intros ->. destruct (Hc _ eq_refl) as [x Hx]. congruence.
Qed.

Lemma apply_success env raw source mode m m' r :
  apply env raw source mode m = (m', inr r) →
  ∃ cfg s d, ParseJSON raw = Ok cfg ∧ ended env = None ∧ res_Snapshot r = withOrigin s (configVersion sha256 raw) source ∧
    res_Version r = configVersion sha256 raw ∧
    let m1 := m <| admin ::= fmap (λ a, (Swap a (Some cfg)).1) |> in
    onDeps mode (buildM env (mergeM env m1 (buildProviders m1 cfg))) (deps m) = (d, inr (s, res_Config r, res_Warnings r)) ∧
    m' = measured env (match mode with
                       | ModeApply => install env (res_Snapshot r) (m1 <| deps := d |>)
                       | ModeValidate => m <| deps := d |>
                       end).
Proof.
  unfold Apply. destruct (admission raw m); [done|]. destruct (ParseJSON raw) as [cfg|]; [|done].
  destruct (ValidateMetricsToken _ _); [done|]. cbv zeta. set (m1 := m <| admin ::= _ |>).
  unfold compile. destruct (ended env) as [[e loaded]|]; [done|].
  destruct (onDeps mode (buildM env (mergeM env m1 (buildProviders m1 cfg))) (deps m1)) as [d [e|[[s c] ws]]] eqn:E; [done|].
  intros [= <- <-]. exists cfg, s, d. by split_and!; [..|destruct mode].
Qed.

(** The same of an apply that does not merge. *)
Lemma applyResolved_success env raw source version mode m m' r :
  applyResolved env raw source version mode m = (m', inr r) →
  ∃ cfg s d, ParseJSON raw = Ok cfg ∧ ended env = None ∧ res_Config r = cfg ∧
    res_Version r = (if decide (version = "") then configVersion sha256 raw else version) ∧
    res_Snapshot r = withOrigin s (res_Version r) source ∧
    onDeps mode (buildM env (inr cfg)) (deps m) = (d, inr (s, cfg, res_Warnings r)) ∧
    m' = measured env (match mode with ModeApply => install env (res_Snapshot r) (m <| deps := d |>) | ModeValidate => m <| deps := d |> end).
Proof.
  unfold ApplyResolvedVersion. destruct (admission raw m); [done|]. destruct (ParseJSON raw) as [cfg|]; [|done]. cbv zeta.
  unfold compileResolved. destruct (ended env) as [[e loaded]|]; [done|].
  destruct (onDeps mode (buildM env (inr cfg)) (deps m)) as [d [e|[[s c] ws]]] eqn:E; [done|].
  assert (c = cfg) as ->.
  { unfold onDeps in E. destruct mode; [|destruct (buildM env (inr cfg) (scratch (deps m))) as [d1 x] eqn:E1; simplify_eq];
      [apply build_ok in E as ([= ->] & _)|apply build_ok in E1 as ([= ->] & _)]; done. }
  intros [= <- <-]. exists cfg, s, d. by split_and!; [..|destruct mode].
Qed.

(** What is in service after a successful apply. *)
Record committed (env : ApplyEnv) (raw source : string) (m m' : Manager) (r : Result) : Prop := mkCommitted {
  com_installed : installed m m' (res_Snapshot r);
  com_version : Snapshot.Version (res_Snapshot r) = hexEncode (sha256 raw) ∧ Snapshot.Source (res_Snapshot r) = source;
  com_merged : ∃ cfg, ParseJSON raw = Ok cfg ∧ admin m' = (λ _, mkAdminPush (Some cfg)) <$> admin m ∧
                      mergeM env m' (buildProviders m' cfg) = inr (res_Config r);
  com_registry : registry_ok (reg (deps m')) (endpoints_of (res_Config r));
  com_routes : ∃ routes, SnapshotRouter (res_Snapshot r) = Some (NewRouter routes) ∧
                         Forall2 (route_ok (Snapshot.Pools (res_Snapshot r))) (Routes (res_Config r)) routes;
  com_pools : ∀ n k, Snapshot.Pools (res_Snapshot r) !! n = Some k →
                     k = n ∧ ∃ p, Config.Pools (res_Config r) !! n = Some p ∧ pool_Endpoints p ≠ []
}.
Lemma apply_committed env raw source m m' r c :
  registry_ok (reg (deps m)) c → (∀ p, Store.current (store m) = Some p → is_Some (heap (store m) !! p)) →
  (∀ cfg, visitBuild env cfg ≡ₚ map_to_list (Config.Pools cfg)) →
  apply env raw source ModeApply m = (m', inr r) → committed env raw source m m' r.
Proof.
  intros Hreg Hcur Hv H. apply apply_success in H as (cfg & s & d & Hp & _ & Hs & Hver & Hd & ->).
  simpl in Hd. apply build_ok in Hd as (Hm & _ & Hb).
  destruct (BuildSnapshot_sound _ _ _ _ _ _ _ _ _ _ _ (Hv _) Hreg Hb) as (routes & H1 & H2 & _ & _ & _ & _ & H7 & _).
  pose (m1 := m <| deps := d |>). split; [exact (install_spec env (res_Snapshot r) m1 Hcur)|by rewrite Hs| |done| |].
  - exists cfg. split_and!; [done| |by rewrite <- Hm]. unfold install. simpl. by destruct (admin m).
  - exists routes. rewrite Hs. done.
  - intros n k. rewrite Hs. exact (BuildSnapshot_pools _ _ _ _ _ _ _ _ _ _ n k (Hv _) Hb).
Qed.

(** C14. A successful apply makes a new snapshot current, labelled with the hash of
    the bytes and the source; it is built from the merge of the providers,
    with the administrator's configuration replaced by the new one; every
    configured route is in it with existing pools, and the pool registry
    holds exactly the configured endpoints. *)
Theorem apply_commits env raw source m m' r c :
  registry_ok (reg (deps m)) c → (∀ p, Store.current (store m) = Some p → is_Some (heap (store m) !! p)) →
  (∀ cfg, visitBuild env cfg ≡ₚ map_to_list (Config.Pools cfg)) →
  apply env raw source ModeApply m = (m', inr r) →
  installed m m' (res_Snapshot r) ∧
  Snapshot.Version (res_Snapshot r) = hexEncode (sha256 raw) ∧ Snapshot.Source (res_Snapshot r) = source ∧
  (∃ cfg, ParseJSON raw = Ok cfg ∧ admin m' = (λ _, mkAdminPush (Some cfg)) <$> admin m ∧
          mergeM env m' (buildProviders m' cfg) = inr (res_Config r)) ∧
  registry_ok (reg (deps m')) (endpoints_of (res_Config r)) ∧
  ∃ routes, SnapshotRouter (res_Snapshot r) = Some (NewRouter routes) ∧
            Forall2 (route_ok (Snapshot.Pools (res_Snapshot r))) (Routes (res_Config r)) routes.
Proof.
  intros Hreg Hcur Hv H. destruct (apply_committed _ _ _ _ _ _ _ Hreg Hcur Hv H) as [? [? ?] ? ? ? _]. by split_and!.
Qed.

(** An apply drops settings: whatever limits, log redaction, shutdown and
    metrics settings the providers configure, the snapshot it installs has
    the default limits and logs queries unredacted, because the merge copies
    routes, pools, TLS and the listen address only. *)
Theorem apply_drops_settings env raw source mode m m' r :
  apply env raw source mode m = (m', inr r) →
  SnapshotLimits (res_Snapshot r) = Limits.Default ∧ SnapshotLogging (res_Snapshot r) = mkLoggingConfig false ∧
  Config.Metrics (res_Config r) = None ∧ Config.Shutdown (res_Config r) = mkShutdownConfig 0 0 0.
Proof.
  intros H. apply apply_success in H as (cfg & s & d & _ & _ & Hs & _ & Hd & _).
  assert (∃ d0 d1 merged, merged = mergeM env (m <| admin ::= fmap (λ a, (Swap a (Some cfg)).1) |>)
            (buildProviders (m <| admin ::= fmap (λ a, (Swap a (Some cfg)).1) |>) cfg) ∧
          buildM env merged d0 = (d1, inr (s, res_Config r, res_Warnings r))) as (d0 & d1 & merged & Em & Hb).
  { destruct mode; [by do 3 eexists|]. unfold onDeps in Hd. destruct (buildM _ _ _) as [d1 x] eqn:E. do 3 eexists. split; [done|].
    rewrite E. by simplify_eq. }
  apply build_ok in Hb as (-> & _ & Hb). unfold mergeNow, Merge in Em. destruct (loadAll _) as [es|]; [|done].
  destruct (foldE _ _ _) as [|mm]; [done|]. injection Em as Em. rewrite Hs. simpl. rewrite Em in Hb |- *. split_and!; [| |done..].
  - apply BuildSnapshot_body in Hb as (d2 & Hb & _). unfold buildSnapshot in Hb. simpl in Hb. repeat case_match; simplify_eq; done.
  - apply BuildSnapshot_body in Hb as (d2 & Hb & _). unfold buildSnapshot in Hb. simpl in Hb. repeat case_match; simplify_eq; done.
Qed.

(** ** A compilation that times out *)

Lemma apply_timed_out env raw source mode m m' r e loaded :
  ended env = Some (e, loaded) → apply env raw source mode m = (m', r) → background m' ≠ background m →
  r = inl (endError e) ∧ reg (deps m') = reg (deps m) ∧ store m' = store m.
Proof.
  intros He. unfold Apply. destruct (admission raw m); [by intros [= <- _]|]. destruct (ParseJSON raw) as [cfg|]; [|by intros [= <- _]].
  destruct (ValidateMetricsToken _ _); [by intros [= <- _]|]. unfold compile. cbv zeta. rewrite He. intros [= <- <-]. unfold endError.
  by destruct (Is e DeadlineExceeded).
Qed.
Lemma apply_background env raw source mode m m' r : apply env raw source mode m = (m', inr r) → background m' = background m.
Proof. intros (cfg & s & d & _ & _ & _ & _ & _ & ->)%apply_success. by destruct mode. Qed.

(** C38. A timeout does not cancel the work: after an apply has returned
    [ErrCompileTimeout] and a later one has succeeded, the first one's
    goroutine still makes the live registry follow its own configuration,
    so that pools of the current snapshot can no longer be picked from. *)
Theorem apply_timeout_overwrites env1 env2 env3 raw1 raw2 source m m1 e1 m2 r2 cfg1 ws lim c :
  registry_ok (reg (deps m)) c → (∀ p, Store.current (store m) = Some p → is_Some (heap (store m) !! p)) → background m = [] →
  ended env1 = Some (errDeadlineExceeded, true) → apply env1 raw1 source ModeApply m = (m1, inl e1) →
  background m1 = [mkJob ModeApply (inr (inr cfg1))] →
  (∀ cfg, visitBuild env2 cfg ≡ₚ map_to_list (Config.Pools cfg)) → apply env2 raw2 source ModeApply m1 = (m2, inr r2) →
  (∀ cfg, visitBuild env3 cfg ≡ₚ map_to_list (Config.Pools cfg)) →
  Validate Getenv (Some cfg1) = (ws, None) → FromConfig (Config.Limits cfg1) = Ok lim →
  Forall (λ np, pool_Endpoints np.2 ≠ []) (visitBuild env3 cfg1) →
  let m3 := runBackground ParseJSON ReadFile Getenv LoadX509KeyPair AppendCertsFromPEM suites env3 m2 in
  e1 = ErrCompileTimeout ∧ installed m1 m3 (res_Snapshot r2) ∧ registry_ok (reg (deps m3)) (endpoints_of cfg1) ∧
  ∀ k out mapOrder now t, Config.Pools cfg1 !! k = None →
    Registry.Pick (reg (deps m3)) k out mapOrder now t = (reg (deps m3), (emptyPick, false)).
Proof.
  intros Hreg Hcur Hb He1 H1 Hb1 Hv2 H2 Hv3 Hval Hlim Hne.
  destruct (apply_timed_out _ _ _ _ _ _ _ _ _ He1 H1) as ([= ->] & Hd & Hst); [by rewrite Hb, Hb1|].
  assert (background m2 = [mkJob ModeApply (inr (inr cfg1))]) as Hb2 by by rewrite (apply_background _ _ _ _ _ _ _ H2).
  destruct (apply_success _ _ _ _ _ _ _ H2) as (cfg2 & s2 & d2 & _ & _ & Hs2 & _ & Hbuild2 & Hm2).
  assert (∃ c2, registry_ok (reg (deps m2)) c2) as [c2 Hreg2].
  { rewrite Hm2. simpl in Hbuild2. apply build_ok in Hbuild2 as (_ & _ & Hbuild2).
    rewrite <- Hd in Hreg. destruct (BuildSnapshot_registry _ _ _ _ _ _ _ _ _ _ _ (Hv2 _) Hreg Hbuild2) as [c2 ?]. by exists c2. }
  unfold runBackground. rewrite Hb2. cbn [job_input job_mode onDeps]. unfold build. rewrite Hval.
  destruct (BuildSnapshot _ _ _ _ (clk env3) _ cfg1 (deps m2)) as [d3 r3] eqn:E3.
  pose proof (BuildSnapshot_follows _ _ _ _ _ _ _ _ _ _ _ _ (Hv3 _) Hreg2 Hlim Hne E3) as Hreg3.
  assert (installed m1 m2 (res_Snapshot r2)) as Hinst.
  { rewrite Hm2. rewrite <- Hst in Hcur. pose (mm := m1 <| deps := d2 |>). exact (install_spec env2 (res_Snapshot r2) mm Hcur). }
  destruct r3; simpl; (split_and!; [done|exact Hinst|done|]); intros; by eapply pick_unknown.
Qed.
(** ** What the metrics say about applies *)

(** The apply passes everything that comes before [BuildSnapshot]. *)
Definition reachesBuild (env : ApplyEnv) (raw : string) (m : Manager) : Prop :=
  admission raw m = None ∧ ended env = None ∧
  ∃ cfg merged ws, ParseJSON raw = Ok cfg ∧ ValidateMetricsToken Getenv cfg = None ∧
    (let m1 := m <| admin ::= fmap (λ a, (Swap a (Some cfg)).1) |> in mergeM env m1 (buildProviders m1 cfg) = inr merged) ∧
    Validate Getenv (Some merged) = (ws, None).
(** The calls one apply makes, latest first. *)
Definition timing (env : ApplyEnv) : promCall := Observe configApplyDuration [] (duration_Seconds (elapsed env)).
Definition outcomeCall (r : applyError + Result) : promCall :=
  Metrics.Inc configApply [match r with inr _ => "success" | inl _ => "rejected" end].
Definition conflictCalls (r : applyError + Result) : list promCall :=
  match r with inl (ErrConflict _) => [Metrics.Inc configConflicts []] | _ => [] end.

Lemma onDeps_metrics {A} mode (f : Deps → Deps * A) d d' a :
  onDeps mode f d = (d', a) → ∃ d0 d1, f d0 = (d1, a) ∧ defaultMetrics d0 = defaultMetrics d ∧ defaultMetrics d' = defaultMetrics d1.
Proof.
  destruct mode; simpl; [by exists d, d'|]. destruct (f (scratch d)) as [d1 a1] eqn:E. intros [= <- <-]. by exists (scratch d), d1.
Qed.
Lemma build_counted env merged d d' r :
  buildM env merged d = (d', r) →
  (∃ cfg ws, merged = inr cfg ∧ Validate Getenv (Some cfg) = (ws, None) ∧
     defaultMetrics d' = RecordConfigApply (match r with inr _ => "success" | inl _ => "rejected" end) <$> defaultMetrics d ∧
     ∀ c, r ≠ inl (ErrConflict c)) ∨
  ((∀ cfg ws, merged = inr cfg → Validate Getenv (Some cfg) ≠ (ws, None)) ∧ d' = d ∧ ∃ e, r = inl e).
Proof.
  unfold build. destruct merged as [[]|cfg]; [intros [= <- <-]; right; eauto..|].
  destruct (Validate Getenv (Some cfg)) as [ws [e|]] eqn:Ev; [intros [= <- <-]; right; split_and!; eauto; congruence|].
  destruct (BuildSnapshot _ _ _ _ _ _ cfg d) as [d1 [s|e]] eqn:E; apply BuildSnapshot_counted in E; intros [= <- <-]; left; eauto 10.
Qed.

(** What the metrics say about applies: every apply is timed, once; an apply
    or a validation that gets as far as building a snapshot is counted with
    its outcome, and one that fails before (too large, under pressure, not
    parsed, in conflict, invalid or out of time) is not counted as an apply
    at all; conflicts have a counter of their own. *)
Theorem apply_accounted env raw source mode m m' r ms :
  apply env raw source mode m = (m', r) → defaultMetrics (deps m) = Some ms →
  ∃ ms', defaultMetrics (deps m') = Some ms' ∧
    ((reachesBuild env raw m ∧ calls ms' = [timing env; outcomeCall r] ++ calls ms) ∨
     (¬ reachesBuild env raw m ∧ (∃ e, r = inl e) ∧ calls ms' = timing env :: conflictCalls r ++ calls ms)).
Proof.
  intros H Hms. unfold reachesBuild. revert H. unfold Apply.
  destruct (admission raw m) as [e|] eqn:Ha.
  { intros [= <- <-]. simpl. rewrite Hms. eexists. split; [done|]. right. split_and!; [by intros []|eauto|].
    unfold admission in Ha. by repeat case_match; simplify_eq. }
  destruct (ParseJSON raw) as [cfg|e]; [|intros [= <- <-]; simpl; rewrite Hms; eexists; split; [done|]; right; naive_solver].
  destruct (ValidateMetricsToken Getenv cfg) eqn:Ht; [intros [= <- <-]; simpl; rewrite Hms; eexists; split; [done|]; right; naive_solver|].
  cbv zeta. set (m1 := m <| admin ::= _ |>). unfold compile. destruct (ended env) as [[e loaded]|].
  { intros [= <- <-]. unfold endError. destruct (Is e DeadlineExceeded); simpl; rewrite Hms; eexists; (split; [done|]); right; naive_solver. }
  destruct (onDeps mode _ (deps m1)) as [d x] eqn:E. apply onDeps_metrics in E as (d0 & d1 & Hb & H0 & H1).
  change (deps m1) with (deps m) in H0. rewrite Hms in H0.
  apply build_counted in Hb as [(merged & ws & Hm & Hv & Hc & Hn)|(Hno & -> & e & ->)].
  - rewrite H0 in Hc. simpl in Hc. rewrite Hc in H1.
    destruct x as [e|[[s c] ws']]; [destruct e; try (by destruct (Hn c))|destruct mode];
      intros [= <- <-]; simpl; rewrite H1; simpl; eexists; (split; [reflexivity|]); left; eauto 10.
  - rewrite H0 in H1. intros [= <- <-]. destruct e; simpl; rewrite H1; simpl; eexists; (split; [done|]); right; naive_solver.
Qed.
End Guarantees.

(** ** Two configurations, applied one after the other *)

Definition demo_getenv (_ : string) : string := "".
Definition demo_other : Config.Config :=
  demo_config (mkLimitsConfig 0 0 0 (Some 1000) 5000 0 0 0 0) [demo_route 100 0 false]
    {["p" := demo_pool "10.0.1.1:80" false; "q" := demo_pool "10.0.1.2:80" false; "extra" := demo_pool "10.0.1.3:80" false]}.
Definition demo_parse (raw : string) : Prelude.result Config.Config :=
  if decide (raw = "first") then Ok demo_file else if decide (raw = "second") then Ok demo_other else Err "unexpected end of JSON input".
Definition demo_sha (raw : string) : list ascii := String.list_ascii_of_string raw.
Definition demo_deps : Deps :=
  mkDeps (Registry.NewRegistry 0 0) (Some (OutlierRegistry.NewRegistry 0 0 false)) (TrafficPlan.NewRegistry 0 0) 0
    (Some (NewMetrics (Metrics.mkMetricsConfig 0 0 0))).
Definition demo_manager : Manager :=
  NewManager (NewStore {[0%nat := blank_snapshot 1]} (Some 0%nat)) demo_deps [] (Some (mkAdminPush None)) 0 0 true.
Definition demo_env (e : option (error * bool)) : ApplyEnv := mkApplyEnv example_clock demo_visit demo_visit e 0 Second.
Definition demo_apply (e : option (error * bool)) (raw : string) : Manager → Manager * (applyError + Result) :=
  Apply demo_parse (λ _, Err "") demo_getenv demo_sha (λ _ _, Err "") (λ _, false) ∅ (demo_env e) raw "test" ModeApply.

Lemma demo_current p : Store.current (store demo_manager) = Some p → is_Some (heap (store demo_manager) !! p).
Proof. intros [= <-]. by eexists. Qed.

Lemma apply_commits_witness :
  ∃ r, (demo_apply None "first" demo_manager).2 = inr r ∧ installed demo_manager (demo_apply None "first" demo_manager).1 (res_Snapshot r).
Proof.
  destruct (demo_apply None "first" demo_manager) as [m' [e|r]] eqn:E; [exfalso; revert E; vm_compute; discriminate|].
  exists r. split; [done|].
  eapply apply_commits in E as [H _]; [exact H|exact (new_registry_ok 0 0)|exact demo_current|done].
Defined.

Lemma apply_drops_settings_witness :
  SnapshotLimits <$> (match (demo_apply None "first" demo_manager).2 with inr r => Some (res_Snapshot r) | inl _ => None end) = Some Limits.Default
  ∧ FromConfig (Config.Limits demo_file) ≠ Ok Limits.Default.
Proof.
  destruct (demo_apply None "first" demo_manager) as [m' [e|r]] eqn:E; [exfalso; revert E; vm_compute; discriminate|].
  split; [|vm_compute; discriminate]. simpl. f_equal. by eapply apply_drops_settings in E as [H _].
Defined.

Lemma apply_accounted_witness :
  let counted e raw := (λ ms, calls ms) <$> defaultMetrics (deps (demo_apply e raw demo_manager).1) in
  counted None "first" = Some [timing (demo_env None); Metrics.Inc configApply ["success"]] ∧
  counted None "junk" = Some [timing (demo_env None)] ∧
  counted (Some (errDeadlineExceeded, true)) "first" = Some [timing (demo_env None)].
Proof.
  intros counted. split_and!; [|reflexivity|reflexivity]. unfold counted.
  destruct (demo_apply None "first" demo_manager) as [m' r] eqn:E. pose proof E as H. eapply apply_accounted in H; [|reflexivity].
  assert (∃ x, r = inr x) as [x ->].
  { change r with (m', r).2. rewrite <- E. vm_compute. eauto. }
  destruct H as (ms' & Hm & [[_ Hc]|(_ & [e He] & _)]); [|done]. simpl. rewrite Hm. simpl. by rewrite Hc.
Defined.

(** The second configuration's pool is not picked from any more once the
    goroutine of the first one has run. *)
Lemma apply_timeout_overwrites_witness :
  let m1 := (demo_apply (Some (errDeadlineExceeded, true)) "first" demo_manager).1 in
  let m2 := (demo_apply None "second" m1).1 in
  let m3 := runBackground demo_parse (λ _, Err "") demo_getenv (λ _ _, Err "") (λ _, false) ∅ (demo_env None) m2 in
  (Registry.Pick (reg (deps m2)) "extra" None [] 0 0).2.2 = true ∧ (Registry.Pick (reg (deps m3)) "extra" None [] 0 0).2.2 = false.
Proof.
  intros m1 m2 m3. split; [vm_compute; reflexivity|].
  destruct (demo_apply (Some (errDeadlineExceeded, true)) "first" demo_manager) as [m1' [e1|]] eqn:E1;
    [|exfalso; revert E1; vm_compute; discriminate].
  destruct (demo_apply None "second" m1') as [m2' [|r2]] eqn:E2;
    [exfalso; revert E2; unfold demo_apply in E1; injection E1 as <- <-; vm_compute; discriminate|].
  assert (∃ cfg1, background m1' = [mkJob ModeApply (inr (inr cfg1))] ∧ Config.Limits cfg1 = mkLimitsConfig 0 0 0 None 0 0 0 0 0 ∧
    Validate demo_getenv (Some cfg1) = ([], None) ∧
    Config.Pools cfg1 = Config.Pools demo_file) as (cfg1 & Hb & Hl & Hv & Hp).
  { injection E1 as <- <-. eexists. split; [vm_compute; reflexivity|]. split_and!; vm_compute; reflexivity. }
  assert (FromConfig (Config.Limits cfg1) = Ok Limits.Default) as Hlim by (rewrite Hl; vm_compute; reflexivity).
  destruct (apply_timeout_overwrites demo_parse (λ _, Err "") demo_getenv demo_sha (λ _ _, Err "") (λ _, false) ∅ (demo_env (Some (errDeadlineExceeded, true)))
    (demo_env None) (demo_env None) "first" "second" "test" demo_manager m1' e1 m2' r2 cfg1 [] _ ∅ (new_registry_ok 0 0 : registry_ok (reg (deps demo_manager)) ∅) demo_current eq_refl
    (eq_refl : ended (demo_env (Some (errDeadlineExceeded, true))) = _) E1 Hb (λ cfg, reflexivity _) E2 (λ cfg, reflexivity _) Hv Hlim)
    as (_ & _ & _ & Hpick).
  { simpl. unfold demo_visit. rewrite Hp. apply (bool_decide_unpack _). vm_compute. exact I. }
  unfold m3, m2, m1. simpl. rewrite E2. simpl. rewrite Hpick; [done|]. rewrite Hp. vm_compute. reflexivity.
Defined.
