(* ===== verification/Codec.v ===== *)
(** * Base64, hexadecimal and file paths

    The codecs of the Go standard library that bundles pass through:
    [base64.StdEncoding], [hex.DecodeString] and [filepath.Join].  Bytes are a
    [string], as elsewhere.  A decoder returns [None] where Go returns an
    error; no caller looks at which one. *)
From S2P Require Import Prelude.
From S2P Require Import GoStrings.
From S2P Require Import CacheKey.

(** ** base64.StdEncoding *)

Definition alphabet : list ascii := chars "ABCDEFGHIJKLMNOPQRSTUVWXYZabcdefghijklmnopqrstuvwxyz0123456789+/".
Definition sextet (n : N) : ascii := nth (N.to_nat n) alphabet "A"%char.
Definition sextetValue (c : ascii) : option N := N.of_nat <$> IndexByte c alphabet.
Definition pad : ascii := "="%char.
Definition isNewline (c : ascii) : bool := (code c =? 10)%N || (code c =? 13)%N.

Fixpoint encodeQuanta (l : list ascii) : list ascii :=
  match l with
  | [] => []
  | [a] => [sextet (code a / 4); sextet (code a mod 4 * 16); pad; pad]
  | [a; b] => [sextet (code a / 4); sextet (code a mod 4 * 16 + code b / 16); sextet (code b mod 16 * 4); pad]
  | a :: b :: c :: l =>
      sextet (code a / 4) :: sextet (code a mod 4 * 16 + code b / 16) :: sextet (code b mod 16 * 4 + code c / 64)
        :: sextet (code c mod 64) :: encodeQuanta l
  end%N.
Definition EncodeToString (bytes : string) : string := unchars (encodeQuanta (chars bytes)).

(** The three bytes of four sextets. *)
Definition byte1 (v w : N) : ascii := ascii_of_N (v * 4 + w / 16).
Definition byte2 (w x : N) : ascii := ascii_of_N (w mod 16 * 16 + x / 4).
Definition byte3 (x y : N) : ascii := ascii_of_N (x mod 4 * 64 + y).

(** Padding is required and only allowed at the end; the bits it leaves over
    are not looked at. *)
Fixpoint decodeQuanta (l : list ascii) : option (list ascii) :=
  match l with
  | [] => Some []
  | a :: b :: c :: d :: rest =>
      match sextetValue a, sextetValue b with
      | Some v, Some w =>
          if decide (c = pad) then if decide (d = pad ∧ rest = []) then Some [byte1 v w] else None
          else match sextetValue c with
          | None => None
          | Some x =>
              if decide (d = pad) then if decide (rest = []) then Some [byte1 v w; byte2 w x] else None
              else match sextetValue d with
              | None => None
              | Some y => (λ r, byte1 v w :: byte2 w x :: byte3 x y :: r) <$> decodeQuanta rest
              end
          end
      | _, _ => None
      end
  | _ => None
  end.
(** Line breaks are skipped wherever they are. *)
Definition DecodeString (s : string) : option string :=
  unchars <$> decodeQuanta (List.filter (λ c, negb (isNewline c)) (chars s)).

(** ** hex.DecodeString *)

Definition hexValue (c : ascii) : option N :=
  if isDigit c then Some (code c - 48)%N
  else if in_range 97 102 c then Some (code c - 87)%N
  else if in_range 65 70 c then Some (code c - 55)%N
  else None.
Fixpoint hexDecode (l : list ascii) : option (list ascii) :=
  match l with
  | [] => Some []
  | a :: b :: l =>
      match hexValue a, hexValue b with
      | Some v, Some w => (ascii_of_N (v * 16 + w) ::.) <$> hexDecode l
      | _, _ => None
      end
  | _ => None
  end.

(** ** Suffixes, and path/filepath *)

Definition HasSuffix (s suffix : string) : bool :=
  bool_decide (suffix = String.substring (String.length s - String.length suffix) (String.length suffix) s).

Definition cleanStep (rooted : bool) (stack : list string) (part : string) : list string :=
  if decide (part = "" ∨ part = ".") then stack
  else if decide (part = "..") then
    match stack with
    | top :: below => if decide (top = "..") then ".." :: stack else below
    | [] => if rooted then [] else [".."]
    end
  else part :: stack.
(** [filepath.Clean]; the stack has the last element first. *)
Definition Clean (path : string) : string :=
  let rooted := HasPrefix path "/" in
  let body := Join "/" (rev (foldl (cleanStep rooted) [] (Split "/" "" path))) in
  if rooted then ("/" ++ body)%string else if decide (body = "") then "." else body.
(** [filepath.Join] of two elements; an empty one is ignored. *)
Definition JoinPath (dir name : string) : string :=
  if decide (dir = "") then if decide (name = "") then "" else Clean name
  else if decide (name = "") then Clean dir else Clean (dir ++ "/" ++ name)%string.

(** ** Round trips *)

(** A property of every sextet, checked on the 64 of them. *)
Lemma sextets_all (P : N → Prop) `{HP : ∀ n, Decision (P n)} :
  forallb (λ k, bool_decide (P (N.of_nat k))) (seq 0 64) = true → ∀ n, (n < 64)%N → P n.
Proof.
  rewrite List.forallb_forall. intros H n Hn. specialize (H (N.to_nat n)). rewrite N2Nat.id in H.
  eapply bool_decide_eq_true, H, in_seq. lia.
Qed.
Lemma sextetValue_sextet n : (n < 64)%N → sextetValue (sextet n) = Some n.
Proof. revert n. apply (sextets_all (λ n, sextetValue (sextet n) = Some n)). vm_compute. reflexivity. Qed.
Lemma sextet_not_pad n : (n < 64)%N → sextet n ≠ pad.
Proof. revert n. apply (sextets_all (λ n, sextet n ≠ pad)). vm_compute. reflexivity. Qed.
Lemma sextet_not_newline n : (n < 64)%N → isNewline (sextet n) = false.
Proof. revert n. apply (sextets_all (λ n, isNewline (sextet n) = false)). vm_compute. reflexivity. Qed.

Lemma code_ascii n : (n < 256)%N → code (ascii_of_N n) = n.
Proof. apply N_ascii_embedding. Qed.
Lemma ascii_code_eq c n : n = code c → ascii_of_N n = c.
Proof. intros ->. apply ascii_N_embedding. Qed.

(** Arithmetic on bytes and sextets. *)
Ltac bytes :=
  repeat match goal with c : ascii |- _ => lazymatch goal with _ : (code c < 256)%N |- _ => fail | _ => pose proof (code_bound c) end end;
  zify; Z.to_euclidean_division_equations; lia.

Lemma byte1_join a r : (r < 16)%N → byte1 (code a / 4) (code a mod 4 * 16 + r) = a.
Proof. intros. apply ascii_code_eq. bytes. Qed.
Lemma byte2_join q b r : (r < 4)%N → byte2 (q * 16 + code b / 16) (code b mod 16 * 4 + r) = b.
Proof. intros. apply ascii_code_eq. bytes. Qed.
Lemma byte3_join q c : byte3 (q * 4 + code c / 64) (code c mod 64) = c.
Proof. intros. apply ascii_code_eq. bytes. Qed.

(** Induction three bytes at a time. *)
Lemma list_ind3 (P : list ascii → Prop) :
  P [] → (∀ a, P [a]) → (∀ a b, P [a; b]) → (∀ a b c l, P l → P (a :: b :: c :: l)) → ∀ l, P l.
Proof.
  intros H0 H1 H2 H3 l. assert (P l ∧ (∀ a, P (a :: l)) ∧ ∀ a b, P (a :: b :: l)) as [H _]; [|exact H].
  induction l as [|x l (IH & IH1 & IH2)]; split_and!; intros; eauto.
Qed.

Lemma decode_encodeQuanta l : decodeQuanta (encodeQuanta l) = Some l.
Proof.
  induction l as [|a|a b|a b c l IH] using list_ind3; [done|..]; cbn [encodeQuanta decodeQuanta].
  - rewrite !sextetValue_sextet by bytes. rewrite decide_True by done. rewrite decide_True by done. do 2 f_equal.
    rewrite <- (N.add_0_r (code a mod 4 * 16)). by apply byte1_join.
  - rewrite !sextetValue_sextet by bytes. rewrite decide_False by (apply sextet_not_pad; bytes).
    rewrite decide_True by done. rewrite decide_True by done. rewrite byte1_join by bytes. do 3 f_equal.
    rewrite <- (N.add_0_r (code b mod 16 * 4)). by apply byte2_join.
  - rewrite !sextetValue_sextet by bytes. rewrite !decide_False by (apply sextet_not_pad; bytes).
    by rewrite IH, byte1_join, byte2_join, byte3_join by bytes.
Qed.
Lemma encodeQuanta_newlines l : List.filter (λ c, negb (isNewline c)) (encodeQuanta l) = encodeQuanta l.
Proof.
  induction l as [|a|a b|a b c l IH] using list_ind3; [done|..]; cbn [encodeQuanta List.filter];
    rewrite ?sextet_not_newline by bytes; [done..|]. cbn [negb]. by rewrite IH.
Qed.
Lemma Decode_Encode s : DecodeString (EncodeToString s) = Some s.
Proof.
  unfold DecodeString, EncodeToString. rewrite String.list_ascii_of_string_of_list_ascii, encodeQuanta_newlines, decode_encodeQuanta.
  simpl. by rewrite String.string_of_list_ascii_of_string.
Qed.

Lemma hexValue_hexDigit n : (n < 16)%N → hexValue (hexDigit n) = Some n.
Proof.
  intros Hn. assert (forallb (λ k, bool_decide (hexValue (hexDigit (N.of_nat k)) = Some (N.of_nat k))) (seq 0 16) = true) as H
    by (vm_compute; reflexivity).
  rewrite List.forallb_forall in H. specialize (H (N.to_nat n)). rewrite N2Nat.id in H.
  eapply bool_decide_eq_true, H, in_seq. lia.
Qed.
Lemma hexDecode_hexEncode l : hexDecode (chars (hexEncode l)) = Some l.
Proof.
  induction l as [|c l IH]; [done|]. cbn [hexEncode String.list_ascii_of_string hexDecode].
  rewrite !hexValue_hexDigit by bytes. rewrite IH. simpl. f_equal. f_equal. apply ascii_code_eq. bytes.
Qed.

(** ** Paths of plain names *)

Lemma string_cons_app x a b : (String x a ++ b = String x (a ++ b))%string.
Proof. reflexivity. Qed.
Lemma string_nil_app b : ("" ++ b = b)%string.
Proof. reflexivity. Qed.
Lemma string_app_assoc a b c : ((a ++ b) ++ c = a ++ (b ++ c))%string.
Proof. induction a as [|x a IH]; [done|]. by rewrite !string_cons_app, IH. Qed.
Lemma string_app_nil_r a : (a ++ "" = a)%string.
Proof. induction a as [|x a IH]; [done|]. by rewrite string_cons_app, IH. Qed.
Lemma string_length_app a b : String.length (a ++ b) = (String.length a + String.length b)%nat.
Proof. induction a as [|x a IH]; [done|]. rewrite string_cons_app. simpl. by rewrite IH. Qed.
Lemma string_app_inv_head a b c : (a ++ b = a ++ c)%string → b = c.
Proof. induction a as [|x a IH]; [done|]. rewrite !string_cons_app. intros [=]. auto. Qed.
Lemma string_app_inj a b c d : (a ++ b = c ++ d)%string → String.length b = String.length d → a = c ∧ b = d.
Proof.
  revert c. induction a as [|x a IH]; intros [|y c] H Hl; rewrite ?string_cons_app, ?string_nil_app in H.
  - done.
  - apply (f_equal String.length) in H. simpl in H. rewrite string_length_app in H. lia.
  - apply (f_equal String.length) in H. simpl in H. rewrite string_length_app in H. lia.
  - injection H as -> H. by apply IH in H as [-> ->].
Qed.

(** A name without a slash. *)
Fixpoint slashFree (s : string) : bool :=
  match s with EmptyString => true | String c s => negb (Ascii.eqb c "/") && slashFree s end.
Lemma slashFree_app a b : slashFree (a ++ b) = slashFree a && slashFree b.
Proof. induction a as [|c a IH]; [done|]. rewrite string_cons_app. simpl. by rewrite IH, andb_assoc. Qed.

Lemma Split_slashFree cur name : slashFree name = true → Split "/" cur name = [(cur ++ name)%string].
Proof.
  revert cur. induction name as [|c name IH]; intros cur; simpl; [by rewrite string_app_nil_r|].
  intros [Hc H]%andb_prop. destruct (Ascii.eqb c "/"); [done|]. rewrite IH by done. by rewrite string_app_assoc, string_cons_app.
Qed.
Lemma Split_dir cur dir name :
  slashFree name = true → Split "/" cur (dir ++ "/" ++ name) = Split "/" cur dir ++ [name].
Proof.
  intros Hn. revert cur. induction dir as [|c dir IH]; intros cur; [by simpl; rewrite Split_slashFree|].
  rewrite string_cons_app. cbn [Split].
  destruct (Ascii.eqb c "/"); [by rewrite IH|apply IH].
Qed.
Lemma Join_snoc l name : Join "/" (l ++ [name]) = match l with [] => name | _ => (Join "/" l ++ "/" ++ name)%string end.
Proof.
  unfold Join. induction l as [|x l IH]; [done|]. cbn [app String.concat]. rewrite IH. destruct l as [|y l]; [done|].
  cbn [app]. by rewrite !string_app_assoc.
Qed.

(** An ordinary name: not empty, no slash, not a dot name. *)
Definition ordinary (name : string) : Prop := slashFree name = true ∧ name ≠ "" ∧ name ≠ "." ∧ name ≠ "..".

(** What [JoinPath] puts before an ordinary name. *)
Definition dirPrefix (dir : string) : string :=
  let rooted := HasPrefix dir "/" in
  let stack := foldl (cleanStep rooted) [] (Split "/" "" dir) in
  ((if rooted then "/" else "") ++ match rev stack with [] => "" | l => Join "/" l ++ "/" end)%string.

Lemma cleanStep_ordinary rooted stack name : ordinary name → cleanStep rooted stack name = name :: stack.
Proof. intros (H1 & H2 & H3 & H4). unfold cleanStep. rewrite decide_False by naive_solver. by rewrite decide_False. Qed.
Lemma JoinPath_ordinary dir name : dir ≠ "" → ordinary name → JoinPath dir name = (dirPrefix dir ++ name)%string.
Proof.
  intros Hd (H1 & H2 & H3 & H4). unfold JoinPath. rewrite decide_False, decide_False by done. unfold Clean, dirPrefix.
  assert (HasPrefix (dir ++ "/" ++ name) "/" = HasPrefix dir "/") as ->.
  { destruct dir as [|c d]; [done|]. unfold HasPrefix. rewrite string_cons_app. cbn [String.prefix].
    destruct (Ascii.ascii_dec _ _); [by destruct d|done]. }
  rewrite Split_dir by done. rewrite foldl_app. cbn [foldl].
  rewrite cleanStep_ordinary by done. cbn [rev]. rewrite Join_snoc.
  destruct (rev (foldl _ _ _)) as [|x l]; destruct (HasPrefix dir "/"); rewrite ?string_nil_app, ?string_app_assoc; try done.
  - by rewrite decide_False.
  - rewrite decide_False; [done|]. intros E. apply (f_equal String.length) in E. rewrite !string_length_app in E. simpl in E. lia.
Qed.
Lemma JoinPath_inj dir a b : dir ≠ "" → ordinary a → ordinary b → JoinPath dir a = JoinPath dir b → a = b.
Proof. intros ???. rewrite !JoinPath_ordinary by done. apply string_app_inv_head. Qed.
