(* ===== verification/Url.v ===== *)
(** * URLs (net/url and [http.NewRequestWithContext])

    The engine does not hand the client's URL on: it prints one with
    [URL.String] and has [http.NewRequestWithContext] parse it again.  These
    are the two functions on the URLs the engine prints (an [http] URL with a
    host, a path and a raw query), as the Go release named in go.mod has
    them, and what comes back. *)
From S2P Require Import Prelude.
From S2P Require Import GoStrings.
From S2P Require Import GoError.
From S2P Require Import CacheKey.
From S2P Require Import Codec.
#[local] Open Scope char_scope.

(** ** Escaping *)

Definition oneOf (s : string) (c : ascii) : bool := existsb (Ascii.eqb c) (chars s).
Definition unreserved (c : ascii) : bool := isLower c || isUpper c || isDigit c || oneOf "-_.~" c.
(** The bytes [escape] leaves alone, by mode. *)
Definition pathByte (c : ascii) : bool := unreserved c || oneOf "$&+,/:;=@" c.
Definition hostByte (c : ascii) : bool := unreserved c || oneOf "!$&'()*+,;=:[]<>" c || (code c =? 34)%N.

Definition upperHex (n : N) : ascii := upperChar (hexDigit n).
Definition escapeByte (keep : ascii → bool) (c : ascii) : list ascii :=
  if keep c then [c] else ["%"; upperHex (code c / 16); upperHex (code c mod 16)].
Definition escape (keep : ascii → bool) (l : list ascii) : list ascii := l ≫= escapeByte keep.

(** [raw] and [escaped] say which bytes may stand for themselves and which
    may be written as an escape. *)
Fixpoint unescape (raw escaped : ascii → bool) (l : list ascii) : option (list ascii) :=
  match l with
  | [] => Some []
  | "%" :: l =>
      match l with
      | a :: b :: l =>
          match hexValue a, hexValue b with
          | Some v, Some w =>
              let c := ascii_of_N (v * 16 + w) in
              if escaped c then (c ::.) <$> unescape raw escaped l else None
          | _, _ => None
          end
      | _ => None
      end
  | c :: l => if raw c then (c ::.) <$> unescape raw escaped l else None
  end.
Definition high (c : ascii) : bool := (128 <=? code c)%N.
Definition unescapePath : list ascii → option (list ascii) := unescape (λ _, true) (λ _, true).
Definition unescapeHost : list ascii → option (list ascii) := unescape (λ c, high c || hostByte c) (λ c, high c || Ascii.eqb c "%").
Definition unescapeZone : list ascii → option (list ascii) :=
  unescape (λ c, high c || hostByte c) (λ c, Ascii.eqb c "%" || Ascii.eqb c " " || hostByte c).

(** ** Printing *)

Definition EscapedPath (p : list ascii) : list ascii := if decide (p = ["*"]) then p else escape pathByte p.
Definition rooted (p : list ascii) : list ascii := match p with [] => [] | c :: _ => if Ascii.eqb c "/" then p else "/" :: p end.
(** [String] of a URL with scheme [http]. *)
Definition printURL (host path query : list ascii) : list ascii :=
  let p := EscapedPath path in
  chars "http:" ++ (if decide (host = [] ∧ path = []) then [] else chars "//") ++ escape hostByte host ++
    (if decide (host = []) then p else rooted p) ++ (if decide (query = []) then [] else "?" :: query).

(** ** Parsing *)

Record URL := mkURL { url_Host : list ascii; url_Path : list ascii; url_Written : list ascii; url_ForceQuery : bool; url_RawQuery : list ascii }.

(** [strings.Cut] at a byte. *)
Fixpoint cutAt (c : ascii) (l : list ascii) : list ascii * option (list ascii) :=
  match l with
  | [] => ([], None)
  | a :: l => if Ascii.eqb a c then ([], Some l) else let '(x, y) := cutAt c l in (a :: x, y)
  end.

Definition validOptionalPort (port : list ascii) : bool :=
  match port with [] => true | c :: port => Ascii.eqb c ":" && forallb isDigit port end.
(** Where [%25] is in a list. *)
Fixpoint indexZone (l : list ascii) : option nat :=
  match l with
  | "%" :: "2" :: "5" :: _ => Some O
  | _ :: l => S <$> indexZone l
  | [] => None
  end.
Definition parseHost (host : list ascii) : option (list ascii) :=
  match host with
  | "[" :: _ =>
      match LastIndexByte "]" host with
      | None => None
      | Some i =>
          if negb (validOptionalPort (drop (i + 1) host)) then None
          else match indexZone (take i host) with
          | None => unescapeHost host
          | Some zone =>
              match unescapeHost (take zone host), unescapeZone (drop zone (take i host)), unescapeHost (drop i host) with
              | Some h1, Some h2, Some h3 => Some (h1 ++ h2 ++ h3)
              | _, _, _ => None
              end
          end
      end
  | _ =>
      match LastIndexByte ":" host with
      | Some i => if validOptionalPort (drop i host) then unescapeHost host else None
      | None => unescapeHost host
      end
  end.

Definition control (c : ascii) : bool := (code c <? 32)%N || (code c =? 127)%N.
(** [Parse] of what [printURL] prints.  A printed host has no [@], so there is
    no user information to look for; [url_Written] is the path as it stands in
    the URL, which is what [EscapedPath] gives back for it. *)
Definition parseURL (raw : list ascii) : option URL :=
  let '(u, frag) := cutAt "#" raw in
  if existsb control u then None
  else
    let '(rest, query) := cutAt "?" (drop 5 u) in
    let '(host, path) :=
      match rest with
      | "/" :: "/" :: authority => let '(host, path) := cutAt "/" authority in (parseHost host, match path with Some p => "/" :: p | None => [] end)
      | _ => (Some [], rest)
      end in
    match host, unescapePath path, unescapePath (default [] frag) with
    | Some host, Some p, Some _ => Some (mkURL host p path (bool_decide (query = Some [])) (default [] query))
    | _, _, _ => None
    end.
Definition RequestURI (u : URL) : list ascii :=
  (if decide (url_Written u = []) then ["/"] else url_Written u) ++ (if url_ForceQuery u || bool_decide (url_RawQuery u ≠ []) then "?" :: url_RawQuery u else []).

(** ** [http.NewRequestWithContext]: its method and URL, or the error *)

Definition errMethod : error := mkError None None [].
(** An [url.Error] has a [Timeout] method, which says no. *)
Definition errURL : error := mkError None (Some false) [].
Definition methodOr (method : string) : string := if decide (method = EmptyString) then "GET"%string else method.
Definition NewRequest (method : string) (url : list ascii) : error + (string * URL) :=
  let method := methodOr method in
  if negb (forallb validHeaderFieldByte (chars method)) then inl errMethod
  else match parseURL url with
  | None => inl errURL
  | Some u => inr (method, u)
  end.

(** ** What comes back *)

(** The query up to the first [#]. *)
Definition beforeHash (q : string) : string := unchars (cutAt "#" (chars q)).1.
(** The path, with the slash the printer puts in front. *)
Definition rootedPath (p : string) : string := unchars (rooted (chars p)).

Lemma upperHex_value n : (n < 16)%N → hexValue (upperHex n) = Some n.
Proof.
  intros Hn. assert (forallb (λ k, bool_decide (hexValue (upperHex (N.of_nat k)) = Some (N.of_nat k))) (seq 0 16) = true) as H
    by (vm_compute; reflexivity).
  rewrite List.forallb_forall in H. specialize (H (N.to_nat n)). rewrite N2Nat.id in H.
  eapply bool_decide_eq_true, H, in_seq. lia.
Qed.

(** A byte that is no hexadecimal digit, nor [%], is in an escaped list only
    when it is left alone. *)
Lemma escape_without keep c l : keep c = false → c ≠ "%" → hexValue c = None → c ∉ escape keep l.
Proof.
  intros Hk Hp Hx [a [Ha Hc]]%list_elem_of_bind. unfold escapeByte in Ha. destruct (keep a) eqn:Ek.
  - apply list_elem_of_singleton in Ha. congruence.
  - rewrite !elem_of_cons in Ha. destruct Ha as [->|[->|[->|[]%elem_of_nil]]]; [done|..]; rewrite upperHex_value in Hx by bytes; done.
Qed.

Lemma unescape_escape keep raw escaped l :
  keep "%" = false → (∀ c, keep c = true → raw c = true) → (∀ c, c ∈ l → keep c = false → escaped c = true) →
  unescape raw escaped (escape keep l) = Some l.
Proof.
  intros Hp Hr. induction l as [|c l IH]; intros He; [done|]. unfold escape. cbn [mbind list_bind]. fold (escape keep l). unfold escapeByte.
  assert (unescape raw escaped (escape keep l) = Some l) as E by (apply IH; intros; apply He; [by right|done]).
  destruct (keep c) eqn:Hc; cbn [app].
  - assert (unescape raw escaped (c :: escape keep l) = if raw c then (c ::.) <$> unescape raw escaped (escape keep l) else None) as ->.
    { destruct (decide (c = "%")) as [->|]; [congruence|]. by destruct c as [[] [] [] [] [] [] [] []]. }
    by rewrite Hr, E.
  - cbn [unescape]. rewrite !upperHex_value by bytes. cbn zeta.
    assert (ascii_of_N (code c / 16 * 16 + code c mod 16) = c) as -> by (apply ascii_code_eq; bytes).
    rewrite He by (left || done). by rewrite E.
Qed.

Lemma cutAt_app c l k : c ∉ l → cutAt c (l ++ k) = (l ++ (cutAt c k).1, (cutAt c k).2).
Proof.
  induction l as [|a l IH]; intros H; cbn [app cutAt]; [by destruct (cutAt c k)|]. apply not_elem_of_cons in H as [Ha Hl].
  destruct (Ascii.eqb_spec a c); [congruence|]. by rewrite IH.
Qed.
Lemma cutAt_nil c l : c ∉ l → cutAt c l = (l, None).
Proof. intros H. rewrite <- (app_nil_r l) at 1. by rewrite cutAt_app, app_nil_r. Qed.

Lemma EscapedPath_without c p : pathByte c = false → c ≠ "*" → c ≠ "%" → hexValue c = None → c ∉ EscapedPath p.
Proof.
  intros H1 H2 H3 H4. unfold EscapedPath. case_decide as E; [rewrite E; by intros ?%list_elem_of_singleton|by apply escape_without].
Qed.
Lemma rooted_without c p : c ≠ "/" → c ∉ p → c ∉ rooted p.
Proof. intros Hs Hp. destruct p as [|a p]; [done|]. simpl. destruct (Ascii.eqb a "/"); [done|]. apply not_elem_of_cons. by split. Qed.
Lemma unescapePath_slash l : unescapePath ("/" :: l) = (("/" : ascii) ::.) <$> unescapePath l.
Proof. done. Qed.
Lemma unescape_rooted p : unescapePath (rooted (EscapedPath p)) = Some (rooted p).
Proof.
  unfold EscapedPath. case_decide as E; [by rewrite E|].
  assert (unescapePath (escape pathByte p) = Some p) as He by by apply unescape_escape.
  destruct p as [|c p]; [done|]. destruct (decide (c = "/")) as [->|Hc]; [exact He|].
  assert (rooted (escape pathByte (c :: p)) = "/" :: escape pathByte (c :: p)) as ->.
  { assert (∃ h r, escapeByte pathByte c = h :: r ∧ h ≠ "/") as (h & r & E1 & Hh) by (unfold escapeByte; destruct (pathByte c); by do 2 eexists).
    unfold escape. cbn [mbind list_bind]. rewrite E1. cbn [app rooted]. by destruct (Ascii.eqb_spec h "/"). }
  rewrite unescapePath_slash, He. simpl. by destruct (Ascii.eqb_spec c "/").
Qed.

Lemma absent (c : ascii) (l : list ascii) : bool_decide (c ∈ l) = false → c ∉ l.
Proof. apply bool_decide_eq_false. Qed.

(** The two parts of a printed URL: what a [#] in the query may cut, and what
    it cannot. *)
Lemma printURL_cut host path query :
  host ≠ [] → ∃ frag,
    cutAt "#" (printURL host path query) =
      (chars "http:" ++ chars "//" ++ escape hostByte host ++ rooted (EscapedPath path) ++
         (if decide (query = []) then [] else "?" :: (cutAt "#" query).1), frag).
Proof.
  intros Hh. unfold printURL. rewrite decide_False by tauto. rewrite decide_False by done.
  exists (cutAt "#" (if decide (query = []) then [] else "?" :: query)).2.
  rewrite (cutAt_app _ (chars "http:")) by by apply absent. rewrite (cutAt_app _ (chars "//")) by by apply absent.
  rewrite cutAt_app by by apply escape_without. rewrite cutAt_app by by apply rooted_without, EscapedPath_without.
  case_decide; cbn [cutAt]; [done|]. by destruct (cutAt "#" query).
Qed.

(** Printing a URL and parsing it again loses what follows a [#] in the query
    and roots the path; nothing else changes. *)
Theorem url_reparsed host path query u :
  host ≠ [] → parseURL (printURL host path query) = Some u →
  url_Path u = rooted path ∧ url_RawQuery u = (cutAt "#" query).1.
Proof.
  intros Hh. destruct (printURL_cut host path query Hh) as [frag E]. unfold parseURL. rewrite E. clear E. destruct (existsb control _); [done|].
  set (H := escape hostByte host). set (P := rooted (EscapedPath path)).
  assert (∃ p', P = [] ∨ P = "/" :: p') as [p' HP].
  { unfold P. destruct (EscapedPath path) as [|a p]; [exists []; by left|]. simpl. destruct (Ascii.eqb_spec a "/") as [->|]; eexists; by right. }
  change (drop 5 (chars "http:" ++ ?l)) with l.
  rewrite (cutAt_app "?" (chars "//")) by by apply absent.
  rewrite cutAt_app by by apply escape_without. rewrite cutAt_app by by apply rooted_without, EscapedPath_without.
  set (b := (cutAt "#" query).1).
  assert (cutAt "?" (if decide (query = []) then [] else "?" :: b) = ([], if decide (query = []) then None else Some b)) as -> by by case_decide.
  cbn [fst snd]. rewrite app_nil_r. cbn [app String.list_ascii_of_string].
  rewrite cutAt_app by by apply escape_without.
  assert (cutAt "/" P = ([], match P with [] => None | _ :: p => Some p end)) as -> by (by destruct HP as [-> | ->]).
  cbn [fst snd]. rewrite app_nil_r.
  assert ((match match P with [] => None | _ :: p => Some p end with Some p => "/" :: p | None => [] end) = P) as -> by by destruct HP as [-> | ->].
  unfold P at 1. rewrite unescape_rooted. destruct (parseHost H) as [h|]; [|done]. destruct (unescapePath _); [|done]. intros [= <-]. cbn [url_Path url_RawQuery].
  split; [done|]. unfold b. case_decide as Eq; [by rewrite Eq|done].
Qed.

Lemma NewRequest_parts method host path query m u :
  host ≠ EmptyString → NewRequest method (printURL (chars host) (chars path) (chars query)) = inr (m, u) →
  m = methodOr method ∧ unchars (url_Path u) = rootedPath path ∧ unchars (url_RawQuery u) = beforeHash query.
Proof.
  unfold NewRequest. intros Hh. cbn zeta. destruct (negb _); [done|]. destruct (parseURL _) as [u'|] eqn:E; [|done]. intros [= <- <-].
  apply url_reparsed in E as [-> ->]; [done|]. by destruct host.
Qed.

Example url_demo :
  parseURL (printURL (chars "10.0.0.1:80") (chars "/a b") (chars "x=1?#y=%41")) =
    Some (mkURL (chars "10.0.0.1:80") (chars "/a b") (chars "/a%20b") false (chars "x=1?")) ∧
  parseURL (printURL (chars "10.0.0.1:80") (chars "*") (chars "#")) =
    Some (mkURL (chars "10.0.0.1:80") (chars "/*") (chars "/*") true []) ∧
  parseURL (printURL (chars "[fe80::1%en 0]:80") (chars "") (chars "")) =
    Some (mkURL (chars "[fe80::1%en 0]:80") [] [] false []) ∧
  parseURL (printURL (chars "h:80") (chars "/") (chars "x#%zz")) = None ∧ parseURL (printURL (chars "h:8a") (chars "/") (chars "")) = None ∧
  parseURL (printURL (chars "h@x") (chars "/") (chars "")) = None.
Proof. by split_and!; vm_compute. Qed.
