(* ===== verification/Mux.v ===== *)
(** * [http.ServeMux], as far as the admin API and the distributor use it

    Patterns without host, method or wildcard: a path, or a subtree when it
    ends in a slash.  The path that is matched is the escaped one, cleaned;
    when cleaning changes it, the mux answers with a redirect itself
    ([None]), except for CONNECT. *)
From S2P Require Import Prelude.
From S2P Require Import GoStrings.
From S2P Require Import Http.
From S2P Require Import Codec.
From S2P Require Import Url.

(** [URL.EscapedPath], which [RequestURI] begins with. *)
Definition escapedPath (r : Request) : string := unchars (cutAt "?"%char (chars (URI r))).1.
Definition cleanPath (p : string) : string :=
  if decide (p = "") then "/"
  else
    let p := if HasPrefix p "/" then p else ("/" ++ p)%string in
    let np := Clean p in
    if HasSuffix p "/" && bool_decide (np ≠ "/") then (np ++ "/")%string else np.
(** [pathUnescape]: a segment that does not unescape stays as it is. *)
Definition segment (s : string) : string := match unescapePath (chars s) with Some l => unchars l | None => s end.
Definition muxSegments (r : Request) : option (list string) :=
  let p := escapedPath r in
  if bool_decide (Method r ≠ "CONNECT") && bool_decide (cleanPath p ≠ p) then None
  else Some (segment <$> Split "/" "" (TrimPrefix p "/")).

Example mux_demo :
  (λ u, muxSegments (mkRequest "GET" "" "" "" u ∅ None 0 "" None)) <$> ["/admin/validate?x=/"; "/admin/v%61lidate"; "/admin//validate"; "/a/../b"; "/b/"; "/b%2Fc"]
  = [Some ["admin"; "validate"]; Some ["admin"; "validate"]; None; None; Some ["b"; ""]; Some ["b/c"]].
Proof. vm_compute. reflexivity. Qed.
