(* ===== verification/Bundle.v ===== *)
(** * Signed configuration bundles (internal/bundle)

    A bundle carries the bytes of a configuration in base64, their hash and a
    signature over the metadata and the hash.  [Storage] is the interface the
    distributor serves bundles from; the memory and the file storage implement
    it.

    Parameters: sha256, ed25519, encoding/json on [Meta] and [Bundle],
    [time.Parse], the order [sort.Slice] gives to equal elements, reading a
    key file, and whether a write to a path succeeds. *)
From S2P Require Import Prelude.
From S2P Require Import GoStrings.
From S2P Require Import CacheKey.
From S2P Require Import Codec.

(** ** bundle.go *)

Record Meta := mkMeta { Version : string; CreatedAt : string; Source : string; Notes : string }.
#[export] Instance Meta_eta : Eta Meta := fun m => mkMeta (Version m) (CreatedAt m) (Source m) (Notes m).
#[export] Instance Meta_eq_dec : EqDecision Meta.
Proof. solve_decision. Defined.

Record Bundle := mkBundle { BundleMeta : Meta; ConfigBytesB64 : string; ConfigSHA256 : string; SignatureB64 : string }.
#[export] Instance Bundle_eta : Eta Bundle := fun b => mkBundle (BundleMeta b) (ConfigBytesB64 b) (ConfigSHA256 b) (SignatureB64 b).
#[export] Instance Bundle_eq_dec : EqDecision Bundle.
Proof. solve_decision. Defined.
Definition emptyBundle : Bundle := mkBundle (mkMeta "" "" "" "") "" "" "".
Definition version (b : Bundle) : string := Version (BundleMeta b).

Definition ConfigBytes (b : Bundle) : option string :=
  if decide (ConfigBytesB64 b = "") then Some "" else DecodeString (ConfigBytesB64 b).
Definition ConfigHashBytes (b : Bundle) : option string :=
  if decide (ConfigSHA256 b = "") then Some "" else unchars <$> hexDecode (chars (ConfigSHA256 b)).

Definition PublicKeySize : Z := 32.
Definition PrivateKeySize : Z := 64.

Inductive verifyError := ErrBadHash | ErrBadSignature | ErrMeta (e : string).
#[export] Instance verifyError_eq_dec : EqDecision verifyError.
Proof. solve_decision. Defined.

Section Signing.
Context (sha256 : string → list ascii) (marshalMeta : Meta → result string).
Context (Sign : string → string → string) (Verify : string → string → string → bool).

Definition MetaBytes (m : Meta) : result string := marshalMeta m.
Definition HashConfig (raw : string) : string * string := (hexEncode (sha256 raw), unchars (sha256 raw)).

(** ** sign.go *)

Definition signatureInput (metaBytes configHash : string) : string := unchars (sha256 (metaBytes ++ configHash)%string).

(** The metadata with its defaults filled in. *)
Definition completeMeta (now hash : string) (m : Meta) : Meta :=
  m <| CreatedAt ::= (λ c, if decide (c = "") then now else c) |> <| Version ::= (λ v, if decide (v = "") then hash else v) |>.
Definition NewSignedBundle (now : string) (configBytes : string) (meta : Meta) (privateKey : string) : result Bundle :=
  if decide (slen privateKey ≠ PrivateKeySize) then Err "invalid private key"
  else
    let '(configHashHex, configHashBytes) := HashConfig configBytes in
    let meta := completeMeta now configHashHex meta in
    let? metaBytes := MetaBytes meta in
    let sig := Sign privateKey (signatureInput metaBytes configHashBytes) in
    Ok (mkBundle meta (EncodeToString configBytes) configHashHex (EncodeToString sig)).

(** ** verify.go *)

Definition VerifyBundle (b : Bundle) (publicKey : string) : option verifyError :=
  if decide (slen publicKey ≠ PublicKeySize) then Some ErrBadSignature
  else match ConfigBytes b with
  | None => Some ErrBadHash
  | Some configBytes =>
      let '(configHashHex, configHashBytes) := HashConfig configBytes in
      if decide (ConfigSHA256 b ≠ configHashHex) then Some ErrBadHash
      else match MetaBytes (BundleMeta b) with
      | Err e => Some (ErrMeta e)
      | Ok metaBytes =>
          match DecodeString (SignatureB64 b) with
          | None => Some ErrBadSignature
          | Some sig => if Verify publicKey (signatureInput metaBytes configHashBytes) sig then None else Some ErrBadSignature
          end
      end
  end.
End Signing.

(** ** keys.go *)

Section Keys.
Context (ReadFile : string → result string).

Definition parseKeyData (data : string) (size : Z) : result string :=
  if decide (slen data = size) then Ok data
  else match DecodeString data with
  | None => Err "illegal base64 data"
  | Some decoded => if decide (slen decoded ≠ size) then Err "invalid key size" else Ok decoded
  end.
Definition loadKey (size : Z) (path : string) : result string :=
  let? data := ReadFile path in parseKeyData (TrimSpace data) size.
Definition LoadPublicKey : string → result string := loadKey PublicKeySize.
Definition LoadPrivateKey : string → result string := loadKey PrivateKeySize.
End Keys.

(** ** storage.go *)

(** What a storage offers.  [Put] returns the storage it leaves behind also
    when it fails. *)
Class Storage (S : Type) := {
  Put : Bundle → S → S * option string;
  Get : string → S → option Bundle;
  Latest : S → option Bundle;
  List_ : Z → S → list Meta
}.

(** What its users may rely on, for bundles it can hold ([storable]) and
    versions it can look up ([plain]). *)
Class StorageLaws (S : Type) `{Storage S} := {
  storable : Bundle → Prop;
  plain : string → Prop;
  storable_plain b : storable b → plain (version b);
  Put_Get b v s s' : storable b → plain v → Put b s = (s', None) → Get v s' = if decide (v = version b) then Some b else Get v s;
  Put_Latest b s s' : storable b → Put b s = (s', None) → Latest s' = Some b;
  Put_unnamed b s : version b = "" → Put b s = (s, Some "bundle version required")
}.

Record MemoryStorage := mkMemoryStorage { bundles : gmap string Bundle; order : list string; latest : string }.
#[export] Instance MemoryStorage_eta : Eta MemoryStorage := fun m => mkMemoryStorage (bundles m) (order m) (latest m).
Definition NewMemoryStorage : MemoryStorage := mkMemoryStorage ∅ [] "".

Definition memoryPut (b : Bundle) (m : MemoryStorage) : MemoryStorage * option string :=
  if decide (version b = "") then (m, Some "bundle version required")
  else
    let m := match bundles m !! version b with None => m <| order ::= (λ l, l ++ [version b]) |> | Some _ => m end in
    (m <| bundles ::= <[version b := b]> |> <| latest := version b |>, None).
Definition memoryGet (v : string) (m : MemoryStorage) : option Bundle := bundles m !! v.
Definition memoryLatest (m : MemoryStorage) : option Bundle :=
  if decide (latest m = "") then None else bundles m !! latest m.

(** The loop of [List], over the versions newest first. *)
Fixpoint collect (bs : gmap string Bundle) (limit : nat) (versions : list string) : list Meta :=
  match limit, versions with
  | S limit', v :: versions =>
      match bs !! v with Some b => BundleMeta b :: collect bs limit' versions | None => collect bs limit versions end
  | _, _ => []
  end.
Definition memoryList (limit : Z) (m : MemoryStorage) : list Meta :=
  collect (bundles m) (Z.to_nat (if limit <=? 0 then 20 else limit)) (rev (order m)).

#[export] Instance memory_storage : Storage MemoryStorage :=
  { Put := memoryPut; Get := memoryGet; Latest := memoryLatest; List_ := memoryList }.

(** *** Files *)

(** The files by their cleaned path. *)
Abbreviation Files := (gmap string string).

(** The directory of a new storage; [mkdirAll] is the error of [os.MkdirAll]. *)
Definition NewFileStorage (mkdirAll : string → option string) (dir : string) : result string :=
  if decide (dir = "") then Err "storage directory required"
  else match mkdirAll dir with Some e => Err e | None => Ok dir end.

Section FileStorage.
Context (dir : string).
Context (marshal : Bundle → result string) (unmarshal : string → result Bundle) (parseTime : string → option Time).
Context (sortSlice : (Meta → Meta → bool) → list Meta → list Meta).
Context (canWrite : string → bool).

Definition bundlePath (v : string) : string := JoinPath dir (v ++ ".json").
Definition latestPath : string := JoinPath dir "latest".

Definition WriteFile (path data : string) (fs : Files) : Files * option string :=
  if canWrite path then (<[path := data]> fs, None) else (fs, Some "permission denied").

Definition filePut (b : Bundle) (fs : Files) : Files * option string :=
  if decide (version b = "") then (fs, Some "bundle version required")
  else match marshal b with
  | Err e => (fs, Some e)
  | Ok data =>
      match WriteFile (bundlePath (version b)) data fs with
      | (fs, Some e) => (fs, Some e)
      | (fs, None) => WriteFile latestPath (version b) fs
      end
  end.

Definition fileGet (v : string) (fs : Files) : option Bundle :=
  match fs !! bundlePath v with
  | None => None
  | Some data => match unmarshal data with Ok b => Some b | Err _ => None end
  end.

(** The names [os.ReadDir] returns: those of the files directly in the
    directory. *)
Definition entryName (path : string) : option string :=
  let name := List.last (Split "/" "" path) "" in
  if decide (JoinPath dir name = path) then Some name else None.
Definition listed (pd : string * string) : option Meta :=
  match entryName pd.1 with
  | None => None
  | Some name =>
      if decide (name = "latest") then None
      else if negb (HasSuffix name ".json") then None
      else match unmarshal pd.2 with Ok b => Some (BundleMeta b) | Err _ => None end
  end.
Definition parseMetaTime (value : string) : Time := default zeroTime (parseTime value).
Definition newer (a b : Meta) : bool := parseMetaTime (CreatedAt b) <? parseMetaTime (CreatedAt a).
Definition fileList (limit : Z) (fs : Files) : list Meta :=
  let items := sortSlice newer (omap listed (map_to_list fs)) in
  let n := Z.of_nat (length items) in
  take (Z.to_nat (if (limit <=? 0) || (n <? limit) then n else limit)) items.

Definition fileLatest (fs : Files) : option Bundle :=
  let named :=
    match fs !! latestPath with
    | None => None
    | Some text => let v := TrimSpace text in if decide (v = "") then None else fileGet v fs
    end in
  match named with
  | Some b => Some b
  | None => match fileList 1 fs with [] => None | m :: _ => fileGet (Version m) fs end
  end.

Definition file_storage : Storage Files := {| Put := filePut; Get := fileGet; Latest := fileLatest; List_ := fileList |}.
End FileStorage.

(** ** Signing and verifying *)

Lemma ConfigBytes_encoded b raw : ConfigBytesB64 b = EncodeToString raw → ConfigBytes b = Some raw.
Proof.
  unfold ConfigBytes. intros ->. pose proof (Decode_Encode raw) as E. case_decide as H; [|done].
  rewrite H in E. by injection E as <-.
Qed.

Section Guarantees.
Context (sha256 : string → list ascii) (marshalMeta : Meta → result string).
Context (Sign : string → string → string) (Verify : string → string → string → bool).
Abbreviation sign := (NewSignedBundle sha256 marshalMeta Sign).
Abbreviation verify := (VerifyBundle sha256 marshalMeta Verify).

(** What a signature covers. *)
Definition signed_message (m : Meta) (raw : string) : result string :=
  let? metaBytes := marshalMeta m in Ok (signatureInput sha256 metaBytes (unchars (sha256 raw))).

Lemma verify_ok b publicKey :
  verify b publicKey = None ↔
  slen publicKey = PublicKeySize ∧ ∃ raw msg sig, ConfigBytes b = Some raw ∧ ConfigSHA256 b = hexEncode (sha256 raw) ∧
    signed_message (BundleMeta b) raw = Ok msg ∧ DecodeString (SignatureB64 b) = Some sig ∧ Verify publicKey msg sig = true.
Proof.
  unfold VerifyBundle, HashConfig, MetaBytes, signed_message. split.
  - intros H. case_decide as Hs; [done|]. split; [done|].
    destruct (ConfigBytes b) as [raw|]; [|done]. case_decide as Hh; [done|].
    destruct (marshalMeta _) as [mb|]; [|done]. destruct (DecodeString _) as [sig|]; [|done].
    destruct (Verify _ _ _) eqn:Hv; [|done]. by exists raw, (signatureInput sha256 mb (unchars (sha256 raw))), sig.
  - intros (Hs & raw & msg & sig & H1 & H2 & H3 & H4 & H5). rewrite decide_False by auto. rewrite H1, decide_False by auto.
    destruct (marshalMeta _) as [mb|]; [|done]. injection H3 as <-. by rewrite H4, H5.
Qed.

Lemma signed_verifies now raw meta privateKey publicKey b :
  (∀ msg, Verify publicKey msg (Sign privateKey msg) = true) → slen publicKey = PublicKeySize →
  sign now raw meta privateKey = Ok b →
  verify b publicKey = None ∧ ConfigBytes b = Some raw ∧ ConfigHashBytes b = Some (unchars (sha256 raw)) ∧
  Source (BundleMeta b) = Source meta ∧ Notes (BundleMeta b) = Notes meta ∧
  version b = if decide (Version meta = "") then hexEncode (sha256 raw) else Version meta.
Proof.
  intros Hv Hpub. unfold NewSignedBundle, HashConfig, MetaBytes. case_decide; [done|]. simpl.
  set (meta' := completeMeta now _ meta). destruct (marshalMeta meta') as [mb|] eqn:Em; [|done]. intros [= <-].
  assert (ConfigBytes (mkBundle meta' (EncodeToString raw) (hexEncode (sha256 raw))
            (EncodeToString (Sign privateKey (signatureInput sha256 mb (unchars (sha256 raw)))))) = Some raw) as Hc
    by by apply ConfigBytes_encoded.
  split_and!; try done.
  - apply verify_ok. split; [done|]. eexists raw, _, _. split_and!; [done..| |apply Decode_Encode|apply Hv].
    unfold signed_message. simpl. by rewrite Em.
  - unfold ConfigHashBytes. simpl. rewrite hexDecode_hexEncode. simpl. case_decide as E; [|done].
    by destruct (sha256 raw).
Qed.

(** Signing and verifying round trip: a bundle signed with a private key
    passes verification with the matching public key and gives back the
    configuration bytes it was made from, with the metadata it was given and
    a version, by default the hash of the bytes. *)
Theorem bundle_sign_verify now raw meta privateKey publicKey b :
  (∀ msg, Verify publicKey msg (Sign privateKey msg) = true) → slen publicKey = PublicKeySize →
  sign now raw meta privateKey = Ok b →
  verify b publicKey = None ∧ ConfigBytes b = Some raw ∧ ConfigHashBytes b = Some (unchars (sha256 raw)) ∧
  Source (BundleMeta b) = Source meta ∧ Notes (BundleMeta b) = Notes meta ∧
  version b = if decide (Version meta = "") then hexEncode (sha256 raw) else Version meta.
Proof. apply signed_verifies. Qed.

(** These two strings are different and have the same hash. *)
Definition collides (x y : string) : Prop := x ≠ y ∧ sha256 x = sha256 y.

Lemma unchars_inj l k : unchars l = unchars k → l = k.
Proof.
  intros H. apply (f_equal String.list_ascii_of_string) in H. by rewrite !String.list_ascii_of_string_of_list_ascii in H.
Qed.
Lemma length_unchars l : String.length (unchars l) = length l.
Proof. induction l; simpl; congruence. Qed.

Lemma signed_message_inj m1 raw1 m2 raw2 msg :
  (∀ x, length (sha256 x) = 32%nat) → signed_message m1 raw1 = Ok msg → signed_message m2 raw2 = Ok msg →
  ∃ b1 b2, marshalMeta m1 = Ok b1 ∧ marshalMeta m2 = Ok b2 ∧
    ((raw1 = raw2 ∧ b1 = b2) ∨ collides raw1 raw2 ∨ collides (b1 ++ unchars (sha256 raw1)) (b2 ++ unchars (sha256 raw2))).
Proof.
  unfold signed_message, signatureInput. intros Hlen. destruct (marshalMeta m1) as [b1|]; [|done].
  destruct (marshalMeta m2) as [b2|]; [|done]. intros [= <-] [= H]. apply unchars_inj in H. exists b1, b2. split_and!; [done..|].
  destruct (decide ((b1 ++ unchars (sha256 raw1))%string = (b2 ++ unchars (sha256 raw2))%string)) as [E|E]; [|right; by right].
  apply string_app_inj in E as [-> E]; [|by rewrite !length_unchars, !Hlen]. apply unchars_inj in E.
  destruct (decide (raw1 = raw2)) as [->|Hne]; [by left|]. right. by left.
Qed.

(** C20. What verification guarantees: if signatures that verify are signatures
    of messages some earlier [NewSignedBundle] signed, then a bundle that
    passes has the configuration bytes and the encoded metadata of one of
    those bundles; the only other case is that its own configuration bytes,
    or its own encoded metadata followed by their hash, differ from those of
    that bundle and have the very same sha256 hash. *)
Theorem bundle_verified_authentic (issued : list (Meta * string)) b publicKey :
  (∀ x, length (sha256 x) = 32%nat) →
  (∀ msg sig, Verify publicKey msg sig = true → ∃ m raw, (m, raw) ∈ issued ∧ signed_message m raw = Ok msg) →
  verify b publicKey = None →
  ∃ m raw mb raw' mb',
    (m, raw) ∈ issued ∧ marshalMeta m = Ok mb ∧ ConfigBytes b = Some raw' ∧ marshalMeta (BundleMeta b) = Ok mb' ∧
    ((raw' = raw ∧ mb' = mb) ∨ collides raw' raw ∨ collides (mb' ++ unchars (sha256 raw')) (mb ++ unchars (sha256 raw))).
Proof.
  intros Hlen Hauth (_ & raw' & msg & sig & H1 & _ & H3 & _ & H5)%verify_ok.
  destruct (Hauth msg sig H5) as (m & raw & Hin & Hm).
  destruct (signed_message_inj _ _ _ _ _ Hlen H3 Hm) as (mb' & mb & E1 & E2 & H). by exists m, raw, mb, raw', mb'.
Qed.
End Guarantees.

(** ** Storages keep what they are given *)

#[export] Program Instance memory_laws : StorageLaws MemoryStorage :=
  { storable := λ b, version b ≠ ""; plain := λ v, v ≠ "" }.
Next Obligation. done. Qed.
Next Obligation.
  intros b v s s' Hb _. simpl. unfold memoryPut. rewrite decide_False by done. intros [= <-]. unfold memoryGet. simpl.
  case_decide as E; [by rewrite E, lookup_insert_eq|]. rewrite lookup_insert_ne by done. by destruct (bundles s !! version b).
Qed.
Next Obligation.
  intros b s s' Hb. simpl. unfold memoryPut. rewrite decide_False by done. intros [= <-]. unfold memoryLatest. simpl.
  by rewrite decide_False, lookup_insert_eq.
Qed.
Next Obligation. intros b s Hb. simpl. unfold memoryPut. by rewrite decide_True. Qed.

Section FileLaws.
Context (dir : string).
Context (marshal : Bundle → result string) (unmarshal : string → result Bundle) (parseTime : string → option Time).
Context (sortSlice : (Meta → Meta → bool) → list Meta → list Meta).
Context (canWrite : string → bool).
Hypothesis dir_set : dir ≠ "".
Existing Instance file_storage.
Abbreviation files_storage := (file_storage dir marshal unmarshal parseTime sortSlice canWrite).

Lemma json_name_ordinary v : slashFree v = true → ordinary (v ++ ".json").
Proof.
  intros Hv. split; [by rewrite slashFree_app, Hv|].
  split_and!; intros E; apply (f_equal String.length) in E; rewrite string_length_app in E; simpl in E; lia.
Qed.
Lemma bundlePath_inj v w : slashFree v = true → slashFree w = true → bundlePath dir v = bundlePath dir w → v = w.
Proof.
  intros Hv Hw E. apply JoinPath_inj in E; [|done|by apply json_name_ordinary..]. by apply string_app_inj in E as [-> _].
Qed.
Lemma bundlePath_latest v : slashFree v = true → bundlePath dir v ≠ latestPath dir.
Proof.
  intros Hv E. apply JoinPath_inj in E; [|done|by apply json_name_ordinary|done].
  by apply (string_app_inj _ _ "l" "atest") in E as [_ [=]].
Qed.

(** A bundle a directory can hold: its version names a file in it, survives
    the trimming of the [latest] file, and JSON gives the bundle back. *)
Definition fileable (b : Bundle) : Prop :=
  slashFree (version b) = true ∧ version b ≠ "" ∧ TrimSpace (version b) = version b ∧
  ∃ data, marshal b = Ok data ∧ unmarshal data = Ok b.

Lemma filePut_ok b fs fs' :
  fileable b → filePut dir marshal canWrite b fs = (fs', None) →
  ∃ data, unmarshal data = Ok b ∧ fs' = <[latestPath dir := version b]> (<[bundlePath dir (version b) := data]> fs).
Proof.
  intros (Hs & Hne & _ & data & Hm & Hu). unfold filePut, WriteFile. rewrite decide_False, Hm by done.
  destruct (canWrite _); [|done]. destruct (canWrite _); [|done]. intros [= <-]. by exists data.
Qed.
Lemma filePut_get b v fs fs' :
  fileable b → slashFree v = true → filePut dir marshal canWrite b fs = (fs', None) →
  fileGet dir unmarshal v fs' = if decide (v = version b) then Some b else fileGet dir unmarshal v fs.
Proof.
  intros Hb Hv H. pose proof Hb as (Hs & _ & _ & _). apply filePut_ok in H as (data & Hu & ->); [|done]. unfold fileGet.
  rewrite lookup_insert_ne by (intros E; symmetry in E; by apply bundlePath_latest in E). case_decide as E.
  - by rewrite E, lookup_insert_eq, Hu.
  - rewrite lookup_insert_ne; [done|]. intros E'. apply bundlePath_inj in E'; congruence.
Qed.

Program Definition file_laws : @StorageLaws Files files_storage :=
  {| storable := fileable; plain := λ v, slashFree v = true |}.
Next Obligation. by intros b (H & _). Qed.
Next Obligation. intros b v s s' Hb Hv H. by apply (filePut_get b v s s'). Qed.
Next Obligation.
  intros b s s' Hb H. pose proof Hb as (Hs & Hne & Ht & _). unfold Latest. simpl. unfold fileLatest.
  pose proof (filePut_get b (version b) s s' Hb Hs H) as Hg. rewrite decide_True in Hg by done.
  apply filePut_ok in H as (data & _ & E); [|done]. rewrite E at 1. rewrite lookup_insert_eq, Ht, decide_False by done. by rewrite Hg.
Qed.
Next Obligation. intros b s Hb. unfold Put. simpl. unfold filePut. by rewrite decide_True. Qed.
End FileLaws.

(** The storage after a sequence of uploads, if all of them succeed. *)
Fixpoint putAll {T} `{Storage T} (bs : list Bundle) (s : T) : option T :=
  match bs with
  | [] => Some s
  | b :: bs => match Put b s with (s, None) => putAll bs s | (_, Some _) => None end
  end.

(** Insert and look up: after any sequence of successful uploads, a storage
    returns for a version the last bundle uploaded under it, for any other
    version what it returned before, and as the latest bundle the last one.
    Proved against the interface, so it holds of memory and of files. *)
Theorem storage_keeps_uploads {T} `{StorageLaws T} (bs : list Bundle) (s s' : T) v :
  Forall storable bs → plain v → putAll bs s = Some s' →
  Get v s' = match last (filter (λ b, version b = v) bs) with Some b => Some b | None => Get v s end ∧
  Latest s' = match last bs with Some b => Some b | None => Latest s end.
Proof.
  intros Hbs Hv. revert s. induction Hbs as [|b bs Hb Hbs IH]; intros s E; simpl in E; [by simplify_eq|].
  destruct (Put b s) as [s1 [e|]] eqn:Ep; [done|]. destruct (IH s1 E) as [IH1 IH2].
  rewrite IH1, IH2, (Put_Get b v s s1 Hb Hv Ep), (Put_Latest b s s1 Hb Ep), filter_cons, last_cons. split.
  - clear IH IH1. destruct (decide (version b = v)) as [E1|E1].
    + rewrite last_cons. rewrite (decide_True (P := v = version b)) by done. by destruct (last (filter _ _)).
    + by rewrite (decide_False (P := v = version b)) by congruence.
  - by destruct (last bs).
Qed.

(** The versions a memory storage knows, in the order they first arrived. *)
Definition memory_ok (m : MemoryStorage) : Prop :=
  NoDup (order m) ∧ (∀ v, v ∈ order m ↔ is_Some (bundles m !! v)) ∧ (∀ v b, bundles m !! v = Some b → version b = v ∧ v ≠ "").
Lemma memoryPut_ok b m : memory_ok m → memory_ok (memoryPut b m).1.
Proof.
  intros (H1 & H2 & H3). unfold memoryPut. case_decide as E; [done|]. simpl.
  destruct (bundles m !! version b) as [c|] eqn:Eb; (split_and!; simpl; [..|intros v d [[<- <-]|[_ ?]]%lookup_insert_Some; [done|by apply H3]]).
  - done.
  - intros v. rewrite H2, lookup_insert_is_Some. split; [|intros [<-|[_ ?]]; by eauto]. destruct (decide (version b = v)); auto.
  - apply NoDup_app. split_and!; [done| |apply NoDup_singleton]. intros v Hv ->%list_elem_of_singleton. apply H2 in Hv. rewrite Eb in Hv. by destruct Hv.
  - intros v. rewrite elem_of_app, list_elem_of_singleton, H2, lookup_insert_is_Some. destruct (decide (version b = v)); naive_solver.
Qed.
Lemma collect_spec bs limit versions :
  (∀ v, v ∈ versions → is_Some (bs !! v)) → collect bs limit versions = take limit (omap (λ v, BundleMeta <$> bs !! v) versions).
Proof.
  revert limit. induction versions as [|v versions IH]; intros [|limit] H; try done.
  destruct (H v) as [b Hb]; [left|]. simpl. rewrite Hb. simpl. f_equal. apply IH. intros w Hw. apply H. by right.
Qed.

(** A memory storage lists its versions once each, newest first by first
    upload, with the metadata of their last upload, cut at the limit (20 by
    default), after any sequence of uploads. *)
Theorem memory_list_recent (bs : list Bundle) limit :
  let m := foldl (λ m b, (memoryPut b m).1) NewMemoryStorage bs in
  let limit' := Z.to_nat (if limit <=? 0 then 20 else limit) in
  memory_ok m ∧ memoryList limit m = take limit' (omap (λ v, BundleMeta <$> bundles m !! v) (rev (order m))) ∧
  Version <$> memoryList limit m = take limit' (rev (order m)).
Proof.
  intros m limit'. assert (memory_ok m) as Hm.
  { unfold m. rewrite <- (rev_involutive bs). generalize (rev bs) as l. induction l as [|b l IH]; simpl.
    - split_and!; [apply NoDup_nil_2|intros v; simpl; rewrite lookup_empty, elem_of_nil; split; [done|by intros [? [=]]]|].
      intros v b. simpl. by rewrite lookup_empty.
    - rewrite foldl_app. by apply memoryPut_ok. }
  destruct Hm as (H1 & H2 & H3) eqn:Em. clear Em.
  assert (∀ v, v ∈ rev (order m) → is_Some (bundles m !! v)) as Hr by (intros v; rewrite <- (Permutation_rev (order m)); apply H2).
  unfold memoryList. rewrite collect_spec by done. split_and!; [done..|]. rewrite fmap_take. f_equal.
  revert Hr. generalize (rev (order m)) as l. induction l as [|v l IH]; intros Hr; [done|].
  destruct (Hr v) as [b Hb]; [left|]. simpl. rewrite Hb. simpl. destruct (H3 v b Hb) as [<- _]. f_equal. apply IH.
  intros w Hw. apply Hr. by right.
Qed.

(** ** A signer, its key pair and two storages *)

Definition demo_hash (s : string) : list ascii := take 32 (chars s ++ replicate 32 "0"%char).
Definition demo_marshal (m : Meta) : result string := Ok (Version m ++ "|" ++ Source m ++ "|" ++ Notes m)%string.
Definition demo_public : string := "0123456789abcdef0123456789abcdef".
Definition demo_private : string := (demo_public ++ demo_public)%string.
Definition demo_Sign (_ msg : string) : string := ("signed:" ++ msg)%string.
Definition demo_Verify (_ msg sig : string) : bool := bool_decide (sig = "signed:" ++ msg)%string.
Definition demo_meta (v : string) : Meta := mkMeta v "" "ci" "".
Definition demo_bundle (v raw : string) : Bundle :=
  match NewSignedBundle demo_hash demo_marshal demo_Sign "now" raw (demo_meta v) demo_private with Ok b => b | Err _ => emptyBundle end.

Lemma bundle_sign_verify_witness :
  NewSignedBundle demo_hash demo_marshal demo_Sign "now" "config" (demo_meta "v1") demo_private = Ok (demo_bundle "v1" "config") ∧
  VerifyBundle demo_hash demo_marshal demo_Verify (demo_bundle "v1" "config") demo_public = None ∧
  ConfigBytes (demo_bundle "v1" "config") = Some "config".
Proof.
  assert (NewSignedBundle demo_hash demo_marshal demo_Sign "now" "config" (demo_meta "v1") demo_private = Ok (demo_bundle "v1" "config"))
    as E by reflexivity. split; [exact E|].
  destruct (bundle_sign_verify demo_hash demo_marshal demo_Sign demo_Verify "now" "config" (demo_meta "v1") demo_private demo_public _
    (λ msg, bool_decide_eq_true_2 _ eq_refl) eq_refl E) as (H1 & H2 & _). by split.
Defined.

Lemma bundle_verified_authentic_witness :
  ∃ m raw mb raw' mb',
    (m, raw) ∈ [(BundleMeta (demo_bundle "v1" "config"), "config")] ∧ demo_marshal m = Ok mb ∧
    ConfigBytes (demo_bundle "v1" "config") = Some raw' ∧ demo_marshal (BundleMeta (demo_bundle "v1" "config")) = Ok mb' ∧
    ((raw' = raw ∧ mb' = mb) ∨ collides demo_hash raw' raw ∨
     collides demo_hash (mb' ++ unchars (demo_hash raw')) (mb ++ unchars (demo_hash raw))).
Proof.
  apply (bundle_verified_authentic demo_hash demo_marshal
    (λ _ msg sig, match signed_message demo_hash demo_marshal (BundleMeta (demo_bundle "v1" "config")) "config" with
                  | Ok m => bool_decide (msg = m ∧ sig = "signed:" ++ m)%string | Err _ => false end)
    _ (demo_bundle "v1" "config") demo_public).
  - intros x. unfold demo_hash. rewrite length_take, length_app, length_replicate. lia.
  - intros msg sig H. do 2 eexists. split; [by apply list_elem_of_singleton|].
    destruct (signed_message _ _ _ _) as [m|]; [|done]. by apply bool_decide_eq_true in H as [-> _].
  - vm_compute. reflexivity.
Defined.

Lemma storage_keeps_uploads_witness :
  (∃ m, putAll [demo_bundle "v1" "a"; demo_bundle "v2" "b"; demo_bundle "v1" "c"] NewMemoryStorage = Some m ∧
     Get "v1" m = Some (demo_bundle "v1" "c") ∧ Get "v2" m = Some (demo_bundle "v2" "b")) ∧
  let fs := file_storage "/b" (λ _, Ok "json") (λ _, Ok (demo_bundle "v1" "a")) (λ _, None) (λ _ l, l) (λ _, true) in
  ∃ m : Files, putAll [demo_bundle "v1" "a"] ∅ = Some m ∧ Get "v1" m = Some (demo_bundle "v1" "a") ∧ Latest m = Some (demo_bundle "v1" "a").
Proof.
  split.
  - eexists. split; [vm_compute; reflexivity|].
    split; refine (proj1 (storage_keeps_uploads [demo_bundle "v1" "a"; demo_bundle "v2" "b"; demo_bundle "v1" "c"] NewMemoryStorage _ _ _ _ _));
      by repeat constructor.
  - intros fs. eexists. split; [reflexivity|].
    refine (@storage_keeps_uploads Files fs (file_laws "/b" _ _ _ _ _ ltac:(done)) [demo_bundle "v1" "a"] ∅ _ "v1" _ _ _);
      [|done..]. repeat constructor; [done..|]. by exists "json".
Defined.
