(* ===== verification/Rollout.v ===== *)
(** * Rolling out a bundle (internal/rollout)

    A bundle is validated, then installed "locked" (plugins off, no canary),
    then, after a bake time, the error rate is checked and the full
    configuration is installed; a failed check or a failed full stage goes
    back to the snapshot that was current before.

    The rollout manager and the apply manager share the snapshot store, and
    the metrics it is given are the process's default metrics, as cmd/proxy
    wires them.  What happens during the bake time is the argument
    [bake], any change of the shared state. *)
From S2P Require Import Prelude.
From S2P Require Import GoStrings.
From S2P Require Import GoFloat.
From S2P Require Import GoError.
From S2P Require Import CacheKey.
From S2P Require Import TrafficSplit.
From S2P Require Import TrafficPlan.
From S2P Require Import Plugin.
From S2P Require Import Config.
From S2P Require Import Limits.
From S2P Require Import TLSStore.
From S2P Require Import Registry.
From S2P Require Import Router.
From S2P Require Import Snapshot.
From S2P Require Import Store.
From S2P Require Import Provider.
From S2P Require Import Apply.
From S2P Require Import Rolling.
From S2P Require Import Metrics.
From S2P Require Import Bundle.

(** ** gates.go *)

Record Gates := mkGates { ErrorRateWindow : Duration; ErrorRatePercent : float64 }.
Definition errorRate (total errorsCount : Z) : float64 :=
  f64_mul (f64_div (f64_of_Z errorsCount) (f64_of_Z total)) (f64_of_Z 100).
(** [Some rate] is [ErrGateFailed] with the rate; no metrics, no gate. *)
Definition Check (now : Time) (g : Gates) (metrics : option Metrics) : option float64 :=
  match metrics with
  | None => None
  | Some m =>
      let window := if ErrorRateWindow g <=? 0 then 10 * Second else ErrorRateWindow g in
      let percent := if f64_le (ErrorRatePercent g) f64_zero then f64_of_Z 1 else ErrorRatePercent g in
      let '(total, errorsCount) := Rolling5xx now window m in
      if total =? 0 then None
      else let rate := errorRate total errorsCount in
           if f64_gt rate percent then Some rate else None
  end.

(** ** rollout.go: the locked configuration *)

Definition maskRoute (route : Config.Route) : Config.Route :=
  let p := route_Policy route in
  let t := rp_Traffic p in
  let t := if tc_Enabled t
           then t <| tc_CanaryWeight := 0 |> <| tc_StableWeight ::= (λ w, if w =? 0 then 100 else w) |> else t in
  route <| route_Policy := p <| rp_Plugins := mkPluginConfig false SliceNil |> <| rp_Traffic := t |> |>.
Definition maskLockedConfig (cfg : Config.Config) : Config.Config := cfg <| Config.Routes ::= fmap maskRoute |>.

Section Lock.
Context (Unmarshal : string → result Config.Config) (Marshal : Config.Config → result string).
Definition lockConfigBytes (raw : string) : result string := let? cfg := Unmarshal raw in Marshal (maskLockedConfig cfg).
End Lock.

(** ** The manager *)

Record Manager := mkManager {
  apply : Apply.Manager;
  hasStore : bool;
  metered : bool;   (** it was given the default metrics *)
  lockedBake : Duration;
  gates : Gates
}.
#[export] Instance Manager_eta : Eta Manager := fun m => mkManager (apply m) (hasStore m) (metered m) (lockedBake m) (gates m).

Definition NewManager (a : Apply.Manager) (withStore withMetrics : bool) (bake window : Duration) (percent : float64) : Manager :=
  mkManager a withStore withMetrics (or_default bake Minute) (mkGates window percent).

Definition metrics (m : Manager) : option Metrics := if metered m then defaultMetrics (deps (apply m)) else None.
Definition report (f : Metrics → Metrics) (m : Manager) : Manager := m <| apply ::= onMetrics (if metered m then f else id) |>.

Definition recordStage (stage result : string) (m : Manager) : Manager := report (RecordRolloutStage stage result) m.
Definition rollback (previous : option nat) (now : Time) (m : Manager) : Manager :=
  match previous with
  | Some p =>
      if hasStore m then report (RecordRollback "success") (m <| apply ::= (λ a, a <| store ::= (λ s, Store.Swap s p now) |>) |>)
      else m
  | None => m
  end.

Inductive rolloutError :=
| ErrDecode
| ErrEncode (e : string)
| ErrApply (e : applyError)
| ErrCtx (e : error)
| ErrGateFailed (rate : float64).

(** What one rollout meets: the environment of each stage, the end of its
    context during the bake time, the time of the gate and of a rollback. *)
Record RolloutEnv := mkRolloutEnv {
  envValidate : ApplyEnv;
  envLocked : ApplyEnv;
  envFull : ApplyEnv;
  bake : Manager → Manager;
  bakeEnded : option error;
  gateAt : Time;
  rollbackAt : Time
}.

Section Rollout.
Context (ParseJSON : string → result Config.Config) (Marshal : Config.Config → result string).
Context (ReadFile : string → result string) (Getenv : string → string) (sha256 : string → list ascii).
Context (LoadX509KeyPair : string → string → result Certificate) (AppendCertsFromPEM : string → bool) (suites : gmap string Z).

Abbreviation applyVersion := (ApplyResolvedVersion ParseJSON ReadFile Getenv sha256 LoadX509KeyPair AppendCertsFromPEM suites).

Definition applyStage (env : ApplyEnv) (raw source version : string) (mode : Mode) (m : Manager)
    : Manager * (applyError + Apply.Result) :=
  let '(a, r) := applyVersion env raw source version mode (apply m) in (m <| apply := a |>, r).

(** After the locked stage: bake, check, install. *)
Definition finish (env : RolloutEnv) (raw source version : string) (previous : option nat) (m : Manager)
    : Manager * (rolloutError + Apply.Result) :=
  let bakes := 0 <? lockedBake m in
  let m := if bakes then bake env m else m in
  match (if bakes then bakeEnded env else None) with
  | Some e => (m, inl (ErrCtx e))
  | None =>
      match Check (gateAt env) (gates m) (metrics m) with
      | Some rate => (rollback previous (rollbackAt env) (recordStage "locked" "gated" m), inl (ErrGateFailed rate))
      | None =>
          match applyStage (envFull env) raw source version ModeApply m with
          | (m, inl e) => (rollback previous (rollbackAt env) (recordStage "full" "error" m), inl (ErrApply e))
          | (m, inr r) => (recordStage "full" "success" m, inr r)
          end
      end
  end.

Definition ApplyBundle (env : RolloutEnv) (b : Bundle) (sourceOverride : string) (m : Manager)
    : Manager * (rolloutError + Apply.Result) :=
  match ConfigBytes b with
  | None => (m, inl ErrDecode)
  | Some raw =>
      let source := if decide (sourceOverride = "") then Bundle.Source (BundleMeta b) else sourceOverride in
      let version := Bundle.version b in
      let previous := if hasStore m then Store.Get (store (apply m)) else None in
      match applyStage (envValidate env) raw source version ModeValidate m with
      | (m, inl e) => (recordStage "validate" "error" m, inl (ErrApply e))
      | (m, inr _) =>
          let m := recordStage "validate" "success" m in
          match lockConfigBytes ParseJSON Marshal raw with
          | Err e => (recordStage "locked" "error" m, inl (ErrEncode e))
          | Ok locked =>
              match applyStage (envLocked env) locked source version ModeApply m with
              | (m, inl e) => (recordStage "locked" "error" m, inl (ErrApply e))
              | (m, inr _) => finish env raw source version previous (recordStage "locked" "success" m)
              end
          end
      end
  end.
End Rollout.

(** ** The locked configuration is inert *)

Lemma mask_canary_zero routeID t tc stable canary :
  tc_Enabled t = true → tc_CanaryWeight t = 0 → trafficConfigFromRoute routeID t = Ok (tc, stable, canary) →
  TrafficPlan.cfg_CanaryWeight tc = 0.
Proof.
  intros He Hc. unfold trafficConfigFromRoute. rewrite He, Hc. simpl. repeat (case_match; try done).
  all: intros; by simplify_eq.
Qed.
Lemma plan_without_canary tc plan :
  TrafficPlan.cfg_CanaryWeight tc = 0 → buildPlan tc = Ok (Some plan) → CanaryWeight (plan_split plan) = 0.
Proof.
  intros Hc. unfold buildPlan. destruct (negb (TrafficPlan.Enabled tc)); [done|]. rewrite result_bind_Ok.
  intros (cohort & _ & [= <-]). done.
Qed.
Lemma PickVariant_no_canary plan req now seed :
  CanaryWeight (plan_split plan) = 0 → 0 < seed < 2 ^ 64 → ∃ seed' meta, PickVariant plan req now seed = Some (seed', VariantStable, meta).
Proof.
  intros Hc Hseed. unfold PickVariant.
  assert (∃ w, (if match plan_autodrain plan with None => false | Some a => Active a now end
    then mkSplit (StableWeight (plan_split plan)) 0 else plan_split plan) = mkSplit w 0) as [w ->].
  { destruct (plan_split plan) as [w c]. simpl in *. subst c. exists w. by case_match. }
  destruct (Extract _ _) as [key|]; [unfold ChooseDeterministic; rewrite choose_no_canary; eauto|].
  unfold ChooseRandom. destruct (nextRand_never_stuck seed Hseed) as (x & -> & _). rewrite choose_no_canary. eauto.
Qed.

(** C28. The locked stage is inert: in the configuration it installs no route runs
    a plugin filter, and every traffic plan built for a route sends every
    request to the stable pool; nothing but plugins and weights differs from
    the full configuration. *)
Theorem rollout_locked_inert cfg i r :
  Config.Routes (maskLockedConfig cfg) !! i = Some r →
  pluginPolicyFromConfig (route_ID r) (rp_Plugins (route_Policy r)) ∅ = Ok (Plugin.mkPolicy false [], ∅) ∧
  (∀ tc stable canary plan, trafficConfigFromRoute (route_ID r) (rp_Traffic (route_Policy r)) = Ok (tc, stable, canary) →
     buildPlan tc = Ok (Some plan) → ∀ req now seed, 0 < seed < 2 ^ 64 →
     ∃ seed' meta, PickVariant plan req now seed = Some (seed', VariantStable, meta)) ∧
  (∃ r0, Config.Routes cfg !! i = Some r0 ∧
     r = r0 <| route_Policy ::= (λ p, p <| rp_Plugins := rp_Plugins (route_Policy r) |> <| rp_Traffic ::= (λ t,
           t <| tc_StableWeight := tc_StableWeight (rp_Traffic (route_Policy r)) |> <| tc_CanaryWeight := tc_CanaryWeight (rp_Traffic (route_Policy r)) |>) |>) |>) ∧
  maskLockedConfig cfg = cfg <| Config.Routes := Config.Routes (maskLockedConfig cfg) |>.
Proof.
  unfold maskLockedConfig. simpl. rewrite list_lookup_fmap. intros (r0 & Hr0 & ->)%fmap_Some. split_and!; [done| | |done].
  - intros tc stable canary plan Ht Hp req now seed Hseed. apply PickVariant_no_canary; [|done].
    apply (plan_without_canary tc); [|done]. simpl in Ht. destruct (tc_Enabled (rp_Traffic (route_Policy r0))) eqn:He.
    + by eapply mask_canary_zero in Ht.
    + unfold trafficConfigFromRoute in Ht. rewrite He in Ht. injection Ht as <- _ _. done.
  - exists r0. split; [done|]. destruct r0 as [? ? ? ? ? [? ? ? ? ? ? ? ? ? [] ?] ?]. unfold maskRoute. simpl. by case_match.
Qed.

(** ** How a rollout can end *)

Definition current_of (m : Manager) : option nat := Store.current (store (apply m)).
(** The current snapshot exists. *)
Definition served (m : Manager) : Prop := ∀ p, current_of m = Some p → is_Some (heap (store (apply m)) !! p).

Section Guarantees.
Context (ParseJSON : string → result Config.Config) (Marshal : Config.Config → result string).
Context (ReadFile : string → result string) (Getenv : string → string) (sha256 : string → list ascii).
Context (LoadX509KeyPair : string → string → result Certificate) (AppendCertsFromPEM : string → bool) (suites : gmap string Z).
Abbreviation stage := (applyStage ParseJSON ReadFile Getenv sha256 LoadX509KeyPair AppendCertsFromPEM suites).
Abbreviation roll := (ApplyBundle ParseJSON Marshal ReadFile Getenv sha256 LoadX509KeyPair AppendCertsFromPEM suites).
Abbreviation finishing := (finish ParseJSON ReadFile Getenv sha256 LoadX509KeyPair AppendCertsFromPEM suites).

Lemma applyStage_frame env raw source version mode m m' r :
  stage env raw source version mode m = (m', r) →
  hasStore m' = hasStore m ∧ lockedBake m' = lockedBake m ∧ harmless mode (apply m) (apply m') r.
Proof.
  unfold applyStage. destruct (ApplyResolvedVersion _ _ _ _ _ _ _ _ _ _ _ _ _) as [a x] eqn:E. intros [= <- <-].
  split_and!; [done..|]. by eapply applyResolved_harmless.
Qed.
Lemma applyStage_validate_current env raw source version m m' r :
  stage env raw source version ModeValidate m = (m', r) → store (apply m') = store (apply m).
Proof. intros (_ & _ & H & _)%applyStage_frame. by apply H; right. Qed.
Lemma applyStage_failed_current env raw source version mode m m' e :
  stage env raw source version mode m = (m', inl e) → store (apply m') = store (apply m).
Proof. intros (_ & _ & H & _)%applyStage_frame. by apply H; left; eexists. Qed.

(** [s] is what [BuildSnapshot] makes of [cfg], under this version and source,
    and [g] the pool registry after the build. *)
Definition compiled_from (env : ApplyEnv) (cfg : Config.Config) (version source : string) (s : Snapshot) (g : Registry) : Prop :=
  ∃ d d' s0, BuildSnapshot LoadX509KeyPair ReadFile AppendCertsFromPEM suites (clk env) (visitBuild env cfg) cfg d = (d', Ok s0) ∧
    s = withOrigin s0 version source ∧ g = reg d'.
Lemma applyStage_compiles env raw source version m m' r cfg :
  stage env raw source version ModeApply m = (m', inr r) → ParseJSON raw = Ok cfg →
  compiled_from env cfg (if decide (version = "") then configVersion sha256 raw else version) source (res_Snapshot r) (reg (deps (apply m'))).
Proof.
  unfold applyStage. destruct (ApplyResolvedVersion _ _ _ _ _ _ _ _ _ _ _ _ _) as [a x] eqn:E. intros [= <- ->] Hp.
  apply applyResolved_success in E as (cfg' & s & d & Hp' & _ & _ & Hv & Hsn & Hb & ->). rewrite Hp in Hp'. injection Hp' as <-.
  cbn [onDeps] in Hb. apply build_ok in Hb as (_ & _ & Hb). exists (deps (apply m)), d, s. split_and!; [done|by rewrite Hsn, Hv|done].
Qed.

(** A stage that succeeds puts the snapshot it returns in service, under the
    version of the bundle. *)
Lemma applyStage_installs env raw source version m m' r :
  served m → stage env raw source version ModeApply m = (m', inr r) →
  ∃ cfg q, ParseJSON raw = Ok cfg ∧ res_Config r = cfg ∧ current_of m' = Some q ∧ heap (store (apply m')) !! q = Some (res_Snapshot r) ∧
    heap (store (apply m)) !! q = None ∧
    Snapshot.Version (res_Snapshot r) = (if decide (version = "") then configVersion sha256 raw else version) ∧
    Snapshot.Source (res_Snapshot r) = source.
Proof.
  intros Hs. unfold applyStage. destruct (ApplyResolvedVersion _ _ _ _ _ _ _ _ _ _ _ _ _) as [a x] eqn:E. intros [= <- ->].
  apply applyResolved_success in E as (cfg & s & d & Hp & _ & Hc & Hv & Hsn & _ & ->).
  pose (a1 := (apply m) <| deps := d |>).
  destruct (install_spec env (res_Snapshot r) a1 Hs) as (q & H1 & H2 & H3).
  exists cfg, q. split_and!; [done..| |]; rewrite Hsn; [by rewrite <- Hv|done].
Qed.

(** A rollout that succeeds returns the bundle's own configuration. *)
Lemma applyStage_config env raw source version mode m m' r :
  stage env raw source version mode m = (m', inr r) → ParseJSON raw = Ok (res_Config r).
Proof.
  unfold applyStage. destruct (ApplyResolvedVersion _ _ _ _ _ _ _ _ _ _ _ _ _) as [a x] eqn:E. intros [= <- ->].
  by apply applyResolved_success in E as (cfg & s & d & Hp & _ & -> & _).
Qed.
Lemma roll_config env b sourceOverride m m' r :
  roll env b sourceOverride m = (m', inr r) → ∃ raw, ConfigBytes b = Some raw ∧ ParseJSON raw = Ok (res_Config r).
Proof.
  unfold ApplyBundle. destruct (ConfigBytes b) as [raw|]; [|done]. cbv zeta. intros H. exists raw. split; [done|].
  destruct (stage _ raw _ _ ModeValidate m) as [m1 [e|r1]]; [done|]. destruct (lockConfigBytes _ _ raw) as [locked|]; [|done].
  destruct (stage _ locked _ _ ModeApply _) as [m2 [e|r2]]; [done|]. unfold finish in H. cbv zeta in H.
  destruct (if 0 <? _ then bakeEnded env else None); [done|]. destruct (Check _ _ _); [done|].
  destruct (stage (envFull env) raw _ _ ModeApply _) as [m3 [e|r3]] eqn:E; [done|]. injection H as _ ->. by eapply applyStage_config.
Qed.

Lemma rollback_current p now m : hasStore m = true → current_of (rollback (Some p) now m) = Some p.
Proof. intros H. unfold rollback. by rewrite H. Qed.

Lemma finish_outcome env raw source version p m :
  hasStore m = true → (∀ m, hasStore (bake env m) = hasStore m) → (∀ m, served m → served (bake env m)) → served m →
  match finishing env raw source version (Some p) m with
  | (m', inr r) => ∃ cfg q, ParseJSON raw = Ok cfg ∧ res_Config r = cfg ∧ current_of m' = Some q ∧
      heap (store (apply m')) !! q = Some (res_Snapshot r) ∧
      compiled_from (envFull env) cfg (if decide (version = "") then configVersion sha256 raw else version) source
        (res_Snapshot r) (reg (deps (apply m')))
  | (m', inl (ErrCtx e)) => bakeEnded env = Some e ∧ 0 < lockedBake m ∧ m' = bake env m
  | (m', inl _) => current_of m' = Some p
  end.
Proof.
  intros Hst Hb1 Hb2 Hs. unfold finish. set (m1 := if 0 <? lockedBake m then bake env m else m).
  assert (hasStore m1 = true) as Hst1 by (unfold m1; case_match; by rewrite ?Hb1).
  assert (served m1) as Hs1 by (unfold m1; case_match; auto). cbv zeta.
  destruct (if 0 <? lockedBake m then bakeEnded env else None) as [e|] eqn:He.
  { destruct (Z.ltb_spec 0 (lockedBake m)); [|done]. split_and!; [done|lia|done]. }
  destruct (Check _ _ _) as [rate|]; [by apply rollback_current|].
  destruct (stage (envFull env) raw source version ModeApply m1) as [m2 [e|r]] eqn:Ef.
  - apply applyStage_frame in Ef as (Hh & _). apply rollback_current. unfold recordStage. simpl. by rewrite Hh.
  - destruct (applyStage_installs _ _ _ _ _ _ _ Hs1 Ef) as (cfg & q & H1 & H2 & H3 & H4 & _).
    exists cfg, q. split_and!; [done..|]. exact (applyStage_compiles _ _ _ _ _ _ _ _ Ef H1).
Qed.

(** C19. A rollout ends in one of three ways.  It succeeds, and the snapshot in
    service is the one [BuildSnapshot] makes of the full configuration of the
    bundle, under the bundle's version and source, with the pool registry
    as that build left it; it
    fails, and the snapshot that was in service before is the current one
    again (or still); or its context ends during the bake time, and it is
    left as the bake time left it. *)
Theorem rollout_outcomes env b sourceOverride m p :
  hasStore m = true → current_of m = Some p → served m →
  (∀ m, hasStore (bake env m) = hasStore m) → (∀ m, served m → served (bake env m)) →
  match roll env b sourceOverride m with
  | (m', inr r) => ∃ raw cfg q, ConfigBytes b = Some raw ∧ ParseJSON raw = Ok cfg ∧ res_Config r = cfg ∧
      current_of m' = Some q ∧ heap (store (apply m')) !! q = Some (res_Snapshot r) ∧
      compiled_from (envFull env) cfg (if decide (Bundle.version b = "") then configVersion sha256 raw else Bundle.version b)
        (if decide (sourceOverride = "") then Bundle.Source (BundleMeta b) else sourceOverride)
        (res_Snapshot r) (reg (deps (apply m')))
  | (m', inl (ErrCtx e)) => bakeEnded env = Some e ∧ 0 < lockedBake m
  | (m', inl _) => current_of m' = Some p
  end.
Proof.
  intros Hst Hp Hs Hb1 Hb2. unfold ApplyBundle. destruct (ConfigBytes b) as [raw|]; [|done]. cbv zeta. rewrite Hst. unfold Store.Get.
  change (Store.current (store (apply m))) with (current_of m). rewrite Hp.
  destruct (stage (envValidate env) raw _ _ ModeValidate m) as [m1 [e|r1]] eqn:E1;
    pose proof (applyStage_validate_current _ _ _ _ _ _ _ E1) as Hc1; apply applyStage_frame in E1 as (Hh1 & Hl1 & _).
  { unfold current_of, recordStage. simpl. rewrite Hc1. exact Hp. }
  destruct (lockConfigBytes _ _ raw) as [locked|e]; [|unfold current_of, recordStage; simpl; rewrite Hc1; exact Hp].
  destruct (stage (envLocked env) locked _ _ ModeApply _) as [m2 [e|r2]] eqn:E2.
  { apply applyStage_failed_current in E2. unfold current_of, recordStage. simpl. rewrite E2. simpl. rewrite Hc1. exact Hp. }
  assert (served m2) as Hs2.
  { intros q Hq. eapply applyStage_installs in E2 as (? & q' & _ & _ & Hq' & Hh' & _); [rewrite Hq in Hq'; injection Hq' as ->; by eexists|].
    unfold served, current_of, recordStage. simpl. rewrite Hc1. exact Hs. }
  apply applyStage_frame in E2 as (Hh2 & Hl2 & _). simpl in Hh2, Hl2.
  pose proof (finish_outcome env raw (if decide (sourceOverride = "") then Bundle.Source (BundleMeta b) else sourceOverride)
    (Bundle.version b) p (recordStage "locked" "success" m2)) as Hf.
  destruct (finishing _ _ _ _ _ _) as [m' [e|r]].
  - specialize (Hf ltac:(simpl; congruence) Hb1 Hb2 Hs2). destruct e; try done. destruct Hf as (? & Hl & _). simpl in Hl. split; [done|]. congruence.
  - destruct Hf as (cfg & q & ? & ? & ? & ? & ?); [simpl; congruence|done..|]. by exists raw, cfg, q.
Qed.

(** ** What a rollout that stops half-way leaves behind *)

(** The bake time of an undisturbed rollout: the store stays as it is. *)
Definition quiet (env : RolloutEnv) : Prop :=
  ∀ m, store (apply (bake env m)) = store (apply m) ∧ hasStore (bake env m) = hasStore m.
Lemma finish_interrupted env raw source version previous m m' e :
  quiet env → finishing env raw source version previous m = (m', inl (ErrCtx e)) →
  store (apply m') = store (apply m) ∧ hasStore m' = hasStore m.
Proof.
  intros Hbake. unfold finish. cbv zeta. set (m1 := if 0 <? lockedBake m then bake env m else m).
  assert (store (apply m1) = store (apply m) ∧ hasStore m1 = hasStore m) as Hs by (unfold m1; destruct (0 <? _); [apply Hbake|done]).
  destruct (if 0 <? lockedBake m then bakeEnded env else None); [by intros [= <- _]|]. destruct (Check _ _ _); [done|].
  by destruct (stage _ _ _ _ _ _) as [? [?|?]].
Qed.
(** During the bake time the pool registry goes on following whatever
    configuration it follows: requests pick, count and report, health checks
    and the reaper run, but no configuration is applied. *)
Definition follows_on (env : RolloutEnv) : Prop :=
  ∀ m c, registry_ok (reg (deps (apply m))) c → registry_ok (reg (deps (apply (bake env m)))) c.
Lemma finish_gated env raw source version p m m' rate c :
  hasStore m = true → (∀ m, hasStore (bake env m) = hasStore m) → follows_on env → registry_ok (reg (deps (apply m))) c →
  finishing env raw source version (Some p) m = (m', inl (ErrGateFailed rate)) →
  current_of m' = Some p ∧ registry_ok (reg (deps (apply m'))) c.
Proof.
  intros Hst Hb1 Hb2 Hc. unfold finish. cbv zeta. set (m1 := if 0 <? lockedBake m then bake env m else m).
  assert (hasStore m1 = true ∧ registry_ok (reg (deps (apply m1))) c) as [H1 H2]
    by (unfold m1; destruct (0 <? _); [split; [by rewrite Hb1|by apply Hb2]|done]).
  destruct (if 0 <? lockedBake m then bakeEnded env else None); [done|]. destruct (Check _ _ _).
  - intros [= <- _]. by rewrite H1.
  - by destruct (stage _ _ _ _ _ _) as [? [?|?]].
Qed.

(** A rollout that got past the locked stage. *)
Lemma roll_past_locked env b sourceOverride m m' e :
  roll env b sourceOverride m = (m', inl e) → (∃ x, e = ErrCtx x) ∨ (∃ x, e = ErrGateFailed x) →
  ∃ raw cfg locked source m1 m2 r, ConfigBytes b = Some raw ∧ ParseJSON raw = Ok cfg ∧ Marshal (maskLockedConfig cfg) = Ok locked ∧
    store (apply m1) = store (apply m) ∧ reg (deps (apply m1)) = reg (deps (apply m)) ∧ hasStore m1 = hasStore m ∧
    stage (envLocked env) locked source (Bundle.version b) ModeApply m1 = (m2, inr r) ∧
    finishing env raw source (Bundle.version b) (if hasStore m then current_of m else None) (recordStage "locked" "success" m2) = (m', inl e).
Proof.
  intros H He. unfold ApplyBundle in H. destruct (ConfigBytes b) as [raw|]; [|simplify_eq; naive_solver]. cbv zeta in H.
  set (source := if decide (sourceOverride = "") then Bundle.Source (BundleMeta b) else sourceOverride) in H.
  destruct (stage (envValidate env) raw source _ ModeValidate m) as [m1 [e1|r1]] eqn:E1; [simplify_eq; naive_solver|].
  destruct (lockConfigBytes ParseJSON Marshal raw) as [locked|e2] eqn:El; [|simplify_eq; naive_solver].
  unfold lockConfigBytes in El. apply result_bind_Ok in El as (cfg & Hp & Hm).
  destruct (stage (envLocked env) locked source _ ModeApply _) as [m2 [e2|r2]] eqn:E2; [simplify_eq; naive_solver|].
  pose proof (applyStage_validate_current _ _ _ _ _ _ _ E1) as Hc1. apply applyStage_frame in E1 as (Hh1 & _ & _ & Hr1).
  exists raw, cfg, locked, source, (recordStage "validate" "success" m1), m2, r2. split_and!; try done. by apply Hr1.
Qed.

(** A rollout interrupted during the bake time leaves the locked snapshot in
    service under the version of the full bundle: the current snapshot says
    it is the bundle's version, but was built from the masked configuration. *)
Lemma rollout_interrupted_stays_locked env b sourceOverride m m' e :
  served m → quiet env → Bundle.version b ≠ "" →
  (∀ raw cfg locked, ConfigBytes b = Some raw → ParseJSON raw = Ok cfg → Marshal (maskLockedConfig cfg) = Ok locked →
     ParseJSON locked = Ok (maskLockedConfig cfg)) →
  roll env b sourceOverride m = (m', inl (ErrCtx e)) →
  ∃ raw cfg q s s0 d d', ConfigBytes b = Some raw ∧ ParseJSON raw = Ok cfg ∧ current_of m' = Some q ∧
    heap (store (apply m')) !! q = Some s ∧ Snapshot.Version s = Bundle.version b ∧
    BuildSnapshot LoadX509KeyPair ReadFile AppendCertsFromPEM suites (clk (envLocked env)) (visitBuild (envLocked env) (maskLockedConfig cfg))
      (maskLockedConfig cfg) d = (d', Ok s0) ∧ s = withOrigin s0 (Snapshot.Version s) (Snapshot.Source s) ∧ hasStore m' = hasStore m.
Proof.
  intros Hs Hbake Hv Hjson H.
  apply roll_past_locked in H as (raw & cfg & locked & source & m1 & m2 & r & Hc & Hp & Hm & Hst & _ & Hh1 & E2 & Hf); [|by left; eexists].
  assert (served m1) as Hs1 by (unfold served, current_of; rewrite Hst; exact Hs).
  destruct (applyStage_installs _ _ _ _ _ _ _ Hs1 E2) as (cfg' & q & Hp' & _ & Hq & Hh & _ & Hver & Hsrc). rewrite decide_False in Hver by done.
  apply finish_interrupted in Hf as [Hst' Hh']; [|done]. simpl in Hst', Hh'. pose proof (applyStage_frame _ _ _ _ _ _ _ _ E2) as (Hh2 & _).
  unfold applyStage in E2. destruct (ApplyResolvedVersion _ _ _ _ _ _ _ _ _ _ _ _ _) as [a x] eqn:E. simplify_eq.
  apply applyResolved_success in E as (cfg2 & s0 & d & Hp2 & _ & _ & _ & Hsn & Hb & _). rewrite (Hjson _ _ _ Hc Hp Hm) in Hp2. simplify_eq.
  cbn [onDeps] in Hb. apply build_ok in Hb as (_ & _ & Hb). exists raw, cfg, q, (res_Snapshot r), s0, (deps (apply m1)), d.
  unfold current_of in *. rewrite Hst'. split_and!; try done; [by rewrite Hsn|]. simpl in Hh2, Hh', Hh1. congruence.
Qed.

(** C39. A rollback does not bring the endpoints back: when the gate stops a
    rollout, the earlier snapshot is current again, but the pool registry
    follows the bundle that was rejected, so a pool only the earlier
    configuration has can no longer be picked from.  The requests, health
    checks and reaping of the bake time may change the registry in any way
    that leaves the configured addresses alone. *)
Theorem rollout_rollback_keeps_endpoints env b sourceOverride m m' rate p c :
  served m → hasStore m = true → current_of m = Some p → registry_ok (reg (deps (apply m))) c →
  (∀ cfg, visitBuild (envLocked env) cfg ≡ₚ map_to_list (Config.Pools cfg)) →
  (∀ m, hasStore (bake env m) = hasStore m) → follows_on env →
  (∀ raw cfg locked, ConfigBytes b = Some raw → ParseJSON raw = Ok cfg → Marshal (maskLockedConfig cfg) = Ok locked →
     ParseJSON locked = Ok (maskLockedConfig cfg)) →
  roll env b sourceOverride m = (m', inl (ErrGateFailed rate)) →
  ∃ raw cfg, ConfigBytes b = Some raw ∧ ParseJSON raw = Ok cfg ∧ current_of m' = Some p ∧
    registry_ok (reg (deps (apply m'))) (endpoints_of cfg) ∧
    ∀ k out mapOrder now t, Config.Pools cfg !! k = None →
      Registry.Pick (reg (deps (apply m'))) k out mapOrder now t = (reg (deps (apply m')), (emptyPick, false)).
Proof.
  intros Hs Hh Hp0 Hreg Hv Hb1 Hb2 Hjson H.
  apply roll_past_locked in H as (raw & cfg & locked & source & m1 & m2 & r & Hc & Hp & Hm & _ & Hr1 & Hh1 & E2 & Hf); [|by right; eexists].
  pose proof (applyStage_frame _ _ _ _ _ _ _ _ E2) as (Hh2 & _). rewrite Hh, Hp0 in Hf.
  unfold applyStage in E2. destruct (ApplyResolvedVersion _ _ _ _ _ _ _ _ _ _ _ _ _) as [a x] eqn:E. simplify_eq.
  apply applyResolved_success in E as (cfg2 & s0 & d & Hp2 & _ & _ & _ & _ & Hb & Ha). rewrite (Hjson _ _ _ Hc Hp Hm) in Hp2. simplify_eq.
  cbn [onDeps] in Hb. apply build_ok in Hb as (_ & _ & Hb). rewrite <- Hr1 in Hreg.
  destruct (BuildSnapshot_sound _ _ _ _ _ _ _ _ _ _ _ (Hv _) Hreg Hb) as (_ & _ & _ & _ & _ & _ & _ & Hok & _).
  apply (finish_gated _ _ _ _ _ _ _ _ (endpoints_of cfg)) in Hf as [Hcur Hr']; [|simpl in *; congruence|done..].
  exists raw, cfg. split_and!; try done. intros. by eapply pick_unknown.
Qed.
End Guarantees.

(** ** A bundle with a canary, rolled out *)

Definition demo_roll_parse (raw : string) : result Config.Config :=
  if decide (raw = "full") then Ok demo_file else if decide (raw = "locked") then Ok (maskLockedConfig demo_file) else Err "bad".
Definition demo_rollout_bundle : Bundle := mkBundle (mkMeta "v7" "" "ci" "") (Codec.EncodeToString "full") "" "".
Definition demo_rollout (ms : option Metrics) : Manager :=
  NewManager (demo_manager <| deps ::= (λ d, d <| defaultMetrics := ms |>) |>) true (bool_decide (is_Some ms)) Second 0 f64_zero.
(** A rollout that is locked by 5 s, bakes for a second and is checked at 6 s. *)
Definition demo_rollout_env (ended : option error) : RolloutEnv :=
  mkRolloutEnv (demo_env None) (demo_env None) (demo_env None) (λ m, m) ended (6 * Second) (6 * Second).
(** While it bakes, a request picks an endpoint, which refuses it. *)
Definition demo_failing_bake (m : Manager) : Manager :=
  m <| apply ::= (λ a, onMetrics (ObserveRequestCanonical (5500 * Millisecond) "r" 503 0)
         (a <| deps ::= (λ d, d <| reg ::= (λ g, Registry.step (Registry.step g (Registry.EPick "p" None [] (5400 * Millisecond) (5400 * Millisecond)))
                                                   (Registry.EPassiveFailure "p" "10.0.0.1:80" (5500 * Millisecond))) |>) |>)) |>.
Definition demo_failing_env : RolloutEnv :=
  mkRolloutEnv (demo_env None) (demo_env None) (demo_env None) demo_failing_bake None (6 * Second) (6 * Second).
Definition demo_roll (ended : option error) (ms : option Metrics) : Manager * (rolloutError + Apply.Result) :=
  ApplyBundle demo_roll_parse (λ _, Ok "locked") (λ _, Err "") demo_getenv demo_sha (λ _ _, Err "") (λ _, false) ∅
    (demo_rollout_env ended) demo_rollout_bundle "" (demo_rollout ms).

Lemma demo_served ms : served (demo_rollout ms).
Proof. intros q [= <-]. by eexists. Qed.

Lemma rollout_locked_inert_witness :
  ∃ r, Config.Routes (maskLockedConfig demo_file) !! 0%nat = Some r ∧
    (∃ r0, Config.Routes demo_file !! 0%nat = Some r0 ∧ tc_CanaryWeight (rp_Traffic (route_Policy r0)) = 10) ∧
    pluginPolicyFromConfig (route_ID r) (rp_Plugins (route_Policy r)) ∅ = Ok (Plugin.mkPolicy false [], ∅).
Proof.
  eexists. split; [reflexivity|]. split; [by eexists|].
  exact (proj1 (rollout_locked_inert demo_file 0 _ eq_refl)).
Defined.

Lemma rollout_outcomes_witness :
  ∃ r, (demo_roll None None).2 = inr r ∧ Snapshot.Version (res_Snapshot r) = "v7".
Proof.
  pose proof (rollout_outcomes demo_roll_parse (λ _, Ok "locked") (λ _, Err "") demo_getenv demo_sha (λ _ _, Err "") (λ _, false) ∅
    (demo_rollout_env None) demo_rollout_bundle "" (demo_rollout None) 0 eq_refl eq_refl (demo_served None) (λ m, eq_refl) (λ m H, H)) as H.
  fold (demo_roll None None) in H. destruct (demo_roll None None) as [m' [e|r]] eqn:E; [exfalso; revert E; vm_compute; discriminate|].
  exists r. split; [done|]. by destruct H as (raw & cfg & q & _ & _ & _ & _ & _ & d & d' & s0 & _ & -> & _).
Defined.

Lemma demo_failing_follows : follows_on demo_failing_env.
Proof. intros m c H. exact (Registry.step_ok _ _ (Registry.EPassiveFailure _ _ _) (Registry.step_ok _ _ (Registry.EPick _ _ _ _ _) H)). Qed.
(** Before the rollout the process serves a configuration with the pool [extra]. *)
Definition demo_extra : Manager :=
  let m := demo_rollout (Some (NewMetrics (Metrics.mkMetricsConfig 0 0 0))) in
  m <| apply ::= (λ a, a <| deps ::= (λ d, d <| reg ::= (λ g, Registry.step g (Registry.reload "extra" ["10.0.0.7:80"])) |>) |>) |>.
Lemma rollout_rollback_keeps_endpoints_witness :
  (Registry.Pick (reg (deps (apply demo_extra))) "extra" None [] 0 0).2.2 = true ∧
  ∃ m' rate,
    ApplyBundle demo_roll_parse (λ _, Ok "locked") (λ _, Err "") demo_getenv demo_sha (λ _ _, Err "") (λ _, false) ∅ demo_failing_env
      demo_rollout_bundle "" demo_extra = (m', inl (ErrGateFailed rate)) ∧
    current_of m' = Some 0%nat ∧ (Registry.Pick (reg (deps (apply m'))) "extra" None [] 0 0).2.2 = false.
Proof.
  split; [vm_compute; reflexivity|].
  destruct (ApplyBundle _ _ _ _ _ _ _ _ demo_failing_env _ _ _) as [m' r] eqn:E.
  assert (r = inl (ErrGateFailed (f64_of_Z 100))) as -> by (change r with (m', r).2; rewrite <- E; vm_compute; reflexivity).
  pose proof E as H. eapply rollout_rollback_keeps_endpoints in H as (raw & cfg & Hc & Hp & Hcur & _ & Hpick);
    [|exact (demo_served (Some (NewMetrics (Metrics.mkMetricsConfig 0 0 0))))|done|done
     |exact (Registry.step_ok _ _ (Registry.reload _ _) (new_registry_ok 0 0))|done|done|exact demo_failing_follows
     |by intros ??? [= <-] [= <-] [= <-]].
  exists m', (f64_of_Z 100). split_and!; [done..|]. rewrite Hpick; [done|]. injection Hc as <-. injection Hp as <-. vm_compute. reflexivity.
Defined.
