(* ===== verification/Validation.v ===== *)
(** * What validating a configuration is worth

    [Apply] can validate: it does all an apply does, but on registries of its
    own, and throws the result away.  Here: the outcome of a build does not
    depend on the registries it works on, so a validation says what an apply
    would do; a configuration that can be built can be built locked; and so a
    bundle that validates is rolled out, unless time, load or the gate stop
    it. *)
From S2P Require Import Prelude.
From S2P Require Import GoStrings.
From S2P Require Import GoError.
From S2P Require Import GoFloat.
From S2P Require Import TrafficSplit.
From S2P Require Import TrafficPlan.
From S2P Require Import Config.
From S2P Require Import Limits.
From S2P Require Import TLSStore.
From S2P Require Import Registry.
From S2P Require Import Plugin.
From S2P Require Import Router.
From S2P Require Import Metrics.
From S2P Require Import Snapshot.
From S2P Require Import Store.
From S2P Require Import Provider.
From S2P Require Import Apply.
From S2P Require Import Bundle.
From S2P Require Import Rollout.

Definition result_map {A B} (f : A → B) (r : result A) : result B := match r with Ok a => Ok (f a) | Err e => Err e end.

(** ** The outcome of a build, apart from addresses *)

(** The plan a route gets is an address in the traffic registry, and the
    snapshot's id is a counter of the process. *)
Definition anonymous (r : Router.Route) : Router.Route :=
  Router.mkRoute (Router.ID r) (RouteHost r) (PathPrefix r) (Router.Methods r) (PoolName r) (CanaryPoolName r) (StablePoolKey r) (CanaryPoolKey r)
    ((λ _, 0%nat) <$> Router.TrafficPlan r) (Router.RoutePolicy r).
Definition twin (s : Snapshot) : Snapshot :=
  s <| SnapshotID := 0 |> <| SnapshotRouter ::= fmap (λ r, NewRouter (anonymous <$> Router.routes r)) |>.
Definition alike (s s' : Snapshot) : Prop := twin s = twin s'.
#[export] Instance alike_equivalence : Equivalence alike.
Proof. split; [done|by intros s s'|]. intros s1 s2 s3 H1 H2. unfold alike in *. congruence. Qed.

(** *** Traffic plans *)

Definition hasPlan (p : option nat) : bool := bool_decide (is_Some p).
Definition planShape (routeID : string) (cfg : TrafficPlan.Config) : result bool :=
  if decide (routeID = "") then Err "route id is empty" else result_map (λ p, bool_decide (is_Some p)) (buildPlan cfg).
(** Every entry has the plan of its configuration. *)
Definition plans_ok (r : TrafficPlan.Registry) : Prop :=
  map_Forall (λ id e, planShape id (entry_config e) = Ok (hasPlan (entry_plan e))) (TrafficPlan.routes r).

Lemma new_plans_ok i t : plans_ok (TrafficPlan.NewRegistry i t).
Proof. apply map_Forall_empty. Qed.
Lemma sameConfig_shape id a b v : sameConfig a b = true → planShape id a = Ok v → planShape id b = Ok v.
Proof.
  unfold sameConfig, cohortSame. rewrite !andb_true_iff. intros (((((He & _) & _) & [Hc Hk]) & _) & _). apply eqb_prop in He, Hc. apply bool_decide_eq_true in Hk.
  unfold planShape, buildPlan. case_decide; [done|]. rewrite <- He, <- Hc, <- Hk. destruct (negb (TrafficPlan.Enabled a)); [done|].
  by destruct (if cohort_Enabled _ then _ else _).
Qed.
Lemma GetPlan_shape r id cfg now :
  plans_ok r → plans_ok (GetPlan r id cfg now).1 ∧ result_map hasPlan (GetPlan r id cfg now).2 = planShape id cfg.
Proof.
  intros Hok. unfold GetPlan, planShape. case_decide as Hid; [done|]. cbv zeta.
  assert (∀ r, plans_ok r → let rebuilt := match buildPlan cfg with
      | Err e => (r, Err e)
      | Ok None => (r <| TrafficPlan.routes ::= <[id := mkEntry cfg None now]> |>, Ok None)
      | Ok (Some p) => (r <| plans ::= <[nextPlan r := p]> |> <| nextPlan ::= S |> <| TrafficPlan.routes ::= <[id := mkEntry cfg (Some (nextPlan r)) now]> |>,
                        Ok (Some (nextPlan r)))
      end in plans_ok rebuilt.1 ∧ result_map hasPlan rebuilt.2 = result_map (λ p, bool_decide (is_Some p)) (buildPlan cfg)) as Hre.
  { intros r0 H0. cbv zeta. assert (∀ v, result_map (λ p, bool_decide (is_Some p)) (buildPlan cfg) = Ok v → planShape id cfg = Ok v) as Hs
      by (intros v; unfold planShape; by rewrite decide_False).
    destruct (buildPlan cfg) as [[p|]|e]; [| |done]; (split; [|done]); apply map_Forall_insert_2; try done; by apply Hs. }
  destruct (TrafficPlan.routes r !! id) as [cur|] eqn:E; [|by apply Hre].
  destruct (sameConfig (entry_config cur) cfg) eqn:Es.
  - pose proof (Hok id cur E) as Hc. split; [apply map_Forall_insert_2; done|].
    pose proof (sameConfig_shape _ _ _ _ Es Hc) as Hb. unfold planShape in Hb. rewrite decide_False in Hb by done. by rewrite Hb.
  - apply Hre. unfold stopPlan. by destruct (entry_plan cur).
Qed.

(** Nothing else that happens to the registry breaks this. *)
Lemma stopEntries_routes es r : TrafficPlan.routes (stopEntries r es) = TrafficPlan.routes r.
Proof.
  unfold stopEntries. revert r. induction es as [|[k e] es IH]; intros r; simpl; [done|]. rewrite IH. unfold stopPlan. by destruct (entry_plan e).
Qed.
Lemma reapTick_plans_ok r now : plans_ok r → plans_ok (TrafficPlan.reapTick r now).
Proof.
  intros H. unfold TrafficPlan.reapTick. destruct (TrafficPlan.stopped r); [done|]. intros k e. unfold TrafficPlan.reapOnce. simpl. rewrite stopEntries_routes.
  intros [He _]%map_lookup_filter_Some. by apply H.
Qed.
Lemma Close_plans_ok r : plans_ok r → plans_ok (TrafficPlan.Close r).
Proof. unfold plans_ok, TrafficPlan.Close. simpl. by rewrite stopEntries_routes. Qed.

(** *** Routes *)

Definition sketch (t : string * string * string * string * option nat) : string * string * string * string * bool := (t.1, hasPlan t.2).
Lemma reconcileOutlier_traffic clk cfg k n d : Snapshot.trafficReg (reconcileOutlier clk cfg k n d) = Snapshot.trafficReg d.
Proof. unfold reconcileOutlier. by repeat case_match. Qed.
Lemma routeTraffic_shape clk cfg pools route d tc stable canary :
  plans_ok (Snapshot.trafficReg d) →
  plans_ok (Snapshot.trafficReg (routeTraffic clk cfg pools route d tc stable canary).1) ∧
  result_map sketch (routeTraffic clk cfg pools route d tc stable canary).2 =
    let id := route_ID route in let key name := (id ++ "::" ++ name)%string in
    if TrafficPlan.Enabled tc then
      if decide (pools !! stable = None) then Err ("route " ++ Quote id ++ " traffic stable_pool missing pool " ++ Quote stable)
      else if decide (canary ≠ "" ∧ pools !! canary = None) then Err ("route " ++ Quote id ++ " traffic canary_pool missing pool " ++ Quote canary)
      else result_map (λ p, (stable, canary, key stable, if decide (canary = "") then "" else key canary, p)) (planShape id tc)
    else Ok (route_Pool route, canary, key (route_Pool route), "", false).
Proof.
  intros Hok. unfold routeTraffic. cbv zeta. destruct (TrafficPlan.Enabled tc); [|simpl; by rewrite reconcileOutlier_traffic].
  case_decide; [done|]. case_decide; [done|]. pose proof (GetPlan_shape (Snapshot.trafficReg d) (route_ID route) tc (planAt clk (route_ID route)) Hok) as [H1 H2].
  rewrite <- H2. destruct (GetPlan _ _ _ _) as [t [p|e]]; [|done]. cbn [fst snd]. destruct (decide (canary = "")); by rewrite ?reconcileOutlier_traffic.
Qed.

Definition blank (b : Building) : Building := mkBuilding (seenIDs b) (filterNames b) (requiresMTLS b) (anonymous <$> built b).
Lemma buildRoute_shape clk cfg pools d1 d2 b1 b2 route :
  plans_ok (Snapshot.trafficReg d1) → plans_ok (Snapshot.trafficReg d2) → blank b1 = blank b2 →
  plans_ok (Snapshot.trafficReg (buildRoute clk cfg pools d1 b1 route).1) ∧ plans_ok (Snapshot.trafficReg (buildRoute clk cfg pools d2 b2 route).1) ∧
  result_map blank (buildRoute clk cfg pools d1 b1 route).2 = result_map blank (buildRoute clk cfg pools d2 b2 route).2.
Proof.
  intros H1 H2 Hb. pose proof Hb as [= Es Ef Em Eb]. unfold buildRoute. rewrite <- Es, <- Ef, <- Em. destruct (checkRoute _ _ _); [done|].
  destruct (pluginPolicyFromConfig _ _ _) as [[ps fn]|]; [|done]. destruct (cachePolicyFromConfig _ _) as [cp|]; [|done].
  destruct (trafficConfigFromRoute _ _) as [[[tc st] ca]|]; [|done].
  destruct (routeTraffic_shape clk cfg pools route d1 tc st ca H1) as [P1 S1]. destruct (routeTraffic_shape clk cfg pools route d2 tc st ca H2) as [P2 S2].
  rewrite <- S2 in S1. clear S2. destruct (routeTraffic clk cfg pools route d1 tc st ca) as [d1' [[[[[s1 c1] k1] l1] p1]|e1]],
    (routeTraffic clk cfg pools route d2 tc st ca) as [d2' [[[[[s2 c2] k2] l2] p2]|e2]]; try done.
  - injection S1 as -> -> -> -> Hp. split_and!; [done|done|].
    assert ((λ _, 0%nat) <$> p1 = (λ _, 0%nat) <$> p2) as Hp' by (unfold hasPlan in Hp; by destruct p1, p2).
    unfold blank. simpl. rewrite !fmap_app, Eb. unfold anonymous. simpl. by rewrite Hp'.
  - injection S1 as ->. done.
Qed.
Lemma buildRoutes_shape clk cfg pools rs d1 d2 b1 b2 :
  plans_ok (Snapshot.trafficReg d1) → plans_ok (Snapshot.trafficReg d2) → blank b1 = blank b2 →
  plans_ok (Snapshot.trafficReg (buildRoutes clk cfg pools rs d1 b1).1) ∧ plans_ok (Snapshot.trafficReg (buildRoutes clk cfg pools rs d2 b2).1) ∧
  result_map blank (buildRoutes clk cfg pools rs d1 b1).2 = result_map blank (buildRoutes clk cfg pools rs d2 b2).2.
Proof.
  revert d1 d2 b1 b2. induction rs as [|r rs IH]; intros d1 d2 b1 b2 H1 H2 Hb; simpl; [by rewrite Hb|].
  destruct (buildRoute_shape clk cfg pools d1 d2 b1 b2 r H1 H2 Hb) as (P1 & P2 & S).
  destruct (buildRoute clk cfg pools d1 b1 r) as [d1' [b1'|e1]], (buildRoute clk cfg pools d2 b2 r) as [d2' [b2'|e2]]; cbn in P1, P2, S; try done.
  apply IH; [done|done|congruence].
Qed.

(** *** Snapshots *)

Lemma buildPools_result clk order d1 d2 P C :
  Snapshot.trafficReg (buildPools clk order d1 P C).1 = Snapshot.trafficReg d1 ∧ (buildPools clk order d1 P C).2 = (buildPools clk order d2 P C).2.
Proof.
  revert d1 d2 P C. induction order as [|[n p] l IH]; intros d1 d2 P C; simpl; [done|]. destruct (pool_Endpoints p); [done|].
  split; [by rewrite (proj1 (IH _ d2 _ _))|]. apply (IH _ _ _ _).
Qed.

Section Build.
Context (LoadX509KeyPair : string → string → result Certificate) (ReadFile : string → result string).
Context (AppendCertsFromPEM : string → bool) (suites : gmap string Z).
Abbreviation Build := (BuildSnapshot LoadX509KeyPair ReadFile AppendCertsFromPEM suites).

(** A build has the same outcome on all registries. *)
Lemma BuildSnapshot_independent clk order cfg d1 d2 :
  plans_ok (Snapshot.trafficReg d1) → plans_ok (Snapshot.trafficReg d2) →
  plans_ok (Snapshot.trafficReg (Build clk order cfg d1).1) ∧ result_map twin (Build clk order cfg d1).2 = result_map twin (Build clk order cfg d2).2.
Proof.
  intros H1 H2. unfold BuildSnapshot, buildSnapshot. destruct (FromConfig _); [|done].
  destruct (buildPools_result clk order d1 d2 ∅ ∅) as [T1 E]. destruct (buildPools_result clk order d2 d1 ∅ ∅) as [T2 _].
  destruct (buildPools clk order d1 ∅ ∅) as [d1' r1], (buildPools clk order d2 ∅ ∅) as [d2' r2]. simpl in T1, T2, E. subst r2.
  destruct r1 as [[P C]|e]; [|simpl; by rewrite T1]. cbv zeta.
  match goal with |- context [buildRoutes clk cfg P _ ?a ?b] =>
    match goal with |- context [buildRoutes clk cfg P _ ?a' b] => lazymatch a' with a => fail | _ =>
      destruct (buildRoutes_shape clk cfg P (Routes cfg) a a' b b) as (P1 & P2 & S); [simpl; by rewrite ?T1, ?T2..|done|] end end end.
  destruct (buildRoutes _ _ _ _ _ _) as [d3 [b3|e3]], (buildRoutes _ _ _ _ _ _) as [d4 [b4|e4]]; cbn in P1, P2, S; try done;
    [|by injection S as ->].
  injection S as _ _ Em Eb. rewrite Em. destruct (buildTLS _ _ _ _ _ _) as [[[st tl] ad]|]; [|done]. simpl.
  assert (length (built b3) = length (built b4)) as El by (apply (f_equal length) in Eb; by rewrite !length_fmap in Eb).
  split; [done|]. unfold twin, len. simpl. by rewrite Eb, El.
Qed.
End Build.

(** ** A validation says what an apply would do *)

(** The same error, or results that differ in addresses only. *)
Definition sameOutcome (r1 r2 : applyError + Apply.Result) : Prop :=
  match r1, r2 with
  | inl e1, inl e2 => e1 = e2
  | inr a, inr b => res_Version a = res_Version b ∧ res_Config a = res_Config b ∧ res_Warnings a = res_Warnings b ∧ alike (res_Snapshot a) (res_Snapshot b)
  | _, _ => False
  end.
Definition sameBuilt (r1 r2 : applyError + Snapshot * Config.Config * list string) : Prop :=
  match r1, r2 with
  | inl e1, inl e2 => e1 = e2
  | inr (s1, c1, w1), inr (s2, c2, w2) => alike s1 s2 ∧ c1 = c2 ∧ w1 = w2
  | _, _ => False
  end.
Lemma alike_origin s1 s2 v src : alike s1 s2 → alike (withOrigin s1 v src) (withOrigin s2 v src).
Proof.
  intros H. unfold alike in *. change (withOrigin (twin s1) v src = withOrigin (twin s2) v src). by rewrite H.
Qed.

Section Predict.
Context (ParseJSON : string → result Config.Config) (ReadFile : string → result string) (Getenv : string → string).
Context (sha256 : string → list ascii).
Context (LoadX509KeyPair : string → string → result Certificate) (AppendCertsFromPEM : string → bool) (suites : gmap string Z).
Abbreviation apply := (Apply ParseJSON ReadFile Getenv sha256 LoadX509KeyPair AppendCertsFromPEM suites).
Abbreviation applyResolved := (ApplyResolvedVersion ParseJSON ReadFile Getenv sha256 LoadX509KeyPair AppendCertsFromPEM suites).
Abbreviation buildM := (build ReadFile Getenv LoadX509KeyPair AppendCertsFromPEM suites).

Lemma build_independent env merged d1 d2 :
  plans_ok (Snapshot.trafficReg d1) → plans_ok (Snapshot.trafficReg d2) → sameBuilt (buildM env merged d1).2 (buildM env merged d2).2.
Proof.
  intros H1 H2. unfold build. destruct merged as [[]|cfg]; [done..|]. destruct (Validate Getenv (Some cfg)) as [ws [e|]]; [done|].
  destruct (BuildSnapshot_independent LoadX509KeyPair ReadFile AppendCertsFromPEM suites (clk env) (visitBuild env cfg) cfg d1 d2 H1 H2) as [_ E].
  destruct (BuildSnapshot _ _ _ _ _ _ _ d1) as [d1' [s1|e1]], (BuildSnapshot _ _ _ _ _ _ _ d2) as [d2' [s2|e2]]; simpl in E |- *; try done.
  - split_and!; [|done..]. unfold alike. congruence.
  - by injection E as ->.
Qed.
Lemma onDeps_independent env merged mode1 mode2 d :
  plans_ok (Snapshot.trafficReg d) → sameBuilt (onDeps mode1 (buildM env merged) d).2 (onDeps mode2 (buildM env merged) d).2.
Proof.
  intros H. assert (plans_ok (Snapshot.trafficReg (scratch d))) as Hs by apply new_plans_ok.
  assert (∀ mode, ∃ d', plans_ok (Snapshot.trafficReg d') ∧ (onDeps mode (buildM env merged) d).2 = (buildM env merged d').2) as Hm.
  { intros []; [by exists d|]. exists (scratch d). split; [done|]. simpl. by destruct (buildM env merged (scratch d)). }
  destruct (Hm mode1) as (d1 & P1 & ->), (Hm mode2) as (d2 & P2 & ->). by apply build_independent.
Qed.

(** C15. A validation says what an apply would do: on the same state and in the
    same environment, validating a configuration and applying it end with the
    same error, or with the same version, configuration and warnings and with
    snapshots that are alike; the live registries, which only the apply works
    on, make no difference. *)
Theorem validate_predicts_apply env raw source m :
  plans_ok (Snapshot.trafficReg (deps m)) →
  sameOutcome (apply env raw source ModeValidate m).2 (apply env raw source ModeApply m).2.
Proof.
  intros H. unfold Apply. destruct (admission raw m); [done|]. destruct (ParseJSON raw) as [cfg|]; [|done].
  destruct (ValidateMetricsToken _ _); [done|]. unfold compile. cbv zeta. destruct (ended env) as [[e loaded]|]; [done|].
  set (m1 := m <| admin ::= _ |>). pose proof (onDeps_independent env (mergeNow ParseJSON ReadFile env m1 (buildProviders m1 cfg)) ModeValidate ModeApply (deps m1) H) as Hs.
  destruct (onDeps ModeValidate _ _) as [d1 [e1|[[s1 c1] w1]]], (onDeps ModeApply _ _) as [d2 [e2|[[s2 c2] w2]]]; simpl in Hs |- *; try done.
  destruct Hs as (Ha & -> & ->). split_and!; try done. by apply alike_origin.
Qed.
Lemma validateResolved_predicts env raw source version m :
  plans_ok (Snapshot.trafficReg (deps m)) →
  sameOutcome (applyResolved env raw source version ModeValidate m).2 (applyResolved env raw source version ModeApply m).2.
Proof.
  intros H. unfold ApplyResolvedVersion. destruct (admission raw m); [done|]. destruct (ParseJSON raw) as [cfg|]; [|done].
  unfold compileResolved. cbv zeta. destruct (ended env) as [[e loaded]|]; [done|].
  pose proof (onDeps_independent env (inr cfg) ModeValidate ModeApply (deps m) H) as Hs.
  destruct (onDeps ModeValidate _ _) as [d1 [e1|[[s1 c1] w1]]], (onDeps ModeApply _ _) as [d2 [e2|[[s2 c2] w2]]]; simpl in Hs |- *; try done.
  destruct Hs as (Ha & -> & ->). split_and!; try done. by apply alike_origin.
Qed.
End Predict.

(** ** A validation and the apply that follows it *)

Lemma validate_predicts_apply_witness :
  sameOutcome (Apply demo_parse (λ _, Err "") demo_getenv demo_sha (λ _ _, Err "") (λ _, false) ∅ (demo_env None) "first" "test" ModeValidate demo_manager).2
    (demo_apply None "first" demo_manager).2 ∧
  (∃ r, (demo_apply None "first" demo_manager).2 = inr r ∧ res_Version r = configVersion demo_sha "first").
Proof.
  split; [apply validate_predicts_apply; apply new_plans_ok|].
  destruct (demo_apply None "first" demo_manager).2 as [e|r] eqn:E; [exfalso; revert E; vm_compute; discriminate|].
  exists r. split; [done|]. destruct (demo_apply None "first" demo_manager) as [m' x] eqn:Ed. simpl in E. subst x. unfold demo_apply, Apply in Ed.
  revert Ed. cbn [admission]. unfold timed. repeat case_match; intros; by simplify_eq.
Defined.
