(* ===== verification/Progress.v ===== *)
(** * Which configurations get into service

    The other direction of the guarantees of [Snapshot], [Apply] and
    [Rollout]: not what holds when a build or a rollout succeeds, but when it
    does succeed.  [buildable] says of a configuration, without registries,
    clock or order of visits, that it can be built; a build succeeds exactly on
    those.  The locked form of a buildable configuration is buildable, so a
    rollout of a valid bundle ends with the bundle in service unless time,
    load or the gate stop it. *)
From S2P Require Import Prelude.
From S2P Require Import GoStrings.
From S2P Require Import GoError.
From S2P Require Import GoFloat.
From S2P Require Import TrafficSplit.
From S2P Require Import TrafficPlan.
From S2P Require Import Config.
From S2P Require Import Limits.
From S2P Require Import TLSStore.
From S2P Require Import Registry.
From S2P Require Import Plugin.
From S2P Require Import Router.
From S2P Require Import Rolling.
From S2P Require Import Metrics.
From S2P Require Import Snapshot.
From S2P Require Import Store.
From S2P Require Import Provider.
From S2P Require Import Apply.
From S2P Require Import Bundle.
From S2P Require Import Rollout.
From S2P Require Import Validation.

Definition succeeds {A} (r : result A) : Prop := ∃ a, r = Ok a.
Lemma succeeds_map {A B} (f : A → B) r : succeeds (result_map f r) ↔ succeeds r.
Proof. destruct r as [a|e]; split; intros [b H]; try done; by eexists. Qed.

(** ** Configurations that can be built *)

Record routeBuilds (has : string → Prop) (r : Config.Route) : Prop := mkRouteBuilds {
  builds_host : route_Host r ≠ "";
  builds_prefix : HasPrefix (route_PathPrefix r) "/" = true;
  builds_pool : has (route_Pool r);
  builds_ca : rp_RequireMTLS (route_Policy r) = true → rp_MTLSClientCA (route_Policy r) = "" ∨ rp_MTLSClientCA (route_Policy r) = "default";
  builds_cache : succeeds (cachePolicyFromConfig (route_ID r) (rp_Cache (route_Policy r)));
  builds_traffic : ∃ tc stable canary, trafficConfigFromRoute (route_ID r) (rp_Traffic (route_Policy r)) = Ok (tc, stable, canary) ∧
    (TrafficPlan.Enabled tc = true → has stable ∧ (canary = "" ∨ has canary) ∧ succeeds (planShape (route_ID r) tc))
}.
(** The plugins of all routes; the names of their filters are counted
    together. *)
Fixpoint pluginsBuild (names : gset string) (rs : list Config.Route) : Prop :=
  match rs with
  | [] => True
  | r :: rs => ∃ p names', pluginPolicyFromConfig (route_ID r) (rp_Plugins (route_Policy r)) names = Ok (p, names') ∧ pluginsBuild names' rs
  end.
Definition mtlsWanted (rs : list Config.Route) : bool := existsb (λ r, rp_RequireMTLS (route_Policy r)) rs.

Lemma checkRoute_exactly route seen (pools : gmap string string) :
  checkRoute route seen pools = None ↔
  route_Host route ≠ "" ∧ HasPrefix (route_PathPrefix route) "/" = true ∧ route_ID route ∉ seen ∧ is_Some (pools !! route_Pool route) ∧
  (rp_RequireMTLS (route_Policy route) = true → rp_MTLSClientCA (route_Policy route) = "" ∨ rp_MTLSClientCA (route_Policy route) = "default").
Proof.
  rewrite <- not_eq_None_Some. unfold checkRoute. cbv zeta. case_decide; [naive_solver|]. destruct (HasPrefix _ _); [|naive_solver]. cbn [negb].
  case_decide; [naive_solver|]. case_decide; [naive_solver|]. destruct (rp_RequireMTLS _); simpl; [|naive_solver].
  case_bool_decide as Hca; [split; [done|naive_solver]|]. split; [|done]. intros _. split_and!; try done. intros _.
  destruct (decide (rp_MTLSClientCA (route_Policy route) = "")); [by left|]. right.
  destruct (decide (rp_MTLSClientCA (route_Policy route) = "default")); [done|]. by destruct Hca.
Qed.

Lemma buildPools_succeeds clk order d P C :
  succeeds (buildPools clk order d P C).2 ↔ Forall (λ np, pool_Endpoints np.2 ≠ []) order.
Proof.
  revert d P C. induction order as [|[n p] l IH]; intros d P C; simpl; [split; [done|by eexists]|]. rewrite Forall_cons. simpl.
  destruct (pool_Endpoints p); [|rewrite IH; naive_solver]. split; [by intros [? ?]|by intros [? _]].
Qed.

Lemma buildRoute_exactly clk cfg (pools : gmap string string) d b route :
  plans_ok (Snapshot.trafficReg d) →
  succeeds (buildRoute clk cfg pools d b route).2 ↔
  routeBuilds (λ n, is_Some (pools !! n)) route ∧ route_ID route ∉ seenIDs b ∧
  succeeds (pluginPolicyFromConfig (route_ID route) (rp_Plugins (route_Policy route)) (filterNames b)).
Proof.
  intros Hok. unfold buildRoute. pose proof (checkRoute_exactly route (seenIDs b) pools) as Hck.
  destruct (checkRoute _ _ _); [split; [by intros [? ?]|]; intros ([] & ? & _); naive_solver|].
  destruct Hck as [Hck _]. specialize (Hck eq_refl) as (H1 & H2 & H3 & H4 & H5).
  destruct (pluginPolicyFromConfig _ _ _) as [[p names]|e]; [|split; [by intros [? ?]|by intros (_ & _ & ? & ?)]].
  destruct (cachePolicyFromConfig _ _) as [cp|e] eqn:Ec; [|split; [by intros [? ?]|]; intros ([_ _ _ _ [? ?] _] & _); congruence].
  destruct (trafficConfigFromRoute _ _) as [[[tc st] ca]|e] eqn:Et; [|split; [by intros [? ?]|]; intros ([_ _ _ _ _ (? & ? & ? & ? & _)] & _); congruence].
  destruct (routeTraffic_shape clk cfg pools route d tc st ca Hok) as [_ S]. cbv zeta in S.
  assert (succeeds (routeTraffic clk cfg pools route d tc st ca).2 ↔
    (TrafficPlan.Enabled tc = true → is_Some (pools !! st) ∧ (ca = "" ∨ is_Some (pools !! ca)) ∧ succeeds (planShape (route_ID route) tc))) as Hs.
  { rewrite <- (succeeds_map sketch), S. destruct (TrafficPlan.Enabled tc); [|split; [done|by eexists]]. rewrite <- !not_eq_None_Some.
    case_decide; [split; [by intros [? ?]|naive_solver]|]. case_decide; [split; [by intros [? ?]|naive_solver]|].
    rewrite succeeds_map. destruct (decide (ca = "")); naive_solver. }
  assert (routeBuilds (λ n, is_Some (pools !! n)) route ↔ succeeds (routeTraffic clk cfg pools route d tc st ca).2) as ->.
  { rewrite Hs. split; [intros [_ _ _ _ _ (? & ? & ? & E & ?)]; rewrite Et in E; injection E as <- <- <-; done|].
    intros ?. split; try done; [by eexists|]. by exists tc, st, ca. }
  destruct (routeTraffic clk cfg pools route d tc st ca) as [d' [[[[[? ?] ?] ?] ?]|e]]; simpl; split; try (by intros [? ?]); try by intros ([? ?] & _).
  - intros _. split_and!; [by eexists|done|by eexists].
  - intros _. by eexists.
Qed.

Lemma buildRoute_keeps clk cfg pools d b route d' b' :
  plans_ok (Snapshot.trafficReg d) → buildRoute clk cfg pools d b route = (d', Ok b') →
  plans_ok (Snapshot.trafficReg d') ∧ seenIDs b' = {[route_ID route]} ∪ seenIDs b ∧
  requiresMTLS b' = requiresMTLS b || rp_RequireMTLS (route_Policy route) ∧
  ∃ p, pluginPolicyFromConfig (route_ID route) (rp_Plugins (route_Policy route)) (filterNames b) = Ok (p, filterNames b').
Proof.
  intros Hok E. pose proof (buildRoute_shape clk cfg pools d d b b route Hok Hok eq_refl) as (Hok' & _). rewrite E in Hok'. split; [done|].
  unfold buildRoute in E. destruct (checkRoute _ _ _); [done|]. destruct (pluginPolicyFromConfig _ _ _) as [[p names]|]; [|done].
  destruct (cachePolicyFromConfig _ _); [|done]. destruct (trafficConfigFromRoute _ _) as [[[tc st] ca]|]; [|done].
  destruct (routeTraffic _ _ _ _ _ _ _ _) as [d1 [[[[[? ?] ?] ?] ?]|]]; [|done]. injection E as _ <-. simpl. split_and!; [done..|by exists p].
Qed.
Lemma buildRoutes_exactly clk cfg (pools : gmap string string) rs d b :
  plans_ok (Snapshot.trafficReg d) →
  (succeeds (buildRoutes clk cfg pools rs d b).2 ↔
   Forall (routeBuilds (λ n, is_Some (pools !! n))) rs ∧ NoDup (route_ID <$> rs) ∧ (∀ id, id ∈ route_ID <$> rs → id ∉ seenIDs b) ∧
   pluginsBuild (filterNames b) rs) ∧
  (∀ b', (buildRoutes clk cfg pools rs d b).2 = Ok b' → requiresMTLS b' = requiresMTLS b || mtlsWanted rs).
Proof.
  revert d b. induction rs as [|r rs IH]; intros d b Hok; cbn [buildRoutes].
  { split; [|intros b' [= <-]; by rewrite orb_false_r]. split; [|by eexists]. intros _. split_and!; [done|constructor| |done]. by intros id ?%elem_of_nil. }
  pose proof (buildRoute_exactly clk cfg pools d b r Hok) as He. destruct (buildRoute clk cfg pools d b r) as [d1 [b1|e1]] eqn:E.
  - apply buildRoute_keeps in E as (Hok1 & Hs & Hm & p & Hp); [|done]. destruct (IH d1 b1 Hok1) as [H1 H2]. split.
    + rewrite H1, fmap_cons, NoDup_cons, Forall_cons, Hs. destruct He as [He _]. destruct He as (Hb & Hn & _); [by eexists|]. cbn [pluginsBuild].
      setoid_rewrite elem_of_cons. setoid_rewrite elem_of_union. setoid_rewrite elem_of_singleton. split.
      * intros (? & ? & Hd & ?). split_and!; try done; [set_solver..|]. by exists p, (filterNames b1).
      * intros ([? ?] & [? ?] & Hd & (p' & names & Hp' & ?)). rewrite Hp in Hp'. injection Hp' as <- <-. split_and!; try done. set_solver.
    + intros b' Hb'. rewrite (H2 b' Hb'), Hm. unfold mtlsWanted. simpl. by rewrite orb_assoc.
  - split; [|done]. split; [by intros [? ?]|]. rewrite Forall_cons. intros ([Hb _] & _ & Hd & (p & names & Hp & _)).
    destruct He as [_ He]. destruct He as [? [=]]. split_and!; [done| |by eexists]. apply Hd. by left.
Qed.

Lemma buildPools_names clk order cfg d d' P C :
  order ≡ₚ map_to_list (Config.Pools cfg) → buildPools clk order d ∅ ∅ = (d', Ok (P, C)) →
  ∀ n, is_Some (P !! n) ↔ is_Some (Config.Pools cfg !! n).
Proof.
  intros Hperm H n. apply buildPools_spec in H as (HP & _). rewrite HP, lookup_empty. case_decide as Hin; rewrite Hperm, list_elem_of_fmap in Hin.
  - destruct Hin as ([m p] & -> & Hm%elem_of_map_to_list). simpl. rewrite Hm. split; by eexists.
  - split; [by intros [? ?]|]. intros [p Hp]. destruct Hin. exists (n, p). split; [done|]. by apply elem_of_map_to_list.
Qed.
Lemma routeBuilds_names (h1 h2 : string → Prop) r : (∀ n, h1 n ↔ h2 n) → routeBuilds h1 r → routeBuilds h2 r.
Proof.
  intros H [? ? ? ? ? (tc & st & ca & E & Ht)]. split; try done; [by apply H|]. exists tc, st, ca. split; [done|]. rewrite <- !H. done.
Qed.

Section Exactly.
Context (LoadX509KeyPair : string → string → result Certificate) (ReadFile : string → result string).
Context (AppendCertsFromPEM : string → bool) (suites : gmap string Z).
Abbreviation Build := (BuildSnapshot LoadX509KeyPair ReadFile AppendCertsFromPEM suites).
Abbreviation tlsOf := (buildTLS LoadX509KeyPair ReadFile AppendCertsFromPEM suites).

Definition buildable (cfg : Config.Config) : Prop :=
  succeeds (FromConfig (Config.Limits cfg)) ∧
  map_Forall (λ _ p, pool_Endpoints p ≠ []) (Config.Pools cfg) ∧
  NoDup (route_ID <$> Config.Routes cfg) ∧
  Forall (routeBuilds (λ n, is_Some (Config.Pools cfg !! n))) (Config.Routes cfg) ∧
  pluginsBuild ∅ (Config.Routes cfg) ∧
  succeeds (tlsOf (Config.TLS cfg) (mtlsWanted (Config.Routes cfg))).

Lemma build_iff clk order cfg d :
  order ≡ₚ map_to_list (Config.Pools cfg) → plans_ok (Snapshot.trafficReg d) →
  succeeds (Build clk order cfg d).2 ↔ buildable cfg.
Proof.
  intros Hperm Hok. unfold BuildSnapshot, buildSnapshot, buildable.
  destruct (FromConfig _) as [lim|e]; [|split; [by intros [? ?]|by intros [[? ?] _]]].
  pose proof (buildPools_succeeds clk order d ∅ ∅) as Hp. 
  assert (Forall (λ np, pool_Endpoints np.2 ≠ []) order ↔ map_Forall (λ _ p, pool_Endpoints p ≠ []) (Config.Pools cfg)) as Ho.
  { rewrite Hperm. rewrite (map_Forall_to_list (λ _ p, pool_Endpoints p ≠ [])). apply Forall_iff. by intros [? ?]. }
  rewrite Ho in Hp. clear Ho.
  pose proof (buildPools_result clk order d d ∅ ∅) as [Ht _].
  destruct (buildPools clk order d ∅ ∅) as [d1 [[P C]|e]] eqn:Eb; [|split; [by intros [? ?]|]; intros (_ & H & _); by apply Hp in H as [? ?]].
  destruct Hp as [Hp _]. specialize (Hp ltac:(by eexists)). pose proof (buildPools_names _ _ _ _ _ _ _ Hperm Eb) as Hn. simpl in Ht.
  cbv zeta. match goal with |- context [buildRoutes clk cfg P _ ?d2 _] => set (d2' := d2) end.
  destruct (buildRoutes_exactly clk cfg P (Config.Routes cfg) d2' (mkBuilding ∅ ∅ false [])) as [H1 H2]; [subst d2'; simpl; by rewrite Ht|].
  assert (Forall (routeBuilds (λ n, is_Some (P !! n))) (Config.Routes cfg) ↔ Forall (routeBuilds (λ n, is_Some (Config.Pools cfg !! n))) (Config.Routes cfg)) as Hf.
  { apply Forall_iff. intros r. split; apply routeBuilds_names; intros n; by rewrite Hn. }
  rewrite Hf in H1. destruct (buildRoutes _ _ _ _ d2' _) as [d3 [b|e]].
  - destruct H1 as [H1 _]. destruct H1 as (? & ? & _ & ?); [by eexists|]. specialize (H2 b eq_refl). simpl in H2. rewrite H2.
    destruct (tlsOf _ _) as [[[st rt] addr]|e]; [|split; [by intros [? ?]|by intros (_ & _ & _ & _ & _ & ? & ?)]].
    split; [|by eexists]. intros _. split_and!; try done; by eexists.
  - split; [by intros [? ?]|]. intros (_ & _ & ? & ? & ? & _). destruct H1 as [_ H1]. by destruct H1 as [? [=]].
Qed.

(** ** The locked form of a configuration *)

Lemma mask_plan_shape id (tc tc' : TrafficPlan.Config) :
  TrafficPlan.Enabled tc' = TrafficPlan.Enabled tc → TrafficPlan.Cohort tc' = TrafficPlan.Cohort tc → succeeds (planShape id tc) → succeeds (planShape id tc').
Proof.
  unfold planShape, buildPlan. intros -> ->. case_decide; [done|]. rewrite !succeeds_map. destruct (negb _); [done|].
  destruct (if cohort_Enabled _ then _ else _); [|done]. by eexists.
Qed.
Lemma mask_traffic id r tc stable canary :
  trafficConfigFromRoute id (rp_Traffic (route_Policy r)) = Ok (tc, stable, canary) →
  ∃ tc', trafficConfigFromRoute id (rp_Traffic (route_Policy (maskRoute r))) = Ok (tc', stable, canary) ∧
    TrafficPlan.Enabled tc' = TrafficPlan.Enabled tc ∧ TrafficPlan.Cohort tc' = TrafficPlan.Cohort tc.
Proof.
  unfold maskRoute. cbv zeta. cbn [route_Policy rp_Traffic]. set (t := rp_Traffic (route_Policy r)). unfold trafficConfigFromRoute.
  destruct (tc_Enabled t) eqn:He; simpl; rewrite He; simpl; [|intros [= <- <- <-]; by exists noTraffic].
  case_decide; [done|]. destruct (Z.ltb_spec (tc_StableWeight t) 0); [done|]. destruct (Z.ltb_spec (tc_CanaryWeight t) 0); [done|]. simpl.
  set (w := if tc_StableWeight t =? 0 then 100 else tc_StableWeight t).
  assert (0 < w) as Hw by (unfold w; destruct (Z.eqb_spec (tc_StableWeight t) 0); lia).
  destruct (Z.ltb_spec w 0); [lia|]. destruct (Z.eqb_spec w 0); [lia|]. rewrite !andb_false_r. simpl. destruct (Z.eqb_spec w 0); [lia|].
  destruct (bool_decide _ && (0 <? _)); [done|]. destruct (_ && (tc_CanaryWeight t =? 0)); [done|]. simpl.
  destruct (coh_Enabled _ && _); [done|]. destruct (checkOverload _ _); [done|]. destruct (checkAutoDrain _ _); [done|].
  intros [= <- <- <-]. by eexists.
Qed.
Lemma mask_builds has r : routeBuilds has r → routeBuilds has (maskRoute r).
Proof.
  intros [? ? ? ? ? (tc & st & ca & Et & H)]. apply mask_traffic in Et as (tc' & Et' & He & Hc). split; try done.
  exists tc', st, ca. split; [exact Et'|]. rewrite He. intros Ht. destruct (H Ht) as (? & ? & ?). split_and!; try done. by eapply mask_plan_shape.
Qed.
Lemma mask_plugins names rs : pluginsBuild names (maskRoute <$> rs).
Proof. revert names. induction rs as [|r rs IH]; intros names; simpl; [done|]. by exists (Plugin.mkPolicy false []), names. Qed.

Lemma mask_mtls rs : mtlsWanted (maskRoute <$> rs) = mtlsWanted rs.
Proof. induction rs as [|r rs IH]; [done|]. unfold mtlsWanted in *. rewrite fmap_cons. cbn [existsb]. by rewrite IH. Qed.

(** A configuration that can be built can be built locked, and one that is
    valid is valid locked. *)
Lemma mask_buildable cfg : buildable cfg → buildable (maskLockedConfig cfg).
Proof.
  intros (Hl & Hp & Hn & Hr & _ & Ht). unfold buildable, maskLockedConfig. simpl. split_and!; try done.
  - by rewrite <- list_fmap_compose.
  - apply Forall_fmap. eapply Forall_impl; [exact Hr|]. intros r. apply mask_builds.
  - apply mask_plugins.
  - by rewrite mask_mtls.
Qed.

(** C17. Which configurations can be built is known beforehand: whatever the
    registries hold, whatever the clock says and in whatever order the pools
    are visited, a build succeeds exactly on the configurations whose limits
    and TLS settings can be loaded, whose pools have endpoints, whose routes
    have distinct ids and are in order, and whose plugins are; and a
    configuration that has been built once can be built locked at any time. *)
Theorem build_exactly clk order cfg d :
  order ≡ₚ map_to_list (Config.Pools cfg) → plans_ok (Snapshot.trafficReg d) →
  (succeeds (Build clk order cfg d).2 ↔ buildable cfg) ∧
  (succeeds (Build clk order cfg d).2 →
   ∀ clk' order' d', order' ≡ₚ map_to_list (Config.Pools cfg) → plans_ok (Snapshot.trafficReg d') →
   succeeds (Build clk' order' (maskLockedConfig cfg) d').2).
Proof.
  intros Hp Hd. pose proof (build_iff clk order cfg d Hp Hd) as Hi. split; [done|]. rewrite Hi. intros Hb clk' order' d' Hp' Hd'.
  apply build_iff; [done..|]. by apply mask_buildable.
Qed.
End Exactly.

Lemma mask_valid Getenv cfg : (Validate Getenv (Some cfg)).2 = None → (Validate Getenv (Some (maskLockedConfig cfg))).2 = None.
Proof.
  pose proof (config_validate_contract Getenv cfg) as H. pose proof (config_validate_contract Getenv (maskLockedConfig cfg)) as Hm.
  destruct (Validate Getenv (Some cfg)) as [ws e], (Validate Getenv (Some (maskLockedConfig cfg))) as [wsm em]. simpl.
  destruct H as [[H _] _], Hm as [[_ Hm] _]. intros ->. apply Hm. destruct (H eq_refl) as (Hl & Ht & Hr). split_and!; [done..|].
  apply Forall_fmap. eapply Forall_impl; [exact Hr|]. intros r (H1 & H2 & H3). split_and!; [done| |done]. simpl.
  by destruct (tc_Enabled (rp_Traffic (route_Policy r))).
Qed.

(** ** A valid bundle gets into service *)

(** What the rollout's gate looks at, and what decides whether it waits. *)
Definition watched (m : Manager) : Gates * Duration * option rollingCounter := (gates m, lockedBake m, requestWindow <$> metrics m).
Lemma Check_watched now m m' : watched m' = watched m → Check now (gates m') (metrics m') = Check now (gates m) (metrics m).
Proof.
  intros [= Hg _ Hw]. rewrite Hg. destruct (metrics m') as [x|], (metrics m) as [y|]; try done. injection Hw as Hw.
  unfold Check, Rolling5xx. by rewrite Hw.
Qed.

(** The manager can take configurations of [size] bytes, and [n] snapshots
    more before it is under pressure. *)
Record prepared (size n : Z) (m : Manager) : Prop := mkPrepared {
  prep_served : served m;
  prep_plans : plans_ok (Snapshot.trafficReg (deps (apply m)));
  prep_registry : ∃ c, registry_ok (reg (deps (apply m))) c;
  prep_room : RetiredCount (store (apply m)) + n ≤ maxRetiredSnapshots (store (apply m));
  prep_size : size ≤ or_default (maxConfigBytes (apply m)) DefaultMaxConfigBytes
}.
Lemma prepared_less size n n' m : n' ≤ n → prepared size n m → prepared size n' m.
Proof. intros Hn [? ? ? ? ?]. split; try done. lia. Qed.
Lemma prepared_recordStage size n stage result m : prepared size n m → prepared size n (recordStage stage result m).
Proof. by intros []. Qed.
Lemma watched_recordStage stage result m : watched (recordStage stage result m) = watched m.
Proof. unfold watched, recordStage, report, metrics. simpl. destruct (metered m); [|done]. by destruct (defaultMetrics _). Qed.

Lemma prepared_admission size n raw m : prepared size n m → 1 ≤ n → slen raw ≤ size → admission raw (apply m) = None.
Proof.
  intros [_ _ _ Hr Hs] Hn Hl. unfold admission. destruct (Z.ltb_spec (or_default (maxConfigBytes (apply m)) DefaultMaxConfigBytes) (slen raw)); [lia|].
  unfold UnderPressure. destruct (Z.leb_spec (maxRetiredSnapshots (store (apply m))) (RetiredCount (store (apply m)))); [lia|]. by rewrite andb_false_r.
Qed.
Lemma install_room env s m :
  RetiredCount (store (install env s m)) ≤ RetiredCount (store m) + 1 ∧ maxRetiredSnapshots (store (install env s m)) = maxRetiredSnapshots (store m).
Proof.
  unfold install, Store.Swap, RetiredCount, Reap, len. simpl. destruct (Store.current (store m)); simpl; split; try done.
  - etransitivity; [apply inj_le, List.filter_length_le|]. rewrite length_app. simpl. lia.
  - etransitivity; [apply inj_le, List.filter_length_le|]. lia.
Qed.

Section Rolls.
Context (ParseJSON : string → result Config.Config) (Marshal : Config.Config → result string).
Context (ReadFile : string → result string) (Getenv : string → string) (sha256 : string → list ascii).
Context (LoadX509KeyPair : string → string → result Certificate) (AppendCertsFromPEM : string → bool) (suites : gmap string Z).
Abbreviation stage := (applyStage ParseJSON ReadFile Getenv sha256 LoadX509KeyPair AppendCertsFromPEM suites).
Abbreviation roll := (ApplyBundle ParseJSON Marshal ReadFile Getenv sha256 LoadX509KeyPair AppendCertsFromPEM suites).
Abbreviation finishing := (finish ParseJSON ReadFile Getenv sha256 LoadX509KeyPair AppendCertsFromPEM suites).
Abbreviation Build := (BuildSnapshot LoadX509KeyPair ReadFile AppendCertsFromPEM suites).
Abbreviation canBuild := (buildable LoadX509KeyPair ReadFile AppendCertsFromPEM suites).

(** The context does not end, and the pools are visited in some order. *)
Definition patient (env : ApplyEnv) : Prop := ended env = None ∧ ∀ cfg, visitBuild env cfg ≡ₚ map_to_list (Config.Pools cfg).

Lemma build_succeeds env cfg d c :
  patient env → (Validate Getenv (Some cfg)).2 = None → canBuild cfg → plans_ok (Snapshot.trafficReg d) → registry_ok (reg d) c →
  ∃ d' s ws, build ReadFile Getenv LoadX509KeyPair AppendCertsFromPEM suites env (inr cfg) d = (d', inr (s, cfg, ws)) ∧
    plans_ok (Snapshot.trafficReg d') ∧ registry_ok (reg d') (endpoints_of cfg) ∧
    requestWindow <$> defaultMetrics d' = requestWindow <$> defaultMetrics d.
Proof.
  intros [_ Hv] Hval Hb Hp Hr. unfold build. destruct (Validate Getenv (Some cfg)) as [ws [e|]]; [done|].
  pose proof (proj2 (build_iff LoadX509KeyPair ReadFile AppendCertsFromPEM suites (clk env) _ cfg d (Hv cfg) Hp) Hb) as [s Hs].
  destruct (BuildSnapshot_independent LoadX509KeyPair ReadFile AppendCertsFromPEM suites (clk env) (visitBuild env cfg) cfg d d Hp Hp) as [Hp' _].
  destruct (Build (clk env) (visitBuild env cfg) cfg d) as [d' res] eqn:E. simpl in Hs, Hp'. subst res. exists d', s, ws. split_and!; try done.
  - by destruct (BuildSnapshot_sound _ _ _ _ _ _ _ _ _ _ _ (Hv cfg) Hr E) as (_ & _ & _ & _ & _ & _ & _ & Hok & _).
  - apply BuildSnapshot_counted in E as ->. by destruct (defaultMetrics d).
Qed.

(** The compilation of a stage. *)
Lemma compile_succeeds env cfg mode d c :
  patient env → (Validate Getenv (Some cfg)).2 = None → canBuild cfg → plans_ok (Snapshot.trafficReg d) → registry_ok (reg d) c →
  ∃ d' s ws, onDeps mode (build ReadFile Getenv LoadX509KeyPair AppendCertsFromPEM suites env (inr cfg)) d = (d', inr (s, cfg, ws)) ∧
    plans_ok (Snapshot.trafficReg d') ∧ registry_ok (reg d') (match mode with ModeApply => endpoints_of cfg | ModeValidate => c end) ∧
    requestWindow <$> defaultMetrics d' = requestWindow <$> defaultMetrics d.
Proof.
  intros He Hval Hb Hp Hc. destruct mode; cbn [onDeps]; [by apply (build_succeeds env cfg d c)|].
  destruct (build_succeeds env cfg (scratch d) ∅ He Hval Hb (new_plans_ok _ _) (new_registry_ok _ _)) as (d' & s & ws & -> & _ & _ & Hw).
  eexists _, s, ws. split_and!; [done..|exact Hw].
Qed.
Lemma watched_apply (m : Manager) a :
  requestWindow <$> defaultMetrics (deps a) = requestWindow <$> defaultMetrics (deps (apply m)) → watched (m <| apply := a |>) = watched m.
Proof. intros H. unfold watched, metrics. simpl. destruct (metered m); [|done]. by rewrite H. Qed.
Lemma prepared_installed env s size n m d c :
  prepared size n m → plans_ok (Snapshot.trafficReg d) → registry_ok (reg d) c →
  prepared size (n - 1) (m <| apply := measured env (install env s ((apply m) <| deps := d |>)) |>).
Proof.
  intros [Hs _ _ Hr Hsz] Hp Hc. destruct (install_room env s ((apply m) <| deps := d |>)) as [H1 H2].
  pose (a := (apply m) <| deps := d |>). destruct (install_spec env s a Hs) as (q & _ & Hq & Hh). split; try done; [|by exists c|simpl in *; lia].
  intros q' Hq'. change (Store.current (store (install env s a)) = Some q') in Hq'. rewrite Hq in Hq'. injection Hq' as <-. by eexists.
Qed.

(** A stage on a manager that is prepared for it. *)
Lemma stage_succeeds env raw cfg source version mode m size n :
  patient env → ParseJSON raw = Ok cfg → slen raw ≤ size → (Validate Getenv (Some cfg)).2 = None → canBuild cfg → prepared size n m → 1 ≤ n →
  ∃ m' r, stage env raw source version mode m = (m', inr r) ∧ prepared size (match mode with ModeApply => n - 1 | ModeValidate => n end) m' ∧
    watched m' = watched m ∧ (mode = ModeApply → registry_ok (reg (deps (apply m'))) (endpoints_of cfg)).
Proof.
  intros He Hj Hl Hval Hb Hpr Hn. pose proof Hpr as [Hs Hp [c Hc] Hr Hsz].
  destruct (compile_succeeds env cfg mode (deps (apply m)) c He Hval Hb Hp Hc) as (d & s & ws & E & Hp' & Hc' & Hw).
  unfold applyStage, ApplyResolvedVersion. rewrite (prepared_admission size n raw m Hpr Hn Hl), Hj. unfold compileResolved. destruct He as [-> _].
  rewrite E. cbv zeta. cbn [timed]. eexists _, _. split; [reflexivity|]. destruct mode.
  - split_and!; [by eapply prepared_installed| |done]. apply watched_apply. rewrite <- Hw. simpl. by destruct (defaultMetrics d).
  - split_and!; [|apply watched_apply; rewrite <- Hw; simpl; by destruct (defaultMetrics d)|done]. split; try done. by exists c.
Qed.

(** What a snapshot of a configuration has. *)
Definition builtFrom (cfg : Config.Config) (s : Snapshot.Snapshot) : Prop :=
  (∃ routes, SnapshotRouter s = Some (NewRouter routes) ∧ Forall2 (route_ok (Snapshot.Pools s)) (Config.Routes cfg) routes) ∧
  (∀ n k, Snapshot.Pools s !! n = Some k → k = n ∧ ∃ p, Config.Pools cfg !! n = Some p ∧ pool_Endpoints p ≠ []).
Lemma stage_built env raw source version m m' r c :
  patient env → registry_ok (reg (deps (apply m))) c → stage env raw source version ModeApply m = (m', inr r) → builtFrom (res_Config r) (res_Snapshot r).
Proof.
  intros [_ Hv] Hc. unfold applyStage. destruct (ApplyResolvedVersion _ _ _ _ _ _ _ _ _ _ _ _ _) as [a x] eqn:E. intros [= <- ->].
  apply applyResolved_success in E as (cfg & s & d & _ & _ & -> & _ & Hs & Hd & _). cbn [onDeps] in Hd. apply build_ok in Hd as (_ & _ & Hb).
  destruct (BuildSnapshot_sound _ _ _ _ _ _ _ _ _ _ _ (Hv _) Hc Hb) as (routes & H1 & H2 & _). rewrite Hs. split; [by exists routes|].
  intros n k. exact (BuildSnapshot_pools _ _ _ _ _ _ _ _ _ _ n k (Hv _) Hb).
Qed.

(** What happens during the bake time leaves the manager prepared, and the
    gate finds nothing wrong then. *)
Definition baked (env : RolloutEnv) (m : Manager) : Manager := if 0 <? lockedBake m then bake env m else m.
Record uneventful (env : RolloutEnv) (m : Manager) : Prop := mkUneventful {
  calm_stages : patient (envValidate env) ∧ patient (envLocked env) ∧ patient (envFull env);
  calm_context : 0 < lockedBake m → bakeEnded env = None;
  calm_bake : ∀ size n m, prepared size n m → prepared size n (bake env m);
  calm_store : ∀ m, hasStore (bake env m) = hasStore m;
  calm_gate : ∀ m', watched m' = watched m → Check (gateAt env) (gates (baked env m')) (metrics (baked env m')) = None
}.

Lemma finish_succeeds env raw cfg source version previous m0 m size :
  uneventful env m0 → watched m = watched m0 → ParseJSON raw = Ok cfg → slen raw ≤ size → (Validate Getenv (Some cfg)).2 = None → canBuild cfg →
  prepared size 1 m →
  ∃ m' r q, finishing env raw source version previous m = (m', inr r) ∧ res_Config r = cfg ∧ current_of m' = Some q ∧
    heap (store (apply m')) !! q = Some (res_Snapshot r) ∧
    Snapshot.Version (res_Snapshot r) = (if decide (version = "") then configVersion sha256 raw else version) ∧
    registry_ok (reg (deps (apply m'))) (endpoints_of cfg) ∧ builtFrom cfg (res_Snapshot r) ∧ hasStore m' = hasStore m.
Proof.
  intros [(_ & _ & He) Hctx Hbake Hkeep Hgate] Hw Hj Hl Hval Hb Hpr. unfold finish. cbv zeta. change (if 0 <? lockedBake m then bake env m else m) with (baked env m).
  assert ((if 0 <? lockedBake m then bakeEnded env else None) = None) as ->.
  { injection Hw as _ -> _. destruct (Z.ltb_spec 0 (lockedBake m0)); [|done]. by apply Hctx. }
  rewrite (Hgate m Hw). assert (prepared size 1 (baked env m)) as Hpr' by (unfold baked; destruct (0 <? lockedBake m); auto).
  destruct (stage_succeeds (envFull env) raw cfg source version ModeApply _ size 1 He Hj Hl Hval Hb Hpr' ltac:(lia)) as (m' & r & E & _ & _ & Hr). rewrite E.
  destruct (applyStage_installs _ _ _ _ _ _ _ _ _ _ _ _ _ _ (prep_served _ _ _ Hpr') E) as (cfg' & q & Hj' & Hc & Hq & Hh & _ & Hv & _).
  destruct (prep_registry _ _ _ Hpr') as [c Hc0]. pose proof (stage_built _ _ _ _ _ _ _ _ He Hc0 E) as Hbf. rewrite Hc in Hbf.
  apply applyStage_frame in E as (Hh' & _). assert (cfg' = cfg) as -> by congruence.
  exists (recordStage "full" "success" m'), r, q. split_and!; try done; [by apply Hr|]. simpl. rewrite Hh'. unfold baked. by destruct (0 <? lockedBake m).
Qed.

(** A valid bundle gets into service: when its configuration passes validation
    and can be built, survives being written and read back in its locked form,
    fits the size limit, and the store has room for two snapshots, then a
    rollout during which no context ends and the gate sees no reason to stop
    it succeeds; the snapshot of the full configuration is the current one,
    under the bundle's version, and the pools have exactly its endpoints. *)
Theorem rollout_completes env b sourceOverride m raw cfg locked :
  uneventful env m → prepared (Z.max (slen raw) (slen locked)) 2 m →
  ConfigBytes b = Some raw → ParseJSON raw = Ok cfg → Marshal (maskLockedConfig cfg) = Ok locked → ParseJSON locked = Ok (maskLockedConfig cfg) →
  (Validate Getenv (Some cfg)).2 = None → canBuild cfg →
  ∃ m' r q, roll env b sourceOverride m = (m', inr r) ∧ res_Config r = cfg ∧ current_of m' = Some q ∧
    heap (store (apply m')) !! q = Some (res_Snapshot r) ∧
    Snapshot.Version (res_Snapshot r) = (if decide (Bundle.version b = "") then configVersion sha256 raw else Bundle.version b) ∧
    registry_ok (reg (deps (apply m'))) (endpoints_of cfg) ∧ builtFrom cfg (res_Snapshot r) ∧ hasStore m' = hasStore m.
Proof.
  intros Hu Hpr Hc Hj Hm Hjl Hval Hb. pose proof (calm_stages _ _ Hu) as (He1 & He2 & _). unfold ApplyBundle. rewrite Hc. cbv zeta.
  match goal with |- context [stage (envValidate env) raw ?s _ _ _] => set (source := s) end.
  destruct (stage_succeeds (envValidate env) raw cfg source (Bundle.version b) ModeValidate m _ 2 He1 Hj (Z.le_max_l _ (slen locked)) Hval Hb Hpr ltac:(lia))
    as (m1 & r1 & E1 & Hpr1 & Hw1 & _). rewrite E1. apply applyStage_frame in E1 as (Hh1 & _).
  unfold lockConfigBytes. rewrite Hj. cbn [result_bind]. rewrite Hm.
  apply (prepared_recordStage _ _ "validate" "success") in Hpr1. rewrite <- (watched_recordStage "validate" "success") in Hw1.
  destruct (stage_succeeds (envLocked env) locked _ source (Bundle.version b) ModeApply _ _ 2 He2 Hjl (Z.le_max_r (slen raw) _) (mask_valid _ _ Hval)
    (mask_buildable _ _ _ _ _ Hb) Hpr1 ltac:(lia)) as (m2 & r2 & E2 & Hpr2 & Hw2 & _). rewrite E2.
  apply applyStage_frame in E2 as (Hh2 & _). assert (hasStore m = hasStore (recordStage "locked" "success" m2)) as -> by (simpl in *; congruence).
  apply (finish_succeeds env raw cfg _ _ _ m _ (Z.max (slen raw) (slen locked)) Hu); [|done|apply Z.le_max_l|done..|].
  - by rewrite watched_recordStage, Hw2, Hw1.
  - by apply prepared_recordStage.
Qed.
End Rolls.

(** ** The bundle with a canary, again *)

Lemma demo_visit_pools cfg : demo_visit cfg ≡ₚ map_to_list (Config.Pools cfg).
Proof. done. Qed.
Lemma demo_buildable : buildable (λ _ _, Err "") (λ _, Err "") (λ _, false) ∅ demo_file.
Proof.
  apply (build_iff (λ _ _, Err "") (λ _, Err "") (λ _, false) ∅ example_clock (map_to_list (Config.Pools demo_file)) demo_file (scratch demo_deps));
    [done|apply new_plans_ok|].
  destruct (BuildSnapshot _ _ _ _ _ _ _ _).2 as [s|e] eqn:E; [by eexists|]. exfalso. revert E. vm_compute. discriminate.
Qed.

Lemma build_exactly_witness :
  succeeds (BuildSnapshot (λ _ _, Err "") (λ _, Err "") (λ _, false) ∅ example_clock (map_to_list (Config.Pools demo_file)) demo_file (scratch demo_deps)).2 ∧
  succeeds (BuildSnapshot (λ _ _, Err "") (λ _, Err "") (λ _, false) ∅ example_clock (map_to_list (Config.Pools demo_file)) (maskLockedConfig demo_file)
    (scratch demo_deps)).2 ∧
  ¬ succeeds (BuildSnapshot (λ _ _, Err "") (λ _, Err "") (λ _, false) ∅ example_clock (map_to_list (Config.Pools demo_file))
    (demo_file <| Config.Routes ::= (λ rs, rs ++ rs) |>) (scratch demo_deps)).2.
Proof.
  destruct (build_exactly (λ _ _, Err "") (λ _, Err "") (λ _, false) ∅ example_clock (map_to_list (Config.Pools demo_file)) demo_file (scratch demo_deps)
    (reflexivity _) (new_plans_ok _ _)) as [Hi Hl]. pose proof demo_buildable as Hb. split_and!; [by apply Hi| |].
  - apply Hl; [by apply Hi|done|apply new_plans_ok].
  - intros (_ & _ & Hn & _)%(proj1 (build_exactly (λ _ _, Err "") (λ _, Err "") (λ _, false) ∅ example_clock (map_to_list (Config.Pools demo_file)) (demo_file <| Config.Routes ::= (λ rs, rs ++ rs) |>)
      (scratch demo_deps) (reflexivity _) (new_plans_ok _ _))).
    apply (bool_decide_eq_true_2 _) in Hn. revert Hn. vm_compute. discriminate.
Defined.

Lemma demo_prepared ms : prepared (Z.max (slen "full") (slen "locked")) 2 (demo_rollout ms).
Proof. split; [apply demo_served|apply new_plans_ok|exists ∅; apply new_registry_ok|vm_compute; discriminate..]. Qed.
(** Requests have been answered, none of them with an error. *)
Definition demo_fine : Metrics := run [(5 * Second, OObserveRequestCanonical "r" 200 0); (5 * Second, OObserveRequestCanonical "r" 404 0)] (NewMetrics (Metrics.mkMetricsConfig 0 0 0)).
Lemma demo_uneventful : uneventful (demo_rollout_env None) (demo_rollout (Some demo_fine)).
Proof.
  split; [by split_and!|done|done|done|]. intros m' Hw. assert (baked (demo_rollout_env None) m' = m') as -> by (unfold baked; by case_match).
  rewrite (Check_watched _ _ _ Hw). vm_compute. reflexivity.
Qed.
Lemma demo_valid : (Validate demo_getenv (Some demo_file)).2 = None.
Proof. vm_compute. reflexivity. Qed.
Lemma rollout_completes_witness :
  ∃ m' r q, demo_roll None (Some demo_fine) = (m', inr r) ∧ current_of m' = Some q ∧ heap (store (apply m')) !! q = Some (res_Snapshot r) ∧
    Snapshot.Version (res_Snapshot r) = "v7" ∧ res_Config r = demo_file.
Proof.
  destruct (rollout_completes demo_roll_parse (λ _, Ok "locked") (λ _, Err "") demo_getenv demo_sha (λ _ _, Err "") (λ _, false) ∅
    (demo_rollout_env None) demo_rollout_bundle "" (demo_rollout (Some demo_fine)) "full" demo_file "locked" demo_uneventful
    (demo_prepared (Some demo_fine)) eq_refl eq_refl eq_refl eq_refl demo_valid demo_buildable)
    as (m' & r & q & E & Hc & Hq & Hh & Hv & _).
  exists m', r, q. exact (conj E (conj Hq (conj Hh (conj Hv Hc)))).
Defined.
