(* ===== verification/AdminGuard.v ===== *)
(** * Guarding the admin API (internal/admin: ratelimit.go, auth.go, store.go)

    The token buckets and the lock-out by client address, the client
    certificate and token check, and the history of applied bundles.
    Parameters: reading a file, parsing PEM, and the verification of a
    certificate chain against a pool of roots. *)
From S2P Require Import Prelude.
From S2P Require Import GoStrings.
From S2P Require Import GoFloat.
From S2P Require Import Http.
From S2P Require Import Rolling.
From S2P Require Import Bundle.

(** ** ratelimit.go *)

Definition defaultRateLimitRPS : Z := 5.
Definition defaultRateLimitBurst : Z := 10.
Definition defaultMaxFailures : Z := 20.
Definition defaultBlockDuration : Duration := 10 * Minute.

Record tokenBucket := mkTokenBucket { remaining : float64; last : Time }.
Record failureState := mkFailureState { count : Z; blockedTill : Time }.
Record RateLimiter := mkRateLimiter {
  buckets : gmap string tokenBucket;
  failures : gmap string failureState;
  rate : float64;
  burst : float64;
  maxFailures : Z;
  blockFor : Duration
}.
#[export] Instance RateLimiter_eta : Eta RateLimiter := fun l =>
  mkRateLimiter (buckets l) (failures l) (rate l) (burst l) (maxFailures l) (blockFor l).

Definition NewRateLimiter (rps brst maxFail : Z) (block : Duration) : RateLimiter :=
  mkRateLimiter ∅ ∅ (f64_of_Z (or_default rps defaultRateLimitRPS)) (f64_of_Z (or_default brst defaultRateLimitBurst))
    (or_default maxFail defaultMaxFailures) (or_default block defaultBlockDuration).

Definition clientIP (addr : string) : string := match SplitHostPort addr with Some (host, _) => host | None => addr end.
Definition minFloat (a b : float64) : float64 := if f64_lt a b then a else b.

Definition blocked (l : RateLimiter) (ip : string) (now : Time) : bool :=
  match failures l !! ip with Some st => now <? blockedTill st | None => false end.

Definition Allow (now : Time) (addr : string) (l : RateLimiter) : RateLimiter * bool :=
  let ip := clientIP addr in
  if blocked l ip now then (l, false)
  else
    let b := default (mkTokenBucket (burst l) now) (buckets l !! ip) in
    let elapsed := duration_Seconds (time_Sub now (last b)) in
    let rem := minFloat (burst l) (f64_add (remaining b) (f64_mul elapsed (rate l))) in
    if f64_lt rem (f64_of_Z 1) then (l <| buckets ::= <[ip := mkTokenBucket rem now]> |>, false)
    else (l <| buckets ::= <[ip := mkTokenBucket (f64_sub rem (f64_of_Z 1)) now]> |>, true).

Definition RecordFailure (now : Time) (addr : string) (l : RateLimiter) : RateLimiter :=
  let ip := clientIP addr in
  let st := default (mkFailureState 0 zeroTime) (failures l !! ip) in
  if now <? blockedTill st then l <| failures ::= <[ip := st]> |>
  else
    let n := count st + 1 in
    l <| failures ::= <[ip := mkFailureState n (if maxFailures l <=? n then now + blockFor l else blockedTill st)]> |>.

Definition ResetFailures (addr : string) (l : RateLimiter) : RateLimiter :=
  let ip := clientIP addr in
  match failures l !! ip with
  | Some st => l <| failures ::= <[ip := mkFailureState 0 (blockedTill st)]> |>
  | None => l
  end.

(** ** auth.go *)

Record Authenticator := mkAuthenticator { token : string; clientCAs : option string }.
Record AuthError := mkAuthError { Status : Z; Message : string }.

Section Auth.
Context (ReadFile : string → result string) (AppendCertsFromPEM : string → bool).
(** Whether a leaf with its intermediates verifies for client
    authentication against the roots of a PEM file. *)
Context (VerifyChain : string → string → list string → bool).

Definition NewAuthenticator (tok clientCAFile : string) : result Authenticator :=
  let tok := TrimSpace tok in
  if decide (tok = "") then Err "admin token is required"
  else if decide (clientCAFile = "") then Ok (mkAuthenticator tok None)
  else let? ca := ReadFile clientCAFile in
       if AppendCertsFromPEM ca then Ok (mkAuthenticator tok (Some ca)) else Err "failed to parse client CA".

Definition bearerToken (header : string) : option string :=
  if decide (header = "") then None
  else match Fields header with
  | [scheme; tok] => if EqualFold scheme "Bearer" then Some tok else None
  | _ => None
  end.

(** The peer certificates are never nil. *)
Definition peerCertificates (r : Request) : list string := match Http.TLS r with Some certs => omap id certs | None => [] end.

Definition chainOk (a : Authenticator) (certs : list string) : bool :=
  match clientCAs a, certs with
  | Some roots, leaf :: intermediates => VerifyChain roots leaf intermediates
  | _, _ => true
  end.
Definition Authenticate (a : Authenticator) (r : Request) : option AuthError :=
  match peerCertificates r with
  | [] => Some (mkAuthError 403 "client certificate required")
  | certs =>
      if negb (chainOk a certs) then Some (mkAuthError 403 "client certificate invalid")
      else match bearerToken (header_Get (ReqHeader r) "Authorization") with
      | None => Some (mkAuthError 401 "token required")
      | Some tok =>
          if decide (tok = "") then Some (mkAuthError 401 "token required")
          else if decide (tok ≠ token a) then Some (mkAuthError 401 "token invalid")
          else None
      end
  end.

(** admin.go: the TLS settings of the listener, which asks for a client
    certificate but leaves checking it to [Authenticate]. *)
Record AdminTLS := mkAdminTLS { adminCertificate : string; adminClientCAs : option string }.
Definition TLSConfig (LoadX509KeyPair : string → string → result string) (certFile keyFile clientCAFile : string) : result AdminTLS :=
  if decide (certFile = "" ∨ keyFile = "") then Err "admin cert and key are required"
  else let? cert := LoadX509KeyPair certFile keyFile in
       if decide (clientCAFile = "") then Ok (mkAdminTLS cert None)
       else let? ca := ReadFile clientCAFile in
            if AppendCertsFromPEM ca then Ok (mkAdminTLS cert (Some ca)) else Err "failed to parse client CA".
End Auth.

(** ** store.go *)

Definition bundleHistoryLimit : nat := 20.
Record AdminStore := mkAdminStore { current : string; previous : list string; bundles : gmap string Bundle }.
#[export] Instance AdminStore_eta : Eta AdminStore := fun s => mkAdminStore (current s) (previous s) (bundles s).
Definition NewStore : AdminStore := mkAdminStore "" [] ∅.

Definition Record_ (entry : Bundle) (s : AdminStore) : AdminStore :=
  let v := version entry in
  if decide (v = "") then s
  else
    let s := if decide (current s = "" ∨ current s = v) then s
             else s <| previous ::= (λ l, take bundleHistoryLimit (current s :: l)) |> in
    s <| current := v |> <| bundles ::= <[v := entry]> |>.
Definition Get (v : string) (s : AdminStore) : option Bundle := bundles s !! v.
Definition Latest (s : AdminStore) : option Bundle := if decide (current s = "") then None else bundles s !! current s.
Definition Previous (s : AdminStore) : option Bundle := match previous s with [] => None | v :: _ => bundles s !! v end.
Definition CurrentVersion (s : AdminStore) : string := current s.

(** ** Authentication *)

(** A request passes if and only if it comes with a client certificate that
    verifies against the configured roots (any certificate, if none are
    configured) and a bearer header whose token is the configured one. *)
Lemma Authenticate_ok (VerifyChain : string → string → list string → bool) a r :
  Authenticate VerifyChain a r = None ↔
  ∃ leaf rest scheme, peerCertificates r = leaf :: rest ∧
    (∀ roots, clientCAs a = Some roots → VerifyChain roots leaf rest = true) ∧
    header_Get (ReqHeader r) "Authorization" ≠ "" ∧ token a ≠ "" ∧
    Fields (header_Get (ReqHeader r) "Authorization") = [scheme; token a] ∧ EqualFold scheme "Bearer" = true.
Proof.
  unfold Authenticate. destruct (peerCertificates r) as [|leaf rest]; [split; [done|by intros (?&?&?&?&_)]|].
  unfold chainOk, bearerToken. split.
  - intros H. destruct (negb _) eqn:Hc; [done|]. apply negb_false_iff in Hc. case_decide as Hh; [done|].
    destruct (Fields _) as [|scheme [|tok [|]]] eqn:Ef; try done. destruct (EqualFold scheme "Bearer") eqn:Es; [|done].
    repeat case_decide; try done. subst tok. exists leaf, rest, scheme. split_and!; try done. intros roots E. by rewrite E in Hc.
  - intros (leaf' & rest' & scheme & [= <- <-] & Hc & Hh & Ht & Ef & Es).
    assert (negb (match clientCAs a with Some roots => VerifyChain roots leaf rest | None => true end) = false) as ->
      by (destruct (clientCAs a); [by rewrite Hc|done]).
    rewrite decide_False, Ef, Es by done. rewrite decide_False by done. by rewrite decide_False by auto.
Qed.

(** ** The lock-out *)

Inductive event := EAllow (now : Time) (addr : string) | EFail (now : Time) (addr : string) | EReset (addr : string).
Definition step (l : RateLimiter) (e : event) : RateLimiter :=
  match e with
  | EAllow now addr => (Allow now addr l).1
  | EFail now addr => RecordFailure now addr l
  | EReset addr => ResetFailures addr l
  end.
(** The events of a period. *)
Definition during (t0 t1 : Time) (e : event) : Prop :=
  match e with EAllow now _ | EFail now _ => t0 ≤ now < t1 | EReset _ => True end.
Definition resets (ip : string) (e : event) : bool := match e with EReset addr => bool_decide (clientIP addr = ip) | _ => false end.

Lemma Allow_failures now addr l : failures (Allow now addr l).1 = failures l.
Proof. unfold Allow. destruct (blocked _ _ _); [done|]. by case_match. Qed.
Lemma step_settings l e : maxFailures (step l e) = maxFailures l ∧ blockFor (step l e) = blockFor l.
Proof.
  destruct e as [now addr|now addr|addr]; simpl.
  - unfold Allow. destruct (blocked _ _ _); [done|]. by case_match.
  - unfold RecordFailure. by case_match.
  - unfold ResetFailures. by case_match.
Qed.
(** A block that has begun lasts: nothing during it moves its end. *)
Lemma step_blocked ip t0 till l e st :
  during t0 till e → failures l !! ip = Some st → blockedTill st = till →
  ∃ st', failures (step l e) !! ip = Some st' ∧ blockedTill st' = till ∧ (resets ip e = false → count st' = count st).
Proof.
  intros Hd Hst Ht. destruct e as [now addr|now addr|addr]; simpl in *.
  - rewrite Allow_failures. by exists st.
  - unfold RecordFailure. destruct (decide (clientIP addr = ip)) as [E|E].
    + rewrite E, Hst. simpl. rewrite Ht. destruct (Z.ltb_spec now till); [|lia]. simpl. rewrite lookup_insert_eq. by exists st.
    + case_match; simpl; rewrite lookup_insert_ne by done; by exists st.
  - unfold ResetFailures. destruct (decide (clientIP addr = ip)) as [E|E].
    + rewrite E, Hst. simpl. rewrite lookup_insert_eq. eexists. split_and!; [done..|]. by rewrite bool_decide_true.
    + case_match; simpl; rewrite ?lookup_insert_ne by done; by exists st.
Qed.
Lemma steps_blocked ip t0 till l evs st :
  Forall (during t0 till) evs → failures l !! ip = Some st → blockedTill st = till →
  ∃ st', failures (foldl step l evs) !! ip = Some st' ∧ blockedTill st' = till ∧
         (forallb (λ e, negb (resets ip e)) evs = true → count st' = count st) ∧
         maxFailures (foldl step l evs) = maxFailures l ∧ blockFor (foldl step l evs) = blockFor l.
Proof.
  intros Hd. revert l st. induction Hd as [|e evs He _ IH]; intros l st Hst Ht; [by exists st|]. simpl.
  destruct (step_blocked ip t0 till l e st) as (st1 & H1 & H2 & H3); [done..|].
  destruct (IH (step l e) st1 H1 H2) as (st' & H4 & H5 & H6 & H7 & H8). destruct (step_settings l e) as [E1 E2].
  exists st'. split_and!; [done..| |congruence|congruence]. intros [Hr Hrs]%andb_prop. rewrite H6 by done. apply H3. by destruct (resets ip e).
Qed.

(** The failure that reaches the limit locks its address out for the whole
    block: every request from the address is refused, whatever any client
    does in the meantime, a successful login included.  And the count is kept:
    without a successful login, the first failure after the block starts the
    next one. *)
Theorem admin_lockout l addr t0 evs :
  let ip := clientIP addr in
  let n := default 0 (count <$> failures l !! ip) in
  let l' := foldl step (RecordFailure t0 addr l) evs in
  zeroTime ≤ t0 → blocked l ip t0 = false → maxFailures l ≤ n + 1 → 0 < blockFor l → Forall (during t0 (t0 + blockFor l)) evs →
  (∀ t addr', clientIP addr' = ip → t < t0 + blockFor l → Allow t addr' l' = (l', false)) ∧
  (forallb (λ e, negb (resets ip e)) evs = true → 0 ≤ n →
   ∀ t1 t, t0 + blockFor l ≤ t1 → t < t1 + blockFor l → blocked (RecordFailure t1 addr l') ip t = true).
Proof.
  intros ip n l' Hz Hb Hn Hpos Hd.
  assert (failures (RecordFailure t0 addr l) !! ip = Some (mkFailureState (n + 1) (t0 + blockFor l))) as Hst.
  { unfold RecordFailure. fold ip. unfold blocked in Hb. clearbody ip.
    assert (count (default (mkFailureState 0 zeroTime) (failures l !! ip)) = n) as -> by (unfold n; by destruct (failures l !! ip)).
    assert (t0 <? blockedTill (default (mkFailureState 0 zeroTime) (failures l !! ip)) = false) as ->
      by (destruct (failures l !! ip); simpl; [done|lia]).
    simpl. rewrite lookup_insert_eq. by rewrite (proj2 (Z.leb_le _ _) Hn). }
  assert (blockFor (RecordFailure t0 addr l) = blockFor l ∧ maxFailures (RecordFailure t0 addr l) = maxFailures l) as [Eb Em]
    by (unfold RecordFailure; by case_match).
  destruct (steps_blocked ip t0 (t0 + blockFor l) _ evs _ Hd Hst eq_refl) as (st & H1 & H2 & H3 & H4 & H5). fold l' in H1, H4, H5.
  split.
  - intros t addr' E Ht. unfold Allow, blocked. rewrite E, H1, H2. by rewrite (proj2 (Z.ltb_lt _ _) Ht).
  - intros Hr Hn0 t1 t Ht1 Ht. unfold RecordFailure. fold ip. rewrite H1. simpl. rewrite H2.
    destruct (Z.ltb_spec t1 (t0 + blockFor l)); [lia|]. unfold blocked. simpl. rewrite lookup_insert_eq. simpl.
    rewrite H4, H5, Em, Eb, H3 by done. simpl. destruct (Z.leb_spec (maxFailures l) (n + 1 + 1)); [|lia]. by apply Z.ltb_lt.
Qed.

Lemma admin_lockout_witness :
  let l := NewRateLimiter 0 0 1 0 in
  (Allow (5 * Minute) "10.0.0.7:99" (foldl step (RecordFailure Minute "10.0.0.7:1" l) [EReset "10.0.0.7:2"; EAllow (2 * Minute) "10.0.0.8:1"])).2 = false.
Proof.
  intros l. rewrite (proj1 (admin_lockout l "10.0.0.7:1" Minute [EReset "10.0.0.7:2"; EAllow (2 * Minute) "10.0.0.8:1"]
    ltac:(vm_compute; discriminate) eq_refl ltac:(vm_compute; discriminate) eq_refl ltac:(by repeat constructor)) (5 * Minute) "10.0.0.7:99"); done.
Defined.
Example admin_burst :
  ((λ n, (Allow Minute "10.0.0.7:1" (foldl (λ l _, (Allow Minute "10.0.0.7:1" l).1) (NewRateLimiter 0 0 0 0) (seq 0 n))).2) <$> [0; 9; 10]%nat)
  = [true; true; false].
Proof. vm_compute. reflexivity. Qed.

(** ** The history *)

Definition history_ok (s : AdminStore) : Prop :=
  (length (previous s) ≤ bundleHistoryLimit)%nat ∧ (current s ≠ "" → is_Some (bundles s !! current s)) ∧
  Forall (λ v, v ≠ "" ∧ is_Some (bundles s !! v)) (previous s) ∧ (∀ v b, bundles s !! v = Some b → version b = v).
Lemma Record_history b s : history_ok s → history_ok (Record_ b s).
Proof.
  intros (H1 & H2 & H3 & H4). unfold Record_. case_decide as Hv; [done|]. set (s1 := if decide _ then s else _).
  assert ((length (previous s1) ≤ bundleHistoryLimit)%nat ∧ Forall (λ v, v ≠ "" ∧ is_Some (bundles s !! v)) (previous s1) ∧ bundles s1 = bundles s)
    as (E1 & E2 & E3).
  { unfold s1. case_decide as Hc; [done|]. split_and!; [apply List.firstn_le_length| |done].
    apply Forall_take, Forall_cons. split; [split; [naive_solver|apply H2; naive_solver]|done]. }
  split_and!; simpl; rewrite ?E3.
  - done.
  - intros _. rewrite lookup_insert_eq. by eexists.
  - eapply Forall_impl; [exact E2|]. intros v [Hne Hs]. split; [done|]. rewrite lookup_insert_is_Some'. by right.
  - intros v c. destruct (decide (version b = v)) as [<-|Hne]; [rewrite lookup_insert_eq; by intros [= <-]|].
    rewrite lookup_insert_ne by done. apply H4.
Qed.

(** The history of the admin API: after any sequence of applies, the current
    version's bundle is at hand, so is every version of the at most 20
    remembered ones, the latest bundle is the last one applied, and the one a
    rollback takes is the last applied before with another version. *)
Theorem admin_history bs b :
  let s := foldl (λ s b, Record_ b s) NewStore bs in
  history_ok s ∧ (previous s ≠ [] → is_Some (Previous s)) ∧
  (version b ≠ "" → Latest (Record_ b s) = Some b ∧
     (current s ≠ "" → current s ≠ version b → Previous (Record_ b s) = Latest s)).
Proof.
  intros s. assert (history_ok s) as Hs.
  { unfold s. rewrite <- (rev_involutive bs). generalize (rev bs) as l. induction l as [|x l IH]; simpl.
    - split_and!; simpl; [lia|done|constructor|]. intros v c. by rewrite lookup_empty.
    - rewrite foldl_app. by apply Record_history. }
  clearbody s. pose proof Hs as (H1 & H2 & H3 & _). split_and!; [done| |].
  - unfold Previous. destruct (previous s) as [|v l]; [done|]. intros _. apply Forall_cons in H3 as [[_ ?] _]. done.
  - intros Hv. unfold Record_, Latest, Previous. rewrite (decide_False (P := version b = "")) by done. split; [simpl; by rewrite decide_False, lookup_insert_eq|].
    intros Hc Hne. rewrite (decide_False (P := current s = "" ∨ current s = version b)) by naive_solver. simpl.
    rewrite lookup_insert_ne by done. by rewrite decide_False.
Qed.
Lemma admin_history_witness :
  let s := foldl (λ s b, Record_ b s) NewStore [demo_bundle "v1" "a"] in Previous (Record_ (demo_bundle "v2" "b") s) = Latest s.
Proof.
  intros s. by apply (proj2 (proj2 (admin_history [demo_bundle "v1" "a"] (demo_bundle "v2" "b")))).
Defined.
