(* ===== verification/Proxy.v ===== *)
(** * Writing responses (internal/proxy: responsewrap.go, errors.go, and the writers of engine.go and handler.go)

    [Writer] is the part of net/http's [ResponseWriter] the proxy relies on:
    the first final [WriteHeader] fixes status and headers, informational
    statuses (1xx except 101) are passed on, later calls are ignored, and a
    status outside 100..999 panics.  A body is recorded when the status
    allows one.  [encodeJSON] is encoding/json's encoder. *)
From S2P Require Import Prelude.
From S2P Require Import GoStrings.
From S2P Require Import GoError.
From S2P Require Import Http.
From S2P Require Import CacheStore.
From S2P Require Import CacheKey.

(** ** Computations that can panic

    [Panicked s] is the state at the moment of the panic. *)
Inductive outcome (S A : Type) : Type :=
| Done (s : S) (a : A)
| Panicked (s : S).
Arguments Done {S A} s a.
Arguments Panicked {S A} s.

Definition bindM {S A B} (m : S → outcome S A) (k : A → S → outcome S B) (s : S) : outcome S B :=
  match m s with Done s a => k a s | Panicked s => Panicked s end.
Definition retM {S A} (a : A) (s : S) : outcome S A := Done s a.
Definition modifyM {S} (f : S → S) (s : S) : outcome S unit := Done (f s) tt.
Definition finalState {S A} (o : outcome S A) : S := match o with Done s _ | Panicked s => s end.
Notation "'let!' x ':=' m 'in' k" := (bindM m (fun x => k))
  (at level 10, x pattern, m at level 100, k at level 200) : go_scope.
Notation "m ';;!' k" := (bindM m (fun _ => k)) (at level 100, right associativity) : go_scope.

(** A relation between the states before and after, whether the computation
    returns or panics. *)
Definition stays {S A} (R : S → S → Prop) (m : S → outcome S A) : Prop := ∀ s, R s (finalState (m s)).

Section Stays.
Context {S : Type} (R : S → S → Prop) `{!PreOrder R}.
Lemma stays_bind {A B} (m : S → outcome S A) (k : A → S → outcome S B) : stays R m → (∀ a, stays R (k a)) → stays R (bindM m k).
Proof.
  intros Hm Hk s. unfold bindM. specialize (Hm s). destruct (m s) as [s' a|s']; simpl in *; [|done].
  etrans; [exact Hm|apply Hk].
Qed.
Lemma stays_ret {A} (a : A) : stays R (retM a).
Proof. intros s. simpl. reflexivity. Qed.
Lemma stays_modify f : (∀ s, R s (f s)) → stays R (modifyM f).
Proof. intros H s. apply H. Qed.
Lemma stays_read {A} (f : S → A) : stays R (λ s, Done s (f s)).
Proof. intros s. simpl. reflexivity. Qed.
End Stays.

(** The case analysis of a computation; the leaves are in the database. *)
Create HintDb stays.
Ltac stay :=
  repeat first
    [ solve [auto with stays] | apply stays_ret, _ | apply stays_read, _ | apply stays_bind; [apply _|..|intros ?]
    | progress intros | progress cbv zeta | case_match ].

(** ** The response writer *)

Record Writer := mkWriter {
  w_header : Header;
  w_sent : option (Z * Header);
  w_info : list Z;
  w_body : string
}.
#[export] Instance Writer_eta : Eta Writer := fun w => mkWriter (w_header w) (w_sent w) (w_info w) (w_body w).

Definition newWriter : Writer := mkWriter ∅ None [] "".

Definition bodyAllowed (status : Z) : bool :=
  negb (((100 <=? status) && (status <=? 199)) || (status =? 204) || (status =? 304)).

(** [None] is the panic of [checkWriteHeaderCode]. *)
Definition writeHeader (w : Writer) (status : Z) : option Writer :=
  match w_sent w with
  | Some _ => Some w
  | None =>
      if (status <? 100) || (999 <? status) then None
      else if (100 <=? status) && (status <=? 199) && negb (status =? 101) then Some (w <| w_info ::= (λ l, l ++ [status]) |>)
      else Some (w <| w_sent := Some (status, w_header w) |>)
  end.

(** The writer after [Write] and the number of bytes accepted. *)
Definition writeBody (w : Writer) (bytes : string) : Writer * Z :=
  let w := match w_sent w with Some _ => w | None => w <| w_sent := Some (200, w_header w) |> end in
  match w_sent w with
  | Some (status, _) => if bodyAllowed status then (w <| w_body ::= (λ b, b ++ bytes)%string |>, slen bytes) else (w, 0)
  | None => (w, 0)
  end.

(** ** responsewrap.go *)

Record ResponseRecorder := mkRecorder {
  writer : Writer;
  status : Z;
  bytesWritten : Z;
  wroteHeader : bool;
  errorCategory : string
}.
#[export] Instance ResponseRecorder_eta : Eta ResponseRecorder := fun r =>
  mkRecorder (writer r) (status r) (bytesWritten r) (wroteHeader r) (errorCategory r).

Definition NewResponseRecorder (w : Writer) : ResponseRecorder := mkRecorder w 200 0 false "".

Definition setHeader (key value : string) (r : ResponseRecorder) : outcome ResponseRecorder unit :=
  Done (r <| writer ::= (λ w, w <| w_header ::= (λ h, header_Set h key value) |>) |>) tt.

Definition WriteHeader (code : Z) (r : ResponseRecorder) : outcome ResponseRecorder unit :=
  let r := if wroteHeader r then r else r <| status := code |> <| wroteHeader := true |> in
  match writeHeader (writer r) code with
  | Some w => Done (r <| writer := w |>) tt
  | None => Panicked r
  end.

Definition Write (bytes : string) : ResponseRecorder → outcome ResponseRecorder unit :=
  let! written := (λ r, Done r (wroteHeader r)) in
  (if written then retM tt else WriteHeader 200) ;;!
  λ r, let '(w, n) := writeBody (writer r) bytes in Done (r <| writer := w |> <| bytesWritten := i64 (bytesWritten r + n) |>) tt.

Definition SetErrorCategory (category : string) (r : ResponseRecorder) : outcome ResponseRecorder unit :=
  Done (r <| errorCategory := category |>) tt.

(** ** errors.go *)

Definition RequestIDHeader : string := "X-Request-Id".

(** [random] is what the random source gives, sixteen bytes or an error. *)
Definition NewRequestID (random : option (list ascii)) : string := match random with Some buf => hexEncode buf | None => "" end.

Record ProxyErrorBody := mkErrorBody { BodyStatus : Z; BodyRequestID : string; BodyCategory : string; BodyMessage : string }.

Section Writers.
Context (encodeJSON : ProxyErrorBody → string).

Definition WriteProxyError (requestID : string) (code : Z) (category message : string) : ResponseRecorder → outcome ResponseRecorder unit :=
  SetErrorCategory category ;;!
  setHeader RequestIDHeader requestID ;;!
  setHeader "Content-Type" "application/json" ;;!
  WriteHeader code ;;!
  Write (encodeJSON (mkErrorBody code requestID category message)).

Definition WriteOverload (requestID : string) : ResponseRecorder → outcome ResponseRecorder unit :=
  setHeader "Retry-After" "1" ;;! WriteProxyError requestID 503 "overloaded" "overloaded".

(** ** Copying responses

    [copyHeaders] adds every value of every key; [src] is given in the order
    Go visits the map, the values of one key stay in order. *)
Definition copyHeaders (dst : Header) (src : list (string * list string)) : Header :=
  foldl (λ dst kv, foldl (λ dst v, header_Add dst kv.1 v) dst kv.2) dst src.

(** [io.Copy]: what the body yields before it ends or fails.  The body is
    closed afterwards; a nil body does not occur in a transport's response. *)
Definition WriteUpstreamResponse (resp : Response) (requestID : string) : ResponseRecorder → outcome ResponseRecorder unit :=
  (λ r, Done (r <| writer ::= (λ w, w <| w_header ::= (λ h, copyHeaders h (map_to_list (RespHeader resp))) |>) |>) tt) ;;!
  setHeader RequestIDHeader requestID ;;!
  WriteHeader (StatusCode resp) ;;!
  match RespBody resp with
  | Some b => if decide (data b = "") then retM tt else Write (data b)
  | None => retM tt
  end.

Definition writeCachedResponse (entry : Entry) (requestID method : string) : ResponseRecorder → outcome ResponseRecorder unit :=
  (λ r, Done (r <| writer ::= (λ w, w <| w_header ::= (λ h, copyHeaders h (map_to_list (EntryHeader entry))) |>) |>) tt) ;;!
  setHeader RequestIDHeader requestID ;;!
  WriteHeader (CacheStore.Status entry) ;;!
  (if decide (method = "HEAD") then retM tt else Write (EntryBody entry)).

(** The recovery in the deferred function of [ServeHTTP]. *)
Definition recoverPanic (requestID : string) : ResponseRecorder → outcome ResponseRecorder unit :=
  SetErrorCategory "panic" ;;!
  let! written := (λ r, Done r (wroteHeader r)) in
  if written then retM tt else WriteProxyError requestID 500 "panic" "internal server error".

End Writers.

(** What the client gets when the handler returns: net/http sends 200 when no
    status has been sent. *)
Definition clientStatus (w : Writer) : Z := match w_sent w with Some (code, _) => code | None => 200 end.

(** ** What the client receives *)

(** Nothing has been written yet. *)
Definition fresh (r : ResponseRecorder) : Prop := wroteHeader r = false ∧ w_sent (writer r) = None ∧ w_body (writer r) = "".

(** An error response with this status and category has been sent. *)
Definition error_sent (encodeJSON : ProxyErrorBody → string) (requestID : string) (code : Z) (category message : string)
    (r : ResponseRecorder) : Prop :=
  status r = code ∧ errorCategory r = category ∧ wroteHeader r = true ∧
  w_body (writer r) = encodeJSON (mkErrorBody code requestID category message) ∧
  ∃ h, w_sent (writer r) = Some (code, h) ∧ header_Get h RequestIDHeader = requestID ∧ header_Get h "Content-Type" = "application/json".

Lemma header_Get_Set h k v : header_Get (header_Set h k v) k = v.
Proof. unfold header_Get, header_Values, header_Set. by rewrite lookup_insert_eq. Qed.
Lemma header_Get_Set_ne h k k' v : CanonicalHeaderKey k ≠ CanonicalHeaderKey k' → header_Get (header_Set h k v) k' = header_Get h k'.
Proof. intros. unfold header_Get, header_Values, header_Set. by rewrite lookup_insert_ne. Qed.

Lemma WriteProxyError_fresh encodeJSON requestID code category message r :
  fresh r → 200 ≤ code ≤ 999 → code ≠ 204 → code ≠ 304 →
  ∃ r', WriteProxyError encodeJSON requestID code category message r = Done r' tt ∧
        error_sent encodeJSON requestID code category message r'.
Proof.
  intros (H1 & H2 & H3) Hc H204 H304. unfold WriteProxyError, bindM, SetErrorCategory, setHeader. simpl.
  unfold WriteHeader. simpl. rewrite H1. simpl. unfold writeHeader. simpl. rewrite H2.
  rewrite (proj2 (Z.ltb_ge code 100)), (proj2 (Z.ltb_ge 999 code)) by lia. simpl.
  assert ((100 <=? code) && (code <=? 199) && negb (code =? 101) = false) as ->.
  { rewrite (proj2 (Z.leb_gt code 199)) by lia. by rewrite andb_false_r. }
  unfold Write, bindM. simpl. unfold retM, writeBody. simpl.
  assert (bodyAllowed code = true) as ->.
  { unfold bodyAllowed. rewrite (proj2 (Z.leb_gt code 199)), (proj2 (Z.eqb_neq code 204)), (proj2 (Z.eqb_neq code 304)) by lia.
    by rewrite andb_false_r. }
  eexists. split; [reflexivity|]. unfold error_sent. simpl. rewrite H3. split_and!; try done.
  eexists. split; [done|]. split; [|apply header_Get_Set].
  rewrite header_Get_Set_ne by (vm_compute; done). apply header_Get_Set.
Qed.
