(* ===== verification/PluginProto.v ===== *)
(** * The plugin protocol (internal/plugin/proto and client.go)

    The messages of filter.proto with their accessors, the client stub, the
    server side's handlers and service description, and the proxy's client
    around the stub.  A connection is google.golang.org/grpc's: what [Invoke]
    answers to a message is a parameter, of which nothing is assumed. *)
From S2P Require Import Prelude.
From S2P Require Import GoStrings.
From S2P Require Import GoError.

(** ** gen.go: the messages

    A pointer to a message is an [option]; [None] is nil, as it is for maps
    and byte slices. *)

Definition ApplyRequestResponse_CONTINUE : Z := 0.
Definition ApplyRequestResponse_RESPOND : Z := 1.
Definition ApplyRequestResponse_Action_name : gmap Z string := {[0 := "CONTINUE"; 1 := "RESPOND"]}.
Definition ApplyRequestResponse_Action_value : gmap string Z := {["CONTINUE" := 0; "RESPOND" := 1]}.

Record ApplyRequestRequest := mkApplyRequestRequest {
  arq_RequestId : string;
  arq_RouteId : string;
  arq_Method : string;
  arq_Host : string;
  arq_Path : string;
  arq_Headers : option (gmap string string);
  arq_BodyPreview : option string
}.
Definition noRequestRequest : ApplyRequestRequest := mkApplyRequestRequest "" "" "" "" "" None None.
Definition GetRequestId (x : option ApplyRequestRequest) : string := match x with Some m => arq_RequestId m | None => "" end.
Definition GetRouteId (x : option ApplyRequestRequest) : string := match x with Some m => arq_RouteId m | None => "" end.
Definition GetMethod (x : option ApplyRequestRequest) : string := match x with Some m => arq_Method m | None => "" end.
Definition GetHost (x : option ApplyRequestRequest) : string := match x with Some m => arq_Host m | None => "" end.
Definition GetPath (x : option ApplyRequestRequest) : string := match x with Some m => arq_Path m | None => "" end.
Definition GetHeaders (x : option ApplyRequestRequest) : option (gmap string string) := match x with Some m => arq_Headers m | None => None end.
Definition GetBodyPreview (x : option ApplyRequestRequest) : option string := match x with Some m => arq_BodyPreview m | None => None end.

Record ApplyRequestResponse := mkApplyRequestResponse {
  ars_Action : Z;
  ars_MutatedHeaders : option (gmap string string);
  ars_ResponseStatus : Z;
  ars_ResponseHeaders : option (gmap string string);
  ars_ResponseBody : option string
}.
Definition noRequestResponse : ApplyRequestResponse := mkApplyRequestResponse 0 None 0 None None.
Definition GetAction (x : option ApplyRequestResponse) : Z := match x with Some m => ars_Action m | None => ApplyRequestResponse_CONTINUE end.
Definition GetMutatedHeaders (x : option ApplyRequestResponse) : option (gmap string string) :=
  match x with Some m => ars_MutatedHeaders m | None => None end.
Definition GetResponseStatus (x : option ApplyRequestResponse) : Z := match x with Some m => ars_ResponseStatus m | None => 0 end.
Definition GetResponseHeaders (x : option ApplyRequestResponse) : option (gmap string string) :=
  match x with Some m => ars_ResponseHeaders m | None => None end.
Definition GetResponseBody (x : option ApplyRequestResponse) : option string := match x with Some m => ars_ResponseBody m | None => None end.

Record ApplyResponseRequest := mkApplyResponseRequest {
  aprq_RequestId : string;
  aprq_RouteId : string;
  aprq_UpstreamStatus : Z;
  aprq_UpstreamHeaders : option (gmap string string)
}.
Definition noResponseRequest : ApplyResponseRequest := mkApplyResponseRequest "" "" 0 None.
Definition Response_GetRequestId (x : option ApplyResponseRequest) : string := match x with Some m => aprq_RequestId m | None => "" end.
Definition Response_GetRouteId (x : option ApplyResponseRequest) : string := match x with Some m => aprq_RouteId m | None => "" end.
Definition GetUpstreamStatus (x : option ApplyResponseRequest) : Z := match x with Some m => aprq_UpstreamStatus m | None => 0 end.
Definition GetUpstreamHeaders (x : option ApplyResponseRequest) : option (gmap string string) :=
  match x with Some m => aprq_UpstreamHeaders m | None => None end.

Record ApplyResponseResponse := mkApplyResponseResponse { aprs_MutatedHeaders : option (gmap string string) }.
Definition noResponseResponse : ApplyResponseResponse := mkApplyResponseResponse None.
Definition Response_GetMutatedHeaders (x : option ApplyResponseResponse) : option (gmap string string) :=
  match x with Some m => aprs_MutatedHeaders m | None => None end.

(** ** filter_grpc.pb.go: the service *)

(** An error of a call, with its status code. *)
Record rpcError := mkRPCError { rpc_error : error; rpc_code : Z; rpc_message : string }.
Definition codesCanceled : Z := 1.
Definition codesDeadlineExceeded : Z := 4.
Definition codesUnimplemented : Z := 12.
(** [status.Errorf]; a status wraps no error. *)
Definition statusError (code : Z) (message : string) : rpcError := mkRPCError (mkError None None []) code message.

(** The types a call takes and answers; each call is made with a new message
    of the answer's type to decode into. *)
Inductive messageType := TRequestRequest | TRequestResponse | TResponseRequest | TResponseResponse.
Definition message (t : messageType) : Type :=
  match t with
  | TRequestRequest => ApplyRequestRequest
  | TRequestResponse => ApplyRequestResponse
  | TResponseRequest => ApplyResponseRequest
  | TResponseResponse => ApplyResponseResponse
  end.

Definition FilterService_ApplyRequest_FullMethodName : string := "/pluginpb.FilterService/ApplyRequest".
Definition FilterService_ApplyResponse_FullMethodName : string := "/pluginpb.FilterService/ApplyResponse".

(** [cc.Invoke]: the error, or the decoded answer. *)
Definition ClientConn : Type := string → ∀ i o, message i → rpcError + message o.

Definition client_ApplyRequest (cc : ClientConn) (req : ApplyRequestRequest) : rpcError + ApplyRequestResponse :=
  match cc FilterService_ApplyRequest_FullMethodName TRequestRequest TRequestResponse req with
  | inl e => inl e
  | inr out => inr out
  end.
Definition client_ApplyResponse (cc : ClientConn) (req : ApplyResponseRequest) : rpcError + ApplyResponseResponse :=
  match cc FilterService_ApplyResponse_FullMethodName TResponseRequest TResponseResponse req with
  | inl e => inl e
  | inr out => inr out
  end.

Record FilterServiceServer := mkServer {
  ApplyRequest : ApplyRequestRequest → rpcError + ApplyRequestResponse;
  ApplyResponse : ApplyResponseRequest → rpcError + ApplyResponseResponse
}.
Definition UnimplementedFilterServiceServer : FilterServiceServer :=
  mkServer (λ _, inl (statusError codesUnimplemented "method ApplyRequest not implemented"))
           (λ _, inl (statusError codesUnimplemented "method ApplyResponse not implemented")).

(** An interceptor is given the message, the full name of the method and the
    method itself. *)
Definition Interceptor (i o : messageType) : Type := message i → string → (message i → rpcError + message o) → rpcError + message o.

(** [dec] is the message, or why it cannot be decoded. *)
Definition FilterService_ApplyRequest_Handler (srv : FilterServiceServer) (dec : rpcError + ApplyRequestRequest)
    (interceptor : option (Interceptor TRequestRequest TRequestResponse)) : rpcError + ApplyRequestResponse :=
  match dec with
  | inl e => inl e
  | inr req =>
      match interceptor with
      | None => ApplyRequest srv req
      | Some f => f req FilterService_ApplyRequest_FullMethodName (λ req, ApplyRequest srv req)
      end
  end.
Definition FilterService_ApplyResponse_Handler (srv : FilterServiceServer) (dec : rpcError + ApplyResponseRequest)
    (interceptor : option (Interceptor TResponseRequest TResponseResponse)) : rpcError + ApplyResponseResponse :=
  match dec with
  | inl e => inl e
  | inr req =>
      match interceptor with
      | None => ApplyResponse srv req
      | Some f => f req FilterService_ApplyResponse_FullMethodName (λ req, ApplyResponse srv req)
      end
  end.

Record MethodDesc := mkMethodDesc {
  MethodName : string;
  takes : messageType;
  answers : messageType;
  MethodHandler : FilterServiceServer → rpcError + message takes → option (Interceptor takes answers) → rpcError + message answers
}.
Record ServiceDesc := mkServiceDesc { ServiceName : string; Methods : list MethodDesc }.
Definition FilterService_ServiceDesc : ServiceDesc :=
  mkServiceDesc "pluginpb.FilterService"
    [mkMethodDesc "ApplyRequest" TRequestRequest TRequestResponse FilterService_ApplyRequest_Handler;
     mkMethodDesc "ApplyResponse" TResponseRequest TResponseResponse FilterService_ApplyResponse_Handler].

(** ** client.go *)

(** The error of a call on a connection that is closing. *)
Definition ErrClientConnClosing : rpcError := statusError codesCanceled "grpc: the client connection is closing".
Definition Client_ApplyRequest (c : option ClientConn) (req : ApplyRequestRequest) : rpcError + ApplyRequestResponse :=
  match c with None => inl ErrClientConnClosing | Some cc => client_ApplyRequest cc req end.
Definition Client_ApplyResponse (c : option ClientConn) (req : ApplyResponseRequest) : rpcError + ApplyResponseResponse :=
  match c with None => inl ErrClientConnClosing | Some cc => client_ApplyResponse cc req end.
