(* ===== verification/PluginFilters.v ===== *)
(** * Running filter plugins (internal/proxy/plugins.go)

    The request and response phases.  What the outside contributes to the
    call of one filter (whether the request's context has ended, the dial,
    the connection, which answers whatever message it is given, the order in
    which Go visits a map of the answer, clock readings) is a [callEnv].
    [msgHeader] is the header of the message a phase may mutate: the
    request's, or the upstream response's.  The counters of plugins do not
    read the clock. *)
From S2P Require Import Prelude.
From S2P Require Import Metrics.
From S2P Require Import GoStrings.
From S2P Require Import GoError.
From S2P Require Import Http.
From S2P Require Import Plugin.
From S2P Require Import Proxy.
From S2P Require Import PluginProto.

Record pluginTracking := mkTracking {
  bypassed : bool;
  bypassReason : string;
  failureMode : string;
  shortCircuit : bool;
  mutationDenied : bool
}.
#[export] Instance pluginTracking_eta : Eta pluginTracking := fun t =>
  mkTracking (bypassed t) (bypassReason t) (failureMode t) (shortCircuit t) (mutationDenied t).
Definition newTracking : pluginTracking := mkTracking false "" "" false false.

Definition markFailureMode (mode : FailureMode) (t : pluginTracking) : pluginTracking :=
  if decide (failureMode t = "") then t <| failureMode := FailureMode_String mode |> else t.
Definition markBypass (reason : string) (mode : FailureMode) (t : pluginTracking) : pluginTracking :=
  let t := t <| bypassed := true |> in
  let t := if decide (bypassReason t = "") then t <| bypassReason := reason |> else t in
  markFailureMode mode t.
Definition markShortCircuit (t : pluginTracking) : pluginTracking := t <| shortCircuit := true |>.
Definition markMutationDenied (t : pluginTracking) : pluginTracking := t <| mutationDenied := true |>.

(** The error of a gRPC call: [errors.Is] and [status.Code] decide. *)
Definition pluginErrorResult (e : rpcError) : string :=
  if Is (rpc_error e) DeadlineExceeded then "timeout" else if rpc_code e =? codesDeadlineExceeded then "timeout" else "error".

Record callEnv := mkCallEnv {
  ctxDone : bool;
  dialErr : option string;
  conn : ClientConn;
  visit : gmap string string → list (string * string);
  allowAt : Time;
  reportAt : Time
}.
(** The entries of a map in an answer; nil has none. *)
Definition entries (env : callEnv) (m : option (gmap string string)) : list (string * string) :=
  match m with Some m => visit env m | None => [] end.

Record PState := mkPState {
  recorder : ResponseRecorder;
  registry : option Plugin.Registry;
  tracking : pluginTracking;
  msgHeader : Header;
  metrics : option Metrics;
  bodyClosed : bool
}.
#[export] Instance PState_eta : Eta PState := fun s =>
  mkPState (recorder s) (registry s) (tracking s) (msgHeader s) (metrics s) (bodyClosed s).

Definition onRecorder {A} (m : ResponseRecorder → outcome ResponseRecorder A) (s : PState) : outcome PState A :=
  match m (recorder s) with
  | Done r a => Done (s <| recorder := r |>) a
  | Panicked r => Panicked (s <| recorder := r |>)
  end.
Definition track (f : pluginTracking → pluginTracking) : PState → outcome PState unit := modifyM (λ s, s <| tracking ::= f |>).
Definition note (o : operation) : PState → outcome PState unit := modifyM (λ s, s <| metrics ::= fmap (perform 0 o) |>).

(** [GetBreaker(key, cfg)] and [Allow]; [Report] on the same breaker. *)
Definition allowFilter (key : string) (cfg : BreakerConfig) (now : Time) (r : Plugin.Registry) : Plugin.Registry * bool :=
  let r := GetBreaker r key cfg in
  match breakers r !! key with
  | None => (r, true)
  | Some b => let '(b, (_, allowed)) := Allow b now in (r <| breakers ::= <[key := b]> |>, allowed)
  end.
Definition reportFilter (key : string) (success : bool) (now : Time) (r : Plugin.Registry) : Plugin.Registry :=
  match breakers r !! key with
  | None => r
  | Some b => r <| breakers ::= <[key := (Report b success now).1]> |>
  end.
Definition report (key : string) (success : bool) (env : callEnv) : PState → outcome PState unit :=
  modifyM (λ s, s <| registry ::= fmap (reportFilter key success (reportAt env)) |>).

(** What a filter is told of the request, and of the upstream's response. *)
Definition requestMessage (requestID routeID : string) (r : Request) (header : Header) : ApplyRequestRequest :=
  mkApplyRequestRequest requestID routeID (Method r) (Host r) (Path r) (HeadersToMap header) None.
Definition responseMessage (requestID routeID : string) (status : Z) (header : Header) : ApplyResponseRequest :=
  mkApplyResponseRequest requestID routeID (i32 status) (HeadersToMap header).

Section Filters.
Context (encodeJSON : ProxyErrorBody → string) (requestID routeID : string).

(** Returns whether the response has been written. *)
Definition handlePluginFailure (filter : Filter) (phase result : string) : PState → outcome PState bool :=
  note (ORecordPluginCall (Name filter) phase result) ;;!
  match FilterFailureMode filter with
  | FailureModeFailOpen =>
      note (ORecordPluginBypass (Name filter) result) ;;! track (markBypass result FailureModeFailOpen) ;;! retM false
  | FailureModeFailClose =>
      track (markFailureMode FailureModeFailClose) ;;!
      note (ORecordPluginFailClosed (Name filter)) ;;!
      onRecorder (WriteProxyError encodeJSON requestID 503
        (if decide (result = "timeout") then "plugin_timeout" else "plugin_unavailable") "plugin unavailable") ;;!
      retM true
  end.

(** The breaker refuses the call. *)
Definition breakerBypass (filter : Filter) (phase : string) : PState → outcome PState bool :=
  note (ORecordPluginCall (Name filter) phase "breaker_bypass") ;;!
  note (ORecordPluginBypass (Name filter) "breaker_open") ;;!
  track (markBypass "breaker_open" (FilterFailureMode filter)) ;;!
  match FilterFailureMode filter with
  | FailureModeFailClose =>
      track (markFailureMode FailureModeFailClose) ;;!
      note (ORecordPluginFailClosed (Name filter)) ;;!
      onRecorder (WriteProxyError encodeJSON requestID 503 "plugin_unavailable" "plugin unavailable") ;;!
      retM true
  | FailureModeFailOpen => retM false
  end.

(** The part both phases share: registry, breaker and client; then [call]. *)
Definition guardedCall (filter : Filter) (phase : string) (env : callEnv) (call : string → PState → outcome PState bool)
    (s : PState) : outcome PState bool :=
  match registry s with
  | None => handlePluginFailure filter phase "error" s
  | Some reg =>
      let key := (FilterKey (Name filter) (Addr filter) ++ ":" ++ phase)%string in
      let '(reg, allowed) := allowFilter key (FilterBreaker filter) (allowAt env) reg in
      let s := s <| registry := Some reg |> in
      if negb allowed then breakerBypass filter phase s
      else
        let '(reg, client) := GetClient reg (Addr filter) (dialErr env) in
        let s := s <| registry := Some reg |> in
        match client with
        | Err _ => (report key false env ;;! handlePluginFailure filter phase "error") s
        | Ok _ => call key s
        end
  end.

(** A failed call: reported to the breaker, then handled by failure mode. *)
Definition failCall (filter : Filter) (phase key result : string) (env : callEnv) : PState → outcome PState bool :=
  report key false env ;;! handlePluginFailure filter phase result.

Definition mutate (mutations : list (string * string)) (s : PState) : outcome PState unit :=
  let '(h, denied) := ApplyHeaderMutations (msgHeader s) mutations in
  let s := s <| msgHeader := h |> in
  Done (if denied then s <| tracking ::= markMutationDenied |> else s) tt.

Definition respond (name method : string) (code : Z) (headers : list (string * string)) (body : string) : PState → outcome PState bool :=
  (λ s, let '(h, denied) := ApplyHeaderMutations (w_header (writer (recorder s))) headers in
        let s := s <| recorder ::= (λ r, r <| writer ::= (λ w, w <| w_header := h |>) |>) |> in
        Done (if denied then s <| tracking ::= markMutationDenied |> else s) tt) ;;!
  onRecorder (setHeader RequestIDHeader requestID) ;;!
  onRecorder (WriteHeader code) ;;!
  (if decide (method = "HEAD") then retM tt else onRecorder (Write body)) ;;!
  track markShortCircuit ;;!
  note (ORecordPluginShortCircuit name) ;;!
  retM true.

(** The client is not nil when [GetClient] gives no error, and a stub that
    gives no error gives a message. *)
Definition requestFilter (r : Request) (filter : Filter) (env : callEnv) : PState → outcome PState bool :=
  guardedCall filter "request" env (λ key s,
    match Client_ApplyRequest (Some (conn env)) (requestMessage requestID routeID r (msgHeader s)) with
    | inl e => failCall filter "request" key (pluginErrorResult e) env s
    | inr answer =>
        let resp := Some answer in
        (if GetAction resp =? ApplyRequestResponse_CONTINUE then
           note (ORecordPluginCall (Name filter) "request" "success") ;;! report key true env ;;!
           mutate (entries env (GetMutatedHeaders resp)) ;;! retM false
         else if GetAction resp =? ApplyRequestResponse_RESPOND then
           if GetResponseStatus resp <=? 0 then failCall filter "request" key "error" env
           else
             note (ORecordPluginCall (Name filter) "request" "success") ;;! report key true env ;;!
             respond (Name filter) (Method r) (GetResponseStatus resp) (entries env (GetResponseHeaders resp)) (default "" (GetResponseBody resp))
         else failCall filter "request" key "error" env) s
    end).

(** The loop; the filters come with what happens to their calls. *)
Fixpoint requestFilters (r : Request) (calls : list (Filter * callEnv)) : PState → outcome PState bool :=
  match calls with
  | [] => retM false
  | (filter, env) :: calls =>
      if ctxDone env then retM false
      else let! stop := requestFilter r filter env in
           if stop then retM true else requestFilters r calls
  end.

Definition callsOf (plugins : Policy) (env : nat → callEnv) : list (Filter * callEnv) := imap (λ i f, (f, env i)) (Filters plugins).
Definition applyRequestPlugins (plugins : Policy) (r : Request) (env : nat → callEnv) : PState → outcome PState bool :=
  if negb (plugins_Enabled plugins) || bool_decide (Filters plugins = []) then retM false
  else requestFilters r (callsOf plugins env).

(** [resp.Body.Close()] when the response is replaced. *)
Definition closing (m : PState → outcome PState bool) : PState → outcome PState bool :=
  let! stop := m in if stop then modifyM (λ s, s <| bodyClosed := true |>) ;;! retM true else retM false.

Definition responseFilter (status : Z) (filter : Filter) (env : callEnv) : PState → outcome PState bool :=
  closing (guardedCall filter "response" env (λ key s,
    match Client_ApplyResponse (Some (conn env)) (responseMessage requestID routeID status (msgHeader s)) with
    | inl e => failCall filter "response" key (pluginErrorResult e) env s
    | inr answer =>
        (note (ORecordPluginCall (Name filter) "response" "success") ;;! report key true env ;;!
         mutate (entries env (Response_GetMutatedHeaders (Some answer))) ;;! retM false) s
    end)).

Fixpoint responseFilters (status : Z) (calls : list (Filter * callEnv)) : PState → outcome PState bool :=
  match calls with
  | [] => retM false
  | (filter, env) :: calls =>
      if ctxDone env then retM false
      else let! stop := responseFilter status filter env in
           if stop then retM true else responseFilters status calls
  end.

Definition applyResponsePlugins (plugins : Policy) (status : Z) (env : nat → callEnv) : PState → outcome PState bool :=
  if negb (plugins_Enabled plugins) || bool_decide (Filters plugins = []) then retM false
  else responseFilters status (callsOf plugins env).

End Filters.

(** ** What the phases report *)

Section Reports.
Context (encodeJSON : ProxyErrorBody → string) (requestID routeID : string).

(** The metrics hear of incidents only. *)
Definition reports_incidents (s s' : PState) : Prop := meters incidental (metrics s) (metrics s').
#[local] Instance reports_incidents_preorder : PreOrder reports_incidents.
Proof. split; [intros s; red; reflexivity|]. intros s1 s2 s3. unfold reports_incidents. apply transitivity. Qed.
Abbreviation incidents := (stays reports_incidents).

Lemma incidents_recorder {A} (m : ResponseRecorder → outcome ResponseRecorder A) : incidents (onRecorder m).
Proof. intros s. unfold onRecorder. destruct (m (recorder s)); simpl; red; reflexivity. Qed.
Lemma incidents_modify f : (∀ s, metrics (f s) = metrics s) → incidents (modifyM f).
Proof. intros H. apply stays_modify. intros s. red. rewrite H. reflexivity. Qed.
Lemma incidents_note o : incidental o = true → incidents (note o).
Proof. intros Ho. apply stays_modify. intros s. red. simpl. by apply meters_one. Qed.
Lemma incidents_mutate mutations : incidents (mutate mutations).
Proof. intros s. unfold mutate. destruct (ApplyHeaderMutations _ _) as [h []]; simpl; red; reflexivity. Qed.
#[local] Hint Resolve incidents_recorder incidents_note incidents_mutate : stays.
#[local] Hint Extern 1 (stays _ (track _)) => by apply incidents_modify : stays.
#[local] Hint Extern 1 (stays _ (report _ _ _)) => by apply incidents_modify : stays.
#[local] Hint Extern 1 (stays _ (modifyM _)) => by apply incidents_modify : stays.

Lemma incidents_failure filter phase result : incidents (handlePluginFailure encodeJSON requestID filter phase result).
Proof. unfold handlePluginFailure. stay. Qed.
Lemma incidents_bypass filter phase : incidents (breakerBypass encodeJSON requestID filter phase).
Proof. unfold breakerBypass. stay. Qed.
#[local] Hint Resolve incidents_failure incidents_bypass : stays.
Lemma incidents_failCall filter phase key result env : incidents (failCall encodeJSON requestID filter phase key result env).
Proof. unfold failCall. stay. Qed.
Lemma incidents_respond name method code h b : incidents (respond requestID name method code h b).
Proof. unfold respond. stay. intros s. simpl. destruct (ApplyHeaderMutations _ _) as [hd []]; simpl; red; reflexivity. Qed.
#[local] Hint Resolve incidents_failCall incidents_respond : stays.

Lemma incidents_guarded filter phase env call : (∀ key, incidents (call key)) → incidents (guardedCall encodeJSON requestID filter phase env call).
Proof.
  intros Hc s. unfold guardedCall. destruct (registry s) as [reg|]; [|apply incidents_failure]. cbv zeta.
  destruct (allowFilter _ _ _ _) as [reg1 []]; cbn [negb].
  - destruct (GetClient _ _ _) as [reg2 [?|e]].
    + match goal with |- reports_incidents _ (finalState (call ?k ?s1)) => exact (Hc k s1) end.
    + match goal with |- reports_incidents _ (finalState (bindM (report ?k _ _) _ ?s1)) => exact (incidents_failCall filter phase k "error" env s1) end.
  - match goal with |- reports_incidents _ (finalState (breakerBypass _ _ _ _ ?s1)) => exact (incidents_bypass filter phase s1) end.
Qed.
Ltac incident := match goal with |- reports_incidents ?s (finalState (?m ?s)) => let H := fresh in enough (stays reports_incidents m) as H by exact (H s); stay end.
Lemma incidents_requestFilter r filter env : incidents (requestFilter encodeJSON requestID routeID r filter env).
Proof. apply incidents_guarded. intros key s. destruct (Client_ApplyRequest _ _) as [e|answer]; [by apply incidents_failCall|]. cbv zeta. incident. Qed.
Lemma incidents_responseFilter status filter env : incidents (responseFilter encodeJSON requestID routeID status filter env).
Proof.
  unfold responseFilter, closing. apply stays_bind; [apply _| |stay]. apply incidents_guarded. intros key s.
  destruct (Client_ApplyResponse _ _) as [e|answer]; [by apply incidents_failCall|]. incident.
Qed.
#[local] Hint Resolve incidents_requestFilter incidents_responseFilter : stays.
Lemma incidents_request plugins r env : incidents (applyRequestPlugins encodeJSON requestID routeID plugins r env).
Proof.
  unfold applyRequestPlugins. destruct (_ || _); [apply stays_ret, _|]. generalize (callsOf plugins env).
  intros calls. induction calls as [|[f e] calls IH]; simpl; stay.
Qed.
Lemma incidents_response plugins status env : incidents (applyResponsePlugins encodeJSON requestID routeID plugins status env).
Proof.
  unfold applyResponsePlugins. destruct (_ || _); [apply stays_ret, _|]. generalize (callsOf plugins env).
  intros calls. induction calls as [|[f e] calls IH]; simpl; stay.
Qed.
End Reports.

(** ** Failure modes *)

Section FailureModes.
Context (encodeJSON : ProxyErrorBody → string) (requestID routeID : string) (req : Request) (upstreamStatus : Z).
Abbreviation asks := (requestFilter encodeJSON requestID routeID req).
Abbreviation shows := (responseFilter encodeJSON requestID routeID upstreamStatus).

(** The answer to a client whose request a fail-closed filter has stopped. *)
Definition refused (rec : ResponseRecorder) : Prop :=
  error_sent encodeJSON requestID 503 "plugin_unavailable" "plugin unavailable" rec ∨
  error_sent encodeJSON requestID 503 "plugin_timeout" "plugin unavailable" rec.

(** The answers of a plugin to the messages of the two phases, when the message
    has the headers [h]. *)
Definition requestAnswer (env : callEnv) (h : Header) : rpcError + ApplyRequestResponse :=
  conn env "/pluginpb.FilterService/ApplyRequest" TRequestRequest TRequestResponse
    (mkApplyRequestRequest requestID routeID (Method req) (Host req) (Path req) (HeadersToMap h) None).
Definition responseAnswer (env : callEnv) (h : Header) : rpcError + ApplyResponseResponse :=
  conn env "/pluginpb.FilterService/ApplyResponse" TResponseRequest TResponseResponse
    (mkApplyResponseRequest requestID routeID (i32 upstreamStatus) (HeadersToMap h)).
(** An answer the proxy can do nothing with. *)
Definition useless (a : rpcError + ApplyRequestResponse) : Prop :=
  match a with inl _ => True | inr resp => ars_Action resp ≠ 0 ∧ (ars_Action resp = 1 → ars_ResponseStatus resp ≤ 0) end.

(** There may be no call at all: no registry, no connection, a breaker. *)
Definition missable (absent : bool) (c : Filter * callEnv) : Prop :=
  absent = true ∨ is_Some (dialErr c.2) ∨ Enabled (FilterBreaker c.1) = true.
Definition absent (s : PState) : bool := match registry s with None => true | Some _ => false end.

(** How a filter lets a message pass, from the headers before to those after. *)
Inductive requestPasses (gone : bool) (h : Header) (c : Filter * callEnv) : Header → Prop :=
| request_continued resp : requestAnswer c.2 h = inr resp → ars_Action resp = 0 →
    requestPasses gone h c (ApplyHeaderMutations h (entries c.2 (ars_MutatedHeaders resp))).1
| request_tolerated : FilterFailureMode c.1 = FailureModeFailOpen → missable gone c ∨ useless (requestAnswer c.2 h) → requestPasses gone h c h.
Inductive responsePasses (gone : bool) (h : Header) (c : Filter * callEnv) : Header → Prop :=
| response_continued resp : responseAnswer c.2 h = inr resp →
    responsePasses gone h c (ApplyHeaderMutations h (entries c.2 (aprs_MutatedHeaders resp))).1
| response_tolerated : FilterFailureMode c.1 = FailureModeFailOpen → missable gone c ∨ (∃ e, responseAnswer c.2 h = inl e) →
    responsePasses gone h c h.
(** How it stops one, with what the client gets; a response that is stopped is
    closed. *)
Definition requestStops (gone : bool) (h : Header) (c : Filter * callEnv) (s : PState) : Prop :=
  (FilterFailureMode c.1 = FailureModeFailClose ∧ (missable gone c ∨ useless (requestAnswer c.2 h)) ∧ refused (recorder s)) ∨
  ∃ resp, requestAnswer c.2 h = inr resp ∧ ars_Action resp = 1 ∧ 0 < ars_ResponseStatus resp ∧
    Proxy.status (recorder s) = ars_ResponseStatus resp.
Definition responseStops (gone : bool) (h : Header) (c : Filter * callEnv) (s : PState) : Prop :=
  FilterFailureMode c.1 = FailureModeFailClose ∧ (missable gone c ∨ ∃ e, responseAnswer c.2 h = inl e) ∧ refused (recorder s) ∧ bodyClosed s = true.

(** A filter whose call did not succeed, by its failure mode. *)
Definition kept (s s' : PState) : Prop := msgHeader s' = msgHeader s ∧ absent s' = absent s.
Definition failed_as_configured (filter : Filter) (s : PState) (o : outcome PState bool) : Prop :=
  match FilterFailureMode filter with
  | FailureModeFailOpen => ∃ s', o = Done s' false ∧ kept s s' ∧ recorder s' = recorder s
  | FailureModeFailClose => ∃ s', o = Done s' true ∧ kept s s' ∧ refused (recorder s')
  end.

Lemma failed_same filter s1 s2 o :
  recorder s1 = recorder s2 → kept s2 s1 → failed_as_configured filter s1 o → failed_as_configured filter s2 o.
Proof.
  intros E [K1 K2]. unfold failed_as_configured, kept. rewrite E, K1, K2. done.
Qed.

Lemma refuse_spec s category :
  fresh (recorder s) → category = "plugin_unavailable" ∨ category = "plugin_timeout" →
  ∃ s', (onRecorder (WriteProxyError encodeJSON requestID 503 category "plugin unavailable") ;;! retM true) s = Done s' true ∧
        kept s s' ∧ refused (recorder s').
Proof.
  intros Hf Hc. destruct (WriteProxyError_fresh encodeJSON requestID 503 category "plugin unavailable" (recorder s) Hf)
    as (rec & E & Hsent); [lia..|]. unfold bindM, onRecorder. rewrite E. eexists. split; [reflexivity|]. split; [done|]. simpl.
  destruct Hc as [->| ->]; [by left|by right].
Qed.

Lemma handlePluginFailure_spec filter phase result s :
  fresh (recorder s) → failed_as_configured filter s (handlePluginFailure encodeJSON requestID filter phase result s).
Proof.
  intros Hf. unfold failed_as_configured, handlePluginFailure. destruct (FilterFailureMode filter); [by eexists|].
  set (s1 := s <| metrics ::= fmap (perform 0 (ORecordPluginCall (Name filter) phase result)) |>
    <| tracking ::= markFailureMode FailureModeFailClose |> <| metrics ::= fmap (perform 0 (ORecordPluginFailClosed (Name filter))) |>).
  destruct (refuse_spec s1 (if decide (result = "timeout") then "plugin_timeout" else "plugin_unavailable") Hf) as (s' & E & K & R); [case_decide; auto|].
  exists s'. split_and!; [exact E|exact K|exact R].
Qed.

Lemma breakerBypass_spec filter phase s :
  fresh (recorder s) → failed_as_configured filter s (breakerBypass encodeJSON requestID filter phase s).
Proof.
  intros Hf. unfold failed_as_configured, breakerBypass. destruct (FilterFailureMode filter); [by eexists|].
  set (s1 := s <| metrics ::= fmap (perform 0 (ORecordPluginCall (Name filter) phase "breaker_bypass")) |>
    <| metrics ::= fmap (perform 0 (ORecordPluginBypass (Name filter) "breaker_open")) |> <| tracking ::= markBypass "breaker_open" FailureModeFailClose |>
    <| tracking ::= markFailureMode FailureModeFailClose |> <| metrics ::= fmap (perform 0 (ORecordPluginFailClosed (Name filter))) |>).
  destruct (refuse_spec s1 "plugin_unavailable" Hf) as (s' & E & K & R); [by left|]. exists s'. split_and!; [exact E|exact K|exact R].
Qed.

Lemma absent_report key b env s s' : report key b env s = Done s' tt → kept s s' ∧ recorder s' = recorder s.
Proof. intros [= <-]. unfold kept, absent. simpl. by destruct (registry s). Qed.
Lemma failCall_spec filter phase key result env s :
  fresh (recorder s) → failed_as_configured filter s (failCall encodeJSON requestID filter phase key result env s).
Proof.
  intros Hf. unfold failCall, bindM. destruct (report key false env s) as [s1 []|] eqn:E; [|done]. apply absent_report in E as [K E].
  eapply failed_same; [exact E|exact K|]. apply handlePluginFailure_spec. by rewrite E.
Qed.

Lemma allowFilter_disabled key cfg now reg : Enabled cfg = false → (allowFilter key cfg now reg).2 = true.
Proof.
  intros Hd. unfold allowFilter, GetBreaker. destruct (breakers reg !! key) as [b|]; simpl; rewrite lookup_insert_eq; unfold Allow, UpdateConfig; simpl;
    rewrite Hd; [|done]. simpl. by rewrite Hd.
Qed.
Lemma GetClient_dials reg addr : ∃ reg' c, GetClient reg addr None = (reg', Ok c).
Proof.
  unfold GetClient. destruct (cachedClient reg addr) as [c|]; [by do 2 eexists|]. destruct (dial reg) as [r1 c]. destruct (publishClient r1 addr c) as [r2 c2].
  by do 2 eexists.
Qed.

(** Either the call fails by mode, and there was a reason, or it takes place. *)
Lemma guardedCall_spec filter phase env call s :
  fresh (recorder s) →
  failed_as_configured filter s (guardedCall encodeJSON requestID filter phase env call s) ∧ missable (absent s) (filter, env) ∨
  ∃ key s1, recorder s1 = recorder s ∧ kept s s1 ∧ guardedCall encodeJSON requestID filter phase env call s = call key s1.
Proof.
  intros Hf. unfold guardedCall, missable, kept, absent. destruct (registry s) as [reg|] eqn:Er; [|left; split; [by apply handlePluginFailure_spec|by left]].
  cbn zeta. set (key := (_ ++ _)%string). pose proof (allowFilter_disabled key (FilterBreaker filter) (allowAt env) reg) as Hd.
  destruct (allowFilter key (FilterBreaker filter) (allowAt env) reg) as [reg1 allowed]. simpl in Hd.
  destruct allowed; cbn [negb].
  - destruct (GetClient reg1 (Addr filter) (dialErr env)) as [reg2 [c|e]] eqn:Eg; [right; eexists key, _; split_and!; [..|reflexivity]; reflexivity|left].
    split; [eapply failed_same; [| |apply (failCall_spec filter phase key "error" env); exact Hf]; [done|unfold kept, absent; by rewrite Er]|].
    right; left. simpl. destruct (dialErr env); [by eexists|]. destruct (GetClient_dials reg1 (Addr filter)) as (? & ? & E). congruence.
  - left. split; [eapply failed_same; [| |apply breakerBypass_spec; exact Hf]; [done|unfold kept, absent; by rewrite Er]|].
    right; right. simpl. destruct (Enabled (FilterBreaker filter)); [done|]. by specialize (Hd eq_refl).
Qed.

(** *** One filter's turn *)

Definition turn_ok (passes : bool → Header → Filter * callEnv → Header → Prop) (stops : bool → Header → Filter * callEnv → PState → Prop)
    (c : Filter * callEnv) (s : PState) (o : outcome PState bool) : Prop :=
  match o with
  | Done s' false => recorder s' = recorder s ∧ absent s' = absent s ∧ passes (absent s) (msgHeader s) c (msgHeader s')
  | Done s' true => msgHeader s' = msgHeader s ∧ stops (absent s) (msgHeader s) c s'
  | Panicked s' => msgHeader s' = msgHeader s
  end.

Lemma mutate_turn filter phase key env s ms :
  let o := (note (ORecordPluginCall (Name filter) phase "success") ;;! report key true env ;;! mutate ms ;;! retM false) s in
  ∃ s', o = Done s' false ∧ recorder s' = recorder s ∧ absent s' = absent s ∧ msgHeader s' = (ApplyHeaderMutations (msgHeader s) ms).1.
Proof.
  unfold bindM, note, report, modifyM, mutate, retM, absent. cbn zeta. simpl. destruct (ApplyHeaderMutations (msgHeader s) ms) as [hd denied].
  eexists. split; [reflexivity|]. by destruct denied, (registry s).
Qed.
(** A computation that writes to the recorder and reports, with no header touched. *)
Definition headers_stay (s s' : PState) : Prop := msgHeader s' = msgHeader s.
#[local] Instance headers_stay_preorder : PreOrder headers_stay.
Proof. split; [done|]. intros s1 s2 s3. unfold headers_stay. congruence. Qed.
Lemma respond_headers name method code hs body : stays headers_stay (respond requestID name method code hs body).
Proof.
  assert (∀ A (m : ResponseRecorder → outcome ResponseRecorder A), stays headers_stay (onRecorder m)) as Hr
    by (intros A m s; unfold onRecorder; by destruct (m (recorder s))).
  assert (∀ f, stays headers_stay (track f)) as Ht by done. assert (∀ o, stays headers_stay (note o)) as Hn by done.
  unfold respond. apply stays_bind; [apply _|intros s; simpl; by destruct (ApplyHeaderMutations _ hs) as [hd []]|intros ?].
  repeat (apply stays_bind; [apply _|by (apply Hr || apply Ht || apply Hn || (case_decide; [apply stays_ret, _|apply Hr]))|intros ?]).
  apply stays_ret, _.
Qed.
Lemma respond_status name method code hs body s s' stop :
  fresh (recorder s) → respond requestID name method code hs body s = Done s' stop → stop = true ∧ Proxy.status (recorder s') = code.
Proof.
  intros (H1 & H2 & _). unfold respond, bindM at 1. destruct (ApplyHeaderMutations _ hs) as [hd denied]. set (s1 := if denied then _ else _).
  assert (wroteHeader (recorder s1) = false) as F by by destruct denied.
  clearbody s1. unfold bindM, onRecorder, setHeader, WriteHeader, Write, modifyM, track, note, retM. simpl. rewrite F. simpl.
  destruct (writeHeader _ code) as [w|]; [|done]. simpl. case_decide; [by intros [= <- <-]|]. simpl.
  unfold bindM. simpl. match goal with |- context [writeBody ?w body] => destruct (writeBody w body) end. by intros [= <- <-].
Qed.

Lemma request_asked env h : Client_ApplyRequest (Some (conn env)) (requestMessage requestID routeID req h) = requestAnswer env h.
Proof. change (match requestAnswer env h with inl e => inl e | inr out => inr out end = requestAnswer env h). by destruct (requestAnswer env h). Qed.
Lemma response_asked env h : Client_ApplyResponse (Some (conn env)) (responseMessage requestID routeID upstreamStatus h) = responseAnswer env h.
Proof. change (match responseAnswer env h with inl e => inl e | inr out => inr out end = responseAnswer env h). by destruct (responseAnswer env h). Qed.

Lemma requestFilter_turn c s : fresh (recorder s) → turn_ok requestPasses requestStops c s (asks c.1 c.2 s).
Proof.
  destruct c as [filter env]. intros Hf. cbn [fst snd]. unfold requestFilter.
  match goal with |- context [guardedCall _ _ _ _ _ ?call _] =>
    destruct (guardedCall_spec filter "request" env call s Hf) as [[Hfail Hmiss]|(key & s1 & E & [K1 K2] & ->)] end.
  { unfold failed_as_configured in Hfail. destruct (FilterFailureMode filter) eqn:Em; destruct Hfail as (s' & -> & [K1 K2] & Hr); simpl.
    - split_and!; [done..|]. rewrite K1. apply request_tolerated; [done|by left].
    - split; [done|]. left. split_and!; [done|by left|done]. }
  assert (fresh (recorder s1)) as Hf1 by by rewrite E.
  assert (∀ result, useless (requestAnswer env (msgHeader s)) →
    turn_ok requestPasses requestStops (filter, env) s (failCall encodeJSON requestID filter "request" key result env s1)) as Hbad.
  { intros result Hu. pose proof (failed_same filter s1 s _ E (conj K1 K2) (failCall_spec filter "request" key result env s1 Hf1)) as Hfail.
    unfold failed_as_configured in Hfail. destruct (FilterFailureMode filter) eqn:Em; destruct Hfail as (s' & -> & [L1 L2] & Hr); simpl.
    - split_and!; [done..|]. rewrite L1. apply request_tolerated; [done|by right].
    - split; [done|]. left. split_and!; [done|by right|done]. }
  rewrite K1, request_asked.
  destruct (requestAnswer env (msgHeader s)) as [e|resp] eqn:Ea; [by apply Hbad|]. cbv zeta. cbn [GetAction GetMutatedHeaders GetResponseStatus GetResponseHeaders GetResponseBody].
  unfold ApplyRequestResponse_CONTINUE, ApplyRequestResponse_RESPOND. destruct (Z.eqb_spec (ars_Action resp) 0) as [E0|E0].
  { destruct (mutate_turn filter "request" key env s1 (entries env (ars_MutatedHeaders resp))) as (s' & -> & R1 & R2 & R3). simpl.
    rewrite R1, R2, R3, K1. split_and!; [done..|]. by apply request_continued. }
  destruct (Z.eqb_spec (ars_Action resp) 1) as [E1|E1]; [|by apply Hbad].
  destruct (Z.leb_spec (ars_ResponseStatus resp) 0); [by apply Hbad|].
  unfold bindM at 1, note at 1, modifyM at 1. unfold bindM at 1, report, modifyM at 1.
  match goal with |- turn_ok _ _ _ _ (respond _ ?n ?m ?c ?h ?b ?s2) =>
    pose proof (respond_headers n m c h b s2) as Hh; pose proof (respond_status n m c h b s2) as Hs; destruct (respond requestID n m c h b s2) as [s' stop|s'] end;
    unfold headers_stay in Hh; simpl in Hh |- *; [|by rewrite Hh, K1].
  destruct (Hs s' stop) as [-> Hst]; [done|done|]. split; [by rewrite Hh, K1|]. right. by exists resp.
Qed.

Lemma responseFilter_turn c s : fresh (recorder s) → turn_ok responsePasses responseStops c s (shows c.1 c.2 s).
Proof.
  destruct c as [filter env]. intros Hf. cbn [fst snd]. unfold responseFilter, closing, bindM at 1.
  match goal with |- context [guardedCall _ _ _ _ _ ?call _] =>
    destruct (guardedCall_spec filter "response" env call s Hf) as [[Hfail Hmiss]|(key & s1 & E & [K1 K2] & ->)] end.
  { unfold failed_as_configured in Hfail. destruct (FilterFailureMode filter) eqn:Em; destruct Hfail as (s' & -> & [K1 K2] & Hr); simpl.
    - split_and!; [done..|]. rewrite K1. apply response_tolerated; [done|by left].
    - split; [done|]. split_and!; [done|by left|done|done]. }
  assert (fresh (recorder s1)) as Hf1 by by rewrite E.
  rewrite K1, response_asked.
  destruct (responseAnswer env (msgHeader s)) as [e|resp] eqn:Ea.
  - pose proof (failed_same filter s1 s _ E (conj K1 K2) (failCall_spec filter "response" key (pluginErrorResult e) env s1 Hf1)) as Hfail.
    unfold failed_as_configured in Hfail. destruct (FilterFailureMode filter) eqn:Em; destruct Hfail as (s' & -> & [L1 L2] & Hr); simpl.
    + split_and!; [done..|]. rewrite L1. apply response_tolerated; [done|right; by eexists].
    + split; [done|]. split_and!; [done|right; by eexists|done|done].
  - destruct (mutate_turn filter "response" key env s1 (entries env (aprs_MutatedHeaders resp))) as (s' & E' & R1 & R2 & R3).
    cbn [Response_GetMutatedHeaders]. rewrite E'. simpl. rewrite R1, R2, R3, K1. split_and!; [done..|]. by apply response_continued.
Qed.

(** *** A phase *)

(** The filters had their turns one after the other, each with the headers the
    one before left, and let the message pass. *)
Inductive turns (passes : Header → Filter * callEnv → Header → Prop) : Header → list (Filter * callEnv) → Header → Prop :=
| turns_nil h : turns passes h [] h
| turns_cons h c h1 cs h2 : ctxDone c.2 = false → passes h c h1 → turns passes h1 cs h2 → turns passes h (c :: cs) h2.

(** After [before] have had their turns: [rest] is not asked for a reason, or its
    first filter stops the message, on the headers as they are then. *)
Definition phase_ok (passes : bool → Header → Filter * callEnv → Header → Prop) (stops : bool → Header → Filter * callEnv → PState → Prop)
    (s : PState) (before rest : list (Filter * callEnv)) (o : outcome PState bool) : Prop :=
  turns (passes (absent s)) (msgHeader s) before (msgHeader (finalState o)) ∧
  match o with
  | Done s' false => recorder s' = recorder s ∧ (rest = [] ∨ ∃ c rest', rest = c :: rest' ∧ ctxDone c.2 = true)
  | Done s' true => ∃ c rest', rest = c :: rest' ∧ ctxDone c.2 = false ∧ stops (absent s) (msgHeader s') c s'
  | Panicked s' => ∃ c rest', rest = c :: rest' ∧ ctxDone c.2 = false
  end.

Fixpoint loopOf (run : Filter → callEnv → PState → outcome PState bool) (calls : list (Filter * callEnv)) : PState → outcome PState bool :=
  match calls with
  | [] => retM false
  | (filter, env) :: calls => if ctxDone env then retM false else let! stop := run filter env in if stop then retM true else loopOf run calls
  end.
Lemma loop_phase run passes stops calls s :
  (∀ c s, fresh (recorder s) → turn_ok passes stops c s (run c.1 c.2 s)) → fresh (recorder s) →
  ∃ before rest, calls = before ++ rest ∧ phase_ok passes stops s before rest (loopOf run calls s).
Proof.
  intros Hrun. revert s. induction calls as [|[filter env] calls IH]; intros s Hf.
  { exists [], []. split; [done|]. split; [constructor|]. split; [done|by left]. }
  cbn [loopOf]. destruct (ctxDone env) eqn:Ed.
  { exists [], ((filter, env) :: calls). split; [done|]. split; [constructor|]. split; [done|]. right. by do 2 eexists. }
  pose proof (Hrun (filter, env) s Hf) as Ht. cbn [fst snd] in Ht. unfold bindM. destruct (run filter env s) as [s1 []|s1]; simpl in Ht.
  - destruct Ht as [E Hs]. exists [], ((filter, env) :: calls). split; [done|]. unfold phase_ok. simpl. rewrite E. split; [constructor|]. by do 2 eexists.
  - destruct Ht as (E1 & E2 & Hp). destruct (IH s1 ltac:(by rewrite E1)) as (before & rest & -> & Hph & Ho).
    exists ((filter, env) :: before), rest. split; [done|]. rewrite E2 in Hph, Ho. split; [by econstructor|].
    destruct (loopOf run _ s1) as [s2 []|s2]; try done. by rewrite <- E1.
  - exists [], ((filter, env) :: calls). split; [done|]. unfold phase_ok. simpl. rewrite Ht. split; [constructor|]. by do 2 eexists.
Qed.

Lemma requestFilters_phase calls s :
  fresh (recorder s) → ∃ before rest, calls = before ++ rest ∧
    phase_ok requestPasses requestStops s before rest (requestFilters encodeJSON requestID routeID req calls s).
Proof.
  intros Hf. assert (requestFilters encodeJSON requestID routeID req calls = loopOf asks calls) as ->
    by (induction calls as [|[f e] calls IH]; simpl; by rewrite ?IH).
  by apply loop_phase; [apply requestFilter_turn|].
Qed.
Lemma responseFilters_phase calls s :
  fresh (recorder s) → ∃ before rest, calls = before ++ rest ∧
    phase_ok responsePasses responseStops s before rest (responseFilters encodeJSON requestID routeID upstreamStatus calls s).
Proof.
  intros Hf. assert (responseFilters encodeJSON requestID routeID upstreamStatus calls = loopOf shows calls) as ->
    by (induction calls as [|[f e] calls IH]; simpl; by rewrite ?IH).
  by apply loop_phase; [apply responseFilter_turn|].
Qed.

(** *** Hop-by-hop headers *)

Definition same_hops (h h' : Header) : Prop := ∀ k, isHopByHopHeader k = true → h' !! k = h !! k.
Lemma mutations_same_hops h ms : same_hops h (ApplyHeaderMutations h ms).1.
Proof.
  intros k Hk. assert (ApplyHeaderMutations h ms = foldl applyMutation (h, false) ms) as -> by by destruct ms.
  by destruct (applyMutations_spec (h, false) ms k Hk) as [-> _].
Qed.
Lemma turns_same_hops passes h cs h' : (∀ h c h', passes h c h' → same_hops h h') → turns passes h cs h' → same_hops h h'.
Proof. intros Hp. induction 1 as [|h c h1 cs h2 _ H1 _ IH]; [done|]. intros k Hk. rewrite (IH k Hk). by apply (Hp h c h1). Qed.

(** *** The two phases of a route *)

Lemma applyRequest_phase plugins env s :
  plugins_Enabled plugins = true → fresh (recorder s) → ∃ before rest, callsOf plugins env = before ++ rest ∧
    phase_ok requestPasses requestStops s before rest (applyRequestPlugins encodeJSON requestID routeID plugins req env s).
Proof.
  intros He Hf. unfold applyRequestPlugins. rewrite He. cbn [negb orb]. case_bool_decide as E; [|by apply requestFilters_phase].
  exists [], []. unfold callsOf. rewrite E. split; [done|]. split; [constructor|]. split; [done|by left].
Qed.
Lemma applyResponse_phase plugins env s :
  plugins_Enabled plugins = true → fresh (recorder s) → ∃ before rest, callsOf plugins env = before ++ rest ∧
    phase_ok responsePasses responseStops s before rest (applyResponsePlugins encodeJSON requestID routeID plugins upstreamStatus env s).
Proof.
  intros He Hf. unfold applyResponsePlugins. rewrite He. cbn [negb orb]. case_bool_decide as E; [|by apply responseFilters_phase].
  exists [], []. unfold callsOf. rewrite E. split; [done|]. split; [constructor|]. split; [done|by left].
Qed.
Lemma turns_closed gone h cs h' :
  turns (requestPasses gone) h cs h' →
  Forall (λ c, ctxDone c.2 = false ∧ (FilterFailureMode c.1 = FailureModeFailClose → ∃ h resp, requestAnswer c.2 h = inr resp ∧ ars_Action resp = 0)) cs.
Proof.
  induction 1 as [|h c h1 cs h2 Hd Hp _ IH]; [done|]. constructor; [|done]. split; [done|]. intros Hm. destruct Hp as [resp Ha H0|Ho _]; [by do 2 eexists|congruence].
Qed.

(** C23. The request phase keeps the promise of every filter's failure mode.  The
    filters are asked in their order until one stops the request or its
    context has ended.  Those before had a request whose context was not over,
    and each fail-closed one of them has answered CONTINUE.  The request is
    stopped by a fail-closed filter, and then the client gets a 503 with a
    plugin category, or by a filter of either mode that answers it itself
    (RESPOND), with the status it gives.  If it is not stopped nothing has
    been written; the filters that were not asked then, fail-closed or not,
    are those that come after the end of its context. *)
Theorem plugin_failure_modes plugins env s s' stop :
  plugins_Enabled plugins = true → fresh (recorder s) →
  applyRequestPlugins encodeJSON requestID routeID plugins req env s = Done s' stop →
  ∃ before rest, callsOf plugins env = before ++ rest ∧
    Forall (λ c, ctxDone c.2 = false ∧
      (FilterFailureMode c.1 = FailureModeFailClose → ∃ h resp, requestAnswer c.2 h = inr resp ∧ ars_Action resp = 0)) before ∧
    if stop then
      ∃ c rest', rest = c :: rest' ∧ ctxDone c.2 = false ∧
        ((FilterFailureMode c.1 = FailureModeFailClose ∧ refused (recorder s')) ∨
         ∃ h resp, requestAnswer c.2 h = inr resp ∧ ars_Action resp = 1 ∧ 0 < ars_ResponseStatus resp ∧ Proxy.status (recorder s') = ars_ResponseStatus resp)
    else recorder s' = recorder s ∧ (rest = [] ∨ ∃ c rest', rest = c :: rest' ∧ ctxDone c.2 = true).
Proof.
  intros He Hf H. destruct (applyRequest_phase plugins env s He Hf) as (before & rest & Hs & Ht & Ho). rewrite H in Ht, Ho.
  exists before, rest. split_and!; [done|by eapply turns_closed|]. destruct stop; [|done].
  destruct Ho as (c & rest' & -> & Hd & [(Hm & _ & Hr)|(resp & Ha)]); exists c, rest'; split_and!; try done; [by left|right].
  by exists (msgHeader s'), resp.
Qed.

(** C24. In both phases a filter is asked with a message that carries the ids, the
    request's method, host and path (or the upstream's status), no body, and
    the headers exactly as the filters before have left them: each of those
    that answered CONTINUE has had its mutations applied, one that failed
    open has changed nothing.  The filter that stops a phase has been asked
    about the headers the phase ends with, and the hop-by-hop headers are
    still those the phase began with. *)
Theorem plugin_dialogue plugins env s :
  plugins_Enabled plugins = true → fresh (recorder s) →
  (let o := applyRequestPlugins encodeJSON requestID routeID plugins req env s in
   same_hops (msgHeader s) (msgHeader (finalState o)) ∧
   ∃ before rest, callsOf plugins env = before ++ rest ∧ phase_ok requestPasses requestStops s before rest o) ∧
  (let o := applyResponsePlugins encodeJSON requestID routeID plugins upstreamStatus env s in
   same_hops (msgHeader s) (msgHeader (finalState o)) ∧
   ∃ before rest, callsOf plugins env = before ++ rest ∧ phase_ok responsePasses responseStops s before rest o).
Proof.
  intros He Hf. split; intros o.
  - destruct (applyRequest_phase plugins env s He Hf) as (before & rest & Hs & Ht & Ho). split; [|by exists before, rest].
    eapply turns_same_hops, Ht. intros h c h' [resp _ _|]; [apply mutations_same_hops|done].
  - destruct (applyResponse_phase plugins env s He Hf) as (before & rest & Hs & Ht & Ho). split; [|by exists before, rest].
    eapply turns_same_hops, Ht. intros h c h' [resp _|]; [apply mutations_same_hops|done].
Qed.

(** A plugin that answers with a status net/http does not accept makes the
    proxy panic, and the recovery sends no error because the recorder already
    counts the header as written: the client gets an empty 200, whatever the
    filter's failure mode is. *)
Theorem plugin_respond_invalid_status name method code h b s :
  fresh (recorder s) → 0 < code < 100 ∨ 999 < code →
  ∃ s', respond requestID name method code h b s = Panicked s' ∧
    ∃ r, recoverPanic encodeJSON requestID (recorder s') = Done r tt ∧
      clientStatus (writer r) = 200 ∧ w_body (writer r) = "" ∧ errorCategory r = "panic".
Proof.
  intros (H1 & H2 & H3) Hc. unfold respond, bindM at 1. destruct (ApplyHeaderMutations _ h) as [hd denied].
  set (s1 := if denied then _ else _).
  assert (wroteHeader (recorder s1) = false ∧ w_sent (writer (recorder s1)) = None ∧ w_body (writer (recorder s1)) = "") as (F1 & F2 & F3)
    by (by destruct denied).
  clearbody s1. unfold bindM, onRecorder, setHeader, WriteHeader. simpl. rewrite F1. simpl. unfold writeHeader. simpl. rewrite F2.
  assert ((code <? 100) || (999 <? code) = true) as -> by lia.
  eexists. split; [reflexivity|]. eexists. split; [reflexivity|]. by simpl; split_and!.
Qed.

End FailureModes.

(** ** Examples *)

Definition closed_filter : Filter :=
  mkFilter "authz" "127.0.0.1:9000" Second Second FailureModeFailClose (mkBreakerConfig false 0 0 0).
(** A connection to a server. *)
Definition connTo (srv : FilterServiceServer) : ClientConn := λ name i o,
  let unknown {A} : rpcError + A := inl (statusError codesUnimplemented ("unknown method " ++ name)) in
  match i, o return message i → rpcError + message o with
  | TRequestRequest, TRequestResponse => λ req, if decide (name = FilterService_ApplyRequest_FullMethodName) then ApplyRequest srv req else unknown
  | TResponseRequest, TResponseResponse => λ req, if decide (name = FilterService_ApplyResponse_FullMethodName) then ApplyResponse srv req else unknown
  | _, _ => λ _, unknown
  end.

(** A filter that denies what has no key, and a filter that gives it one but
    implements nothing else. *)
Definition keyed_filter : FilterServiceServer :=
  mkServer (λ m, inr (match default ∅ (GetHeaders (Some m)) !! "X-Key" with
                      | Some _ => noRequestResponse
                      | None => mkApplyRequestResponse ApplyRequestResponse_RESPOND None 401 None (Some "no key")
                      end)) (ApplyResponse UnimplementedFilterServiceServer).
Definition key_giver : FilterServiceServer :=
  mkServer (λ _, inr (mkApplyRequestResponse 0 (Some {["x-key" := "k"]}) 0 None None)) (ApplyResponse UnimplementedFilterServiceServer).
Definition call_env (srv : FilterServiceServer) : callEnv := mkCallEnv false None (connTo srv) map_to_list 0 0.
Definition idle_env : callEnv := call_env UnimplementedFilterServiceServer.
Definition start_state : PState := mkPState (NewResponseRecorder newWriter) (Some (NewRegistry 0)) newTracking ∅ None false.
Definition two_filters : Policy := mkPolicy true [closed_filter; closed_filter].
Definition in_turn (first second : FilterServiceServer) (i : nat) : callEnv := call_env (if decide (i = 0%nat) then first else second).
Definition demo_get : Request := mkRequest "GET" "h" "/" "" "/" ∅ None 0 "" None.
Definition demo_phase (first second : FilterServiceServer) : outcome PState bool :=
  applyRequestPlugins (λ _, "{}") "id" "r" two_filters demo_get (in_turn first second) start_state.

Lemma start_fresh : fresh (recorder start_state).
Proof. done. Qed.

(** The second filter implements nothing, and fails closed. *)
Lemma plugin_failure_modes_witness :
  ∃ s' before rest, demo_phase key_giver UnimplementedFilterServiceServer = Done s' true ∧
    callsOf two_filters (in_turn key_giver UnimplementedFilterServiceServer) = before ++ rest ∧ Proxy.status (recorder s') = 503.
Proof.
  eexists. pose proof (plugin_failure_modes (λ _, "{}") "id" "r" demo_get two_filters (in_turn key_giver UnimplementedFilterServiceServer) start_state
    _ true eq_refl start_fresh ltac:(vm_compute; reflexivity)) as (before & rest & Hs & _).
  exists before, rest. split_and!; [vm_compute; reflexivity|exact Hs|vm_compute; reflexivity].
Defined.

(** The second filter sees the key the first one has given. *)
Lemma plugin_dialogue_witness :
  (∃ s', demo_phase key_giver keyed_filter = Done s' false) ∧ (∃ s', demo_phase keyed_filter key_giver = Done s' true ∧ Proxy.status (recorder s') = 401) ∧
  ∃ before rest, callsOf two_filters (in_turn key_giver keyed_filter) = before ++ rest ∧
    phase_ok (requestPasses "id" "r" demo_get) (requestStops (λ _, "{}") "id" "r" demo_get) start_state before rest (demo_phase key_giver keyed_filter).
Proof.
  split_and!; [eexists; vm_compute; reflexivity|eexists; split; vm_compute; reflexivity|].
  exact (proj2 (proj1 (plugin_dialogue (λ _, "{}") "id" "r" demo_get 200 two_filters (in_turn key_giver keyed_filter) start_state eq_refl start_fresh))).
Defined.

Lemma plugin_respond_invalid_status_witness :
  ∃ s', respond "id" "authz" "GET" 42 [] "denied" start_state = Panicked s' ∧
    ∃ r, recoverPanic (λ _, "{}") "id" (recorder s') = Done r tt ∧
      clientStatus (writer r) = 200 ∧ w_body (writer r) = "" ∧ errorCategory r = "panic".
Proof. exact (plugin_respond_invalid_status (λ _, "{}") "id" "authz" "GET" 42 [] "denied" start_state start_fresh ltac:(lia)). Defined.
