(* ===== verification/ProxyRules.v ===== *)
(** * Request limits and cache rules (helpers of internal/proxy/handler.go)

    A request body is the bytes it yields and how it ends.  [io.LimitReader]
    with a limit that is not positive yields nothing. *)
From S2P Require Import Prelude.
From S2P Require Import GoStrings.
From S2P Require Import GoError.
From S2P Require Import Http.
From S2P Require Import Policy.
From S2P Require Import Limits.
From S2P Require Import CacheStore.
From S2P Require Import Proxy.

(** ** Reading with a limit *)

Definition sliceTo (n : Z) (s : string) : string := String.substring 0 (Z.to_nat n) s.

(** [io.ReadAll(io.LimitReader(body, limit))]: the bytes, or the error that
    ended the body before the limit was reached. *)
Definition readLimited (b : Body) (limit : Z) : string * option error :=
  if limit <=? 0 then ("", None)
  else if limit <=? slen (data b) then (sliceTo limit (data b), None)
  else (data b, readErr b).

Inductive readResult := ReadOk (bytes : string) | ReadTooLarge | ReadErr (e : error).

Definition readBodyWithinLimit (body : option Body) (limit : Z) : readResult :=
  match body with
  | None => ReadOk ""
  | Some b =>
      if limit <=? 0 then ReadTooLarge
      else match readLimited b (i64 (limit + 1)) with
      | (_, Some e) => ReadErr e
      | (bytes, None) => if limit <? slen bytes then ReadTooLarge else ReadOk bytes
      end
  end.

(** The body of an upstream response that is to be cached; [Some] of the
    error is a failed read. *)
Definition readUpstreamBody (resp : Response) (contentLength : Z) : string * option error :=
  match RespBody resp with
  | None => ("", None)
  | Some b =>
      let limit := i64 (contentLength + 1) in
      let limit := if limit <=? 0 then 1 else limit in
      match readLimited b limit with
      | (_, Some e) => ("", Some e)
      | (bytes, None) => if contentLength <? slen bytes then ("", Some (mkError None None [ErrUnexpectedEOF])) else (bytes, None)
      end
  end.

(** ** enforceRequestLimits

    The request is a pointer: its body and length may be replaced.  The
    answer says whether an error has been written. *)
Section Limits.
Context (encodeJSON : ProxyErrorBody → string) (requestID : string).

Definition tooLarge : ResponseRecorder → outcome ResponseRecorder unit :=
  WriteProxyError encodeJSON requestID 413 "request_too_large" "request body too large".

Definition enforceBody (l : Limits) (req : Request) : ResponseRecorder → outcome ResponseRecorder (Request * bool) :=
  if MaxBodyBytes l =? 0 then
    if negb (ContentLength req =? 0) then tooLarge ;;! retM (req, true) else retM (req, false)
  else if 0 <? MaxBodyBytes l then
    if MaxBodyBytes l <? ContentLength req then tooLarge ;;! retM (req, true)
    else if ContentLength req <? 0 then
      match readBodyWithinLimit (ReqBody req) (MaxBodyBytes l) with
      | ReadTooLarge => tooLarge ;;! retM (req, true)
      | ReadErr _ => WriteProxyError encodeJSON requestID 400 "request_too_large" "request body unreadable" ;;! retM (req, true)
      | ReadOk bytes => retM (req <| ReqBody := Some (mkBody bytes None) |> <| ContentLength := slen bytes |>, false)
      end
    else retM (req, false)
  else retM (req, false).

Definition enforceRequestLimits (l : Limits) (req : Request) : ResponseRecorder → outcome ResponseRecorder (Request * bool) :=
  if (0 <? MaxURLBytes l) && (MaxURLBytes l <? slen (URI req))
  then WriteProxyError encodeJSON requestID 414 "uri_too_long" "uri too long" ;;! retM (req, true)
  else if (0 <? MaxHeaderCount l) && (MaxHeaderCount l <? Z.of_nat (size (ReqHeader req)))
  then WriteProxyError encodeJSON requestID 431 "headers_too_large" "too many headers" ;;! retM (req, true)
  else enforceBody l req.

End Limits.

(** ** Cache rules *)

Definition hasNoStoreValue (value : string) : bool :=
  existsb (λ part, EqualFold (TrimSpace part) "no-store") (Split "," "" value).
Definition hasNoStoreHeader (h : Header) : bool := existsb hasNoStoreValue (header_Values h "Cache-Control").

Definition hasChunkedEncoding (resp : Response) : bool :=
  existsb (λ enc, EqualFold enc "chunked") (TransferEncoding resp) ||
  Contains (ToLower (header_Get (RespHeader resp) "Transfer-Encoding")) "chunked".

(** [hasStore] says whether there is a cache layer with a store. *)
Definition isCacheEligible (method : string) (header : Header) (p : CachePolicy) (hasStore : bool) : bool :=
  if negb hasStore then false
  else if negb (cache_Enabled p) || (TTL p <=? 0) then false
  else if negb (bool_decide (method = "GET")) && negb (bool_decide (method = "HEAD")) then false
  else negb (hasNoStoreHeader header).

Definition isCacheableResponse (resp : Response) (p : CachePolicy) : bool * Z :=
  if negb (StatusCode resp =? 200) then (false, 0)
  else if hasNoStoreHeader (RespHeader resp) then (false, 0)
  else if hasChunkedEncoding resp then (false, 0)
  else if HasPrefix (ToLower (TrimSpace (header_Get (RespHeader resp) "Content-Type"))) "text/event-stream" then (false, 0)
  else
    let contentLengthHeader := TrimSpace (header_Get (RespHeader resp) "Content-Length") in
    if decide (contentLengthHeader = "") then (false, 0)
    else match ParseInt contentLengthHeader with
    | None => (false, 0)
    | Some contentLength =>
        if contentLength <? 0 then (false, 0)
        else if OnlyIfContentLength p && bool_decide (contentLengthHeader = "") then (false, 0)
        else if MaxObjectBytes p <? contentLength then (false, 0)
        else (true, contentLength)
    end.

(** [cloneHeader]: a copy of the map and of its value slices. *)
Definition cloneHeader (h : Header) : Header := h.

(** The flight, whether this request leads it, and whether coalescing applies. *)
Definition startCoalescing (c : option Coalescer) (key : string) (p : CachePolicy)
    : option Coalescer * (option nat * bool * bool) :=
  match c with
  | None => (None, (None, false, false))
  | Some c' =>
      if negb (CoalesceEnabled p) || bool_decide (key = "") then (c, (None, false, false))
      else let '(c', res) := Start c' key in (Some c', res)
  end.

(** ** Properties *)

Lemma slen_nonneg s : 0 ≤ slen s.
Proof. unfold slen. lia. Qed.

Lemma slen_sliceTo n s : 0 ≤ n ≤ slen s → slen (sliceTo n s) = n.
Proof.
  unfold slen, sliceTo. intros H. assert (Z.to_nat n ≤ String.length s)%nat by lia.
  assert (∀ k t, (k ≤ String.length t)%nat → String.length (String.substring 0 k t) = k) as G.
  { induction k as [|k IH]; intros [|c t]; simpl; intros; try lia. rewrite IH; lia. }
  rewrite G; lia.
Qed.

Lemma readLimited_spec b limit bytes :
  0 < limit → readLimited b limit = (bytes, None) →
  slen bytes ≤ limit ∧ (slen bytes < limit → bytes = data b ∧ readErr b = None).
Proof.
  intros Hl. unfold readLimited. rewrite (proj2 (Z.leb_gt _ _)) by done. destruct (Z.leb_spec limit (slen (data b))).
  - intros [= <-]. rewrite slen_sliceTo by lia. lia.
  - intros [= <- ?]. split; [lia|done].
Qed.

Lemma readBody_ok b limit bytes :
  0 < limit < max_i64 → readBodyWithinLimit (Some b) limit = ReadOk bytes → bytes = data b ∧ readErr b = None ∧ slen bytes ≤ limit.
Proof.
  intros Hl. unfold readBodyWithinLimit. rewrite (proj2 (Z.leb_gt _ _)), i64_small by lia.
  destruct (readLimited b (limit + 1)) as [bs [e|]] eqn:E; [done|]. destruct (Z.ltb_spec limit (slen bs)); [done|].
  intros [= <-]. apply readLimited_spec in E as [_ E]; [|lia]. destruct E as [-> ->]; [lia|]. done.
Qed.

(** The request may be forwarded under the limits. *)
Definition within_limits (l : Limits) (req : Request) : Prop :=
  slen (URI req) ≤ MaxURLBytes l ∧ Z.of_nat (size (ReqHeader req)) ≤ MaxHeaderCount l ∧ 0 ≤ ContentLength req ≤ MaxBodyBytes l.

(** What is refused, and with which error. *)
Inductive limit_error (l : Limits) (req : Request) : Z → string → string → Prop :=
| long_uri : MaxURLBytes l < slen (URI req) → limit_error l req 414 "uri_too_long" "uri too long"
| many_headers : MaxHeaderCount l < Z.of_nat (size (ReqHeader req)) → limit_error l req 431 "headers_too_large" "too many headers"
| large_length : MaxBodyBytes l < ContentLength req → limit_error l req 413 "request_too_large" "request body too large"
| no_body : MaxBodyBytes l = 0 → ContentLength req < 0 → limit_error l req 413 "request_too_large" "request body too large"
| large_body b : ContentLength req < 0 → ReqBody req = Some b → MaxBodyBytes l < slen (data b) →
    limit_error l req 413 "request_too_large" "request body too large"
| unreadable b e : ContentLength req < 0 → ReqBody req = Some b → readErr b = Some e → slen (data b) ≤ MaxBodyBytes l →
    limit_error l req 400 "request_too_large" "request body unreadable".

(** The limits a snapshot accepts, but for a body limit of [2^63 - 1]. *)
Definition limits_accepted (l : Limits) : Prop := 0 < MaxURLBytes l ∧ 0 < MaxHeaderCount l ∧ 0 ≤ MaxBodyBytes l < max_i64.

Section Enforcement.
Context (encodeJSON : ProxyErrorBody → string) (requestID : string) (l : Limits).
Hypothesis Hl : limits_accepted l.

(** Either an error of the specification has been sent, or the request is
    within the limits and nothing has been written. *)
Definition enforced (req : Request) (r : ResponseRecorder) (o : outcome ResponseRecorder (Request * bool)) : Prop :=
  (∃ r' code category message, o = Done r' (req, true) ∧ limit_error l req code category message ∧
     error_sent encodeJSON requestID code category message r') ∨
  ∃ req', o = Done r (req', false) ∧ within_limits l req' ∧
    (0 ≤ ContentLength req → req' = req) ∧
    (ContentLength req < 0 → ∀ b, ReqBody req = Some b →
       ReqBody req' = Some b ∧ readErr b = None ∧ ContentLength req' = slen (data b)).

Lemma enforced_error req r code category message :
  fresh r → limit_error l req code category message → 200 ≤ code ≤ 999 → code ≠ 204 → code ≠ 304 →
  enforced req r ((WriteProxyError encodeJSON requestID code category message ;;! retM (req, true)) r).
Proof.
  intros Hf He H1 H2 H3. destruct (WriteProxyError_fresh encodeJSON requestID code category message r Hf H1 H2 H3) as (r' & E & Hs).
  left. exists r', code, category, message. unfold bindM. by rewrite E.
Qed.

Lemma enforceBody_spec req r :
  fresh r → slen (URI req) ≤ MaxURLBytes l → Z.of_nat (size (ReqHeader req)) ≤ MaxHeaderCount l →
  enforced req r (enforceBody encodeJSON requestID l req r).
Proof.
  intros Hf Hu Hh. destruct Hl as (_ & _ & Hb). unfold enforceBody.
  destruct (Z.eqb_spec (MaxBodyBytes l) 0) as [E0|E0].
  { destruct (Z.eqb_spec (ContentLength req) 0) as [Ec|Ec]; cbn [negb].
    - right. exists req. split; [done|]. split; [unfold within_limits; lia|]. split; [done|lia].
    - apply (enforced_error req r 413); [done| |lia..]. destruct (decide (ContentLength req < 0)); [by apply no_body|apply large_length; lia]. }
  rewrite (proj2 (Z.ltb_lt 0 (MaxBodyBytes l))) by lia.
  destruct (Z.ltb_spec (MaxBodyBytes l) (ContentLength req)).
  { apply (enforced_error req r 413); [done|by apply large_length|lia..]. }
  destruct (Z.ltb_spec (ContentLength req) 0).
  2: { right. exists req. split; [done|]. split; [done|]. split; [done|lia]. }
  destruct (ReqBody req) as [b|] eqn:Ebody.
  2: { right. eexists. split; [reflexivity|]. unfold within_limits. simpl.
    change (slen "") with 0. split_and!; try done; try lia; intros; exfalso; (lia || congruence). }
  destruct (readBodyWithinLimit (Some b) (MaxBodyBytes l)) as [bytes| |e] eqn:E.
  - apply readBody_ok in E as (-> & He & Hs); [|lia]. right. eexists. split; [reflexivity|]. unfold within_limits. simpl.
    pose proof (slen_nonneg (data b)). split_and!; try done; try lia. intros _ b' Eb. rewrite Ebody in Eb. injection Eb as <-. destruct b as [d e]. simpl in *. by subst e.
  - apply (enforced_error req r 413); [done| |lia..]. apply (large_body l req b); [done..|].
    unfold readBodyWithinLimit in E. rewrite (proj2 (Z.leb_gt _ _)), i64_small in E by lia.
    destruct (readLimited b (MaxBodyBytes l + 1)) as [bs [e|]] eqn:Er; [done|]. destruct (Z.ltb_spec (MaxBodyBytes l) (slen bs)); [|done].
    unfold readLimited in Er. rewrite (proj2 (Z.leb_gt _ _)) in Er by lia.
    destruct (Z.leb_spec (MaxBodyBytes l + 1) (slen (data b))); [lia|]. by injection Er as <- _.
  - apply (enforced_error req r 400); [done| |lia..].
    unfold readBodyWithinLimit in E. rewrite (proj2 (Z.leb_gt _ _)), i64_small in E by lia.
    unfold readLimited in E. rewrite (proj2 (Z.leb_gt _ _)) in E by lia.
    destruct (Z.leb_spec (MaxBodyBytes l + 1) (slen (data b))); [destruct (_ <? _); done|].
    destruct (readErr b) as [e'|] eqn:Er; [|destruct (_ <? _); done]. by apply (unreadable l req b e'); [..|lia].
Qed.

(** C25. The request limits are enforced completely: a request either leaves with
    the error for a limit it exceeds (414, 431, or 413 for a body that is too
    large, or that is there at all when the limit is 0), or with 400 when its
    body, of unknown length, cannot be read; or it goes on with its URI,
    headers and body within the limits.  A body of unknown length is read in
    full first, so the bytes that go on are the client's, none lost and none
    added.  The 400 carries the category [request_too_large] too. *)
Theorem request_limits_enforced req r :
  fresh r → enforced req r (enforceRequestLimits encodeJSON requestID l req r).
Proof.
  intros Hf. destruct Hl as (Hu & Hh & _). unfold enforceRequestLimits.
  rewrite (proj2 (Z.ltb_lt 0 (MaxURLBytes l))), (proj2 (Z.ltb_lt 0 (MaxHeaderCount l))) by lia. cbn [andb].
  destruct (Z.ltb_spec (MaxURLBytes l) (slen (URI req))).
  { apply (enforced_error req r 414); [done|by apply long_uri|lia..]. }
  destruct (Z.ltb_spec (MaxHeaderCount l) (Z.of_nat (size (ReqHeader req)))).
  { apply (enforced_error req r 431); [done|by apply many_headers|lia..]. }
  by apply enforceBody_spec.
Qed.

End Enforcement.

Lemma request_limits_enforced_witness :
  enforced (λ _, "{}") "id" Limits.Default (mkRequest "POST" "h" "/" "" "/" ∅ (Some (mkBody "abc" None)) (-1) "" None)
    (NewResponseRecorder newWriter)
    (enforceRequestLimits (λ _, "{}") "id" Limits.Default
       (mkRequest "POST" "h" "/" "" "/" ∅ (Some (mkBody "abc" None)) (-1) "" None) (NewResponseRecorder newWriter)).
Proof. apply request_limits_enforced; [unfold limits_accepted; vm_compute; done|done]. Defined.

(** What is stored in the cache came from a complete, cacheable response: a
    200 that neither side marked no-store, not streamed, of the announced
    length at most and within the policy's size, so that a memory store with
    the default limit never refuses it under a policy that a snapshot has
    accepted. *)
Theorem cache_admission resp p n body key entry :
  isCacheableResponse resp p = (true, n) → readUpstreamBody resp n = (body, None) → MaxObjectBytes p ≤ 52428800 →
  StatusCode resp = 200 ∧ hasNoStoreHeader (RespHeader resp) = false ∧ hasChunkedEncoding resp = false ∧
  0 ≤ n ≤ MaxObjectBytes p ∧ slen body ≤ n ∧
  (∀ b, RespBody resp = Some b → body = data b ∧ readErr b = None) ∧
  (EntryBody entry = body → (Set_ (NewMemoryStore 0) key entry).2 = None).
Proof.
  unfold isCacheableResponse. destruct (Z.eqb_spec (StatusCode resp) 200); [|done]. cbn [negb].
  destruct (hasNoStoreHeader (RespHeader resp)); [done|]. destruct (hasChunkedEncoding resp); [done|].
  destruct (HasPrefix _ _); [done|]. cbn zeta. case_decide; [done|]. destruct (ParseInt _) as [c|]; [|done].
  destruct (Z.ltb_spec c 0); [done|]. destruct (OnlyIfContentLength p && _); [done|].
  destruct (Z.ltb_spec (MaxObjectBytes p) c); [done|]. intros [= <-] Hb Hm.
  assert (slen body ≤ c ∧ ∀ b, RespBody resp = Some b → body = data b ∧ readErr b = None) as [Hs Hbody].
  { unfold readUpstreamBody in Hb. destruct (RespBody resp) as [b|]; [|injection Hb as <-; split; [unfold slen; simpl; lia|done]].
    rewrite i64_small, (proj2 (Z.leb_gt _ _)) in Hb by lia. cbn zeta in Hb.
    destruct (readLimited b (c + 1)) as [bs [er|]] eqn:E; [done|]. destruct (Z.ltb_spec c (slen bs)); [done|].
    injection Hb as <-. split; [done|]. intros b' [= <-]. apply readLimited_spec in E as [_ E]; [|lia]. apply E. lia. }
  split_and!; try done. intros He. unfold Set_. rewrite He. change (maxObjectBytes (NewMemoryStore 0)) with 52428800.
  by rewrite (proj2 (Z.ltb_ge 52428800 (slen body))) by lia.
Qed.

Lemma cache_admission_witness :
  (Set_ (NewMemoryStore 0) "k" (mkEntry 200 ∅ "abc" 0 0)).2 = None.
Proof.
  refine (proj2 (proj2 (proj2 (proj2 (proj2 (proj2 (cache_admission
    (mkResponse 200 {["Content-Length" := ["3"]]} [] (Some (mkBody "abc" None)))
    (mkCachePolicy true true Second 1024 [] false 0 true) 3 "abc" "k" (mkEntry 200 ∅ "abc" 0 0) _ _ _)))))) _).
  - vm_compute. reflexivity.
  - vm_compute. reflexivity.
  - simpl. lia.
  - reflexivity.
Defined.
