(* ===== verification/Engine.v ===== *)
(** * Forwarding to the upstream (internal/proxy/engine.go)

    The engine runs the retry loop of RetryExec over a [World] of registries,
    here without interleaving with other requests.  What the outside
    contributes is an [Env]: clock readings (one per tick), what the
    transport's round trip answers, the state of the request's context, the
    random source, timers and map orders.  [sent] collects what has been
    given to the transport; the URL of a request is printed and parsed again
    on the way (Url.v), and one that net/http refuses to build is not sent.
    The metrics are those of the handler. *)
From S2P Require Import Prelude.
From S2P Require Import Metrics.
From S2P Require Import GoStrings.
From S2P Require Import GoError.
From S2P Require Import Http.
From S2P Require Import Url.
From S2P Require Import Policy.
From S2P Require Import Breaker.
From S2P Require Import BreakerRegistry.
From S2P Require Import Outlier.
From S2P Require Import OutlierRegistry.
From S2P Require Import Health.
From S2P Require Import Pool.
From S2P Require Import Transport.
From S2P Require Import Registry.
From S2P Require Import Retry.
From S2P Require Import RetryExec.
From S2P Require Import RetryRegistry.
From S2P Require Import Plugin.
From S2P Require Import Router.
From S2P Require Import Proxy.

Record ForwardResult := mkForward {
  fwd_RetryCount : Z;
  fwd_RetryReason : string;
  fwd_RetryBudgetExhausted : bool;
  fwd_UpstreamAddr : string;
  SelectedHealthy : bool;
  SelectedFailOpen : bool;
  fwd_OutlierIgnored : bool;
  fwd_EndpointEjected : bool
}.

Record World := mkWorld {
  reg : Registry.Registry;
  retryReg : option RetryRegistry;
  breakerReg : option BreakerRegistry.Registry;
  outlierReg : option OutlierRegistry.Registry;
  lastPick : PickResult;
  metrics : option Metrics;
  sent : list (string * Request);   (** pool key and outbound request *)
  tick : nat
}.
#[export] Instance World_eta : Eta World := fun w =>
  mkWorld (reg w) (retryReg w) (breakerReg w) (outlierReg w) (lastPick w) (metrics w) (sent w) (tick w).

(** [NewEngine]; the rest is the engine's history. *)
Definition NewEngine (r : Registry.Registry) (retries : option RetryRegistry) (m : option Metrics) (b : option BreakerRegistry.Registry)
    (o : option OutlierRegistry.Registry) : World := mkWorld r retries b o emptyPick m [] 0.
Definition CloseIdleConnections (w : World) : World := w <| reg ::= Registry.CloseIdleConnections |>.

Record Env := mkEnv {
  clock : nat → Time;
  upstream : nat → Duration → Request → Response + error;
  ctxErr : nat → option error;
  ctxDeadline : option Time;
  rnd : nat → Z → Z;
  timerFires : nat → bool;
  mapOrder : nat → list string
}.

Definition errNoUpstream : error := mkError None None [ErrNoUpstream].
Definition errTransportUnavailable : error := mkError None None [ErrTransportUnavailable].

Definition isTimeoutError (e : error) : bool := default false (asNetError e).
Definition isDialError (e : error) : bool := match asOpError e with Some op => bool_decide (op = "dial") | None => false end.

(** ** The outbound request *)

(** [trace] are the trace headers of the request's context: parent and state. *)
Definition setForwardedHeaders (h : Header) (inbound : Request) : Header :=
  let clientIP := match SplitHostPort (RemoteAddr inbound) with Some (host, _) => host | None => RemoteAddr inbound end in
  let h := if decide (clientIP = "") then h
           else
             let prior := header_Get h "X-Forwarded-For" in
             header_Set h "X-Forwarded-For" (if decide (prior = "") then clientIP else prior ++ ", " ++ clientIP)%string in
  header_Set h "X-Forwarded-Proto" (match TLS inbound with Some _ => "https" | None => "http" end).
Definition InjectTraceHeaders (h : Header) (trace : option (string * string)) : Header :=
  match trace with
  | None => h
  | Some (parent, state) =>
      let h := if decide (parent = "") then h else header_Set h "traceparent" parent in
      if decide (state = "") then h else header_Set h "tracestate" state
  end.

(** The request given to the transport, or the error of building it: method
    and body of the client's, its path and query as they come back from the
    printed URL, addressed to the upstream.  A body of length 0 is
    [http.NoBody]; the length of any other is not told. *)
Definition outbound (req : Request) (upstreamAddr : string) (trace : option (string * string)) : error + Request :=
  let body := match ReqBody req with Some b => if ContentLength req =? 0 then Some (mkBody "" None) else Some b | None => None end in
  match NewRequest (Method req) (printURL (chars upstreamAddr) (chars (Http.Path req)) (chars (RawQuery req))) with
  | inl e => inl e
  | inr (method, url) =>
      inr (mkRequest method upstreamAddr (unchars (url_Path url)) (unchars (url_RawQuery url)) (unchars (RequestURI url))
             (InjectTraceHeaders (setForwardedHeaders (ReqHeader req) req) trace) body 0 "" None)
  end.

(** ** One attempt *)

Section Engine.
Context (env : Env) (req : Request) (trace : option (string * string)).
Context (poolKey stablePoolKey routeID : string) (policy : Router.Policy) (breakerCfg : Breaker.Config).

Definition readClock (w : World) : World * Time := (w <| tick ::= S |>, clock env (tick w)).

(** A call to the metrics, when there are any. *)
Definition observe (o : operation) (w : World) : World :=
  match metrics w with
  | None => w
  | Some m => let '(w, now) := readClock w in w <| metrics := Some (perform now o m) |>
  end.

(** The picker of the handler: the registry's choice, with the outlier
    registry consulted for every endpoint, which stamps its entry. *)
Definition picker (w : World) : World * (PickResult * bool) :=
  let '(w, now) := readClock w in
  let '(w, seen) := readClock w in
  let out a t := match outlierReg w with Some o => (OutlierRegistry.IsEjected o stablePoolKey a t t).2 | None => false end in
  let '(r, (res, ok)) := Registry.Pick (reg w) poolKey (Some out) (mapOrder env (tick w)) now seen in
  let w := w <| reg := r |> in
  let w := w <| outlierReg ::= fmap (λ o, (OutlierRegistry.IsEjected o stablePoolKey (Pool.Addr res) seen now).1) |> in
  (w, (res, ok)).

Definition reportOutcome (success : bool) (upstreamAddr : string) (latency : Duration) (noUpstream : bool) (w : World) : World :=
  let '(w, t1) := readClock w in
  let '(w, t2) := readClock w in
  let w := match outlierReg w with
           | None => w
           | Some o =>
               let '(o, _, notes) := OutlierRegistry.RecordResult o stablePoolKey upstreamAddr success latency t1 t2 in
               foldl (λ w note, observe (ORecordOutlierEjection note.1 note.2) w) (w <| outlierReg := Some o |>) notes
           end in
  if noUpstream then w
  else
    let '(w, t3) := readClock w in
    let '(w, t4) := readClock w in
    let '(w, t5) := readClock w in
    w <| breakerReg ::= fmap (λ b, (BreakerRegistry.Report b stablePoolKey breakerCfg success t3 t4 t5).1) |>.

Definition passiveFailure (upstreamAddr : string) (w : World) : World :=
  let '(w, now) := readClock w in w <| reg ::= (λ r, PassiveFailure r poolKey upstreamAddr now) |>.
Definition passiveSuccess (upstreamAddr : string) (w : World) : World :=
  w <| reg ::= (λ r, PassiveSuccess r poolKey upstreamAddr) |>.

Definition reportable (o : Response + error) : bool :=
  match o with inl _ => true | inr e => negb (Is e Canceled) && negb (Is e DeadlineExceeded) end.
Definition succeeded (o : Response + error) : bool := match o with inl resp => StatusCode resp <? 500 | inr _ => false end.

Definition recordUpstreamError (category : string) : World → World := observe (ORecordUpstreamError poolKey category).
(** By the kind of the error. *)
Definition recordFailure (e : error) (upstreamAddr : string) (w : World) : World :=
  if Is e ErrNoUpstream then w
  else if isTimeoutError e || Is e DeadlineExceeded then passiveFailure upstreamAddr (recordUpstreamError "timeout" w)
  else if isDialError e then passiveFailure upstreamAddr (recordUpstreamError "connect_failed" w)
  else recordUpstreamError "other" w.

Definition roundTripUpstream (n : nat) (timeout : Duration) (upstreamAddr : string) (w : World) : World * (Response + error) :=
  match outbound req upstreamAddr trace with
  | inl e => (w, inr e)
  | inr out => (w <| sent ::= (λ l, l ++ [(poolKey, out)]) |>, upstream env n timeout out)
  end.

(** The round trip to the endpoint and what is made of its outcome. *)
Definition exchange (n : nat) (timeout : Duration) (upstreamAddr : string) (w : World) : World * (Response + error) :=
  let '(w, start) := readClock w in
  let '(w, o) := roundTripUpstream n timeout upstreamAddr w in
  let '(w, stop) := readClock w in
  let w := if reportable o
           then reportOutcome (succeeded o) upstreamAddr (time_Sub stop start)
                  (match o with inr e => Is e ErrNoUpstream | inl _ => false end) w
           else w in
  let '(w, stop) := readClock w in
  let w := observe (OObserveUpstreamRoundTrip poolKey (time_Sub stop start)) w in
  (match o with inl _ => w | inr e => recordFailure e upstreamAddr w end, o).

Definition attemptUpstream (n : nat) (timeout : Duration) (w : World) : World * ((Response + error) * string) :=
  let '(w, (pick, ok)) := picker w in
  if negb ok || bool_decide (Pool.Addr pick = "") then (w <| lastPick := emptyPick |>, (inr errNoUpstream, ""))
  else
    let w := w <| lastPick := pick |> in
    let w := if OutlierIgnored pick then observe (ORecordOutlierFailOpen stablePoolKey) w else w in
    let upstreamAddr := Pool.Addr pick in
    let w := w <| reg ::= (λ r, InflightStart r poolKey upstreamAddr) |> in
    let '(w, o) := exchange n timeout upstreamAddr w in
    (w <| reg ::= (λ r, InflightDone r poolKey upstreamAddr) |>, (o, upstreamAddr)).

(** ** The retry loop around it *)

Definition allowRetry : bool :=
  Policy.Enabled (Router.Retry policy) && (1 <? Policy.MaxAttempts (Router.Retry policy)) && IsIdempotentMethod (Method req) && IsReplayableBody req.
Definition budgetEnabled : bool := budget_Enabled (RetryBudget policy) || client_Enabled (ClientRetryCap policy).

(** [Consume] and [RecordSuccess] on the route's budget and on the client's
    bucket at [loc], in the entry the registry holds. *)
Definition onRouteBudget {A} (f : Budget → Budget * A) (d : A) (w : World) : World * A :=
  match retryReg w ≫= λ r, RetryRegistry.routes r !! routeID ≫= budget with
  | None => (w, d)
  | Some b =>
      let '(b, a) := f b in
      (w <| retryReg ::= fmap (λ r, updateEntry r routeID (λ e, e <| budget := Some b |>)) |>, a)
  end.
Definition onClientBudget {A} (loc : nat) (f : Budget → Budget * A) (d : A) (w : World) : World * A :=
  match retryReg w ≫= λ r, RetryRegistry.routes r !! routeID ≫= λ e, clientCap e ≫= λ c, heap c !! loc with
  | None => (w, d)
  | Some b =>
      let '(b, a) := f b in
      (w <| retryReg ::= fmap (λ r, updateEntry r routeID (λ e, e <| clientCap ::= fmap (λ c, c <| heap ::= <[loc := b]> |>) |>)) |>, a)
  end.

(** The budgets of the request: whether they could not be had, whether there
    is a route budget, and the client's bucket. *)
Definition prepareBudgets (w : World) : World * (bool * bool * option nat) :=
  if negb budgetEnabled then (w, (false, false, None))
  else match retryReg w with
  | None => (w, (true, false, None))
  | Some r =>
      let '(w, t1) := readClock w in
      let '(w, t2) := readClock w in
      match RetryRegistry.Budgets r routeID (RetryBudget policy) (ClientRetryCap policy) t1 t2 with
      | (r, Prelude.Err _) => (w <| retryReg := Some r |>, (true, false, None))
      | (r, Prelude.Ok (b, cap)) =>
          let hasRoute := bool_decide (is_Some b) in
          match cap with
          | None => (w <| retryReg := Some r |>, (false, hasRoute, None))
          | Some c =>
              let '(c, loc) := Bucket c (ClientKey req (ClientRetryCap policy)) in
              (w <| retryReg := Some (updateEntry r routeID (λ e, e <| clientCap := Some c |>)) |>, (false, hasRoute, Some loc))
          end
      end
  end.

Definition engineOps (hasRoute : bool) (client : option nat) : Ops World := mkOps World
  readClock
  attemptUpstream
  (λ w, ctxErr env (tick w))
  (λ bound w, (w <| tick ::= S |>, rnd env (tick w) bound))
  (λ _ w, (w <| tick ::= S |>, timerFires env (tick w)))
  (if hasRoute then Some (onRouteBudget Consume false) else None)
  ((λ loc, onClientBudget loc Consume false) <$> client)
  (λ reason, observe (ORecordRetry routeID reason)).

Definition transportFor (w : World) : World * option transport :=
  let '(w, t1) := readClock w in
  let '(w, t2) := readClock w in
  let '(r, t) := GetTransport (reg w) poolKey t1 t2 in (w <| reg := r |>, t).

(** One round trip without the retry loop: the exported [RoundTripUpstream]. *)
Definition RoundTripUpstream (upstreamAddr : string) (timeout : Duration) (w : World) : World * (Response + error) :=
  let '(w, t) := transportFor w in
  match t with
  | None => (w, inr errTransportUnavailable)
  | Some _ => roundTripUpstream 0 timeout upstreamAddr w
  end.

Definition failedResult (e : error) : Result := emptyResult <| RetryExec.Err := Some e |>.
Definition noForward : ForwardResult := mkForward 0 "" false "" false false false false.

(** After the loop: what a response teaches the registries. *)
Definition learn (res : Result) (hasRoute : bool) (client : option nat) (w : World) : World :=
  match Resp res with
  | None => w
  | Some resp =>
      let w := passiveSuccess (UpstreamAddr res) w in
      if (200 <=? StatusCode resp) && (StatusCode resp <? 400) then
        let w := if hasRoute then (onRouteBudget (λ b, (RecordSuccess b, tt)) tt w).1 else w in
        match client with Some loc => (onClientBudget loc (λ b, (RecordSuccess b, tt)) tt w).1 | None => w end
      else w
  end.

Definition roundTripWithRetry (w : World) : World * Result * ForwardResult * list action :=
  let '(w, t) := transportFor w in
  match t with
  | None => (w, failedResult errTransportUnavailable, noForward, [])
  | Some _ =>
      let '(w, (budgetErr, hasRoute, client)) := prepareBudgets w in
      let w := w <| lastPick := emptyPick |> in
      let '(w, res, trace) :=
        Execute (engineOps hasRoute client) (RetryExec.mkConfig (Router.Retry policy) (ctxDeadline env) allowRetry budgetEnabled budgetErr) w in
      let fwd := mkForward (RetryCount res) (RetryReason res) (RetryBudgetExhausted res) (UpstreamAddr res)
                   (Pool.SelectedHealthy (lastPick w)) (Pool.SelectedFailOpen (lastPick w)) (OutlierIgnored (lastPick w)) (EndpointEjected (lastPick w)) in
      let w := if RetryBudgetExhausted res then observe (ORecordRetryBudgetExhausted routeID) w else w in
      (learn res hasRoute client w, res, fwd, trace)
  end.

End Engine.

(** ** Errors to the client

    [ctx] is the error of the request's context.  The answer says whether the
    result has been dealt with; a cancelled client gets nothing. *)
Section Errors.
Context (encodeJSON : ProxyErrorBody → string) (requestID : string).

Definition isRequestTimeout (ctx : option error) : bool := match ctx with Some e => Is e DeadlineExceeded | None => false end.
Definition isClientCanceled (ctx : option error) : bool := match ctx with Some e => Is e Canceled | None => false end.

Definition writeProxyErrorForResult (ctx : option error) (err : option error) : ResponseRecorder → Proxy.outcome ResponseRecorder bool :=
  let isErr s := match err with Some e => Is e s | None => false end in
  let holds f := match err with Some e => f e | None => false end in
  let fail code category message := WriteProxyError encodeJSON requestID code category message ;;! retM true in
  if isErr ErrTransportUnavailable then fail 502 "bad_gateway" "upstream transport unavailable"
  else if isErr ErrNoUpstream then fail 502 "bad_gateway" "no upstream available"
  else if isRequestTimeout ctx then fail 504 "request_timeout" "request timed out"
  else if isClientCanceled ctx then retM true
  else if holds (λ e, isTimeoutError e || Is e DeadlineExceeded) then fail 504 "upstream_timeout" "upstream timeout"
  else if holds isDialError then fail 502 "upstream_connect_failed" "upstream connect failed"
  else retM false.

(** The end of [ForwardWithRetry], which the handler repeats: the response,
    or an error. *)
Definition writeResult (ctx : option error) (res : Result) : ResponseRecorder → Proxy.outcome ResponseRecorder unit :=
  match Resp res with
  | Some resp => WriteUpstreamResponse resp requestID
  | None =>
      let! handled := writeProxyErrorForResult ctx (RetryExec.Err res) in
      if handled then retM tt else WriteProxyError encodeJSON requestID 502 "bad_gateway" "upstream request failed"
  end.

End Errors.

(** ** In-flight counts *)

Lemma i64_add_l x c : i64 (i64 x + c) = i64 (x + c).
Proof.
  unfold i64, wrapS. f_equal. replace ((x + 2 ^ (64 - 1)) mod 2 ^ 64 - 2 ^ (64 - 1) + c + 2 ^ (64 - 1)) with ((x + 2 ^ (64 - 1)) mod 2 ^ 64 + c) by lia.
  rewrite Zplus_mod_idemp_l. f_equal. lia.
Qed.

Lemma i64_idem x : i64 (i64 x) = i64 x.
Proof. pose proof (i64_add_l x 0) as H. by rewrite !Z.add_0_r in H. Qed.

(** The counter of an endpoint, as an [int64]. *)
Definition inflightOf (r : Registry.Registry) (k a : string) : option Z := (λ e, i64 (inflight e)) <$> Registry.endpoint r k a.
Definition same_inflight (r r' : Registry.Registry) : Prop := ∀ k a, inflightOf r' k a = inflightOf r k a.

Lemma same_inflight_trans r1 r2 r3 : same_inflight r1 r2 → same_inflight r2 r3 → same_inflight r1 r3.
Proof. intros H1 H2 k a. by rewrite H2, H1. Qed.

Lemma endpoint_onEndpoint r k a f k' a' :
  Registry.endpoint (onEndpoint r k a f) k' a' =
  if decide (k' = k ∧ a' = a) then f <$> Registry.endpoint r k a else Registry.endpoint r k' a'.
Proof.
  unfold onEndpoint. destruct (Registry.endpoint r k a) as [e|] eqn:E.
  - unfold Registry.endpoint, getPool in *. cbn [pools upd]. destruct (decide (k' = k)) as [->|Hk].
    + rewrite lookup_alter_eq. destruct (pools r !! k) as [p|]; [|done]. simpl in *. unfold Endpoint in *. simpl.
      destruct (decide (a' = a)) as [->|Ha].
      * rewrite decide_True by done. rewrite lookup_alter_eq, E. done.
      * rewrite decide_False by tauto. by rewrite lookup_alter_ne.
    + rewrite lookup_alter_ne, decide_False by (tauto || done). done.
  - case_decide as H; [|done]. destruct H as [-> ->]. by rewrite E.
Qed.

Lemma onEndpoint_same r k a f : (∀ e, inflight (f e) = inflight e) → same_inflight r (onEndpoint r k a f).
Proof.
  intros Hf k' a'. unfold inflightOf. rewrite endpoint_onEndpoint. case_decide as H; [|done]. destruct H as [-> ->].
  destruct (Registry.endpoint r k a); simpl; [|done]. by rewrite Hf.
Qed.

Lemma Pick_same r k out mo now t : same_inflight r (Registry.Pick r k out mo now t).1.
Proof.
  unfold Registry.Pick, getPool. destruct (pools r !! k) as [p|] eqn:E; [|done]. pose proof (Pick_endpoints p out mo now t) as Hp.
  destruct (Pool.Pick p out mo now t) as [p' res]. simpl in *. intros k' a'. unfold inflightOf, Registry.endpoint, getPool, putPool. simpl.
  destruct (decide (k = k')) as [<-|]; [|by rewrite lookup_insert_ne]. rewrite lookup_insert_eq, E. simpl. unfold Endpoint.
  destruct Hp as [b [-> | ->]]; [done|]. destruct (decide (b = a')) as [->|]; [|by rewrite lookup_alter_ne].
  rewrite lookup_alter_eq. by destruct (endpoints p !! a').
Qed.

Lemma same_inflight_pools r r' : pools r' = pools r → same_inflight r r'.
Proof. intros E k a. unfold inflightOf, Registry.endpoint, getPool. by rewrite E. Qed.

Lemma recordPassiveFailure_inflight now e : inflight (RecordPassiveFailure e now) = inflight e.
Proof. unfold RecordPassiveFailure. repeat case_match; simpl; try done; unfold Pool.eject; simpl; repeat case_match; done. Qed.

(** Counting a request in and out again, around steps that keep the counts. *)
Lemma inflight_bracket r r1 k a : same_inflight (InflightStart r k a) r1 → same_inflight r (InflightDone r1 k a).
Proof.
  intros H k' a'. specialize (H k' a'). unfold inflightOf, InflightDone, InflightStart in *. rewrite endpoint_onEndpoint in *.
  case_decide as E; [|done]. destruct E as [-> ->].
  destruct (Registry.endpoint r k a) as [e|], (Registry.endpoint r1 k a) as [e1|]; simpl in *; try done.
  injection H as H. f_equal. rewrite <- (i64_add_l (inflight e1)), H. rewrite !i64_add_l, i64_idem. f_equal. lia.
Qed.

(** ** What forwarding does to the shared state *)

(** The configured addresses, when they are known. *)
Abbreviation pool_config := (option (gmap string (list string))).
Definition registry_is (c : pool_config) (r : Registry.Registry) : Prop := match c with Some c => registry_ok r c | None => True end.
(** A request was sent to a configured address of its pool (a pool without
    configured addresses may still have endpoints that are draining). *)
Definition addressed (c : pool_config) (k a : string) : Prop :=
  match c with Some c => ∃ addrs, c !! k = Some addrs ∧ (addrs = [] ∨ a ∈ addrs) | None => True end.
(** What is sent for [req] to pool [k]: the request that is built for one of the
    pool's addresses. *)
Definition goes_to (c : pool_config) (req : Request) (trace : option (string * string)) (k : string) (x : string * Request) : Prop :=
  x.1 = k ∧ Host x.2 ≠ "" ∧ addressed c k (Host x.2) ∧ outbound req (Host x.2) trace = inr x.2.

(** From a registry of configuration [c]: the in-flight counts end as they
    began, the configuration stands, the metrics have been told of incidents,
    and at most [n] requests have been sent, all as [S] says. *)
Record forwarded (c : pool_config) (S : string * Request → Prop) (n : nat) (w w' : World) : Prop := mkForwarded {
  f_inflight : same_inflight (reg w) (reg w');
  f_metrics : meters incidental (metrics w) (metrics w');
  f_config : registry_is c (reg w');
  f_sent : ∃ l, sent w' = sent w ++ l ∧ Forall S l ∧ (length l ≤ n)%nat
}.
Definition forwards c S n w w' : Prop := registry_is c (reg w) → forwarded c S n w w'.
Lemma forwards_seq c S n m w1 w2 w3 : forwards c S n w1 w2 → forwards c S m w2 w3 → forwards c S (n + m) w1 w3.
Proof.
  intros H12 H23 Hc. destruct (H12 Hc) as [A1 A2 A3 (l1 & A4 & A5 & A6)]. destruct (H23 A3) as [B1 B2 B3 (l2 & B4 & B5 & B6)].
  split; [by eapply same_inflight_trans|by etrans|done|]. exists (l1 ++ l2). rewrite B4, A4, app_assoc, length_app.
  split_and!; [done|by apply Forall_app|lia].
Qed.
#[export] Instance forwards_preorder c S : PreOrder (forwards c S 0).
Proof.
  split; [|by intros ? ? ?; apply forwards_seq].
  intros w Hc. split; [by intros ? ?|reflexivity|done|]. exists []. by rewrite app_nil_r.
Qed.
Lemma forwards_after c S n w1 w2 w3 : forwards c S 0 w1 w2 → forwards c S n w2 w3 → forwards c S n w1 w3.
Proof. apply (forwards_seq c S 0 n). Qed.
Lemma forwards_before c S n w1 w2 w3 : forwards c S n w1 w2 → forwards c S 0 w2 w3 → forwards c S n w1 w3.
Proof. intros H1 H2. rewrite <- (Nat.add_0_r n). by eapply forwards_seq. Qed.
Lemma forwards_more c S n w1 w2 : forwards c S n w1 w2 → forwards c S (Datatypes.S n) w1 w2.
Proof. intros H Hc. destruct (H Hc) as [? ? ? (l & ? & ? & ?)]. split; [done..|]. exists l. split_and!; [done..|lia]. Qed.

Lemma forwards_reg c S w w' :
  same_inflight (reg w) (reg w') → (∀ c, registry_ok (reg w) c → registry_ok (reg w') c) → metrics w' = metrics w → sent w' = sent w →
  forwards c S 0 w w'.
Proof.
  intros H1 H2 H3 H4 Hc. split; [done|by rewrite H3| |exists []; by rewrite H4, app_nil_r]. destruct c; [|done]. by apply H2.
Qed.
Lemma forwards_frame c S w w' : reg w' = reg w → metrics w' = metrics w → sent w' = sent w → forwards c S 0 w w'.
Proof. intros H1 H2 H3. by apply forwards_reg; try done; rewrite H1. Qed.
Lemma onEndpoint_forwards c S k' a f w :
  gentle f → (∀ e, inflight (f e) = inflight e) → forwards c S 0 w (w <| reg ::= (λ r, onEndpoint r k' a f) |>).
Proof. intros Hg Hf. apply forwards_reg; [by apply onEndpoint_same| |done..]. intros c' Hc. by apply onEndpoint_ok. Qed.

(** Back from [forwarded] to the relation that composes. *)
Ltac compose H := match goal with |- forwarded ?c ?S ?n ?a ?b => refine ((_ : forwards c S n a b) H) end.
Create HintDb forwards.
#[export] Hint Extern 1 (forwards _ _ _ _ _) => solve [apply forwards_frame; reflexivity] : forwards.
#[export] Hint Extern 2 (forwards _ _ (Datatypes.S _) _ _) => apply forwards_more : forwards.

Section Balance.
Context (env : Env) (req : Request) (trace : option (string * string)).
Context (poolKey stablePoolKey routeID : string) (policy : Router.Policy) (breakerCfg : Breaker.Config).
Context (c : pool_config).
Abbreviation fwds := (forwards c (goes_to c req trace poolKey)).

Lemma observe_other o w :
  let w' := observe env o w in
  reg w' = reg w ∧ retryReg w' = retryReg w ∧ breakerReg w' = breakerReg w ∧ outlierReg w' = outlierReg w ∧ lastPick w' = lastPick w ∧ sent w' = sent w.
Proof. unfold observe, readClock. by destruct (metrics w). Qed.
Lemma observe_meters (P : operation → bool) o w : P o = true → meters P (metrics w) (metrics (observe env o w)).
Proof.
  intros Ho. unfold observe, readClock. destruct (metrics w) as [m|] eqn:E; [|by rewrite E]. simpl. by apply (meters_one P _ o (Some m)).
Qed.
Lemma observe_forwards S o w : incidental o = true → forwards c S 0 w (observe env o w).
Proof.
  intros Ho Hc. destruct (observe_other o w) as (E1 & _ & _ & _ & _ & E6).
  split; [by rewrite E1|by apply observe_meters|by rewrite E1|exists []; by rewrite E6, app_nil_r].
Qed.
#[local] Hint Resolve observe_forwards : forwards.

Lemma picker_forwards w : fwds 0 w (picker env poolKey stablePoolKey w).1.
Proof.
  unfold picker, readClock. cbn zeta.
  match goal with |- context [Registry.Pick ?r ?k ?o ?m ?n ?t] =>
    pose proof (Pick_same r k o m n t) as H; pose proof (λ c, step_ok r c (EPick k o m n t)) as Hc; destruct (Registry.Pick r k o m n t) as [r' [res ok]] eqn:E end.
  simpl. apply forwards_reg; [exact H| |done..]. intros c' Hr. specialize (Hc c' Hr). cbn [step configure] in Hc. by rewrite E in Hc.
Qed.
Lemma picker_configured w pick :
  (picker env poolKey stablePoolKey w).2 = (pick, true) → registry_is c (reg w) → addressed c poolKey (Pool.Addr pick).
Proof.
  unfold picker, readClock. cbn zeta. unfold Registry.Pick, getPool. intros H Hc. destruct c as [c0|]; [|done]. specialize (Hc poolKey). simpl in *.
  destruct (pools (reg w) !! poolKey) as [p|]; [|done]. destruct (c0 !! poolKey) as [addrs|]; [|done]. destruct Hc as [Hp Ho]. exists addrs. split; [done|].
  destruct (decide (addrs = [])) as [|Hne]; [by left|right]. rewrite <- Ho in Hne |- *.
  match type of H with context [Pool.Pick p ?o ?m ?n ?t] => destruct (Pick_configured p o m n t Hp Hne) as (e & _ & Hin & _); destruct (Pool.Pick p o m n t) end.
  by injection H as <-.
Qed.

Lemma notes_forwards S notes w : forwards c S 0 w (foldl (λ w note, observe env (ORecordOutlierEjection note.1 note.2) w) w notes).
Proof. revert w. induction notes as [|n notes IH]; intros w; [reflexivity|]. simpl. etrans; [|apply IH]. auto with forwards. Qed.
Lemma reportOutcome_forwards s a l b w : fwds 0 w (reportOutcome env stablePoolKey breakerCfg s a l b w).
Proof.
  unfold reportOutcome, readClock. cbn zeta. etrans; [|destruct b; auto with forwards].
  match goal with |- fwds 0 _ (match outlierReg ?w1 with _ => _ end) => trans w1; [auto with forwards|]; destruct (outlierReg w1) as [o|]; [|done] end.
  destruct (OutlierRegistry.RecordResult _ _ _ _ _ _ _) as [[o' res] notes]. etrans; [|apply notes_forwards]. auto with forwards.
Qed.

Lemma passiveFailure_forwards a w : fwds 0 w (passiveFailure env poolKey a w).
Proof.
  unfold passiveFailure, readClock. etrans; [|apply onEndpoint_forwards; [auto with proxy|intros; apply recordPassiveFailure_inflight]]. auto with forwards.
Qed.
Lemma recordFailure_forwards e a w : fwds 0 w (recordFailure env poolKey e a w).
Proof.
  unfold recordFailure, recordUpstreamError. repeat case_match; try reflexivity; try (etrans; [|apply passiveFailure_forwards]); auto with forwards.
Qed.

Lemma outbound_host a out : outbound req a trace = inr out → Host out = a.
Proof. unfold outbound. destruct (NewRequest _ _) as [|[? ?]]; [done|]. by intros [= <-]. Qed.
Lemma roundTripUpstream_forwards n d a w :
  a ≠ "" → addressed c poolKey a → fwds 1 w (roundTripUpstream env req trace poolKey n d a w).1.
Proof.
  intros Hne Ha. unfold roundTripUpstream. destruct (outbound req a trace) as [e|out] eqn:E; [by apply forwards_more|].
  intros Hc. split; [by intros ? ?|reflexivity|done|]. exists [(poolKey, out)]. split_and!; [done| |done].
  repeat constructor; simpl; by rewrite (outbound_host a out E).
Qed.
Lemma exchange_forwards n d a w :
  a ≠ "" → addressed c poolKey a → fwds 1 w (exchange env req trace poolKey stablePoolKey breakerCfg n d a w).1.
Proof.
  intros Hne Ha. unfold exchange, readClock. cbn zeta. cbn [fst snd].
  pose proof (roundTripUpstream_forwards n d a (w <| tick ::= S |>) Hne Ha) as Hr.
  destruct (roundTripUpstream env req trace poolKey n d a _) as [w1 o]. cbn [fst] in Hr. apply (forwards_before _ _ _ _ w1); [apply (forwards_after _ _ _ _ (w <| tick ::= S |>)); [auto with forwards|exact Hr]|].
  clear Hr. cbn [fst snd].
  match goal with |- fwds 0 _ (match o with inl _ => ?w1 | inr _ => _ end) => trans w1; [|destruct o; [done|apply recordFailure_forwards]] end.
  etrans; [|by apply observe_forwards].
  match goal with |- fwds 0 _ (upd tick _ ?w1) => trans w1; [|auto with forwards] end.
  destruct (reportable o); [|auto with forwards]. etrans; [|apply reportOutcome_forwards]. auto with forwards.
Qed.

Lemma attemptUpstream_forwards n d w : fwds 1 w (attemptUpstream env req trace poolKey stablePoolKey breakerCfg n d w).1.
Proof.
  intros Hr. unfold attemptUpstream. pose proof (picker_forwards w) as Hp. pose proof (picker_configured w) as Hc.
  destruct (picker env poolKey stablePoolKey w) as [w1 [pick ok]]. simpl in Hp.
  assert (forwarded c (goes_to c req trace poolKey) 1 w (w1 <| lastPick := emptyPick |>)) as Hnone.
  { compose Hr. apply (forwards_after _ _ _ _ w1); [exact Hp|]. auto with forwards. }
  destruct ok; cbn [negb orb]; [|exact Hnone]. case_bool_decide as Hne; [exact Hnone|]. specialize (Hc pick eq_refl Hr). set (a := Pool.Addr pick) in *.
  match goal with |- forwarded _ _ _ _ (let '(_, _) := exchange _ _ _ _ _ _ _ _ _ (upd reg _ ?w2) in _).1 => assert (fwds 0 w1 w2) as H2 end.
  { destruct (OutlierIgnored pick); [|auto with forwards]. etrans; [|by apply observe_forwards]. auto with forwards. }
  revert H2. match goal with |- fwds 0 _ ?x → _ => generalize x end. intros w2 H2.
  pose proof (exchange_forwards n d a (w2 <| reg ::= (λ r, InflightStart r poolKey a) |>) Hne Hc) as He.
  destruct (exchange env req trace poolKey stablePoolKey breakerCfg n d a _) as [w3 o]. simpl in *.
  compose Hr. apply (forwards_after _ _ _ _ w1); [exact Hp|]. apply (forwards_after _ _ _ _ w2); [exact H2|]. intros H. destruct He as [E1 E2 E3 E4].
  { simpl. destruct c; [|done]. apply onEndpoint_ok; [auto with proxy|exact H]. }
  split; simpl; [by apply inflight_bracket|done| |done]. destruct c; [|done]. apply onEndpoint_ok; [auto with proxy|exact E3].
Qed.

Lemma onRouteBudget_forwards {A} (f : Budget → Budget * A) d w : fwds 0 w (onRouteBudget routeID f d w).1.
Proof. unfold onRouteBudget. case_match; [destruct (f _)|]; auto with forwards. Qed.
Lemma onClientBudget_forwards {A} loc (f : Budget → Budget * A) d w : fwds 0 w (onClientBudget routeID loc f d w).1.
Proof. unfold onClientBudget. case_match; [destruct (f _)|]; auto with forwards. Qed.
Lemma prepareBudgets_forwards w : fwds 0 w (prepareBudgets env req routeID policy w).1.
Proof.
  unfold prepareBudgets, readClock. destruct (negb _); [done|]. destruct (retryReg w) as [r|]; [|done]. cbn zeta.
  destruct (RetryRegistry.Budgets _ _ _ _ _ _) as [r' [[b [cap|]]|e]]; [destruct (Bucket cap _)|..]; auto with forwards.
Qed.
Lemma transportFor_forwards w : fwds 0 w (transportFor env poolKey w).1.
Proof.
  unfold transportFor, readClock, GetTransport. cbn zeta. destruct (Transport.Get _ _ _ _) as [tr t].
  apply forwards_reg; [by apply same_inflight_pools| |done..]. intros c'. by apply same_pools_ok.
Qed.
#[local] Hint Resolve onRouteBudget_forwards onClientBudget_forwards : forwards.
Lemma learn_forwards res hasRoute client w : fwds 0 w (learn poolKey routeID res hasRoute client w).
Proof.
  unfold learn. destruct (Resp res) as [resp|]; [|done].
  trans (passiveSuccess poolKey (UpstreamAddr res) w); [apply onEndpoint_forwards; [auto with proxy|done]|].
  destruct (_ && _); [|done]. destruct hasRoute, client; auto with forwards. etrans; [|apply onClientBudget_forwards]. auto with forwards.
Qed.

(** The most attempts a request may make. *)
Definition attemptLimit : nat :=
  Z.to_nat (RetryExec.maxAttempts (RetryExec.mkConfig (Router.Retry policy) None (allowRetry req policy) false false)).

(** Forwarding a request, with all its retries and on every outcome: see
    [forwarded]; no more is sent than the trace has attempts. *)
Lemma roundTrip_tries w :
  let out := roundTripWithRetry env req trace poolKey stablePoolKey routeID policy breakerCfg w in
  fwds (tries out.2) w out.1.1.1 ∧ (tries out.2 ≤ attemptLimit)%nat.
Proof.
  unfold roundTripWithRetry. pose proof (transportFor_forwards w) as Ht. destruct (transportFor env poolKey w) as [w1 [t|]]; [|split; [exact Ht|apply Nat.le_0_l]].
  simpl in Ht. pose proof (prepareBudgets_forwards w1) as Hb.
  destruct (prepareBudgets env req routeID policy w1) as [w2 [[budgetErr hasRoute] client]]. simpl in Hb.
  set (ops := engineOps _ _ _ _ _ _ _ _ _). set (cfg := RetryExec.mkConfig _ _ _ _ _).
  assert (∀ w1 w2, fwds 0 w1 w2 → ∀ k, fwds k w w1 → fwds k w w2) as Hstep by (intros w4 w5 H k H'; by eapply forwards_before).
  assert (tried (λ k w', fwds k w w') 0 attemptLimit (Execute ops cfg (w2 <| lastPick := emptyPick |>))) as He.
  { apply Execute_tried.
    - intros k w'. apply Hstep. auto with forwards.
    - intros k n d w' H. rewrite <- Nat.add_1_r. exact (forwards_seq _ _ k 1 _ _ _ H (attemptUpstream_forwards n d w')).
    - intros k b w'. apply Hstep. auto with forwards.
    - intros k d w'. apply Hstep. auto with forwards.
    - intros k f w' Hf. simpl in Hf. destruct hasRoute; [|done]. injection Hf as <-. apply Hstep. auto with forwards.
    - intros k f w' Hf. simpl in Hf. destruct client; [|done]. injection Hf as <-. apply Hstep. auto with forwards.
    - intros k reason w'. apply Hstep. simpl. auto with forwards.
    - trans w1; [exact Ht|]. trans w2; [exact Hb|]. auto with forwards. }
  destruct (Execute ops cfg (w2 <| lastPick := emptyPick |>)) as [[w3 res] tr]. destruct He as [H3 Hle]. simpl in *. split; [|done].
  eapply forwards_before; [exact H3|]. etrans; [|apply learn_forwards]. destruct (RetryBudgetExhausted res); [|done]. auto with forwards.
Qed.
Lemma roundTrip_forwards w :
  fwds attemptLimit w (roundTripWithRetry env req trace poolKey stablePoolKey routeID policy breakerCfg w).1.1.1.
Proof.
  destruct (roundTrip_tries w) as [H Hle]. apply Nat.le_exists_sub in Hle as (n & -> & _). induction n as [|n IH]; [done|]. by apply forwards_more.
Qed.
End Balance.

(** A half-open breaker with one slot, and an upstream that does not answer. *)
Definition one_probe : Breaker.Config := Breaker.mkConfig true 50 1 Second Second 1.
Definition half_open_registry : BreakerRegistry.Registry :=
  (BreakerRegistry.NewRegistry 0 0) <| BreakerRegistry.breakers :=
    {["r::p" := BreakerRegistry.mkEntry (Breaker.mkBreaker StateHalfOpen 0 0 0 0 0 0 0 (Some one_probe)) one_probe 0]} |>.
Definition silent_env : Env := mkEnv (λ _, 0) (λ _ _ _, inr errDeadlineExceeded) (λ _, None) None (λ _ _, 0) (λ _, true) (λ _, []).
Definition silent_world : World :=
  mkWorld (Registry.Reconcile (Registry.NewRegistry 0 0) "p" ["10.0.0.1:80"] (Health.mkConfig "/" Second Second 1 1 Second Second) DefaultOptions (λ _, 0) 0 0)
    None (Some half_open_registry) None emptyPick None [] 0.
Definition plain_get : Request := mkRequest "GET" "h" "/" "" "/" ∅ None 0 "" None.

(** A [#] in the query, which the server accepts from a client, ends it. *)
Example outbound_cuts_query :
  RawQuery <$> match outbound (plain_get <| RawQuery := "token=a#b&user=c" |>) "10.0.0.1:80" None with inr out => Some out | inl _ => None end
  = Some "token=a".
Proof. vm_compute. reflexivity. Qed.
