(* ===== verification/AccessLog.v ===== *)
(** * What a request leaves in the log and in the metrics (internal/obs: logging.go, tracing.go, obs.go; internal/proxy/handler.go)

    The access log entry of a request, the trace context it carries, and the
    metrics its deferred function records.  The JSON text and the random span
    id are the standard library's. *)
From S2P Require Import Prelude.
From S2P Require Import GoStrings.
From S2P Require Import Http.
From S2P Require Import CacheKey.
From S2P Require Import Rolling.
From S2P Require Import TopK.
From S2P Require Import Metrics.

(** ** logging.go, obs.go *)

Definition defaultString (value fallback : string) : string := if decide (value = "") then fallback else value.

Record RequestContext := mkRequestContext {
  ctx_RequestID : string;
  ctx_Method : string;
  ctx_Host : string;
  ctx_Path : string;
  ctx_RouteID : string;
  ctx_PoolKey : string;
  ctx_UpstreamAddr : string;
  ctx_PluginFilters : list string;
  ctx_PluginBypassed : bool;
  ctx_PluginBypassReason : string;
  ctx_PluginFailureMode : string;
  ctx_PluginShortCircuit : bool;
  ctx_PluginMutationDenied : bool;
  ctx_Status : Z;
  ctx_Duration : Duration;
  ctx_BytesIn : Z;
  ctx_BytesOut : Z;
  ctx_ErrorCategory : string;
  ctx_RetryCount : Z;
  ctx_RetryLastReason : string;
  ctx_RetryBudgetExhausted : bool;
  ctx_CacheStatus : string;
  ctx_SnapshotVersion : string;
  ctx_SnapshotSource : string;
  ctx_TrafficVariant : string;
  ctx_CohortMode : string;
  ctx_CohortKeyPresent : bool;
  ctx_OverloadRejected : bool;
  ctx_AutoDrainActive : bool;
  ctx_UserAgent : string;
  ctx_RemoteAddr : string;
  ctx_BreakerState : string;
  ctx_BreakerDenied : bool;
  ctx_OutlierIgnored : bool;
  ctx_EndpointEjected : bool;
  ctx_TLS : bool;
  ctx_MTLSRouteRequired : bool;
  ctx_MTLSVerified : bool
}.

Record AccessLogEntry := mkAccessLogEntry {
  log_Timestamp : string;
  log_RequestID : string;
  log_Method : string;
  log_Host : string;
  log_Path : string;
  log_RouteID : string;
  log_PoolKey : string;
  log_UpstreamAddr : string;
  log_PluginFilters : list string;
  log_PluginBypassed : bool;
  log_PluginBypassReason : string;
  log_PluginFailureMode : string;
  log_PluginShortCircuit : bool;
  log_PluginMutationDenied : bool;
  log_Status : Z;
  log_DurationMS : Z;
  log_BytesIn : Z;
  log_BytesOut : Z;
  log_ErrorCategory : string;
  log_RetryCount : Z;
  log_RetryLastReason : string;
  log_RetryBudgetExhausted : bool;
  log_CacheStatus : string;
  log_SnapshotVersion : string;
  log_SnapshotSource : string;
  log_TrafficVariant : string;
  log_CohortMode : string;
  log_CohortKeyPresent : bool;
  log_OverloadRejected : bool;
  log_AutoDrainActive : bool;
  log_UserAgent : string;
  log_RemoteAddr : string;
  log_BreakerState : string;
  log_BreakerDenied : bool;
  log_OutlierIgnored : bool;
  log_EndpointEjected : bool;
  log_TLS : bool;
  log_MTLSRouteRequired : bool;
  log_MTLSVerified : bool
}.

Definition LogAccess (now : string) (c : RequestContext) : AccessLogEntry :=
  mkAccessLogEntry now (defaultString (ctx_RequestID c) "none") (ctx_Method c) (ctx_Host c) (ctx_Path c)
    (defaultString (ctx_RouteID c) "none") (defaultString (ctx_PoolKey c) "none") (defaultString (ctx_UpstreamAddr c) "none")
    (ctx_PluginFilters c) (ctx_PluginBypassed c) (ctx_PluginBypassReason c) (ctx_PluginFailureMode c) (ctx_PluginShortCircuit c)
    (ctx_PluginMutationDenied c) (ctx_Status c) (Z.quot (ctx_Duration c) Millisecond) (ctx_BytesIn c) (ctx_BytesOut c)
    (defaultString (ctx_ErrorCategory c) "none") (ctx_RetryCount c) (defaultString (ctx_RetryLastReason c) "none")
    (ctx_RetryBudgetExhausted c) (defaultString (ctx_CacheStatus c) "bypass") (defaultString (ctx_SnapshotVersion c) "none")
    (defaultString (ctx_SnapshotSource c) "none") (defaultString (ctx_TrafficVariant c) "stable")
    (defaultString (ctx_CohortMode c) "random") (ctx_CohortKeyPresent c) (ctx_OverloadRejected c) (ctx_AutoDrainActive c)
    (ctx_UserAgent c) (ctx_RemoteAddr c) (defaultString (ctx_BreakerState c) "none") (ctx_BreakerDenied c) (ctx_OutlierIgnored c)
    (ctx_EndpointEjected c) (ctx_TLS c) (ctx_MTLSRouteRequired c) (ctx_MTLSVerified c).

Definition isSensitiveHeader (name : string) : bool :=
  bool_decide (ToLower name ∈ ["authorization"; "cookie"; "set-cookie"; "x-api-key"; "proxy-authorization"]).
Definition RedactHeaderValue (name value : string) : string :=
  if decide (name = "") then value else if isSensitiveHeader name then "[redacted]" else value.

(** [jsonLogWriter.Write] of cmd/proxy: what one line of the standard logger
    becomes, and the error; a blank line is dropped, and one that cannot be
    encoded is written as it is. *)
Definition jsonLogWrite (marshal : string → string → result string) (write : string → option string) (ts p : string)
    : list string * option string :=
  let msg := TrimSpace p in
  if decide (msg = "") then ([], None)
  else match marshal ts msg with
  | Err e => ([p], match write p with Some writeErr => Some writeErr | None => Some e end)
  | Ok data => let line := (data ++ String "010" "")%string in ([line], write line)
  end.

(** ** tracing.go *)

Record TraceContext := mkTrace { TraceParent : string; TraceState : string; SpanID : string; phases : gmap string Time }.
#[export] Instance TraceContext_eta : Eta TraceContext := fun t => mkTrace (TraceParent t) (TraceState t) (SpanID t) (phases t).
(** [random] is what crypto/rand gives, or nothing when it fails. *)
Definition newSpanID (random : option (list ascii)) : string := match random with Some bytes => hexEncode bytes | None => "" end.
Definition StartTrace (random : option (list ascii)) (h : Header) : TraceContext :=
  mkTrace (header_Get h "traceparent") (header_Get h "tracestate") (newSpanID random) ∅.
Definition MarkPhase (name : string) (now : Time) (trace : option TraceContext) : option TraceContext :=
  (λ t, t <| phases ::= <[name := now]> |>) <$> trace.

(** ** The deferred function of the handler *)

(** What the deferred function has at hand. *)
Record Finished := mkFinished {
  f_routeID : string;
  f_poolKey : string;
  f_canonRoute : option string;   (** set when the labels were looked up already *)
  f_version : string;
  f_source : string;
  f_status : Z;
  f_duration : Duration;
  f_errorCategory : string;
  f_variant : string;
  f_overloadRejected : bool
}.

Definition requestMetrics (now : Time) (f : Finished) (m : Metrics) : Metrics :=
  let '(m, canonRoute) :=
    match f_canonRoute f with
    | Some r => (m, r)
    | None => let '(m, (r, _)) := Canonicalize now (f_routeID f) (f_poolKey f) m in (m, r)
    end in
  let proxyError := negb (bool_decide (f_errorCategory f = "none")) in
  let m := SetSnapshotInfo (f_version f) (f_source f) m in
  let m := ObserveRequestCanonical now canonRoute (f_status f) (f_duration f) m in
  let m := if proxyError then RecordProxyErrorCanonical canonRoute (f_errorCategory f) m else m in
  let m := RecordVariantRequestCanonical canonRoute (f_variant f) m in
  let m := if proxyError || (500 <=? f_status f) then RecordVariantErrorCanonical canonRoute (f_variant f) m else m in
  if f_overloadRejected f then RecordOverloadRejectCanonical canonRoute m else m.

Lemma times_app x a b : times x (a ++ b) = (times x a + times x b)%nat.
Proof. unfold times. by rewrite List.filter_app, length_app. Qed.
Definition indicator (b : bool) : nat := if b then 1%nat else 0%nat.

Lemma SetSnapshotInfo_calls v s m x :
  x ≠ snapshotInfo → times x (calls (SetSnapshotInfo v s m)) = times x (calls m) ∧ requestWindow (SetSnapshotInfo v s m) = requestWindow m.
Proof.
  intros Hx. unfold SetSnapshotInfo. case_decide; [done|]. case_decide; simpl; unfold times; simpl; rewrite ?bool_decide_false by done; done.
Qed.

(** A request is counted once: its deferred function adds one to the request
    counter, the duration histogram and the variant's requests, one to the
    proxy errors exactly when the proxy made the error, one to the variant's
    errors exactly when that or a 5xx status was the outcome, one to the
    overload rejections exactly when it was rejected, and one request of its
    status to the window the rollout gate looks at. *)
Theorem request_counted_once now f m :
  let m' := requestMetrics now f m in
  let proxyError := negb (bool_decide (f_errorCategory f = "none")) in
  (∀ x, x ∈ [requests; requestDuration; variantRequests] → times x (calls m') = S (times x (calls m))) ∧
  times proxyErrors (calls m') = (indicator proxyError + times proxyErrors (calls m))%nat ∧
  times variantErrors (calls m') = (indicator (proxyError || (500 <=? f_status f)%Z) + times variantErrors (calls m))%nat ∧
  times overloadRejects (calls m') = (indicator (f_overloadRejected f) + times overloadRejects (calls m))%nat ∧
  requestWindow m' = Record_ (unixSecond now) (f_status f) (requestWindow m).
Proof.
  intros m' proxyError.
  assert (∃ m0 label, calls m0 = calls m ∧ requestWindow m0 = requestWindow m ∧
    m' = let m1 := ObserveRequestCanonical now label (f_status f) (f_duration f) (SetSnapshotInfo (f_version f) (f_source f) m0) in
         let m2 := if proxyError then RecordProxyErrorCanonical label (f_errorCategory f) m1 else m1 in
         let m3 := RecordVariantRequestCanonical label (f_variant f) m2 in
         let m4 := if proxyError || (500 <=? f_status f) then RecordVariantErrorCanonical label (f_variant f) m3 else m3 in
         if f_overloadRejected f then RecordOverloadRejectCanonical label m4 else m4) as (m0 & label & Hc & Hw & Hm).
  { unfold m', requestMetrics. destruct (f_canonRoute f) as [r|]; [by exists m, r|].
    pose (m0 := m <| topk ::= ObserveHit now (f_routeID f) (f_poolKey f) |>). by exists m0, (CanonRoute (f_routeID f) (topk m0)). }
  rewrite Hm. clear Hm m'. rewrite <- Hc, <- Hw. cbv zeta.
  assert (∀ x, x ≠ snapshotInfo → times x (calls m0) = times x (calls (SetSnapshotInfo (f_version f) (f_source f) m0))) as Ht
    by (intros x Hx; by destruct (SetSnapshotInfo_calls (f_version f) (f_source f) m0 x Hx)).
  destruct (SetSnapshotInfo_calls (f_version f) (f_source f) m0 requests ltac:(done)) as [_ Hwin].
  rewrite <- Hwin, !Ht by done. generalize proxyError. intros pe.
  split_and!.
  - intros x Hx. assert (x = requests ∨ x = requestDuration ∨ x = variantRequests) as Hcase by (rewrite !elem_of_cons, elem_of_nil in Hx; naive_solver).
    rewrite Ht by (destruct Hcase as [->|[->| ->]]; done).
    destruct Hcase as [->|[->| ->]]; destruct pe, (500 <=? f_status f), (f_overloadRejected f); reflexivity.
  - destruct pe, (500 <=? f_status f), (f_overloadRejected f); reflexivity.
  - destruct pe, (500 <=? f_status f), (f_overloadRejected f); reflexivity.
  - destruct pe, (500 <=? f_status f), (f_overloadRejected f); reflexivity.
  - destruct pe, (500 <=? f_status f), (f_overloadRejected f); reflexivity.
Qed.

(** The gauge reports this snapshot. *)
Definition reported (version source : string) (m : Metrics) : Prop := one_hot m ∧ lastVersion m = version ∧ lastSource m = source.
Lemma perform_reported v s now o m : reports o = false → reported v s m → reported v s (perform now o m).
Proof.
  intros Ho (H1 & H2 & H3). split; [by apply perform_one_hot|]. destruct (perform_calls now o m) as [_ Hl]. by destruct (Hl Ho) as [-> ->].
Qed.
Lemma perform_if_reported v s now o m (b : bool) : reports o = false → reported v s m → reported v s (if b then perform now o m else m).
Proof. destruct b; [apply perform_reported|done]. Qed.
Lemma requestMetrics_reported now f m :
  one_hot m → f_version f ≠ "" → reported (f_version f) (orElse (f_source f) "unknown") (requestMetrics now f m).
Proof.
  intros Hm Hv. unfold requestMetrics.
  assert (∃ m0 r, one_hot m0 ∧ (match f_canonRoute f with Some r => (m, r) | None => let '(m, (r, _)) := Canonicalize now (f_routeID f) (f_poolKey f) m in (m, r) end) = (m0, r))
    as (m0 & r & H0 & ->).
  { destruct (f_canonRoute f) as [r|]; [by exists m, r|].
    exists (perform now (OCanonicalize (f_routeID f) (f_poolKey f)) m). eexists. split; [by apply perform_one_hot|reflexivity]. }
  cbv zeta. apply (perform_if_reported _ _ now (ORecordOverloadRejectCanonical r)); [done|].
  apply (perform_if_reported _ _ now (ORecordVariantErrorCanonical r (f_variant f))); [done|].
  apply (perform_reported _ _ now (ORecordVariantRequestCanonical r (f_variant f))); [done|].
  apply (perform_if_reported _ _ now (ORecordProxyErrorCanonical r (f_errorCategory f))); [done|].
  apply (perform_reported _ _ now (OObserveRequestCanonical r (f_status f) (f_duration f))); [done|].
  split; [exact (perform_one_hot now (OSetSnapshotInfo (f_version f) (f_source f)) m0 H0)|]. unfold SetSnapshotInfo. by rewrite decide_False.
Qed.

(** The snapshot gauge follows the requests, not the store: after a request
    has ended, the snapshot it was served with is the one reported as active,
    even when another snapshot has been current for long, and no other. *)
Theorem snapshot_gauge_lags cfg os now f :
  f_version f ≠ "" →
  let cs := calls (requestMetrics now f (run os (NewMetrics cfg))) in
  ∀ l, gauge snapshotInfo l cs = Some 1 ↔ l = [f_version f; orElse (f_source f) "unknown"].
Proof.
  intros Hv cs l. destruct (requestMetrics_reported now f (run os (NewMetrics cfg)) (run_one_hot _ _ (new_one_hot cfg)) Hv) as ((_ & H & _) & E1 & E2).
  unfold cs. rewrite H, E1, E2 by congruence. done.
Qed.
Lemma snapshot_gauge_lags_witness :
  let f v := mkFinished "r" "p" None v "admin" 200 0 "none" "stable" false in
  gauge snapshotInfo ["v1"; "admin"] (calls (requestMetrics 2 (f "v1") (run [(1, OSetSnapshotInfo "v2" "admin")] (NewMetrics (mkMetricsConfig 0 0 0))))) = Some 1.
Proof.
  intros f. by apply (snapshot_gauge_lags (mkMetricsConfig 0 0 0) [(1, OSetSnapshotInfo "v2" "admin")] 2 (f "v1")).
Defined.
