(* ===== verification/Handler.v ===== *)
(** * Serving a request (internal/proxy/handler.go, [ServeHTTP])

    One request from start to end, in a run without interleaving.  [HS] is
    everything the request touches: its own recorder and tracking, and the
    shared registries, cache and snapshot store.  [HEnv] is what the outside
    contributes: the clock and upstream ([Engine.Env]), the plugins behind
    their connections, whether the overload limiter admits the request, what waiting for a
    coalesced flight yields, and how far a response body gets before its
    stream deadline.  [locals] are the variables of [ServeHTTP] the access
    log is written from.  The snapshot observer, which only tests set, is a
    list of what it is told; the phase times of the trace, which nothing
    reads, are left out. *)
From S2P Require Import Prelude.
From S2P Require Import Metrics.
From S2P Require Import AccessLog.
From S2P Require Import GoStrings.
From S2P Require Import GoError.
From S2P Require Import Http.
From S2P Require Import Policy.
From S2P Require Import Breaker.
From S2P Require Import BreakerRegistry.
From S2P Require Import Pool.
From S2P Require Import Registry.
From S2P Require Import RetryExec.
From S2P Require Import CacheStore.
From S2P Require Import CacheKey.
From S2P Require Import TrafficSplit.
From S2P Require Import Overload.
From S2P Require Import TrafficPlan.
From S2P Require Import Config.
From S2P Require Import Limits.
From S2P Require Import Plugin.
From S2P Require Import TLSStore.
From S2P Require Import Router.
From S2P Require Import Snapshot.
From S2P Require Import Store.
From S2P Require Import Proxy.
From S2P Require Import PluginFilters.
From S2P Require Import ProxyRules.
From S2P Require Import Engine.

Record Locals := mkLocals {
  l_logPath : string;
  l_routeID : string;
  l_poolKey : string;
  l_upstreamAddr : string;
  l_snapshotVersion : string;
  l_snapshotSource : string;
  l_bytesIn : Z;
  l_retryCount : Z;
  l_retryLastReason : string;
  l_retryBudgetExhausted : bool;
  l_cacheStatus : string;
  l_breakerState : string;
  l_breakerDenied : bool;
  l_outlierIgnored : bool;
  l_endpointEjected : bool;
  l_mtlsRouteRequired : bool;
  l_mtlsVerified : bool;
  l_cohortMode : string;
  l_cohortKeyPresent : bool;
  l_overloadRejected : bool;
  l_autoDrainActive : bool;
  l_pluginFilters : list string;
  l_canonRoute : option string   (** set once [canonObserved] *)
}.
#[export] Instance Locals_eta : Eta Locals := fun l =>
  mkLocals (l_logPath l) (l_routeID l) (l_poolKey l) (l_upstreamAddr l) (l_snapshotVersion l) (l_snapshotSource l) (l_bytesIn l) (l_retryCount l)
    (l_retryLastReason l) (l_retryBudgetExhausted l) (l_cacheStatus l) (l_breakerState l) (l_breakerDenied l) (l_outlierIgnored l)
    (l_endpointEjected l) (l_mtlsRouteRequired l) (l_mtlsVerified l) (l_cohortMode l) (l_cohortKeyPresent l) (l_overloadRejected l)
    (l_autoDrainActive l) (l_pluginFilters l) (l_canonRoute l).

Definition newLocals (r : Request) : Locals :=
  mkLocals (if decide (RawQuery r = "") then Path r else Path r ++ "?" ++ RawQuery r)%string "none" "none" "none" "none" "none"
    (if 0 <? ContentLength r then ContentLength r else 0) 0 "" false "bypass" "" false false false false false "random" false false false [] None.

Record HS := mkHS {
  recorder : ResponseRecorder;
  request : Request;
  tracking : pluginTracking;
  variant : Variant;
  plan : option nat;
  locals : Locals;
  traceCtx : option TraceContext;
  slots : Z;
  flightResult : Entry * bool * option error;
  store : Store.Store;
  world : Engine.World;
  pluginReg : option Plugin.Registry;
  cacheStore : option MemoryStore;
  coalescer : option Coalescer;
  trafficReg : TrafficPlan.Registry;
  rngSeed : Z;
  inflight : option InflightTracker;
  accessLog : list AccessLogEntry;
  snapVar : option nat;
  observer : option (list (string * nat))
}.
#[export] Instance HS_eta : Eta HS := fun s =>
  mkHS (recorder s) (request s) (tracking s) (variant s) (plan s) (locals s) (traceCtx s) (slots s) (flightResult s) (store s) (world s)
    (pluginReg s) (cacheStore s) (coalescer s) (trafficReg s) (rngSeed s) (inflight s) (accessLog s) (snapVar s) (observer s).

Record HEnv := mkHEnv {
  ready : bool;
  engineEnv : Engine.Env;
  idRandom : option (list ascii);   (** the random bytes of a new request id, or none *)
  requestPlugins : nat → callEnv;
  responsePlugins : nat → callEnv;
  overloadAdmits : bool;
  waitResult : Entry * bool * option error * bool;
  streamCut : option Z;
  spanRandom : option (list ascii);
  logTime : string   (** the time of the log entry, formatted *)
}.

Section Serve.
Context (encodeJSON : ProxyErrorBody → string) (sha256 : string → list ascii).
Context (ParseCertificate : string → Prelude.result Certificate) (Verify : Certificate → CertPool → list Certificate → option string).
Context (env : HEnv).

Abbreviation M A := (HS → Proxy.outcome HS A).

(** ** snapshot_observer.go

    The observer, when there is one, is told the phase and the snapshot; here
    it keeps what it is told. *)

Definition SnapshotPhaseRouteMatch : string := "route_match".
Definition SnapshotPhaseUpstreamPick : string := "upstream_pick".
Definition SnapshotPhaseResponseWrite : string := "response_write".
(** [n] calls in a row. *)
Definition observeSnapshot (phase : string) (n : nat) (s : HS) : HS :=
  s <| observer ::= (λ o, match snapVar s with Some p => (λ l, l ++ replicate n (phase, p)) <$> o | None => o end) |>.

(** ** Lifting *)

Definition onRecorder {A} (m : ResponseRecorder → Proxy.outcome ResponseRecorder A) : M A := λ s,
  match m (recorder s) with
  | Done r a => Done (s <| recorder := r |>) a
  | Panicked r => Panicked (s <| recorder := r |>)
  end.
Definition gets {A} (f : HS → A) : M A := λ s, Done s (f s).
Definition modify (f : HS → HS) : M unit := modifyM f.
Definition clockM : M Time := λ s, let '(w, t) := readClock (engineEnv env) (world s) in Done (s <| world := w |>) t.

(** A deferred action runs when the body returns and when it panics. *)
Definition deferM {A} (cleanup : M unit) (m : M A) : M A := λ s,
  match m s with Done s a => (cleanup ;;! retM a) s | Panicked s => Panicked (finalState (cleanup s)) end.

Definition setLocals (f : Locals → Locals) : M unit := modify (λ s, s <| locals ::= f |>).
(** A call to [h.Metrics], when there are any. *)
Definition meter (o : operation) : M unit := modify (λ s, s <| world ::= observe (engineEnv env) o |>).
(** The route's label for metrics, empty as long as there is none. *)
Definition canon (s : HS) : string := default "" (l_canonRoute (locals s)).
Definition canonicalize (routeID poolKey : string) : M unit := λ s,
  match Engine.metrics (world s) with
  | None => Done s tt
  | Some m =>
      let '(w, now) := readClock (engineEnv env) (world s) in
      let '(m, (route, _)) := Canonicalize now routeID poolKey m in
      Done (s <| world := w <| Engine.metrics := Some m |> |> <| locals ::= (λ l, l <| l_canonRoute := Some route |>) |>) tt
  end.

Definition fail (requestID : string) (code : Z) (category message : string) : M unit :=
  onRecorder (WriteProxyError encodeJSON requestID code category message).

(** ** Plugins *)

Definition requestPhase (requestID : string) (route : Route) : M bool := λ s,
  let p := mkPState (recorder s) (pluginReg s) (tracking s) (ReqHeader (request s)) (Engine.metrics (world s)) false in
  let back (p : PState) := s <| recorder := PluginFilters.recorder p |> <| pluginReg := PluginFilters.registry p |>
      <| tracking := PluginFilters.tracking p |>
      <| world ::= (λ w, w <| Engine.metrics := PluginFilters.metrics p |>) |> <| request ::= (λ r, r <| ReqHeader := msgHeader p |>) |> in
  match applyRequestPlugins encodeJSON requestID (Router.ID route) (Plugins (Router.RoutePolicy route)) (request s) (requestPlugins env) p with
  | Done p stop => Done (back p) stop
  | Panicked p => Panicked (back p)
  end.

(** The response with the headers as the plugins leave them. *)
Definition responsePhase (requestID : string) (route : Route) (resp : Response) : M (bool * Response) := λ s,
  let p := mkPState (recorder s) (pluginReg s) (tracking s) (RespHeader resp) (Engine.metrics (world s)) false in
  let back (p : PState) := s <| recorder := PluginFilters.recorder p |> <| pluginReg := PluginFilters.registry p |>
      <| tracking := PluginFilters.tracking p |> <| world ::= (λ w, w <| Engine.metrics := PluginFilters.metrics p |>) |> in
  match applyResponsePlugins encodeJSON requestID (Router.ID route) (Plugins (Router.RoutePolicy route)) (StatusCode resp) (responsePlugins env) p with
  | Done p stop => Done (back p) (stop, resp <| RespHeader := msgHeader p |>)
  | Panicked p => Panicked (back p)
  end.

(** ** Route checks *)

(** [true] when the client may use the route. *)
Definition mtlsOk (snap : Snapshot) (route : Route) (req : Request) : bool :=
  if negb (RequireMTLS (Router.RoutePolicy route)) then true
  else match SnapshotTLSStore snap with
  | None => false
  | Some st =>
      let rawCerts := match Http.TLS req with Some certs => omap id certs | None => [] end in
      match VerifyClientCert ParseCertificate Verify st rawCerts with None => true | Some _ => false end
  end.

(** The variant and the pool it selects: name and key.  The generator always
    answers ([None] is excluded by [nextRand_never_stuck]). *)
Definition selectPool (route : Route) : M (string * string) :=
  let key k name := if decide (k = "") then (Router.ID route ++ "::" ++ name)%string else k in
  let stable := (PoolName route, key (StablePoolKey route) (PoolName route)) in
  modify (λ s, s <| plan := TrafficPlan route |>) ;;!
  let! p := gets (λ s, plan s ≫= λ id, plans (trafficReg s) !! id) in
  match p with
  | None => retM stable
  | Some p =>
      let! now := clockM in
      let! pick := gets (λ s, PickVariant p (request s) now (rngSeed s)) in
      match pick with
      | None => retM stable
      | Some (seed, v, meta) =>
          modify (λ s, s <| rngSeed := seed |> <| variant := v |>) ;;!
          setLocals (λ l, l <| l_cohortMode := CohortMode meta |> <| l_cohortKeyPresent := CohortKeyPresent meta |>
                            <| l_autoDrainActive := AutoDrainActive meta |>) ;;!
          retM (match v with
                | VariantCanary => if decide (CanaryPoolName route = "") then stable
                                   else (CanaryPoolName route, key (CanaryPoolKey route) (CanaryPoolName route))
                | VariantStable => stable
                end)
      end
  end.

(** The overload limiter of the plan around [m]. *)
Definition withOverload (requestID : string) (m : M unit) : M unit :=
  let! limited := gets (λ s, match plan s ≫= λ id, plans (trafficReg s) !! id with
                             | Some p => bool_decide (is_Some (plan_overload p)) | None => false end) in
  if negb limited then m
  else if negb (overloadAdmits env) then
    setLocals (λ l, l <| l_overloadRejected := true |>) ;;! onRecorder (WriteOverload encodeJSON requestID)
  else modify (λ s, s <| slots := slots s + 1 |>) ;;! deferM (modify (λ s, s <| slots := slots s - 1 |>)) m.

(** ** Upstream and cache *)

Definition breakerAllows (key : string) (cfg : Breaker.Config) : M bool :=
  let! b := gets (λ s, breakerReg (world s)) in
  match b with
  | None => retM true
  | Some b =>
      let! t1 := clockM in
      let! t2 := clockM in
      let! t3 := clockM in
      let '(b, (state, allowed, err)) := BreakerRegistry.Allow b key cfg t1 t2 t3 in
      modify (λ s, s <| world ::= (λ w, w <| breakerReg := Some b |>) |>) ;;!
      setLocals (λ l, l <| l_breakerState := match err with Some _ => "error" | None => State_String state end |>) ;;!
      (match err with Some _ => retM tt | None => meter (OSetBreakerOpen key (bool_decide (state = StateOpen))) end) ;;!
      (if allowed then retM tt
       else setLocals (λ l, l <| l_breakerDenied := true |>) ;;! meter (ORecordCircuitOpen key) ;;! meter (OSetBreakerOpen key true)) ;;!
      retM allowed
  end.

(** Every attempt picks once, and the picker tells the observer. *)
Definition picks (trace : list RetryExec.action) : nat := length (List.filter isAttempt trace).
Definition roundTrip (poolKey key : string) (route : Route) (cfg : Breaker.Config) : M (Result * ForwardResult) := λ s,
  let '(w, res, fwd, trace) := roundTripWithRetry (engineEnv env) (request s) ((λ t, (TraceParent t, TraceState t)) <$> traceCtx s) poolKey key
                                 (Router.ID route) (Router.RoutePolicy route) cfg (world s) in
  Done (observeSnapshot SnapshotPhaseUpstreamPick (picks trace) (s <| world := w |>)) (res, fwd).

(** What the log learns of the forwarding. *)
Definition noteForward (fwd : ForwardResult) : M unit := setLocals (λ l,
  l <| l_upstreamAddr ::= (λ a, if decide (fwd_UpstreamAddr fwd = "") then a else fwd_UpstreamAddr fwd) |>
    <| l_retryCount := fwd_RetryCount fwd |> <| l_retryLastReason := fwd_RetryReason fwd |>
    <| l_retryBudgetExhausted := fwd_RetryBudgetExhausted fwd |> <| l_outlierIgnored := fwd_OutlierIgnored fwd |>
    <| l_endpointEjected := fwd_EndpointEjected fwd |>).

(** [applyResponseStreamTimeout]: the body fails once its deadline has passed,
    after [streamCut] bytes. *)
Definition applyResponseStreamTimeout (resp : Response) (timeout : Duration) : Response :=
  match RespBody resp, streamCut env with
  | Some b, Some n =>
      if timeout <=? 0 then resp
      else if slen (data b) <? n then resp
      else resp <| RespBody := Some (mkBody (sliceTo n (data b)) (Some errDeadlineExceeded)) |>
  | _, _ => resp
  end.

Definition writeFailure (requestID : string) (res : Result) : M unit :=
  let! ctx := gets (λ s, ctxErr (engineEnv env) (tick (world s))) in
  let! handled := onRecorder (writeProxyErrorForResult encodeJSON requestID ctx (RetryExec.Err res)) in
  if handled then retM tt else fail requestID 502 "bad_gateway" "upstream request failed".

(** The uncached path. *)
Definition forward (requestID : string) (snap : Snapshot) (poolKey key : string) (route : Route) (cfg : Breaker.Config) : M unit :=
  let! rf := roundTrip poolKey key route cfg in
  match Resp rf.1 with
  | None => writeFailure requestID rf.1
  | Some resp =>
      noteForward rf.2 ;;!
      let! sr := responsePhase requestID route resp in
      if sr.1 then retM tt
      else onRecorder (WriteUpstreamResponse (applyResponseStreamTimeout sr.2 (ResponseStreamTimeout (SnapshotLimits snap))) requestID)
  end.

Definition cacheMetric (status : string) : M unit := let! route := gets canon in meter (ORecordCacheRequestCanonical route status).
Definition setCacheStatus (status : string) : M unit := setLocals (λ l, l <| l_cacheStatus := status |>).

(** [Store.Set], and what is made of its error. *)
Definition storeEntry (cacheKey : string) (entry : Entry) : M unit :=
  let! failed := (λ s, match cacheStore s with
                       | None => Done s false
                       | Some m => let '(m, e) := Set_ m cacheKey entry in
                                   Done (s <| cacheStore := Some m |>) (bool_decide (is_Some e)) end) in
  if negb failed then retM tt
  else
    setLocals (λ l, if decide (l_cacheStatus l = "coalesce_breakaway") then l else l <| l_cacheStatus := "store_failed" |>) ;;!
    let! route := gets canon in meter (ORecordCacheStoreFailCanonical route).

(** The upstream part of the cached path. *)
Definition fetchAndStore (requestID : string) (snap : Snapshot) (poolKey key cacheKey : string) (route : Route) (cfg : Breaker.Config) : M unit :=
  let p := Cache (Router.RoutePolicy route) in
  let! rf := roundTrip poolKey key route cfg in
  match Resp rf.1 with
  | None => modify (λ s, s <| flightResult := (emptyEntry, false, RetryExec.Err rf.1) |>) ;;! writeFailure requestID rf.1
  | Some resp =>
      noteForward rf.2 ;;!
      let! sr := responsePhase requestID route resp in
      if sr.1 then retM tt
      else
        let resp := applyResponseStreamTimeout sr.2 (ResponseStreamTimeout (SnapshotLimits snap)) in
        let '(cacheable, contentLength) := isCacheableResponse resp p in
        if negb cacheable then
          setCacheStatus "not_cacheable" ;;! onRecorder (WriteUpstreamResponse resp requestID) ;;! cacheMetric "not_cacheable"
        else match readUpstreamBody resp contentLength with
        | (_, Some e) => modify (λ s, s <| flightResult := (emptyEntry, false, Some e) |>) ;;!
                         fail requestID 502 "bad_gateway" "upstream request failed"
        | (body, None) =>
            let! t1 := clockM in
            let! t2 := clockM in
            let entry := CacheStore.mkEntry (StatusCode resp) (cloneHeader (RespHeader resp)) body (t2 + Policy.TTL p) t1 in
            modify (λ s, s <| flightResult := (entry, true, None) |>) ;;!
            storeEntry cacheKey entry ;;!
            let! req := gets request in
            onRecorder (writeCachedResponse entry requestID (Method req)) ;;!
            cacheMetric "miss"
        end
  end.

(** The leader of a flight settles it when it is done. *)
Definition settle (cacheKey : string) (flight : option nat) : M unit := λ s,
  match coalescer s with
  | None => Done s tt
  | Some c =>
      let '(c, open) := Finish c cacheKey flight (flightResult s).1.1 (flightResult s).1.2 (flightResult s).2 in
      let s := s <| coalescer := Some c |> in if open then Done s tt else Panicked s
  end.

Definition serveCached (requestID : string) (snap : Snapshot) (poolKey key cacheKey : string) (route : Route) (cfg : Breaker.Config) : M unit :=
  let p := Cache (Router.RoutePolicy route) in
  let! now := clockM in
  let! hit := (λ s, match cacheStore s with
                    | None => Done s None
                    | Some m => let '(m, e) := CacheStore.Get m cacheKey now in Done (s <| cacheStore := Some m |>) e end) in
  let! req := gets request in
  match hit with
  | Some entry => setCacheStatus "hit" ;;! onRecorder (writeCachedResponse entry requestID (Method req)) ;;! cacheMetric "hit"
  | None =>
      setCacheStatus "miss" ;;!
      let! fl := (λ s, let '(c, r) := startCoalescing (coalescer s) cacheKey p in Done (s <| coalescer := c |>) r) in
      let '(flight, isLeader, applied) := fl in
      let fetch := fetchAndStore requestID snap poolKey key cacheKey route cfg in
      if applied && negb isLeader then
        let '(entry, ok, err, completed) := waitResult env in
        if completed && bool_decide (err = None) && ok then
          setCacheStatus "coalesce_follower" ;;! onRecorder (writeCachedResponse entry requestID (Method req)) ;;! cacheMetric "miss"
        else
          (if completed then retM tt
           else setCacheStatus "coalesce_breakaway" ;;! let! route := gets canon in meter (ORecordCacheCoalesceBreakawayCanonical route)) ;;!
          fetch
      else if applied then
        modify (λ s, s <| flightResult := (emptyEntry, false, None) |>) ;;! deferM (settle cacheKey flight) fetch
      else fetch
  end.

(** From the pool to the response. *)
Definition servePool (requestID : string) (snap : Snapshot) (route : Route) (name key : string) : M unit :=
  match Snapshot.Pools snap !! name with
  | None => fail requestID 502 "bad_gateway" "pool not found"
  | Some poolKey =>
      if decide (poolKey = "") then fail requestID 502 "bad_gateway" "pool not found"
      else
      setLocals (λ l, l <| l_poolKey := poolKey |>) ;;!
      match PoolConfigs snap !! name with
      | None => fail requestID 502 "bad_gateway" "pool config missing"
      | Some pc =>
          canonicalize (Router.ID route) poolKey ;;!
          let! stop := requestPhase requestID route in
          if stop then retM tt
          else
            let! allowed := breakerAllows key (Snapshot.Breaker pc) in
            if negb allowed then fail requestID 503 "circuit_open" "circuit open"
            else
              let! eligible := gets (λ s, isCacheEligible (Method (request s)) (ReqHeader (request s)) (Cache (Router.RoutePolicy route))
                                            (bool_decide (is_Some (cacheStore s)))) in
              if eligible then
                let! cacheKey := (λ s, let '(r, k) := BuildKey sha256 (request s) (Cache (Router.RoutePolicy route)) in
                                       Done (s <| request := r |>) k) in
                serveCached requestID snap poolKey key cacheKey route (Snapshot.Breaker pc)
              else forward requestID snap poolKey key route (Snapshot.Breaker pc)
      end
  end.

Definition serveRoute (requestID : string) (snap : Snapshot) (route : Route) : M unit :=
  let! req := gets request in
  let plugins := Plugins (Router.RoutePolicy route) in
  let mtls := RequireMTLS (Router.RoutePolicy route) in
  setLocals (λ l, l <| l_routeID := Router.ID route |> <| l_mtlsRouteRequired := mtls |>
                    <| l_pluginFilters := if plugins_Enabled plugins then Name <$> Filters plugins else [] |>) ;;!
  if negb (mtlsOk snap route req) then
    meter (ORecordMTLSReject (Router.ID route)) ;;! fail requestID 403 "mtls_required" "client certificate required"
  else
    setLocals (λ l, l <| l_mtlsVerified := mtls |>) ;;!
    let! pk := selectPool route in
    withOverload requestID (servePool requestID snap route pk.1 pk.2).

(** With the snapshot acquired. *)
Definition serveSnapshot (requestID : string) (snap : Snapshot) (router : Router) : M unit :=
  let! req := gets request in
  setLocals (λ l, l <| l_snapshotVersion := Snapshot.Version snap |> <| l_snapshotSource := Snapshot.Source snap |>
                    <| l_logPath ::= (λ p, if RedactQuery (SnapshotLogging snap) then Path req else p) |>) ;;!
  let! rs := onRecorder (enforceRequestLimits encodeJSON requestID (SnapshotLimits snap) req) in
  modify (λ s, s <| request := rs.1 |>) ;;!
  if rs.2 then retM tt
  else
  modify (observeSnapshot SnapshotPhaseRouteMatch 1) ;;!
  match Match (Some router) rs.1 with
  | None => fail requestID 404 "no_route" "no route matched"
  | Some route => serveRoute requestID snap route
  end.

(** Without a store, engine or registry ([ready] is false) nothing is served. *)
Definition serveBody (requestID : string) : M unit :=
  if negb (ready env) then fail requestID 503 "bad_gateway" "proxy not ready" else
  let! p := (λ s, let '(st, p) := Acquire (store s) in Done (s <| store := st |> <| snapVar := p |>) p) in
  match p with
  | None => fail requestID 503 "bad_gateway" "snapshot missing"
  | Some p =>
      let! snap := gets (λ s, heap (store s) !! p) in
      let release := modify (λ s, s <| store ::= (λ st, Release st p) |>) in
      match snap with
      | Some snap =>
          match SnapshotRouter snap with
          | Some router => deferM release (serveSnapshot requestID snap router)
          | None => release ;;! fail requestID 503 "bad_gateway" "snapshot missing"
          end
      | None => release ;;! fail requestID 503 "bad_gateway" "snapshot missing"
      end
  end.

(** The deferred function: recovery, the statistics of the plan, the access
    log and the metrics. *)
Definition logContext (requestID : string) (duration : Duration) (s : HS) : RequestContext :=
  let r := request s in
  let l := locals s in
  let t := tracking s in
  mkRequestContext requestID (Method r) (Host r) (l_logPath l) (l_routeID l) (l_poolKey l) (l_upstreamAddr l) (l_pluginFilters l)
    (bypassed t) (bypassReason t) (failureMode t) (shortCircuit t) (mutationDenied t) (status (recorder s)) duration (l_bytesIn l)
    (bytesWritten (recorder s)) (orElse (errorCategory (recorder s)) "none") (l_retryCount l) (l_retryLastReason l)
    (l_retryBudgetExhausted l) (l_cacheStatus l) (l_snapshotVersion l) (l_snapshotSource l) (Variant_String (variant s)) (l_cohortMode l)
    (l_cohortKeyPresent l) (l_overloadRejected l) (l_autoDrainActive l) (header_Get (ReqHeader r) "User-Agent") (RemoteAddr r)
    (l_breakerState l) (l_breakerDenied l) (l_outlierIgnored l) (l_endpointEjected l) (bool_decide (is_Some (Http.TLS r)))
    (l_mtlsRouteRequired l) (l_mtlsVerified l).
Definition finished (c : RequestContext) (s : HS) : Finished :=
  mkFinished (ctx_RouteID c) (ctx_PoolKey c) (l_canonRoute (locals s)) (ctx_SnapshotVersion c) (ctx_SnapshotSource c) (ctx_Status c)
    (ctx_Duration c) (ctx_ErrorCategory c) (ctx_TrafficVariant c) (ctx_OverloadRejected c).

Definition recordOutcome (requestID : string) (start : Time) : M unit :=
  let! stop := clockM in
  let! now := clockM in
  modify (λ s, match plan s with
               | None => s
               | Some id => s <| trafficReg ::= (λ t, t <| plans ::= alter (λ p, RecordRequest p (variant s) (status (recorder s))
                              (negb (bool_decide (orElse (errorCategory (recorder s)) "none" = "none"))) now) id |>) |>
               end) ;;!
  let! c := gets (logContext requestID (time_Sub stop start)) in
  modify (λ s, s <| accessLog ::= (λ l, l ++ [LogAccess (logTime env) c]) |>) ;;!
  let! now := clockM in
  modify (λ s, s <| world ::= (λ w, w <| Engine.metrics ::= fmap (requestMetrics now (finished c s)) |>) |>).

Definition finishRequest (requestID : string) (start : Time) (m : M unit) : M unit := λ s,
  let '(s, panicked) := match m s with Done s _ => (s, false) | Panicked s => (s, true) end in
  let s := observeSnapshot SnapshotPhaseResponseWrite 1 s in
  let o := if panicked then onRecorder (recoverPanic encodeJSON requestID) s else Done s tt in
  bindM (λ _, o) (λ _, recordOutcome requestID start) s.

(** The in-flight tracker, when there is one, around [m]. *)
Definition trackInflight {A} (m : M A) : M A := λ s,
  match inflight s with
  | None => m s
  | Some t =>
      let o := m (s <| inflight := Some (Inc t) |>) in
      let s := finalState o in
      match Dec (default t (inflight s)) with
      | None => Panicked s
      | Some t => match o with Done _ a => Done (s <| inflight := Some t |>) a | Panicked _ => Panicked (s <| inflight := Some t |>) end
      end
  end.

Definition requestIDOf (req : Request) : string :=
  if decide (header_Get (ReqHeader req) RequestIDHeader = "") then NewRequestID (idRandom env) else header_Get (ReqHeader req) RequestIDHeader.

(** The variables a request starts with. *)
Definition begin (req : Request) (s : HS) : HS :=
  s <| locals := newLocals req |> <| tracking := newTracking |> <| variant := VariantStable |> <| plan := None |>
    <| flightResult := (emptyEntry, false, None) |> <| traceCtx := Some (StartTrace (spanRandom env) (ReqHeader req)) |> <| snapVar := None |>.

Definition ServeHTTP : M unit :=
  let! start := clockM in
  trackInflight (
  let! req := gets request in
  let requestID := requestIDOf req in
  onRecorder (setHeader RequestIDHeader requestID) ;;!
  if HasPrefix (Path req) "/admin" then fail requestID 404 "not_found" "not found"
  else modify (begin req) ;;! finishRequest requestID start (serveBody requestID)).

End Serve.

(** ** What a request leaves as it was *)

Lemma stays_defer R `{!PreOrder R} {A} c (m : HS → Proxy.outcome HS A) : stays R c → stays R m → stays R (deferM c m).
Proof.
  intros Hc Hm s. unfold deferM. specialize (Hm s). destruct (m s) as [s' a|s']; simpl in *; etrans; try exact Hm.
  - by apply stays_bind; [apply _| |intros; apply stays_ret, _].
  - apply Hc.
Qed.
#[export] Hint Extern 1 (stays _ (gets _)) => apply stays_read, _ : stays.

(** What a request gives back; the metrics only hear of incidents, and nothing
    is logged. *)
Record keeps (refs : Store.Store → Store.Store → Prop) (coal : option Coalescer → option Coalescer → Prop) (s s' : HS) : Prop := mkKeeps {
  k_store : refs (store s) (store s');
  k_slots : slots s' = slots s;
  k_tracker : inflight s' = inflight s;
  k_reg : same_inflight (reg (world s)) (reg (world s'));
  k_metrics : meters incidental (Engine.metrics (world s)) (Engine.metrics (world s'));
  k_log : accessLog s' = accessLog s;
  k_coal : coal (coalescer s) (coalescer s')
}.
#[export] Instance keeps_preorder refs coal `{!PreOrder refs, !PreOrder coal} : PreOrder (keeps refs coal).
Proof.
  split.
  - intros s. split; try reflexivity. by intros k a.
  - intros s1 s2 s3 [] []. split; [by etrans|congruence..|by eapply same_inflight_trans|by etrans|congruence|by etrans].
Qed.
Lemma keeps_weaken (r1 r2 : Store.Store → Store.Store → Prop) (c1 c2 : option Coalescer → option Coalescer → Prop) s s' :
  (∀ x y, r1 x y → r2 x y) → (∀ x y, c1 x y → c2 x y) → keeps r1 c1 s s' → keeps r2 c2 s s'.
Proof. intros Hr Hc []. by split; [apply Hr|..|apply Hc]. Qed.

(** Every snapshot, with its reference count as the 64-bit counter holds it. *)
Definition refsOf (st : Store.Store) (p : nat) : option Snapshot := (λ x, x <| refCount ::= i64 |>) <$> Store.heap st !! p.
Definition same_refs (st st' : Store.Store) : Prop :=
  Store.current st' = Store.current st ∧ ∀ p, refsOf st' p = refsOf st p.
#[export] Instance same_refs_preorder : PreOrder same_refs.
Proof. split; [by intros st|]. intros s1 s2 s3 [E1 H1] [E2 H2]. split; [congruence|]. intros p. by rewrite H2. Qed.

Lemma release_acquired st st1 p : Acquire st = (st1, Some p) → same_refs st (Release st1 p).
Proof.
  unfold Acquire. destruct (Store.Get st) as [q|] eqn:E; [|done]. intros [= <- <-].
  assert (same_refs st (st <| Store.heap ::= alter IncRef q |> <| Store.heap ::= alter DecRef q |>)) as H.
  { split; [done|]. intros p. unfold refsOf. simpl. destruct (decide (p = q)) as [->|]; [|by rewrite !lookup_alter_ne]. rewrite !lookup_alter_eq.
    destruct (Store.heap st !! q) as [x|]; [|done]. simpl. unfold IncRef, DecRef, upd. simpl. do 2 f_equal.
    rewrite i64_idem. change (i64 (i64 (refCount x + 1) - 1)) with (i64 (i64 (refCount x + 1) + -1)). rewrite i64_add_l. f_equal. lia. }
  unfold Release. simpl in *. destruct (alter DecRef q _ !! q) as [x|]; [|done].
  by destruct (Retired x && _).
Qed.

(** Flights that are new or have changed are settled, and none stays registered. *)
Definition settled_flights (c c' : Coalescer) : Prop :=
  flights c' = flights c ∧ ∀ f, CacheStore.heap c' !! f = CacheStore.heap c !! f ∨
                                ∃ fl, CacheStore.heap c' !! f = Some fl ∧ done_ fl = true.
Definition coalescer_settled (c c' : option Coalescer) : Prop := option_Forall2 settled_flights c c'.
#[export] Instance settled_preorder : PreOrder settled_flights.
Proof.
  split.
  - intros c. split; [done|by left].
  - intros c1 c2 c3 [H1 G1] [H2 G2]. split; [congruence|]. intros f.
    destruct (G2 f) as [E|?]; [|by right]. rewrite E. apply G1.
Qed.
#[export] Instance coalescer_settled_preorder : PreOrder coalescer_settled.
Proof.
  split.
  - intros []; constructor. reflexivity.
  - intros ? ? ? [?? H1|]; inversion_clear 1; constructor. by etrans.
Qed.

Section Balanced.
Context (encodeJSON : ProxyErrorBody → string) (sha256 : string → list ascii).
Context (ParseCertificate : string → Prelude.result Certificate) (Verify : Certificate → CertPool → list Certificate → option string).
Context (env : HEnv).

Abbreviation still := (stays (keeps eq eq)).
Abbreviation settles := (stays (keeps eq coalescer_settled)).

Lemma settles_still {A} (m : HS → Proxy.outcome HS A) : still m → settles m.
Proof. intros H s. eapply keeps_weaken, H; [done|]. intros c ? <-. reflexivity. Qed.

Lemma settles_still_state s s' : keeps eq eq s s' → keeps eq coalescer_settled s s'.
Proof. apply keeps_weaken; [done|]. intros c ? <-. reflexivity. Qed.

(** A change of fields the relation does not mention, apart from the metrics. *)
Definition aside (s s' : HS) : Prop :=
  store s' = store s ∧ slots s' = slots s ∧ inflight s' = inflight s ∧ reg (world s') = reg (world s) ∧ accessLog s' = accessLog s ∧
  coalescer s' = coalescer s.
Lemma keeps_aside s s' : aside s s' → meters incidental (Engine.metrics (world s)) (Engine.metrics (world s')) → keeps eq eq s s'.
Proof. intros (H1 & H2 & H3 & H4 & H5 & H6) Hm. split; try done. rewrite H4. by intros ? ?. Qed.
Lemma keeps_touch s s' : aside s s' → Engine.metrics (world s') = Engine.metrics (world s) → keeps eq eq s s'.
Proof. intros Ha E. apply keeps_aside; [done|]. by rewrite E. Qed.

Lemma still_recorder {A} (m : ResponseRecorder → Proxy.outcome ResponseRecorder A) : still (onRecorder m).
Proof. intros s. unfold onRecorder. destruct (m (recorder s)); by apply keeps_touch. Qed.
Lemma still_fail id code category message : still (fail encodeJSON id code category message).
Proof. apply still_recorder. Qed.
Lemma still_clock : still (clockM env).
Proof. intros s. by apply keeps_touch. Qed.
Lemma still_modify f : (∀ s, aside s (f s) ∧ Engine.metrics (world (f s)) = Engine.metrics (world s)) → still (modify f).
Proof. intros H s. destruct (H s). by apply keeps_touch. Qed.
Lemma still_meter o : incidental o = true → still (meter env o).
Proof.
  intros Ho s. destruct (observe_other (engineEnv env) o (world s)) as (E & _). apply keeps_aside; [|by apply observe_meters].
  unfold aside. simpl. by rewrite E.
Qed.
Lemma still_canonicalize routeID poolKey : still (canonicalize env routeID poolKey).
Proof.
  intros s. unfold canonicalize. destruct (Engine.metrics (world s)) as [m|] eqn:E; [|reflexivity]. apply keeps_aside; [done|]. simpl. rewrite E.
  exact (meters_one incidental (clock (engineEnv env) (tick (world s))) (OCanonicalize routeID poolKey) (Some m) eq_refl).
Qed.
Lemma still_requestPhase id route : still (requestPhase encodeJSON env id route).
Proof.
  intros s. unfold requestPhase. match goal with |- context [applyRequestPlugins _ _ ?i ?p ?m ?e ?st] => pose proof (incidents_request encodeJSON id i p m e st) as H end.
  destruct (applyRequestPlugins _ _ _ _ _ _ _); by apply keeps_aside.
Qed.
Lemma still_responsePhase id route resp : still (responsePhase encodeJSON env id route resp).
Proof.
  intros s. unfold responsePhase. match goal with |- context [applyResponsePlugins _ _ ?i ?p ?c ?e ?st] => pose proof (incidents_response encodeJSON id i p c e st) as H end.
  destruct (applyResponsePlugins _ _ _ _ _ _ _); by apply keeps_aside.
Qed.
Lemma still_roundTrip poolKey key route cfg : still (roundTrip env poolKey key route cfg).
Proof.
  intros s. unfold roundTrip.
  match goal with |- context [roundTripWithRetry ?e ?r ?t ?p ?k ?i ?po ?c ?w] =>
    pose proof (roundTrip_forwards e r t p k i po c None w I) as [H1 H2 _ _]; destruct (roundTripWithRetry e r t p k i po c w) as [[[w' res] fwd] tr] end.
  by split.
Qed.
#[local] Hint Resolve still_recorder still_fail still_clock still_meter still_canonicalize still_requestPhase still_responsePhase still_roundTrip : stays.
#[local] Hint Extern 1 (stays _ (modify _)) => apply still_modify; intros; by repeat split : stays.
#[local] Hint Extern 1 (stays _ (setLocals _)) => apply still_modify; intros; by repeat split : stays.

Lemma still_breakerAllows key cfg : still (breakerAllows env key cfg).
Proof. unfold breakerAllows. stay. Qed.
Lemma still_writeFailure id res : still (writeFailure encodeJSON env id res).
Proof. unfold writeFailure. stay. Qed.
Lemma still_selectPool route : still (selectPool env route).
Proof. unfold selectPool. stay. Qed.
#[local] Hint Resolve still_breakerAllows still_writeFailure still_selectPool : stays.
Lemma still_noteForward fwd : still (noteForward fwd).
Proof. apply still_modify. intros. by repeat split. Qed.
Lemma still_cacheMetric status : still (cacheMetric env status).
Proof. unfold cacheMetric. stay. Qed.
Lemma still_setCacheStatus status : still (setCacheStatus status).
Proof. unfold setCacheStatus. stay. Qed.
Lemma still_storeEntry key entry : still (storeEntry env key entry).
Proof.
  unfold storeEntry. stay. intros s. destruct (cacheStore s) as [m|]; [destruct (Set_ m key entry)|reflexivity]. by apply keeps_touch.
Qed.
#[local] Hint Resolve still_noteForward still_cacheMetric still_setCacheStatus still_storeEntry : stays.
Lemma still_forward id snap poolKey key route cfg : still (forward encodeJSON env id snap poolKey key route cfg).
Proof. unfold forward. stay. Qed.
Lemma still_fetchAndStore id snap poolKey key cacheKey route cfg :
  still (fetchAndStore encodeJSON env id snap poolKey key cacheKey route cfg).
Proof. unfold fetchAndStore. stay. Qed.
#[local] Hint Resolve still_forward still_fetchAndStore : stays.

(** The leader's flight is settled whatever the upstream part does. *)
Lemma lead_settles {A} key flight c c' (m : HS → Proxy.outcome HS A) s :
  Start c key = (c', (flight, true, true)) → coalescer s = Some c' → still m →
  keeps eq coalescer_settled (s <| coalescer := Some c |>) (finalState (deferM (settle key flight) m s)).
Proof.
  intros Hstart Hs Hm. unfold Start in Hstart. case_decide; [done|]. destruct (flights c !! key) eqn:Ek; [done|].
  destruct (_ && _); [done|]. injection Hstart as <- <-. unfold deferM.
  assert (∀ s1, keeps eq eq s s1 → ∃ s2, settle key (Some (nextFlight c)) s1 = Done s2 tt ∧ keeps eq coalescer_settled (s <| coalescer := Some c |>) s2) as H1.
  { intros s1 [H1 H2 H3 H4 Hme Hlo H5]. unfold settle. rewrite <- H5, Hs. unfold Finish. simpl.
    rewrite lookup_insert_eq, bool_decide_true by done. simpl. rewrite lookup_insert_eq. simpl. eexists. split; [done|].
    split; simpl; [done..|]. constructor. split; simpl; [by rewrite delete_insert_id|].
    intros f. destruct (decide (f = nextFlight c)) as [->|]; [right|left].
    - rewrite lookup_insert_eq. by eexists.
    - by rewrite !lookup_insert_ne. }
  specialize (Hm s). destruct (m s) as [s1 a|s1]; simpl in *; destruct (H1 _ Hm) as (s2 & E & Hk).
  - unfold bindM. by rewrite E.
  - by rewrite E.
Qed.

Lemma startCoalescing_other c key p c' flight lead applied :
  startCoalescing c key p = (c', (flight, lead, applied)) → lead && applied = false → c' = c.
Proof.
  unfold startCoalescing. destruct c as [c|]; [|congruence]. destruct (_ || _); [congruence|].
  unfold Start. repeat case_match; intros; simplify_eq; done.
Qed.
Lemma startCoalescing_leads c key p c' flight :
  startCoalescing c key p = (c', (flight, true, true)) →
  ∃ c0 c1, c = Some c0 ∧ c' = Some c1 ∧ Start c0 key = (c1, (flight, true, true)).
Proof.
  unfold startCoalescing. destruct c as [c|]; [|done]. destruct (_ || _); [done|].
  destruct (Start c key) as [c1 r] eqn:E. intros [= <- ->]. eauto.
Qed.

Lemma settles_serveCached id snap poolKey key cacheKey route cfg :
  settles (serveCached encodeJSON env id snap poolKey key cacheKey route cfg).
Proof.
  unfold serveCached. cbv zeta. apply stays_bind; [apply _|apply settles_still; auto with stays|intros now].
  apply stays_bind; [apply _|apply settles_still|intros hit].
  { intros s. destruct (cacheStore s) as [m|]; [destruct (CacheStore.Get m cacheKey now)|]; by apply keeps_touch. }
  apply stays_bind; [apply _|apply settles_still; auto with stays|intros req].
  destruct hit as [e|]; [apply settles_still; stay|].
  apply stays_bind; [apply _|apply settles_still; auto with stays|intros _]. intros s. unfold bindM at 1.
  destruct (startCoalescing (coalescer s) cacheKey _) as [c [[flight lead] applied]] eqn:E.
  destruct (lead && applied) eqn:El.
  - apply andb_true_iff in El as [-> ->]. simpl. apply startCoalescing_leads in E as (c0 & c1 & E0 & -> & Hst).
    pose (s1 := s <| coalescer := Some c1 |> <| flightResult := (emptyEntry, false, None) |>).
    destruct (lead_settles cacheKey flight c0 c1 _ s1 Hst eq_refl (still_fetchAndStore id snap poolKey key cacheKey route cfg))
      as [H1 H2 H3 H4 Hme Hlo H5].
    simpl in *. rewrite <- E0 in H5. by split.
  - pose proof (startCoalescing_other _ _ _ _ _ _ _ E El) as ->.
    assert (keeps eq eq s (s <| coalescer := coalescer s |>)) as Hk by by apply keeps_touch.
    etrans; [eapply keeps_weaken, Hk; intros ? ? <-; reflexivity|]. apply settles_still.
    destruct lead, applied; try done; simpl; stay.
Qed.
#[local] Hint Resolve settles_serveCached : stays.
#[local] Hint Extern 2 (stays _ _) => apply settles_still; solve [auto with stays] : stays.

Lemma settles_servePool id snap route name key : settles (servePool encodeJSON sha256 env id snap route name key).
Proof.
  unfold servePool. stay. intros s1. destruct (BuildKey sha256 _ _). by apply settles_still_state, keeps_touch.
Qed.

Lemma settles_withOverload id m : settles m → settles (withOverload encodeJSON env id m).
Proof.
  intros Hm. unfold withOverload. apply stays_bind; [apply _|apply stays_read, _|intros limited].
  destruct (negb limited); [done|]. destruct (negb _); [stay|]. intros s. unfold modify, modifyM, bindM, deferM.
  specialize (Hm (s <| slots := slots s + 1 |>)).
  destruct (m _) as [s1 a|s1]; simpl in *; destruct Hm as [H1 H2 H3 H4 Hme Hlo H5]; simpl in *; split; simpl; try done; rewrite H2; lia.
Qed.

#[local] Hint Resolve settles_servePool settles_withOverload : stays.

Lemma settles_serveSnapshot id snap router : settles (serveSnapshot encodeJSON sha256 ParseCertificate Verify env id snap router).
Proof. unfold serveSnapshot, serveRoute. stay. Qed.

Lemma keeps_back s s' : keeps eq eq s s' → keeps same_refs coalescer_settled s s'.
Proof. apply keeps_weaken; intros ? ? <-; reflexivity. Qed.

Lemma returns_serveBody id :
  stays (keeps same_refs coalescer_settled) (serveBody encodeJSON sha256 ParseCertificate Verify env id).
Proof.
  intros s. unfold serveBody.
  assert (∀ s m, settles m → keeps same_refs coalescer_settled s (finalState (m s : Proxy.outcome HS unit))) as Hw.
  { intros s0 m Hm. eapply keeps_weaken, Hm; [by intros ? ? <-|done]. }
  pose proof keeps_back as Hk.
  destruct (negb (ready env)); [apply Hw; auto with stays|]. unfold bindM at 1.
  destruct (Acquire (store s)) as [st [p|]] eqn:E.
  2: { unfold Acquire in E. destruct (Store.Get (store s)); [done|]. injection E as <-.
       etrans; [|apply Hw; auto with stays]. by apply Hk, keeps_touch. }
  pose proof (release_acquired _ _ _ E) as Hr. unfold bindM at 1. simpl.
  assert (∀ m : HS → Proxy.outcome HS unit, settles m →
    keeps same_refs coalescer_settled s (finalState (deferM (modify (λ s, s <| store ::= (λ st, Release st p) |>)) m (s <| store := st |> <| snapVar := Some p |>)))) as Hd.
  { intros m Hm. unfold deferM. specialize (Hm (s <| store := st |> <| snapVar := Some p |>)).
    destruct (m _) as [s1 a|s1]; simpl in *; destruct Hm as [H1 H2 H3 H4 Hme Hlo H5]; simpl in *; split; simpl; try done; by rewrite <- H1. }
  assert (∀ m : HS → Proxy.outcome HS unit, settles m →
    keeps same_refs coalescer_settled s (finalState (m (s <| store := Release st p |> <| snapVar := Some p |>)))) as Hf.
  { intros m Hm. etrans; [|apply (Hw _ m Hm)]. by split; [..|intros ? ?|reflexivity| |]. }
  destruct (Store.heap st !! p) as [snap|]; [destruct (SnapshotRouter snap) as [router|]|].
  - apply Hd, settles_serveSnapshot.
  - exact (Hf (fail encodeJSON id 503 "bad_gateway" "snapshot missing") (settles_still _ (still_fail _ _ _ _))).
  - exact (Hf (fail encodeJSON id 503 "bad_gateway" "snapshot missing") (settles_still _ (still_fail _ _ _ _))).
Qed.

(** ** No panic leaves the handler *)

Lemma WriteProxyError_returns id code category message r :
  100 ≤ code ≤ 999 → ∃ r', WriteProxyError encodeJSON id code category message r = Done r' tt.
Proof.
  intros Hc. unfold WriteProxyError, bindM, SetErrorCategory, setHeader. simpl. unfold WriteHeader. simpl.
  assert (∀ w, ∃ w', writeHeader w code = Some w') as Hw.
  { intros w. unfold writeHeader. destruct (w_sent w); [by eexists|].
    rewrite (proj2 (Z.ltb_ge code 100)), (proj2 (Z.ltb_ge 999 code)) by lia. simpl. destruct (_ && _); by eexists. }
  match goal with |- context [writeHeader ?w code] => destruct (Hw w) as [w' ->] end.
  assert (∀ r b, wroteHeader r = true → ∃ r', Write b r = Done r' tt) as Hb.
  { intros r0 b H0. unfold Write, bindM. rewrite H0. simpl. unfold retM. destruct (writeBody _ _). by eexists. }
  apply Hb. by destruct (wroteHeader r) eqn:E.
Qed.

Lemma fail_returns id code category message s :
  100 ≤ code ≤ 999 → ∃ s', fail encodeJSON id code category message s = Done s' tt.
Proof.
  intros H. unfold fail, onRecorder. destruct (WriteProxyError_returns id code category message (recorder s) H) as [r ->]. by eexists.
Qed.

(** What the deferred function adds: one log entry, and the metrics of one
    request. *)
Record recorded (id : string) (s s' : HS) : Prop := mkRecorded {
  r_store : store s' = store s;
  r_slots : slots s' = slots s;
  r_tracker : inflight s' = inflight s;
  r_coal : coalescer s' = coalescer s;
  r_recorder : recorder s' = recorder s;
  r_request : request s' = request s;
  r_locals : locals s' = locals s;
  r_plugins : pluginReg s' = pluginReg s;
  r_cache : cacheStore s' = cacheStore s;
  r_world : ∃ d now n, world s' = (world s) <| Engine.tick := n |> <| Engine.metrics ::= fmap (requestMetrics now (finished (logContext id d s) s)) |> ∧
            accessLog s' = accessLog s ++ [LogAccess (logTime env) (logContext id d s)];
  r_observer : observer s' = observer s
}.
Lemma recordOutcome_spec id start s : ∃ s', recordOutcome env id start s = Done s' tt ∧ recorded id s s'.
Proof.
  unfold recordOutcome, gets, clockM, readClock, modify, modifyM, bindM. simpl. eexists. split; [reflexivity|].
  destruct (plan s) as [p|]; simpl; (split; [done..| |done]); eexists _, _, _; (split; [done|]); unfold logContext, finished; simpl; reflexivity.
Qed.

(** The body, whatever becomes of it, then the deferred function. *)
Lemma finishRequest_spec id start m s :
  stays (keeps same_refs coalescer_settled) m →
  ∃ s1 s', keeps same_refs coalescer_settled s s1 ∧ recorded id s1 s' ∧ finishRequest encodeJSON env id start m s = Done s' tt ∧
           (∀ s2, m s = Done s2 tt → s1 = observeSnapshot SnapshotPhaseResponseWrite 1 s2) ∧
           ∃ r, s1 = (observeSnapshot SnapshotPhaseResponseWrite 1 (finalState (m s))) <| recorder := r |>.
Proof.
  intros Hm. specialize (Hm s). unfold finishRequest.
  assert (keeps same_refs coalescer_settled s (observeSnapshot SnapshotPhaseResponseWrite 1 (finalState (m s)))) as Hm'
    by (etrans; [exact Hm|]; by apply keeps_back, keeps_touch).
  clear Hm. destruct (m s) as [s1 []|s1]; cbn [finalState] in *; set (s2 := observeSnapshot _ _ s1) in *; cbv zeta.
  - destruct (recordOutcome_spec id start s2) as (s' & E & Hr). exists s2, s'. split_and!; [done..|by intros s3 [= <-]|]. exists (recorder s2). by destruct s2.
  - assert (∃ r, recoverPanic encodeJSON id (recorder s2) = Done r tt) as [r Hr].
    { unfold recoverPanic, bindM. simpl. destruct (wroteHeader _); [by eexists|]. by apply WriteProxyError_returns. }
    destruct (recordOutcome_spec id start (s2 <| recorder := r |>)) as (s' & E & Hr').
    exists (s2 <| recorder := r |>), s'. split_and!; [|done| |done|by exists r].
    + etrans; [exact Hm'|]. by apply keeps_back, keeps_touch.
    + unfold bindM, onRecorder. by rewrite Hr.
Qed.

(** The tracker counts the request out again. *)
Lemma tracker_ready n t : tracker_ok n t → WaitReady t = (count t =? 0).
Proof. intros (_ & _ & _ & H). unfold WaitReady. apply Bool.eq_iff_eq_true. by rewrite bool_decide_eq_true, Z.eqb_eq. Qed.
Lemma tracker_bracket n t : 0 ≤ n < max_i64 → tracker_ok n t → ∃ t', Dec (Inc t) = Some t' ∧ count t' = count t ∧ tracker_ok n t'.
Proof.
  intros Hn Ht. assert (tracker_ok (n + 1) (Inc t)) as Ht1 by (destruct (tracker_event_ok n t true Hn Ht) as (? & [= <-] & ?); done).
  assert (count (Inc t) = count t + 1) as Hc.
  { unfold Inc, incCount. simpl. destruct Ht as [? _]. rewrite i64_small by lia. by case_match. }
  destruct Ht as [Hr _]. destruct Ht1 as (H1 & H2 & H3 & H4). unfold Dec, decCount. rewrite Hc. simpl. rewrite i64_small by lia.
  destruct (Z.eqb_spec (count t + 1 - 1) 0); [unfold closeZero; simpl; rewrite decide_False by (rewrite H4; lia)|].
  all: eexists; split; [done|]; unfold tracker_ok; simpl; (split; [lia|]); split_and!; try lia; try done.
  - intros c [->%elem_of_singleton|Hx]%elem_of_union; [done|by apply H3].
  - set_solver by lia.
  - rewrite H4. lia.
Qed.

Abbreviation serve := (ServeHTTP encodeJSON sha256 ParseCertificate Verify env).

(** The request between the tracker's two counts. *)
Definition serveTracked (start : Time) : HS → Proxy.outcome HS unit :=
  let! req := gets request in
  let requestID := requestIDOf env req in
  onRecorder (setHeader RequestIDHeader requestID) ;;!
  if HasPrefix (Path req) "/admin" then fail encodeJSON requestID 404 "not_found" "not found"
  else modify (begin env req) ;;! finishRequest encodeJSON env requestID start (serveBody encodeJSON sha256 ParseCertificate Verify env requestID).

Abbreviation idOf s := (requestIDOf env (request s)).
Abbreviation isAdmin s := (HasPrefix (Path (request s)) "/admin").

(** With the header set and the variables initialised. *)
Definition started (s : HS) : HS :=
  begin env (request s) (s <| recorder := finalState (setHeader RequestIDHeader (idOf s) (recorder s)) |>).
Lemma started_keeps s : keeps eq eq s (started s).
Proof. by apply keeps_touch. Qed.

Lemma serveTracked_admin start s :
  isAdmin s = true → ∃ s', serveTracked start s = Done s' tt ∧ keeps eq eq s s'.
Proof.
  intros Ha. unfold serveTracked, gets. unfold bindM. simpl. rewrite Ha.
  match goal with |- context [fail _ _ _ _ _ ?x] => set (s1 := x) end.
  destruct (fail_returns (idOf s) 404 "not_found" "not found" s1) as [s2 E]; [lia|].
  exists s2. split; [done|]. trans s1; [by apply keeps_touch|]. change s2 with (finalState (Done s2 tt)). rewrite <- E. apply still_fail.
Qed.
Lemma serveTracked_spec start s :
  isAdmin s = false →
  ∃ s1 s', keeps same_refs coalescer_settled s s1 ∧ recorded (idOf s) s1 s' ∧ serveTracked start s = Done s' tt ∧
           (∀ s2, serveBody encodeJSON sha256 ParseCertificate Verify env (idOf s) (started s) = Done s2 tt →
             s1 = observeSnapshot SnapshotPhaseResponseWrite 1 s2) ∧
           ∃ r, s1 = (observeSnapshot SnapshotPhaseResponseWrite 1 (finalState (serveBody encodeJSON sha256 ParseCertificate Verify env (idOf s) (started s))))
                       <| recorder := r |>.
Proof.
  intros Ha. destruct (finishRequest_spec (idOf s) start (serveBody encodeJSON sha256 ParseCertificate Verify env (idOf s)) (started s))
    as (s1 & s' & H1 & H2 & H3 & H4 & H5); [apply returns_serveBody|].
  exists s1, s'. split_and!; [|done| |done|done].
  - etrans; [apply keeps_back, started_keeps|done].
  - rewrite <- H3. unfold serveTracked, gets, bindM. simpl. by rewrite Ha.
Qed.
Lemma serveTracked_returns start s :
  ∃ s', serveTracked start s = Done s' tt ∧ same_refs (store s) (store s') ∧ slots s' = slots s ∧ inflight s' = inflight s ∧
        same_inflight (reg (world s)) (reg (world s')) ∧ coalescer_settled (coalescer s) (coalescer s').
Proof.
  destruct (isAdmin s) eqn:Ha.
  - destruct (serveTracked_admin start s Ha) as (s' & E & Hk). exists s'. split; [done|]. apply keeps_back in Hk as []. by split_and!.
  - destruct (serveTracked_spec start s Ha) as (s1 & s' & [H1 H2 H3 H4 Hme Hlo H5] & [R1 R2 R3 R4 _ _ _ _ _ (d & now & n & Hw & _)] & E & _).
    exists s'. rewrite R1, R2, R3, R4, Hw. by split_and!.
Qed.

(** The whole handler: the tracker's count around [serveTracked]. *)
Lemma serve_tracked n s :
  0 ≤ n < max_i64 → (∀ t, inflight s = Some t → tracker_ok n t) →
  ∃ start s1 t, let s0 := s <| world ::= (λ w, w <| Engine.tick ::= S |>) |> <| inflight ::= fmap Inc |> in
    serveTracked start s0 = Done s1 tt ∧ serve s = Done (s1 <| inflight := t |>) tt ∧
    option_Forall2 (λ t t', count t' = count t ∧ tracker_ok n t') (inflight s) t.
Proof.
  intros Hn Ht. exists (clock (engineEnv env) (tick (world s))).
  destruct (serveTracked_returns (clock (engineEnv env) (tick (world s))) (s <| world ::= (λ w, w <| Engine.tick ::= S |>) |> <| inflight ::= fmap Inc |>))
    as (s1 & E & _ & _ & Hi & _).
  exists s1. unfold ServeHTTP, clockM, readClock. unfold bindM at 1. simpl. unfold trackInflight. fold (serveTracked (clock (engineEnv env) (tick (world s)))).
  simpl in *. destruct (inflight s) as [t|] eqn:Ei; simpl in *.
  - destruct (tracker_bracket n t) as (t' & Hd & Hc & Hw); [done|by apply Ht|]. exists (Some t'). rewrite E. simpl. rewrite Hi. simpl. rewrite Hd.
    split_and!; [done..|]. by constructor.
  - exists None. split_and!; [exact E| |by constructor].
    trans (Done s1 tt); [rewrite <- E; f_equal; unfold upd; simpl; by rewrite Ei|]. f_equal. destruct s1. simpl in *. by rewrite Hi.
Qed.

(** C1. Whatever happens to a request (refused, answered from the cache,
    forwarded with any number of attempts, ended by a plugin, or by a panic
    anywhere below), the handler returns without panicking and gives back all
    that the request held: the snapshot reference, the overload slot, the
    in-flight count of every endpoint, the flight it led (settled, so that no
    follower waits for it) and the shutdown tracker's count. *)
Theorem serve_releases_everything n s :
  0 ≤ n < max_i64 → (∀ t, inflight s = Some t → tracker_ok n t) →
  ∃ s', serve s = Done s' tt ∧
    same_refs (store s) (store s') ∧ slots s' = slots s ∧ same_inflight (reg (world s)) (reg (world s')) ∧
    coalescer_settled (coalescer s) (coalescer s') ∧
    option_Forall2 (λ t t', count t' = count t ∧ WaitReady t' = (count t =? 0)) (inflight s) (inflight s').
Proof.
  intros Hn Ht. destruct (serve_tracked n s Hn Ht) as (start & s1 & t & E & Es & Hi).
  edestruct serveTracked_returns as (s2 & E2 & H1 & H2 & _ & H4 & H5). rewrite E in E2. injection E2 as <-.
  exists (s1 <| inflight := t |>). split_and!; [done..|]. destruct Hi as [t0 t' [Hc Hok]|]; constructor. split; [done|].
  by rewrite <- Hc, (tracker_ready _ _ Hok).
Qed.

(** ** Client certificates *)

(** The client's chain verifies against the CA pool of the snapshot. *)
Definition verified_client (snap : Snapshot) (req : Request) : Prop :=
  ∃ st ca certs leaf rest, SnapshotTLSStore snap = Some st ∧ clientCA st = Some ca ∧ Http.TLS req = Some certs ∧
    parseAll ParseCertificate (omap id certs) = Ok (leaf :: rest) ∧ Verify leaf ca rest = None.

Lemma mtlsOk_verified snap route req :
  RequireMTLS (Router.RoutePolicy route) = true → mtlsOk ParseCertificate Verify snap route req = true → verified_client snap req.
Proof.
  intros Hr. unfold mtlsOk. rewrite Hr. simpl. destruct (SnapshotTLSStore snap) as [st|] eqn:Es; [|done]. unfold VerifyClientCert.
  destruct (clientCA st) as [ca|] eqn:Ec; [|done]. destruct (Http.TLS req) as [certs|] eqn:Et; [|done].
  destruct (omap id certs) as [|c cs] eqn:Eo; [done|]. destruct (parseAll ParseCertificate (c :: cs)) as [[|leaf rest]|e] eqn:Ep; [|..|done].
  - simpl in Ep. destruct (ParseCertificate c); [|done]. by destruct (parseAll ParseCertificate cs).
  - destruct (Verify leaf ca rest) eqn:Ev; [done|]. intros _. exists st, ca, certs, leaf, rest. by rewrite Eo.
Qed.

Definition untouched (s s' : HS) : Prop :=
  reg (world s') = reg (world s) ∧ breakerReg (world s') = breakerReg (world s) ∧ outlierReg (world s') = outlierReg (world s) ∧
  retryReg (world s') = retryReg (world s) ∧ sent (world s') = sent (world s) ∧ pluginReg s' = pluginReg s ∧ cacheStore s' = cacheStore s ∧
  coalescer s' = coalescer s.

Lemma fail_sends id code category message s :
  fresh (recorder s) → 200 ≤ code ≤ 999 → code ≠ 204 → code ≠ 304 →
  ∃ r, fail encodeJSON id code category message s = Done (s <| recorder := r |>) tt ∧ error_sent encodeJSON id code category message r.
Proof.
  intros Hf H1 H2 H3. unfold fail, onRecorder.
  destruct (WriteProxyError_fresh encodeJSON id code category message (recorder s) Hf H1 H2 H3) as (r & -> & Hr). eauto.
Qed.

Lemma limits_passed id l req r r' req' : enforceRequestLimits encodeJSON id l req r = Done r' (req', false) → r' = r.
Proof.
  assert (∀ (m : ResponseRecorder → Proxy.outcome ResponseRecorder unit) q, (m ;;! retM (q, true)) r ≠ Done r' (req', false)) as Hm.
  { intros m q. unfold bindM. by destruct (m r). }
  unfold enforceRequestLimits, enforceBody. repeat case_match; intros E; by first [destruct (Hm _ _ E) | injection E].
Qed.

(** The state in which a request with snapshot [snap] and, after the limits,
    request [req'] reaches its route. *)
Definition arrived (snap : Snapshot) (req' : Request) (s : HS) : HS :=
  s <| store ::= (λ st, (Acquire st).1) |>
    <| locals ::= (λ l, l <| l_snapshotVersion := Snapshot.Version snap |> <| l_snapshotSource := Snapshot.Source snap |>
                          <| l_logPath ::= (λ p, if RedactQuery (SnapshotLogging snap) then Path (request s) else p) |>) |>
    <| request := req' |> <| snapVar := Store.current (store s) |>
    <| observer ::= (λ o, match Store.current (store s) with Some p => (λ l, l ++ [(SnapshotPhaseRouteMatch, p)]) <$> o | None => o end) |>.

(** What it takes for a request to be routed to [route]. *)
Record routed_to (id : string) (p : nat) (snap : Snapshot) (route : Route) (req' : Request) (s : HS) : Prop := mkRouted {
  rt_ready : ready env = true;
  rt_current : Store.current (store s) = Some p;
  rt_snapshot : Store.heap (store s) !! p = Some snap;
  rt_limits : ∃ r', enforceRequestLimits encodeJSON id (SnapshotLimits snap) (request s) (recorder s) = Done r' (req', false);
  rt_match : ∃ router, SnapshotRouter snap = Some router ∧ Match (Some router) req' = Some route
}.

Lemma serveBody_routed id p snap route req' s :
  routed_to id p snap route req' s →
  serveBody encodeJSON sha256 ParseCertificate Verify env id s =
  deferM (modify (λ s, s <| store ::= (λ st, Release st p) |>)) (serveRoute encodeJSON sha256 ParseCertificate Verify env id (IncRef snap) route)
    (arrived snap req' s).
Proof.
  intros [Hready Hcur Hheap (r' & Hlim) (router & Hrouter & Hmatch)]. pose proof (limits_passed _ _ _ _ _ _ Hlim) as ->.
  unfold serveBody. unfold bindM at 1. rewrite Hready. unfold arrived, Acquire, Store.Get. simpl. rewrite Hcur. unfold bindM at 1, gets at 1. simpl.
  rewrite lookup_alter_eq, Hheap. simpl. rewrite Hrouter. unfold deferM.
  match goal with |- match ?a with _ => _ end = match ?b with _ => _ end => assert (a = b) as ->; [|done] end.
  unfold serveSnapshot. unfold bindM, gets, setLocals, modify, modifyM, onRecorder. simpl. rewrite Hlim. simpl in Hmatch |- *. rewrite Hmatch.
  destruct s. simpl in *. by subst.
Qed.

Abbreviation refusal id r := (error_sent encodeJSON id 403 "mtls_required" "client certificate required" r).

Lemma serveRoute_refused id snap route s :
  fresh (recorder s) → mtlsOk ParseCertificate Verify snap route (request s) = false →
  ∃ s', serveRoute encodeJSON sha256 ParseCertificate Verify env id snap route s = Done s' tt ∧ untouched s s' ∧ inflight s' = inflight s ∧
        refusal id (recorder s').
Proof.
  intros Hf Hm. unfold serveRoute, gets, setLocals, meter, modify, modifyM, bindM. rewrite Hm. cbn [negb].
  match goal with |- context [fail _ _ _ _ _ ?s1] => destruct (fail_sends id 403 "mtls_required" "client certificate required" s1) as (r & -> & Hr); [done..|] end.
  eexists. split; [done|]. unfold untouched. simpl.
  destruct (observe_other (engineEnv env) (ORecordMTLSReject (Router.ID route)) (world s)) as (-> & -> & -> & -> & _ & ->). by split_and!.
Qed.

(** C11. A route that requires client certificates is closed to every client whose
    chain the snapshot's CA pool does not verify (no TLS, no certificate, an
    unparsable one, no CA pool): it is answered 403 [mtls_required], and no
    plugin, breaker, cache, retry budget or upstream endpoint is touched. *)
Theorem mtls_route_guarded n s p snap route req' :
  let id := requestIDOf env (request s) in
  0 ≤ n < max_i64 → (∀ t, inflight s = Some t → tracker_ok n t) →
  fresh (recorder s) → HasPrefix (Path (request s)) "/admin" = false → routed_to id p snap route req' (started s) →
  RequireMTLS (Router.RoutePolicy route) = true → ¬ verified_client snap req' →
  ∃ s', serve s = Done s' tt ∧ untouched s s' ∧
        error_sent encodeJSON id 403 "mtls_required" "client certificate required" (recorder s').
Proof.
  intros id Hn Ht Hf Hadmin Hrt Hreq Hnot.
  assert (mtlsOk ParseCertificate Verify (IncRef snap) route req' = false) as Hm.
  { apply not_true_is_false. contradict Hnot. exact (mtlsOk_verified _ _ _ Hreq Hnot). }
  destruct (serve_tracked n s Hn Ht) as (start & s1 & t & E & Es & _). cbv zeta in E. exists (s1 <| inflight := t |>). split; [done|].
  match type of E with serveTracked _ ?x = _ => set (s0 := x) in * end.
  destruct (serveTracked_spec start s0) as (s2 & s3 & _ & [_ _ _ R4 R5 _ _ R8 R9 (d & now & k & Hw & _)] & E' & Hs2 & _); [done|].
  rewrite E in E'. injection E' as <-.
  destruct (serveRoute_refused id (IncRef snap) route (arrived snap req' (started s0))) as (s4 & E4 & Hu & _ & Hr); [done..|].
  assert (routed_to id p snap route req' (started s0)) as Hrt0 by (destruct Hrt; by split).
  pose proof (serveBody_routed _ _ _ _ _ _ Hrt0) as Hb. unfold deferM in Hb. rewrite E4 in Hb. apply Hs2 in Hb. subst s2. simpl in *.
  unfold untouched in *. rewrite Hw, R4, R5, R8, R9. simpl. by destruct Hu as (-> & -> & -> & -> & -> & -> & -> & ->).
Qed.
End Balanced.

(** ** A deployment with one route, which requires client certificates *)

Definition mtls_policy : Router.Policy :=
  Router.mkPolicy Second Second Second (mkRetryPolicy false 0 0 0 None None 0 0) (mkRetryBudgetPolicy false 0 0) (mkClientRetryCapPolicy false "" 0 0 0)
    true "ca.pem" (mkCachePolicy false false 0 0 [] false 0 true) (Plugin.mkPolicy false []).
Definition mtls_router : Router.Router := Router.mkRouter [Router.mkRoute "r" "h" "/" None "p" "" "" "" None mtls_policy].
Definition mtls_snapshot : Snapshot := (blank_snapshot 1) <| SnapshotRouter := Some mtls_router |>.
Definition demo_env : HEnv :=
  mkHEnv true silent_env (Some ["i"%char; "d"%char]) (λ _, idle_env) (λ _, idle_env)
    true (emptyEntry, false, None, false) None None "2024-01-01T00:00:00Z".
Definition demo_state : HS :=
  mkHS (NewResponseRecorder newWriter) plain_get newTracking VariantStable None (newLocals plain_get) None 0 (emptyEntry, false, None)
    (NewStore {[0%nat := mtls_snapshot]} (Some 0%nat)) silent_world None None (Some (NewCoalescer 4)) (TrafficPlan.NewRegistry 0 0) 1
    (Some NewInflightTracker) [] None (Some []).

Lemma demo_tracker t : inflight demo_state = Some t → tracker_ok 0 t.
Proof. intros [= <-]. unfold tracker_ok. simpl. split_and!; [lia..| |]; set_solver by lia. Qed.

Lemma serve_releases_everything_witness :
  ∃ s', ServeHTTP (λ _, "{}") (λ _, []) (λ c, Ok c) (λ _ _ _, None) demo_env demo_state = Done s' tt ∧ slots s' = 0.
Proof.
  destruct (serve_releases_everything (λ _, "{}") (λ _, []) (λ c, Ok c) (λ _ _ _, None) demo_env 0 demo_state)
    as (s' & E & _ & Hs & _); [done|apply demo_tracker|]. by exists s'.
Defined.

Lemma mtls_route_guarded_witness :
  ∃ s', ServeHTTP (λ _, "{}") (λ _, []) (λ c, Ok c) (λ _ _ _, None) demo_env demo_state = Done s' tt ∧ status (recorder s') = 403.
Proof.
  destruct (mtls_route_guarded (λ _, "{}") (λ _, []) (λ c, Ok c) (λ _ _ _, None) demo_env 0 demo_state 0 mtls_snapshot
    (Router.mkRoute "r" "h" "/" None "p" "" "" "" None mtls_policy) plain_get) as (s' & E & _ & Hs & _); try done.
  - apply demo_tracker.
  - split; [done..|by eexists|by exists mtls_router].
  - by intros (st & ? & ? & ? & ? & [=] & _).
  - by exists s'.
Defined.
