(* ===== verification/Traffic.v ===== *)
(** * What a request sends, and what it leaves in the log and the metrics
    (internal/proxy/handler.go, engine.go, internal/obs, internal/apply)

    Theorems about the whole handler over the components below it: which
    upstreams hear of a request and how often, that the configuration that
    was applied is the one requests are forwarded by, and that every request
    is logged and counted once.  [carries] is the relation between the states
    before and after a part of the handler. *)
From S2P Require Import Prelude.
From S2P Require Import Apply.
From S2P Require Import GoStrings.
From S2P Require Import GoError.
From S2P Require Import Http.
From S2P Require Import Url.
From S2P Require Import Policy.
From S2P Require Import Breaker.
From S2P Require Import BreakerRegistry.
From S2P Require Import Pool.
From S2P Require Import Registry.
From S2P Require Import Retry.
From S2P Require Import RetryExec.
From S2P Require Import CacheStore.
From S2P Require Import CacheKey.
From S2P Require Import TrafficSplit.
From S2P Require Import Overload.
From S2P Require Import TrafficPlan.
From S2P Require Import Config.
From S2P Require Import Limits.
From S2P Require Import Plugin.
From S2P Require Import TLSStore.
From S2P Require Import Router.
From S2P Require Import Snapshot.
From S2P Require Import Store.
From S2P Require Import Provider.
From S2P Require Import Rolling.
From S2P Require Import Metrics.
From S2P Require Import AccessLog.
From S2P Require Import Proxy.
From S2P Require Import PluginFilters.
From S2P Require Import ProxyRules.
From S2P Require Import Engine.
From S2P Require Import Handler.

(** The same request but for its headers. *)
Definition same_message (r r' : Request) : Prop := r' = r <| ReqHeader := ReqHeader r' |>.

(** ** Parts of the handler *)

(** The configuration of the pools stands, the request is the same but for
    its headers, the log is told of the same origin, and at most [n] requests
    have been sent, all as [S] says. *)
Record carried (c : pool_config) (r0 : Request) (S : string * Request → Prop) (n : nat) (s s' : HS) : Prop := mkCarried {
  c_config : registry_is c (reg (world s'));
  c_message : same_message r0 (request s');
  c_path : l_logPath (locals s') = l_logPath (locals s);
  c_version : l_snapshotVersion (locals s') = l_snapshotVersion (locals s);
  c_sent : ∃ l, sent (world s') = sent (world s) ++ l ∧ Forall S l ∧ (length l ≤ n)%nat
}.
Definition carries c r0 S n s s' : Prop := registry_is c (reg (world s)) → same_message r0 (request s) → carried c r0 S n s s'.

Lemma same_message_refl r : same_message r r.
Proof. unfold same_message. by destruct r. Qed.
Lemma same_message_header r r' h : same_message r r' → same_message r (r' <| ReqHeader := h |>).
Proof. unfold same_message. intros H. simpl. by rewrite H. Qed.
Lemma BuildKey_message sha256 r req p : same_message r req → same_message r (BuildKey sha256 req p).1.
Proof.
  intros H. unfold BuildKey. match goal with |- context [foldl varyHeader (req, ?k) ?l] => generalize k; generalize l end. intros l.
  revert req H. induction l as [|h l IH]; intros req H k; [done|]. cbn [foldl]. unfold varyHeader at 2. cbn beta iota zeta. case_decide; [by apply IH|].
  match goal with |- context [foldl varyHeader (?x, _)] => apply (IH x) end. exact (same_message_header _ _ _ H).
Qed.
Lemma attemptLimit_message r r' policy : same_message r r' → attemptLimit r' policy = attemptLimit r policy.
Proof. intros ->. done. Qed.

Lemma carries_seq c r0 S n m s1 s2 s3 : carries c r0 S n s1 s2 → carries c r0 S m s2 s3 → carries c r0 S (n + m) s1 s3.
Proof.
  intros H12 H23 Hc Hr. destruct (H12 Hc Hr) as [A1 A2 A3 A4 (l1 & A5 & A6 & A7)]. destruct (H23 A1 A2) as [B1 B2 B3 B4 (l2 & B5 & B6 & B7)].
  split; [done..|congruence|congruence|]. exists (l1 ++ l2). rewrite B5, A5, app_assoc, length_app.
  split_and!; [done|by apply Forall_app|lia].
Qed.
#[export] Instance carries_preorder c r0 S : PreOrder (carries c r0 S 0).
Proof.
  split; [|by intros ? ? ?; apply carries_seq].
  intros s Hc Hr. split; [done..|exists []; by rewrite app_nil_r].
Qed.
Lemma carries_before c r0 S n s1 s2 s3 : carries c r0 S n s1 s2 → carries c r0 S 0 s2 s3 → carries c r0 S n s1 s3.
Proof. intros H1 H2. rewrite <- (Nat.add_0_r n). by eapply carries_seq. Qed.
Lemma carries_weaken c r0 (S S' : string * Request → Prop) n n' s s' :
  (∀ x, S x → S' x) → (n ≤ n')%nat → carries c r0 S n s s' → carries c r0 S' n' s s'.
Proof.
  intros HS Hn H Hc Hr. destruct (H Hc Hr) as [? ? ? ? (l & ? & ? & ?)]. split; [done..|]. exists l.
  split_and!; [done|by eapply Forall_impl|lia].
Qed.

Section Sends.
Context (c : pool_config) (r0 : Request) (S : string * Request → Prop) (n : nat).
Lemma sends_after {A B} (m : HS → Proxy.outcome HS A) (k : A → HS → Proxy.outcome HS B) :
  stays (carries c r0 S 0) m → (∀ a, stays (carries c r0 S n) (k a)) → stays (carries c r0 S n) (bindM m k).
Proof.
  intros Hm Hk s. unfold bindM. specialize (Hm s). destruct (m s) as [s' a|s']; simpl in *.
  - exact (carries_seq _ _ _ 0 n _ _ _ Hm (Hk a s')).
  - eapply carries_weaken, Hm; [done|lia].
Qed.
Lemma sends_before {A B} (m : HS → Proxy.outcome HS A) (k : A → HS → Proxy.outcome HS B) :
  stays (carries c r0 S n) m → (∀ a, stays (carries c r0 S 0) (k a)) → stays (carries c r0 S n) (bindM m k).
Proof.
  intros Hm Hk s. unfold bindM. specialize (Hm s). destruct (m s) as [s' a|s']; simpl in *; [|done].
  eapply carries_before; [exact Hm|apply Hk].
Qed.
Lemma sends_none {A} (m : HS → Proxy.outcome HS A) : stays (carries c r0 S 0) m → stays (carries c r0 S n) m.
Proof. intros Hm s. eapply carries_weaken, Hm; [done|lia]. Qed.
Lemma sends_defer {A} f (m : HS → Proxy.outcome HS A) :
  stays (carries c r0 S 0) f → stays (carries c r0 S n) m → stays (carries c r0 S n) (deferM f m).
Proof.
  intros Hf Hm s. unfold deferM. specialize (Hm s). destruct (m s) as [s' a|s']; simpl in *; (eapply carries_before; [exact Hm|]).
  - by apply stays_bind; [apply _| |intros; apply stays_ret, _].
  - apply Hf.
Qed.
End Sends.

(** The case analysis, with one step that sends. *)
Ltac send :=
  repeat first
    [ solve [auto with stays] | apply sends_after; [solve [stay]|intros ?] | progress intros | progress cbv zeta | case_match ].

Section Parts.
Context (encodeJSON : ProxyErrorBody → string) (sha256 : string → list ascii).
Context (ParseCertificate : string → Prelude.result Certificate) (Verify : Certificate → CertPool → list Certificate → option string).
Context (env : HEnv) (c : pool_config) (r0 : Request) (S : string * Request → Prop).

Abbreviation sends := (λ n, stays (carries c r0 S n)).
Abbreviation quiet := (stays (carries c r0 S 0)).

(** A change of fields the relation does not mention. *)
Definition beside (s s' : HS) : Prop :=
  reg (world s') = reg (world s) ∧ sent (world s') = sent (world s) ∧ l_logPath (locals s') = l_logPath (locals s) ∧
  l_snapshotVersion (locals s') = l_snapshotVersion (locals s) ∧ (same_message r0 (request s) → same_message r0 (request s')).
Lemma carries_beside s s' : beside s s' → carries c r0 S 0 s s'.
Proof.
  intros (H1 & H2 & H3 & H4 & H5) Hc Hr. split; [by rewrite H1|by apply H5|done..|]. exists []. by rewrite H2, app_nil_r.
Qed.
Ltac beside := apply carries_beside; unfold beside; split_and!; first [reflexivity | by intros H | exact (same_message_header _ _ _)].

Lemma quiet_recorder {A} (m : ResponseRecorder → Proxy.outcome ResponseRecorder A) : quiet (onRecorder m).
Proof. intros s. unfold onRecorder. destruct (m (recorder s)); beside. Qed.
Lemma quiet_fail id code category message : quiet (fail encodeJSON id code category message).
Proof. apply quiet_recorder. Qed.
Lemma quiet_clock : quiet (clockM env).
Proof. intros s. beside. Qed.
Lemma quiet_modify f : (∀ s, beside s (f s)) → quiet (modify f).
Proof. intros H s. by apply carries_beside, H. Qed.
Lemma quiet_meter o : quiet (meter env o).
Proof.
  intros s. destruct (observe_other (engineEnv env) o (world s)) as (E1 & _ & _ & _ & _ & E2). apply carries_beside. unfold beside. simpl. by rewrite E1, E2.
Qed.
Lemma quiet_canonicalize routeID poolKey : quiet (canonicalize env routeID poolKey).
Proof. intros s. unfold canonicalize. destruct (Engine.metrics (world s)) as [m|]; [beside|reflexivity]. Qed.
Lemma quiet_requestPhase id route : quiet (requestPhase encodeJSON env id route).
Proof. intros s. unfold requestPhase. destruct (applyRequestPlugins _ _ _ _ _ _ _); beside. Qed.
Lemma quiet_responsePhase id route resp : quiet (responsePhase encodeJSON env id route resp).
Proof. intros s. unfold responsePhase. destruct (applyResponsePlugins _ _ _ _ _ _ _); beside. Qed.
#[local] Hint Resolve quiet_recorder quiet_fail quiet_clock quiet_meter quiet_canonicalize quiet_requestPhase quiet_responsePhase : stays.
#[local] Hint Extern 1 (stays _ (modify _)) => apply quiet_modify; intros; by repeat split : stays.
#[local] Hint Extern 1 (stays _ (setLocals _)) => apply quiet_modify; intros; by repeat split : stays.

Lemma quiet_breakerAllows key cfg : quiet (breakerAllows env key cfg).
Proof. unfold breakerAllows. stay. Qed.
Lemma quiet_writeFailure id res : quiet (writeFailure encodeJSON env id res).
Proof. unfold writeFailure. stay. Qed.
Lemma quiet_selectPool route : quiet (selectPool env route).
Proof. unfold selectPool. stay. Qed.
Lemma quiet_noteForward fwd : quiet (noteForward fwd).
Proof. apply quiet_modify. intros. by repeat split. Qed.
Lemma quiet_cacheMetric status : quiet (cacheMetric env status).
Proof. unfold cacheMetric. stay. Qed.
Lemma quiet_setCacheStatus status : quiet (setCacheStatus status).
Proof. unfold setCacheStatus. stay. Qed.
Lemma quiet_storeEntry key entry : quiet (storeEntry env key entry).
Proof.
  unfold storeEntry. stay.
  - intros s. destruct (cacheStore s) as [m|]; [destruct (Set_ m key entry); beside|reflexivity].
  - apply quiet_modify. intros s. unfold beside. simpl. by case_decide.
Qed.
Lemma quiet_settle key flight : quiet (settle key flight).
Proof. intros s. unfold settle. destruct (coalescer s); [|reflexivity]. destruct (Finish _ _ _ _ _ _) as [? []]; beside. Qed.
#[local] Hint Resolve quiet_breakerAllows quiet_writeFailure quiet_selectPool quiet_noteForward quiet_cacheMetric quiet_setCacheStatus
  quiet_storeEntry quiet_settle : stays.

(** ** The parts that forward *)

Section Route.
Context (route : Route) (id : string) (snap : Snapshot).
Abbreviation limit := (attemptLimit r0 (Router.RoutePolicy route)).
(** What may be sent to pool [k]. *)
Abbreviation allowed_to k := (∀ x r trace, same_message r0 r → goes_to c r trace k x → S x).

Lemma sends_roundTrip poolKey key cfg : allowed_to poolKey → stays (carries c r0 S limit) (roundTrip env poolKey key route cfg).
Proof.
  intros HS s Hc Hr. unfold roundTrip.
  match goal with |- context [roundTripWithRetry ?e ?r ?t ?p ?k ?i ?po ?cf ?w] =>
    destruct (roundTrip_forwards e r t p k i po cf c w Hc) as [_ _ H3 (l & H4 & H5 & H6)]; destruct (roundTripWithRetry e r t p k i po cf w) as [[[w' res] fwd] tr] end.
  split; simpl in *; [done..|]. exists l. split_and!; [done| |]. 
  - eapply Forall_impl; [exact H5|]. intros x Hx. by eapply HS.
  - by rewrite <- (attemptLimit_message _ _ _ Hr).
Qed.
Lemma sends_forward poolKey key cfg : allowed_to poolKey → stays (carries c r0 S limit) (forward encodeJSON env id snap poolKey key route cfg).
Proof. intros HS. unfold forward. apply sends_before; [by apply sends_roundTrip|intros]. stay. Qed.
Lemma sends_fetchAndStore poolKey key cacheKey cfg :
  allowed_to poolKey → stays (carries c r0 S limit) (fetchAndStore encodeJSON env id snap poolKey key cacheKey route cfg).
Proof. intros HS. unfold fetchAndStore. apply sends_before; [by apply sends_roundTrip|intros]. stay. Qed.

Lemma sends_serveCached poolKey key cacheKey cfg :
  allowed_to poolKey → stays (carries c r0 S limit) (serveCached encodeJSON env id snap poolKey key cacheKey route cfg).
Proof.
  intros HS. pose proof (sends_fetchAndStore poolKey key cacheKey cfg HS) as Hf. unfold serveCached. cbv zeta.
  apply sends_after; [auto with stays|intros now]. apply sends_after.
  { intros s. destruct (cacheStore s) as [m|]; [destruct (CacheStore.Get m cacheKey now)|]; beside. }
  intros hit. apply sends_after; [stay|intros req]. destruct hit as [e|]; [apply sends_none; stay|].
  apply sends_after; [auto with stays|intros _]. apply sends_after.
  { intros s. destruct (startCoalescing _ _ _). beside. }
  intros [[flight lead] applied]. destruct (applied && negb lead).
  - destruct (waitResult env) as [[[entry ok] err] completed]. destruct (_ && _); [apply sends_none; stay|].
    apply sends_after; [stay|done].
  - destruct applied; [|done]. apply sends_after; [auto with stays|intros _]. apply sends_defer; [auto with stays|done].
Qed.

Lemma sends_servePool name key :
  (∀ k, Snapshot.Pools snap !! name = Some k → allowed_to k) →
  stays (carries c r0 S limit) (servePool encodeJSON sha256 env id snap route name key).
Proof.
  intros HS. unfold servePool. destruct (Snapshot.Pools snap !! name) as [poolKey|]; [|apply sends_none; stay].
  specialize (HS poolKey eq_refl). case_decide; [apply sends_none; stay|]. apply sends_after; [auto with stays|intros _].
  destruct (PoolConfigs snap !! name) as [pc|]; [|apply sends_none; stay]. apply sends_after; [auto with stays|intros _].
  apply sends_after; [auto with stays|intros stop]. destruct stop; [apply sends_none; stay|].
  apply sends_after; [auto with stays|intros allowed]. destruct allowed; cbn [negb]; [|apply sends_none; stay].
  apply sends_after; [stay|intros eligible]. destruct eligible; [|by apply sends_forward]. apply sends_after; [|intros; by apply sends_serveCached].
  intros s. pose proof (BuildKey_message sha256 r0 (request s) (Cache (Router.RoutePolicy route))) as Hk.
  destruct (BuildKey _ _ _). apply carries_beside. unfold beside. by split_and!.
Qed.
Lemma sends_withOverload n m : stays (carries c r0 S n) m → stays (carries c r0 S n) (withOverload encodeJSON env id m).
Proof.
  intros Hm. unfold withOverload. apply sends_after; [stay|intros limited]. destruct (negb limited); [done|]. destruct (negb _); [apply sends_none; stay|].
  apply sends_after; [auto with stays|intros _]. by apply sends_defer; [auto with stays|].
Qed.

(** The pools a route may use. *)
Definition route_pool_names : list string := [PoolName route; CanaryPoolName route].
Lemma selectPool_names s s' pk : selectPool env route s = Done s' pk → pk.1 ∈ route_pool_names.
Proof.
  unfold selectPool, modify, modifyM, gets, clockM, readClock, setLocals, route_pool_names, bindM, retM. simpl.
  repeat case_match; simpl; intros; simplify_eq/=; rewrite !elem_of_cons; auto.
Qed.
Lemma sends_serveRoute :
  (∀ name k, mtlsOk ParseCertificate Verify snap route r0 = true → name ∈ route_pool_names → Snapshot.Pools snap !! name = Some k → allowed_to k) →
  stays (carries c r0 S limit) (serveRoute encodeJSON sha256 ParseCertificate Verify env id snap route).
Proof.
  intros HS s Hc Hr. unfold serveRoute. unfold bindM at 1, gets.
  assert (mtlsOk ParseCertificate Verify snap route (request s) = true → mtlsOk ParseCertificate Verify snap route r0 = true) as Hm
    by (intros H; by rewrite Hr in H).
  match goal with |- carried _ _ _ _ _ (finalState (?m s)) => refine ((_ : stays (carries c r0 S limit) m) s Hc Hr) end.
  apply sends_after; [auto with stays|intros _].
  destruct (mtlsOk ParseCertificate Verify snap route (request s)) eqn:Eq; cbn [negb]; [|apply sends_none; stay].
  apply sends_after; [auto with stays|intros _]. clear s Hc Hr Eq.
  intros s. unfold bindM. pose proof (quiet_selectPool route s) as Hq. pose proof (selectPool_names s) as Hn.
  destruct (selectPool env route s) as [s1 pk|s1]; simpl in Hq; [|eapply carries_weaken, Hq; [done|lia]].
  apply (carries_seq _ _ _ 0 _ _ _ _ Hq). apply sends_withOverload, sends_servePool. intros k. eapply HS; [by apply Hm|]. eapply Hn. reflexivity.
Qed.
End Route.
End Parts.

(** ** The whole handler *)

Section Whole.
Context (encodeJSON : ProxyErrorBody → string) (sha256 : string → list ascii).
Context (ParseCertificate : string → Prelude.result Certificate) (Verify : Certificate → CertPool → list Certificate → option string).
Context (env : HEnv).
Abbreviation serve := (ServeHTTP encodeJSON sha256 ParseCertificate Verify env).
Abbreviation bodyOf := (serveBody encodeJSON sha256 ParseCertificate Verify env).
Abbreviation snapshotOf := (serveSnapshot encodeJSON sha256 ParseCertificate Verify env).

(** A request given to the transport on behalf of [req]: to a pool of the
    route, at an address of the pool, and the request itself. *)
Definition sent_for (c : pool_config) (snap : Snapshot) (route : Route) (req : Request) (x : string * Request) : Prop :=
  ∃ name r trace, name ∈ route_pool_names route ∧ Snapshot.Pools snap !! name = Some x.1 ∧ addressed c x.1 (Host x.2) ∧
    same_message req r ∧ Host x.2 ≠ "" ∧ outbound r (Host x.2) trace = inr x.2.
(** What is built for the client's request: its method, path and query as they
    come through the URL. *)
Definition as_printed (req x : Request) : Prop :=
  Method x = methodOr (Method req) ∧ Path x = rootedPath (Path req) ∧ RawQuery x = beforeHash (RawQuery req).
Lemma sent_as_printed c snap route req x : sent_for c snap route req x → as_printed req x.2.
Proof.
  intros (name & r & trace & _ & _ & _ & Hs & Hne & Ho). unfold outbound in Ho. destruct (NewRequest _ _) as [|[m u]] eqn:E; [done|].
  apply NewRequest_parts in E as (E1 & E2 & E3); [|done]. injection Ho as <-. rewrite Hs in E1, E2, E3. done.
Qed.
(** All that is sent for [req], with the retries. *)
Record sent_all (c : pool_config) (snap : Snapshot) (route : Route) (req : Request) (l : list (string * Request)) : Prop := mkSentAll {
  sent_bound : (length l ≤ attemptLimit req (Router.RoutePolicy route))%nat;
  sent_mtls : RequireMTLS (Router.RoutePolicy route) = true → verified_client ParseCertificate Verify snap req;
  sent_each : Forall (sent_for c snap route req) l
}.

(** What the log is told of the snapshot and the path. *)
Definition origin (snap : Snapshot) (s s' : HS) : Prop :=
  l_snapshotVersion (locals s') = Snapshot.Version snap ∧
  l_logPath (locals s') = if RedactQuery (SnapshotLogging snap) then Path (request s) else l_logPath (locals s).

(** The end of a computation that has not been changed by what matters here. *)
Definition silent (s s' : HS) : Prop := reg (world s') = reg (world s) ∧ sent (world s') = sent (world s).
Lemma silent_traffic {P : list (string * Request) → Prop} c s s' :
  silent s s' → registry_is c (reg (world s)) →
  registry_is c (reg (world s')) ∧ ∃ l, sent (world s') = sent (world s) ++ l ∧ (l = [] ∨ P l).
Proof. intros [-> ->] Hc. split; [done|]. exists []. rewrite app_nil_r. auto. Qed.
Lemma silent_fail id code category message s s1 : silent s s1 → silent s (finalState (fail encodeJSON id code category message s1)).
Proof. unfold fail, onRecorder. by destruct (WriteProxyError _ _ _ _ _ _). Qed.
Lemma origin_fail snap id code category message s s1 :
  origin snap s s1 → origin snap s (finalState (fail encodeJSON id code category message s1)).
Proof. unfold fail, onRecorder. by destruct (WriteProxyError _ _ _ _ _ _). Qed.

Lemma serveSnapshot_traffic c id snap router s :
  registry_is c (reg (world s)) →
  let s' := finalState (snapshotOf id snap router s) in
  origin snap s s' ∧ registry_is c (reg (world s')) ∧
  ∃ l, sent (world s') = sent (world s) ++ l ∧
    (l = [] ∨ ∃ r' req' route, enforceRequestLimits encodeJSON id (SnapshotLimits snap) (request s) (recorder s) = Done r' (req', false) ∧
                Match (Some router) req' = Some route ∧ sent_all c snap route req' l).
Proof.
  intros Hc s'. assert (finalState (snapshotOf id snap router s) = s') as E by done. clearbody s'.
  unfold serveSnapshot in E. unfold bindM at 1, gets in E. unfold bindM at 1, setLocals, modify, modifyM in E.
  set (s1 := s <| locals ::= _ |>) in E. assert (origin snap s s1) as Ho by done. unfold bindM at 1, onRecorder in E. change (recorder s1) with (recorder s) in E.
  destruct (enforceRequestLimits encodeJSON id (SnapshotLimits snap) (request s) (recorder s)) as [r [req' stop]|r] eqn:Hl;
    [|subst s'; by split; [|apply silent_traffic]].
  unfold bindM in E. cbn [fst snd] in E. destruct stop; [subst s'; by split; [|apply silent_traffic]|].
  destruct (Match (Some router) req') as [route|] eqn:Hm; [|subst s'; by split; [apply origin_fail|apply silent_traffic; [apply silent_fail|]]].
  match type of E with context [serveRoute _ _ _ _ _ _ _ _ ?x] => set (s2 := x) in E end.
  assert (∀ name k, mtlsOk ParseCertificate Verify snap route req' = true → name ∈ route_pool_names route → Snapshot.Pools snap !! name = Some k →
    ∀ x r trace, same_message req' r → goes_to c r trace k x →
      sent_for c snap route req' x ∧ mtlsOk ParseCertificate Verify snap route req' = true) as HS.
  { intros name k Hok Hn Hk x r0 trace Hr (H1 & H2 & H3 & H4). subst k. split; [|done]. by exists name, r0, trace. }
  destruct (sends_serveRoute encodeJSON sha256 ParseCertificate Verify env c req' _ route id snap HS s2) as [H1 H2 H3 H4 (l & H5 & H6 & H7)];
    [done|apply same_message_refl|]. rewrite E in *.
  split; [by destruct Ho; split; [rewrite H4|rewrite H3]|]. split; [done|]. exists l. split; [done|].
  destruct l as [|x l]; [by left|right]. exists r, req', route. split_and!; [done..|].
  split; [done| |eapply Forall_impl; [exact H6|]; by intros ? [? _]]. intros Hreq. apply Forall_cons in H6 as [[_ Hok] _]. by eapply mtlsOk_verified.
Qed.

(** The snapshot new requests are served with. *)
Definition serving (p : nat) (snap : Snapshot) (s : HS) : Prop :=
  ready env = true ∧ Store.current (store s) = Some p ∧ Store.heap (store s) !! p = Some snap ∧ is_Some (SnapshotRouter snap).

Abbreviation routed := (routed_to encodeJSON env).

Lemma serveBody_acquired id s p :
  ready env = true → Store.current (store s) = Some p →
  let release := modify (λ s, s <| store ::= (λ st, Release st p) |>) in
  let s1 := s <| store ::= (λ st, (Acquire st).1) |> <| snapVar := Some p |> in
  bodyOf id s = match IncRef <$> Store.heap (store s) !! p with
                | Some snap => match SnapshotRouter snap with
                               | Some router => deferM release (snapshotOf id snap router) s1
                               | None => (release ;;! fail encodeJSON id 503 "bad_gateway" "snapshot missing") s1
                               end
                | None => (release ;;! fail encodeJSON id 503 "bad_gateway" "snapshot missing") s1
                end.
Proof.
  intros Hready Hcur release s1. unfold serveBody. rewrite Hready. cbn [negb]. unfold s1, bindM at 1, Acquire, Store.Get. rewrite Hcur. cbn beta iota zeta.
  unfold bindM at 1, gets. cbn beta iota zeta. unfold upd at 2. simpl. rewrite Hcur, lookup_alter_eq.
  destruct (Store.heap (store s) !! p) as [snap|]; [|done]. simpl. by destruct (SnapshotRouter snap).
Qed.

Lemma serveBody_traffic c id s :
  registry_is c (reg (world s)) →
  let s' := finalState (bodyOf id s) in
  (∀ p snap, serving p snap s → origin snap s s') ∧ registry_is c (reg (world s')) ∧
  ∃ l, sent (world s') = sent (world s) ++ l ∧
    (l = [] ∨ ∃ p snap route req', routed id p snap route req' s ∧ sent_all c snap route req' l).
Proof.
  intros Hc s'. assert (finalState (bodyOf id s) = s') as E by done. clearbody s'.
  destruct (ready env) eqn:Hready.
  2: { unfold serveBody in E. rewrite Hready in E. subst s'. split; [intros ? ? (? & _); congruence|]. apply silent_traffic; [by apply silent_fail|done]. }
  destruct (Store.current (store s)) as [p|] eqn:Hcur.
  2: { unfold serveBody, bindM, Acquire, Store.Get in E. rewrite Hready in E. cbn in E. rewrite Hcur in E. subst s'. split; [intros ? ? (? & ? & _); congruence|].
       apply silent_traffic; [by apply silent_fail|done]. }
  rewrite (serveBody_acquired id s p Hready Hcur) in E. cbv zeta in E.
  destruct (Store.heap (store s) !! p) as [snap|] eqn:Hheap; simpl in E.
  2: { subst s'. split; [intros ? ? (? & ? & ? & _); congruence|]. apply silent_traffic; [by apply silent_fail|done]. }
  destruct (SnapshotRouter snap) as [router|] eqn:Hrouter.
  2: { subst s'. split; [intros ? ? (? & ? & ? & [? ?]); congruence|]. apply silent_traffic; [by apply silent_fail|done]. }
  unfold deferM in E. match type of E with context [snapshotOf id (IncRef snap) router ?x] =>
    destruct (serveSnapshot_traffic c id (IncRef snap) router x Hc) as (Ho & Hc' & l & Hl & Hs); destruct (snapshotOf id (IncRef snap) router x) as [s2 []|s2] end.
  all: simpl in E, Ho, Hc', Hl, Hs; subst s'; (split; [intros p' snap' (_ & H1 & H2 & _); by simplify_eq|]); (split; [done|]); exists l; (split; [done|]);
    destruct Hs as [->|(r' & req' & route & H1 & H2 & H3)]; [by left|right]; exists p, snap, route, req';
    (split; [split; eauto|destruct H3 as [? ? ?]; by split]).
Qed.

Lemma serveTracked_silent start s s' :
  HasPrefix (Path (request s)) "/admin" = true → serveTracked encodeJSON sha256 ParseCertificate Verify env start s = Done s' tt → silent s s'.
Proof.
  intros Ha E. change s' with (finalState (Done s' tt)). rewrite <- E. unfold serveTracked, gets. unfold bindM. simpl. rewrite Ha. by apply silent_fail.
Qed.

(** What the whole handler sends, the handler's body being all that does; and
    what the next request finds. *)
Lemma serve_traffic c n s :
  0 ≤ n < max_i64 → (∀ t, inflight s = Some t → tracker_ok n t) → registry_is c (reg (world s)) →
  ∃ s' l, serve s = Done s' tt ∧ same_refs (store s) (store s') ∧ (∀ t, inflight s' = Some t → tracker_ok n t) ∧
    registry_is c (reg (world s')) ∧ sent (world s') = sent (world s) ++ l ∧
    (l = [] ∨ ∃ p snap route req', routed (requestIDOf env (request s)) p snap route req' (started env s) ∧ sent_all c snap route req' l).
Proof.
  intros Hn Ht Hc.
  destruct (serve_tracked encodeJSON sha256 ParseCertificate Verify env n s Hn Ht) as (start & s1 & t & E & Es & Hi). cbv zeta in E.
  exists (s1 <| inflight := t |>). match type of E with serveTracked _ _ _ _ _ _ ?x = _ => set (s0 := x) in * end.
  destruct (serveTracked_returns encodeJSON sha256 ParseCertificate Verify env start s0) as (s2 & E2 & Hrefs & _). rewrite E in E2. injection E2 as <-.
  assert (∀ t', t = Some t' → tracker_ok n t') as Ht' by (intros t' ->; by inversion_clear Hi as [? ? [_ ?]|]).
  destruct (HasPrefix (Path (request s)) "/admin") eqn:Ha.
  { destruct (silent_traffic (P := λ _, False) c s0 s1 (serveTracked_silent start s0 s1 Ha E) Hc) as (H1 & l & H2 & [->|[]]). exists [].
    by split_and!; [..|left]. }
  destruct (serveTracked_spec encodeJSON sha256 ParseCertificate Verify env start s0 Ha)
    as (s2 & s3 & _ & [_ _ _ _ _ _ _ _ _ (d & now & k & Hw & _)] & E' & _ & r & ->).
  rewrite E in E'. injection E' as <-.
  destruct (serveBody_traffic c (requestIDOf env (request s)) (started env s0) Hc) as (_ & H1 & l & H2 & H3).
  exists l. split; [done|]. split; [done|]. split; [done|]. simpl. rewrite Hw. split; [exact H1|]. split; [exact H2|].
  destruct H3 as [->|(p & snap & route & req' & [] & H4)]; [by left|right]. exists p, snap, route, req'. split; [by split|done].
Qed.

(** The limits only replace the body. *)
Lemma limits_message id l req r r' req' b :
  enforceRequestLimits encodeJSON id l req r = Done r' (req', b) →
  Method req' = Method req ∧ Path req' = Path req ∧ RawQuery req' = RawQuery req ∧ Host req' = Host req.
Proof.
  unfold enforceRequestLimits, enforceBody, tooLarge, retM. repeat case_match; unfold bindM; repeat case_match; intros; by simplify_eq/=.
Qed.
Lemma attemptLimit_spec req policy :
  Z.of_nat (attemptLimit req policy) ≤ Z.max 1 (MaxAttempts (Router.Retry policy)) ∧
  (allowRetry req policy = false → attemptLimit req policy = 1%nat).
Proof.
  unfold attemptLimit, maxAttempts. cbn [RetryExec.Policy AllowRetry].
  destruct (allowRetry req policy); cbn [negb]; rewrite ?orb_true_r; split; try done; try lia.
  rewrite orb_false_r. destruct (negb _); [lia|]. unfold or_default. case_match; lia.
Qed.

(** C5. Whatever a client sends and whatever happens on the way, a request reaches
    only configured upstreams: with a registry that follows a configuration
    whose pools all have addresses (no other is accepted), those of the pool,
    or the canary pool, of the one route it matches in the current snapshot,
    never without the client certificate the route requires, at most as often
    as the route's policy allows, once when the method is not idempotent or
    there is a body, and always with the method of the client, its path (with
    a slash in front) and its query up to a [#], where the URL is cut.  The
    registry still follows the same configuration afterwards. *)
Theorem serve_forwards_configured n s c :
  0 ≤ n < max_i64 → (∀ t, inflight s = Some t → tracker_ok n t) → registry_ok (reg (world s)) c → (∀ k, c !! k ≠ Some []) →
  ∃ s' l, serve s = Done s' tt ∧ registry_ok (reg (world s')) c ∧ sent (world s') = sent (world s) ++ l ∧
    (l = [] ∨ ∃ p snap route req',
      routed (requestIDOf env (request s)) p snap route req' (started env s) ∧
      (RequireMTLS (Router.RoutePolicy route) = true → verified_client ParseCertificate Verify snap req') ∧
      Z.of_nat (length l) ≤ Z.max 1 (MaxAttempts (Router.Retry (Router.RoutePolicy route))) ∧
      (IsIdempotentMethod (Method (request s)) = false ∨ IsReplayableBody req' = false → (length l ≤ 1)%nat) ∧
      Forall (λ x, (∃ name, name ∈ [PoolName route; CanaryPoolName route] ∧ Snapshot.Pools snap !! name = Some x.1) ∧
                   (∃ addrs, c !! x.1 = Some addrs ∧ Host x.2 ∈ addrs) ∧ as_printed (request s) x.2) l).
Proof.
  intros Hn Ht Hc Hne. destruct (serve_traffic (Some c) n s Hn Ht Hc) as (s' & l & E & _ & _ & Hc' & Hl & Hs). exists s', l. split_and!; [done..|].
  destruct Hs as [->|(p & snap & route & req' & Hr & [Hb Hv He])]; [by left|right]. exists p, snap, route, req'.
  destruct (attemptLimit_spec req' (Router.RoutePolicy route)) as [Hb1 Hb2].
  destruct (rt_limits _ _ _ _ _ _ _ _ Hr) as [r' Hlim]. destruct (limits_message _ _ _ _ _ _ _ Hlim) as (M1 & M2 & M3 & _).
  change (request (started env s)) with (request s) in *. split_and!; [done|done|lia| |].
  - intros Hone. rewrite <- Hb2; [done|]. unfold allowRetry. rewrite M1. destruct Hone as [-> | ->]; by rewrite ?andb_false_r.
  - eapply Forall_impl; [exact He|]. intros x Hx. pose proof (sent_as_printed _ _ _ _ _ Hx) as Hp.
    destruct Hx as (name & r & tr & H1 & H2 & (addrs & Ha & Hin) & _). split; [by exists name|]. split; [|unfold as_printed in *; congruence].
    exists addrs. split; [done|]. destruct Hin as [->|]; [|done]. by apply Hne in Ha.
Qed.

(** ** The log and the metrics *)

(** The entry of a request that ends in [s']. *)
Definition entry_of (s s' : HS) (e : AccessLogEntry) : Prop :=
  log_RequestID e = defaultString (requestIDOf env (request s)) "none" ∧
  log_Status e = status (recorder s') ∧ log_BytesOut e = bytesWritten (recorder s') ∧
  log_ErrorCategory e = orElse (errorCategory (recorder s')) "none" ∧
  ∀ p snap, serving p snap s →
    log_SnapshotVersion e = defaultString (Snapshot.Version snap) "none" ∧ (RedactQuery (SnapshotLogging snap) = true → log_Path e = Path (request s)).

(** The metrics have counted one request, with this outcome. *)
Definition counted_once (r : ResponseRecorder) (m m' : Metrics) : Prop :=
  (∃ now, requestWindow m' = Record_ (unixSecond now) (status r) (requestWindow m)) ∧
  (∀ x, x ∈ [requests; requestDuration; variantRequests] → times x (calls m') = S (times x (calls m))) ∧
  times proxyErrors (calls m') = (indicator (negb (bool_decide (orElse (errorCategory r) "none" = "none"))) + times proxyErrors (calls m))%nat.
Definition not_counted (m m' : Metrics) : Prop :=
  requestWindow m' = requestWindow m ∧ ∀ x, perRequest x = true → times x (calls m') = times x (calls m).

Lemma recorded_counts id s s' m :
  recorded env id s s' → Engine.metrics (world s) = Some m → ∃ m', Engine.metrics (world s') = Some m' ∧ counted_once (recorder s') m m'.
Proof.
  intros [_ _ _ _ Hr _ _ _ _ (d & now & n & Hw & _)] Hm. rewrite Hw. simpl. rewrite Hm. eexists. split; [done|].
  destruct (request_counted_once now (finished (logContext id d s) s) m) as (H1 & H2 & _ & _ & H5). rewrite Hr. split_and!; [by eexists|exact H1|exact H2].
Qed.
Lemma not_counted_then r m m1 m' : not_counted m m1 → counted_once r m1 m' → counted_once r m m'.
Proof.
  intros [W T] ((now & H1) & H2 & H3). split_and!.
  - exists now. by rewrite H1, W.
  - intros x Hx. rewrite H2, T; [done| |done]. repeat (apply elem_of_cons in Hx as [->|Hx]; [done|]). by apply elem_of_nil in Hx.
  - by rewrite H3, T.
Qed.

(** C12. Every request is accounted for once, however it ends: refused, answered,
    failed or panicked.  The handler writes exactly one line to the access
    log, with the request's id, the status, the size and the error category
    of what the client got and the snapshot that served it, without the
    query when the snapshot says so; and the request is counted once in the
    request, duration and variant metrics, in the proxy errors exactly when
    it has an error category, and in the window the rollout gate looks at.
    Requests under /admin are the exception: they leave no trace. *)
Theorem serve_accounted_once n s :
  0 ≤ n < max_i64 → (∀ t, inflight s = Some t → tracker_ok n t) →
  ∃ s', serve s = Done s' tt ∧
    if HasPrefix (Path (request s)) "/admin"
    then accessLog s' = accessLog s ∧
         ∀ m, Engine.metrics (world s) = Some m → ∃ m', Engine.metrics (world s') = Some m' ∧ not_counted m m'
    else (∃ e, accessLog s' = accessLog s ++ [e] ∧ entry_of s s' e) ∧
         ∀ m, Engine.metrics (world s) = Some m → ∃ m', Engine.metrics (world s') = Some m' ∧ counted_once (recorder s') m m'.
Proof.
  intros Hn Ht.
  destruct (serve_tracked encodeJSON sha256 ParseCertificate Verify env n s Hn Ht) as (start & s1 & t & E & Es & _). cbv zeta in E.
  exists (s1 <| inflight := t |>). split; [done|]. match type of E with serveTracked _ _ _ _ _ _ ?x = _ => set (s0 := x) in * end.
  destruct (HasPrefix (Path (request s)) "/admin") eqn:Ha.
  { destruct (serveTracked_admin encodeJSON sha256 ParseCertificate Verify env start s0 Ha) as (s2 & E2 & Hk). rewrite E in E2. injection E2 as <-.
    split; [exact (k_log _ _ _ _ Hk)|]. intros m Hm. pose proof (k_metrics _ _ _ _ Hk) as Hi. change (Engine.metrics (world s0)) with (Engine.metrics (world s)) in Hi.
    rewrite Hm in Hi. apply meters_incidental in Hi as (m1 & H1 & H2). by exists m1. }
  destruct (serveTracked_spec encodeJSON sha256 ParseCertificate Verify env start s0 Ha) as (s2 & s3 & Hk & Hrec & E' & _ & r & Hs2).
  rewrite E in E'. injection E' as <-. split.
  - destruct Hrec as [_ _ _ _ Hr _ _ _ _ (d & now & k & _ & Hlog)]. eexists. split; [simpl; rewrite Hlog, (k_log _ _ _ _ Hk); reflexivity|].
    unfold entry_of. simpl. rewrite Hr. split_and!; try done.
    + unfold defaultString, orElse. destruct (decide (errorCategory (recorder s2) = "")); [done|]. by rewrite decide_False.
    + intros p snap Hsv. destruct (serveBody_traffic None (requestIDOf env (request s)) (started env s0) I) as (Ho & _).
      destruct (Ho p snap Hsv) as [H1 H2]. rewrite Hs2. simpl. split; [by rewrite <- H1|]. intros Hred. by rewrite Hred in H2.
  - intros m Hm. pose proof (k_metrics _ _ _ _ Hk) as Hi. change (Engine.metrics (world s0)) with (Engine.metrics (world s)) in Hi.
    rewrite Hm in Hi. apply meters_incidental in Hi as (m1 & H1 & H2). destruct (recorded_counts _ _ _ m1 Hrec H1) as (m' & H3 & H4).
    exists m'. split; [done|]. by eapply not_counted_then.
Qed.
End Whole.

(** ** After an apply *)

(** A request arrives with a response of its own. *)
Definition arrive (req : Request) (s : HS) : HS := s <| recorder := NewResponseRecorder newWriter |> <| request := req |>.

Section Applied.
Context (encodeJSON : ProxyErrorBody → string) (sha256 : string → list ascii).
Context (ParseCertificate : string → Prelude.result Certificate) (Verify : Certificate → CertPool → list Certificate → option string).

(** Requests one after the other, each with what it meets. *)
Fixpoint serveAll (rs : list (HEnv * Request)) (s : HS) : Proxy.outcome HS unit :=
  match rs with
  | [] => Done s tt
  | (env, req) :: rs =>
      match ServeHTTP encodeJSON sha256 ParseCertificate Verify env (arrive req s) with
      | Done s _ => serveAll rs s
      | Panicked s => Panicked s
      end
  end.

(** The snapshot in service has the routes and pools of [snap0]. *)
Definition serves_as (snap0 : Snapshot) (st : Store.Store) : Prop :=
  ∃ p snap, Store.current st = Some p ∧ Store.heap st !! p = Some snap ∧
    SnapshotRouter snap = SnapshotRouter snap0 ∧ Snapshot.Pools snap = Snapshot.Pools snap0.
Lemma serves_as_refs snap0 st st' : same_refs st st' → serves_as snap0 st → serves_as snap0 st'.
Proof.
  intros [Hcur Hrefs] (p & snap & H1 & H2 & H3 & H4). specialize (Hrefs p). unfold refsOf in Hrefs. rewrite H2 in Hrefs.
  destruct (Store.heap st' !! p) as [snap'|] eqn:E; [|done]. injection Hrefs as Hs. exists p, snap'. rewrite Hcur. split_and!; [done|done| |].
  all: congruence.
Qed.

(** A request of [reqs] at an endpoint of a pool of [cfg], for a route of [cfg]
    that selects it. *)
Definition configured_for (cfg : Config.Config) (reqs : list Request) (x : string * Request) : Prop :=
  ∃ req src pool, req ∈ reqs ∧ src ∈ Routes cfg ∧ route_Host src = hostOf req ∧ HasPrefix (Path req) (route_PathPrefix src) = true ∧
    Config.Pools cfg !! x.1 = Some pool ∧ Host x.2 ∈ pool_Endpoints pool ∧
    as_printed req x.2.

Section Snapshot.
Context (snap0 : Snapshot) (cfg : Config.Config) (routes : list Route).
Hypothesis router_is : SnapshotRouter snap0 = Some (NewRouter routes).
Hypothesis routes_are : Forall2 (route_ok (Snapshot.Pools snap0)) (Routes cfg) routes.
Hypothesis pools_are : ∀ n k, Snapshot.Pools snap0 !! n = Some k → k = n ∧ ∃ p, Config.Pools cfg !! n = Some p ∧ pool_Endpoints p ≠ [].

Lemma sent_configured env s p snap route req' l :
  serves_as snap0 (store s) → routed_to encodeJSON env (requestIDOf env (request s)) p snap route req' (started env s) →
  sent_all ParseCertificate Verify (Some (endpoints_of cfg)) snap route req' l → Forall (configured_for cfg [request s]) l.
Proof.
  intros (q & snap1 & H1 & H2 & H3 & H4) [_ Hcur Hheap (r' & Hlim) (router & Hrouter & Hmatch)] [_ _ He]. simpl in Hcur, Hheap. simplify_eq.
  destruct (limits_message _ _ _ _ _ _ _ _ Hlim) as (M1 & M2 & M3 & M4). change (request (started env s)) with (request s) in *.
  rewrite H3, router_is in Hrouter. injection Hrouter as <-. apply matchRoutes_spec in Hmatch as (before & after & Hsplit & Hsel & _).
  apply andb_true_iff in Hsel as [Hhost%bool_decide_eq_true Hprefix]. simpl in Hsplit.
  pose proof routes_are as Hrs. rewrite Hsplit in Hrs. apply Forall2_app_inv_r in Hrs as (l1 & l2 & _ & (src & l3 & Hok & _ & ->)%Forall2_cons_inv_r & Hcfg).
  assert (src ∈ Routes cfg) as Hsrc by (rewrite Hcfg, elem_of_app, elem_of_cons; auto).
  destruct (route_source _ _ _ Hok) as (_ & R2 & R3).
  eapply Forall_impl; [exact He|]. intros x Hx. pose proof (sent_as_printed _ _ _ _ _ Hx) as Hp.
  destruct Hx as (name & r & tr & N1 & N2 & (addrs & N3 & N4) & _). rewrite H4 in N2.
  destruct (pools_are _ _ N2) as (E1 & pool & P1 & P2). rewrite <- E1 in P1. unfold endpoints_of in N3. rewrite lookup_fmap, P1 in N3. injection N3 as <-.
  exists (request s), src, pool. destruct N4 as [?|N4]; [done|]. split_and!; try done.
  - by apply list_elem_of_singleton.
  - rewrite <- R2, Hhost. unfold hostOf. by rewrite M4.
  - by rewrite <- R3, <- M2.
  - unfold as_printed in *. congruence.
Qed.

Lemma serveAll_configured n rs s :
  0 ≤ n < max_i64 → (∀ t, inflight s = Some t → tracker_ok n t) → serves_as snap0 (store s) → registry_ok (reg (world s)) (endpoints_of cfg) →
  ∃ s' l, serveAll rs s = Done s' tt ∧ serves_as snap0 (store s') ∧ sent (world s') = sent (world s) ++ l ∧ Forall (configured_for cfg rs.*2) l.
Proof.
  intros Hn. revert s. induction rs as [|[env req] rs IH]; intros s Ht Hs Hr; cbn [serveAll].
  { exists s, []. by rewrite app_nil_r. }
  destruct (serve_traffic encodeJSON sha256 ParseCertificate Verify env (Some (endpoints_of cfg)) n (arrive req s) Hn Ht Hr)
    as (s1 & l1 & -> & Hrefs & Ht1 & Hr1 & Hl1 & Hsent).
  destruct (IH s1 Ht1 (serves_as_refs _ _ _ Hrefs Hs) Hr1) as (s2 & l2 & E2 & Hs2 & Hl2 & Hf2).
  exists s2, (l1 ++ l2). split_and!; [done|done|by rewrite Hl2, Hl1, app_assoc|]. cbn [fmap list_fmap snd]. apply Forall_app. split.
  - destruct Hsent as [->|(p & snap & route & req' & Hrt & Hall)]; [done|].
    eapply Forall_impl; [exact (sent_configured env (arrive req s) p snap route req' l1 Hs Hrt Hall)|].
    intros x (q & src & pool & ->%list_elem_of_singleton & H). exists req, src, pool. split; [by left|done].
  - eapply Forall_impl; [exact Hf2|]. intros x (q & src & pool & Hq & H). exists q, src, pool. split; [by right|done].
Qed.
End Snapshot.

(** C3. A configuration that has been applied is what traffic follows: after a
    successful apply, every sequence of requests is served without a panic,
    and whatever is sent upstream for them goes to an endpoint the applied
    configuration lists, in a pool it has, for a route it has whose host and
    prefix fit the request, with the client's method, its path (with a slash
    in front) and its query up to a [#]. *)
Theorem applied_config_serves ParseJSON ReadFile Getenv LoadX509KeyPair AppendCertsFromPEM suites env raw source m m' r c n rs s :
  registry_ok (Snapshot.reg (deps m)) c → (∀ p, Store.current (Apply.store m) = Some p → is_Some (Store.heap (Apply.store m) !! p)) →
  (∀ cfg, visitBuild env cfg ≡ₚ map_to_list (Config.Pools cfg)) →
  Apply ParseJSON ReadFile Getenv sha256 LoadX509KeyPair AppendCertsFromPEM suites env raw source ModeApply m = (m', inr r) →
  store s = Apply.store m' → reg (world s) = Snapshot.reg (deps m') →
  0 ≤ n < max_i64 → (∀ t, inflight s = Some t → tracker_ok n t) →
  ∃ s' l, serveAll rs s = Done s' tt ∧ sent (world s') = sent (world s) ++ l ∧ Forall (configured_for (res_Config r) rs.*2) l.
Proof.
  intros Hreg Hcur Hv Happly Hst Hrg Hn Ht.
  destruct (apply_committed _ _ _ _ _ _ _ _ _ _ _ _ _ _ Hreg Hcur Hv Happly) as [(p & _ & I2 & I3) _ _ Hc (routes & H1 & H2) Hp].
  destruct (serveAll_configured (res_Snapshot r) (res_Config r) routes H1 H2 Hp n rs s Hn Ht) as (s' & l & ? & _ & ? & ?).
  - rewrite Hst. by exists p, (res_Snapshot r).
  - by rewrite Hrg.
  - by exists s', l.
Qed.
End Applied.

(** ** What the log does not say *)

Section Unlogged.
Context (encodeJSON : ProxyErrorBody → string) (env : HEnv).

Lemma writeFailure_locals id res s : locals (finalState (writeFailure encodeJSON env id res s)) = locals s.
Proof.
  unfold writeFailure, gets, bindM at 1. unfold bindM, onRecorder. destruct (writeProxyErrorForResult _ _ _ _ _) as [r handled|r]; [|done].
  destruct handled; [done|]. unfold fail, onRecorder. by destruct (WriteProxyError _ _ _ _ _ _).
Qed.

(** A request that fails is logged as if it had not been forwarded: when the
    engine comes back without a response, the handler drops what it reports,
    on the plain path and on the cached one, so that the upstream, the number
    of retries, their reason and the exhausted budget that the log is written
    from are still those of before, whatever has been sent. *)
Theorem failed_forward_unlogged id snap poolKey key cacheKey route cfg s s1 res fwd :
  roundTrip env poolKey key route cfg s = Done s1 (res, fwd) → Resp res = None →
  locals (finalState (forward encodeJSON env id snap poolKey key route cfg s)) = locals s ∧
  locals (finalState (fetchAndStore encodeJSON env id snap poolKey key cacheKey route cfg s)) = locals s.
Proof.
  intros Ht Hres. assert (locals s1 = locals s) as Hl by (revert Ht; unfold roundTrip; repeat case_match; intros; by simplify_eq).
  unfold forward, fetchAndStore. unfold bindM at 1. rewrite Ht. cbn [fst snd]. rewrite Hres. split; [by rewrite writeFailure_locals|].
  unfold bindM at 1. rewrite Ht. cbn [fst snd]. rewrite Hres. unfold bindM, modify, modifyM. by rewrite writeFailure_locals.
Qed.
End Unlogged.

(** ** A deployment with one open route and one upstream *)

Definition refused : error := mkError (Some "dial") (Some false) [].
Definition open_policy : Router.Policy :=
  Router.mkPolicy Second Second Second (mkRetryPolicy true 3 Second 0 None (Some {["dial" := true]}) 0 0) (mkRetryBudgetPolicy false 0 0)
    (mkClientRetryCapPolicy false "" 0 0 0) false "" (mkCachePolicy false false 0 0 [] false 0 true) (Plugin.mkPolicy false []).
Definition open_route : Route := Router.mkRoute "r" "h" "/" None "p" "" "" "" None open_policy.
Definition open_pool : PoolConfig := mkPoolConfig (Breaker.mkConfig false 0 0 0 0 0) (Snapshot.Outlier (poolConfig (Provider.demo_pool "" false))).
Definition open_snapshot : Snapshot :=
  (blank_snapshot 1) <| SnapshotRouter := Some (NewRouter [open_route]) |> <| Snapshot.Pools := {["p" := "p"]} |>
    <| PoolConfigs := {["p" := open_pool]} |> <| SnapshotLogging := mkLoggingConfig true |> <| Snapshot.Version := "v1" |>.
Definition refusing_env : HEnv :=
  mkHEnv true (mkEnv (λ _, 0) (λ _ _ _, inr refused) (λ _, None) None (λ _ _, 0) (λ _, true) (λ _, ["10.0.0.1:80"])) (Some ["i"%char; "d"%char])
    (λ _, idle_env) (λ _, idle_env) true (emptyEntry, false, None, false) None None "2024-01-01T00:00:00Z".
Definition open_state : HS :=
  Handler.demo_state <| store := NewStore {[0%nat := open_snapshot]} (Some 0%nat) |>
    <| world ::= (λ w, w <| breakerReg := None |> <| Engine.metrics := Some (NewMetrics (mkMetricsConfig 0 0 0)) |>) |>
    <| request ::= (λ r, r <| RawQuery := "token=secret" |>) |>.
Definition open_config : gmap string (list string) := {["p" := ["10.0.0.1:80"]]}.

Lemma open_registry : registry_ok (reg (world open_state)) open_config.
Proof.
  exact (Registry.step_ok _ ∅ (EReconcile "p" ["10.0.0.1:80"] (Health.mkConfig "/" Second Second 1 1 Second Second) Transport.DefaultOptions (λ _, 0) 0 0)
    (new_registry_ok 0 0)).
Qed.
Lemma open_tracker t : inflight open_state = Some t → tracker_ok 0 t.
Proof. exact (demo_tracker t). Qed.
Definition open_serve : Proxy.outcome HS unit := ServeHTTP (λ _, "{}") (λ _, []) (λ c, Ok c) (λ _ _ _, None) refusing_env open_state.

Lemma serve_forwards_configured_witness :
  ∃ s' l, open_serve = Done s' tt ∧ sent (world s') = l ∧ (length l ≤ 3)%nat ∧ Forall (λ x, Host x.2 = "10.0.0.1:80") l ∧ l ≠ [].
Proof.
  destruct (serve_forwards_configured (λ _, "{}") (λ _, []) (λ c, Ok c) (λ _ _ _, None) refusing_env 0 open_state open_config)
    as (s' & l & E & _ & Hl & Hs); [lia|exact open_tracker|exact open_registry| |].
  { intros k. unfold open_config. by intros [_ ?]%lookup_singleton_Some. }
  simpl in Hl.
  exists s', l. split; [exact E|]. split; [done|]. assert (length (sent (world s')) = 3%nat) as H3.
  { change s' with (finalState (Done s' tt)). rewrite <- E. vm_compute. reflexivity. }
  destruct Hs as [->|(p & snap & route & req' & Hr & _ & _ & _ & Hf)]; [by rewrite Hl in H3|]. rewrite Hl in H3. split_and!; [lia| |by intros ->].
  eapply Forall_impl; [exact Hf|]. intros x (_ & (addrs & Ha & Hx) & _). unfold open_config in Ha. apply lookup_singleton_Some in Ha as [_ <-].
  by apply list_elem_of_singleton in Hx.
Defined.

Lemma serve_accounted_once_witness :
  ∃ s' e, open_serve = Done s' tt ∧ accessLog s' = [e] ∧ log_Status e = 502 ∧ log_Path e = "/" ∧ log_SnapshotVersion e = "v1" ∧
    ∃ m', Engine.metrics (world s') = Some m' ∧ times requests (calls m') = 1%nat ∧ times proxyErrors (calls m') = 1%nat.
Proof.
  destruct (serve_accounted_once (λ _, "{}") (λ _, []) (λ c, Ok c) (λ _ _ _, None) refusing_env 0 open_state)
    as (s' & E & Hs); [lia|exact open_tracker|]. change (HasPrefix (Path (request open_state)) "/admin") with false in Hs.
  destruct Hs as [(e & He & _ & H2 & _ & _ & Ho) Hm]. exists s', e. split; [exact E|].
  assert (status (recorder s') = 502 ∧ orElse (errorCategory (recorder s')) "none" = "upstream_connect_failed") as [H502 Hcat].
  { change s' with (finalState (Done s' tt)). rewrite <- E. split; vm_compute; reflexivity. }
  destruct (Ho 0%nat open_snapshot) as [Hv Hp]; [by split_and!|]. split_and!; [done|congruence|by apply Hp|done|].
  destruct (Hm _ eq_refl) as (m' & Hm' & _ & Hx & Hy). exists m'. split_and!; [done|rewrite Hx by (left; done); reflexivity|].
  rewrite Hy, Hcat. reflexivity.
Defined.

(** The state of a handler on the manager's store and registries. *)
Definition handler_of (m : Manager) : HS := open_state <| store := Apply.store m |> <| world ::= (λ w, w <| reg := Snapshot.reg (deps m) |>) |>.
Lemma applied_config_serves_witness :
  let m' := (demo_apply None "first" demo_manager).1 in
  ∃ s', serveAll (λ _, "{}") demo_sha (λ c, Ok c) (λ _ _ _, None) [(refusing_env, plain_get <| Host := "example.local" |>)] (handler_of m') = Done s' tt ∧
    (λ x, (x.1, Host x.2)) <$> sent (world s') = [("p", "10.0.0.1:80")] ∧
    ∃ cfg, Forall (λ x, ∃ pool, Config.Pools cfg !! x.1 = Some pool ∧ Host x.2 ∈ pool_Endpoints pool) (sent (world s')).
Proof.
  intros m'. destruct (demo_apply None "first" demo_manager) as [m1 [e|r]] eqn:E; [exfalso; revert E; vm_compute; discriminate|].
  destruct (applied_config_serves (λ _, "{}") demo_sha (λ c, Ok c) (λ _ _ _, None) demo_parse (λ _, Prelude.Err "") demo_getenv (λ _ _, Prelude.Err "") (λ _, false) ∅
    (Apply.demo_env None) "first" "test" demo_manager m1 r ∅ 0 [(refusing_env, plain_get <| Host := "example.local" |>)] (handler_of m1))
    as (s' & l & Hs & Hl & Hf); [exact (new_registry_ok 0 0)|exact demo_current|done|exact E|done|done|lia|exact open_tracker|].
  exists s'. split; [exact Hs|]. split.
  - change s' with (finalState (Done s' tt)). rewrite <- Hs. change m1 with (m1, inr r : applyError + Apply.Result).1. rewrite <- E. vm_compute. reflexivity.
  - exists (res_Config r). rewrite Hl. eapply Forall_impl; [exact Hf|]. intros x (req & src & pool & _ & _ & _ & _ & H1 & H2 & _). by exists pool.
Defined.

(** Three attempts, and a log that knows of none. *)
Lemma failed_forward_unlogged_witness :
  let o := roundTrip refusing_env "p" "r::p" open_route (Snapshot.Breaker open_pool) open_state in
  length (sent (world (finalState o))) = 3%nat ∧
  l_retryCount (locals (finalState (forward (λ _, "{}") refusing_env "id-1" open_snapshot "p" "r::p" open_route (Snapshot.Breaker open_pool) open_state))) = 0.
Proof.
  split; [vm_compute; reflexivity|].
  destruct (roundTrip refusing_env "p" "r::p" open_route (Snapshot.Breaker open_pool) open_state) as [s1 [res fwd]|s1] eqn:E;
    [|exfalso; revert E; vm_compute; discriminate].
  destruct (failed_forward_unlogged (λ _, "{}") refusing_env "id-1" open_snapshot "p" "r::p" "" open_route (Snapshot.Breaker open_pool) open_state s1 res fwd E)
    as [-> _]; [|reflexivity].
  change res with (match Done s1 (res, fwd) with Done _ rf => rf.1 | Panicked _ => emptyResult end). rewrite <- E. vm_compute. reflexivity.
Defined.
