(* ===== verification/Isolation.v ===== *)
(** * Requests leave other routes alone (internal/proxy/handler.go, engine.go)

    Breakers and outlier states are kept by the key of a route and its pool,
    retry budgets by the route.  [apart] relates two worlds that agree on
    everything kept under other keys; a request is [apart] for the keys of the
    route it matches. *)
From S2P Require Import Prelude.
From S2P Require Import GoStrings.
From S2P Require Import GoError.
From S2P Require Import Http.
From S2P Require Import Policy.
From S2P Require Import Breaker.
From S2P Require Import BreakerRegistry.
From S2P Require Import OutlierRegistry.
From S2P Require Import Pool.
From S2P Require Import Registry.
From S2P Require Import Retry.
From S2P Require Import RetryExec.
From S2P Require Import RetryRegistry.
From S2P Require Import CacheStore.
From S2P Require Import CacheKey.
From S2P Require Import TrafficSplit.
From S2P Require Import TrafficPlan.
From S2P Require Import Config.
From S2P Require Import Plugin.
From S2P Require Import TLSStore.
From S2P Require Import Router.
From S2P Require Import Snapshot.
From S2P Require Import Store.
From S2P Require Import Metrics.
From S2P Require Import Proxy.
From S2P Require Import PluginFilters.
From S2P Require Import ProxyRules.
From S2P Require Import Engine.
From S2P Require Import Handler.
From S2P Require Import Traffic.

(** ** What is kept under a key *)

Definition breakerAt (k : string) (w : World) : option BreakerRegistry.entry := breakerReg w ≫= λ b, BreakerRegistry.breakers b !! k.
Definition outlierAt (k : string) (w : World) : option poolEntry := outlierReg w ≫= λ o, OutlierRegistry.pools o !! k.
Definition budgetAt (r : string) (w : World) : option retryRouteEntry := retryReg w ≫= λ x, RetryRegistry.routes x !! r.

Record apart (K : list string) (R : string) (w w' : World) : Prop := mkApart {
  ap_breaker : ∀ k, k ∉ K → breakerAt k w' = breakerAt k w;
  ap_outlier : ∀ k, k ∉ K → outlierAt k w' = outlierAt k w;
  ap_budget : ∀ r, r ≠ R → budgetAt r w' = budgetAt r w
}.
#[export] Instance apart_preorder K R : PreOrder (apart K R).
Proof.
  split; [by split|]. intros w1 w2 w3 [A1 A2 A3] [B1 B2 B3]. split; intros k Hk.
  - by rewrite B1, A1.
  - by rewrite B2, A2.
  - by rewrite B3, A3.
Qed.
Lemma apart_frame K R w w' : breakerReg w' = breakerReg w → outlierReg w' = outlierReg w → retryReg w' = retryReg w → apart K R w w'.
Proof. intros H1 H2 H3. split; intros; unfold breakerAt, outlierAt, budgetAt; congruence. Qed.
Lemma apart_weaken K K' R w w' : K ⊆ K' → apart K R w w' → apart K' R w w'.
Proof. intros HK [A1 A2 A3]. split; [intros k Hk; apply A1|intros k Hk; apply A2|done]; set_solver. Qed.

Create HintDb apart.
#[export] Hint Extern 1 (apart _ _ _ _) => solve [apply apart_frame; reflexivity] : apart.

Section Attempts.
Context (env : Env) (req : Request) (trace : option (string * string)).
Context (poolKey key routeID : string) (policy : Router.Policy) (breakerCfg : Breaker.Config).
Abbreviation aparts := (apart [key] routeID).

Lemma apart_observe K R o w : apart K R w (observe env o w).
Proof. destruct (observe_other env o w) as (_ & E2 & E3 & E4 & _). by apply apart_frame. Qed.
#[local] Hint Resolve apart_observe : apart.

Lemma ensure_apart r cfg t1 t2 k : k ≠ key → BreakerRegistry.breakers (BreakerRegistry.ensure r key cfg t1 t2).1 !! k = BreakerRegistry.breakers r !! k.
Proof. intros Hk. unfold BreakerRegistry.ensure. destruct (BreakerRegistry.breakers r !! key); simpl; by rewrite lookup_insert_ne. Qed.
Lemma Allow_apart r cfg t1 t2 t3 k : k ≠ key → BreakerRegistry.breakers (BreakerRegistry.Allow r key cfg t1 t2 t3).1 !! k = BreakerRegistry.breakers r !! k.
Proof.
  intros Hk. unfold BreakerRegistry.Allow. case_decide; [done|]. pose proof (ensure_apart r cfg t1 t2 k Hk) as Hr.
  destruct (BreakerRegistry.ensure r key cfg t1 t2) as [r1 e]. destruct (Breaker.Allow _ _). simpl in *. by rewrite lookup_insert_ne.
Qed.
Lemma Report_apart r cfg b t1 t2 t3 k : k ≠ key → BreakerRegistry.breakers (BreakerRegistry.Report r key cfg b t1 t2 t3).1 !! k = BreakerRegistry.breakers r !! k.
Proof.
  intros Hk. unfold BreakerRegistry.Report. case_decide; [done|]. pose proof (ensure_apart r cfg t1 t2 k Hk) as Hr.
  destruct (BreakerRegistry.ensure r key cfg t1 t2) as [r1 e]. destruct (Breaker.Report _ _ _). simpl in *. by rewrite lookup_insert_ne.
Qed.
Lemma endpoint_apart r a t k : k ≠ key → OutlierRegistry.pools (OutlierRegistry.endpoint r key a t).1 !! k = OutlierRegistry.pools r !! k.
Proof. intros Hk. unfold OutlierRegistry.endpoint. destruct (OutlierRegistry.pools r !! key); [|done]. simpl. by rewrite lookup_insert_ne. Qed.
Lemma IsEjected_apart r a t1 t2 k : k ≠ key → OutlierRegistry.pools (OutlierRegistry.IsEjected r key a t1 t2).1 !! k = OutlierRegistry.pools r !! k.
Proof.
  intros Hk. unfold OutlierRegistry.IsEjected. case_decide; [done|]. pose proof (endpoint_apart r a t1 k Hk) as Hr.
  destruct (OutlierRegistry.endpoint r key a t1) as [r1 [c [e|]]]; [|done]. by destruct (negb _).
Qed.
Lemma RecordResult_apart r a b l t1 t2 k :
  k ≠ key → OutlierRegistry.pools (OutlierRegistry.RecordResult r key a b l t1 t2).1.1 !! k = OutlierRegistry.pools r !! k.
Proof.
  intros Hk. unfold OutlierRegistry.RecordResult. case_decide; [done|]. pose proof (endpoint_apart r a t1 k Hk) as Hr.
  destruct (OutlierRegistry.endpoint r key a t1) as [r1 [c [e|]]]; [|done]. destruct (negb _); [done|].
  destruct (Outlier.RecordResult _ _ _ _) as [e' [[] reason]]; simpl in *; by rewrite lookup_alter_ne.
Qed.

Lemma apart_breaker w f :
  (∀ b k, k ≠ key → BreakerRegistry.breakers (f b) !! k = BreakerRegistry.breakers b !! k) → aparts w (w <| breakerReg ::= fmap f |>).
Proof.
  intros Hf. split; [|done..]. intros k Hk. unfold breakerAt. simpl. destruct (breakerReg w); [|done]. simpl. apply Hf. set_solver.
Qed.
Lemma apart_outlier w f :
  (∀ o k, k ≠ key → OutlierRegistry.pools (f o) !! k = OutlierRegistry.pools o !! k) → aparts w (w <| outlierReg ::= fmap f |>).
Proof.
  intros Hf. split; [done| |done]. intros k Hk. unfold outlierAt. simpl. destruct (outlierReg w); [|done]. simpl. apply Hf. set_solver.
Qed.
Lemma apart_retries w r :
  (∀ k x, k ≠ routeID → retryReg w = Some x → RetryRegistry.routes r !! k = RetryRegistry.routes x !! k) → is_Some (retryReg w) →
  aparts w (w <| retryReg := Some r |>).
Proof. intros Hr [x Hx]. split; [done..|]. intros k Hk. unfold budgetAt. simpl. rewrite Hx. simpl. by apply Hr. Qed.
Lemma apart_update w f : aparts w (w <| retryReg ::= fmap (λ r, updateEntry r routeID f) |>).
Proof.
  split; [done..|]. intros k Hk. unfold budgetAt. simpl. destruct (retryReg w); [|done]. simpl. by rewrite lookup_alter_ne.
Qed.
#[local] Hint Resolve apart_update : apart.

Lemma apart_picker w : aparts w (picker env poolKey key w).1.
Proof.
  unfold picker, readClock. cbn zeta. destruct (Registry.Pick _ _ _ _ _ _) as [r [res ok]]. cbn [fst].
  etrans; [|apply apart_outlier; intros; by apply IsEjected_apart]. auto with apart.
Qed.
Lemma apart_notes notes w : aparts w (foldl (λ w note, observe env (ORecordOutlierEjection note.1 note.2) w) w notes).
Proof. revert w. induction notes as [|x notes IH]; intros w; [reflexivity|]. simpl. etrans; [|apply IH]. auto with apart. Qed.
Lemma apart_reportOutcome b a l nu w : aparts w (reportOutcome env key breakerCfg b a l nu w).
Proof.
  unfold reportOutcome, readClock. cbn zeta.
  match goal with |- aparts _ (if nu then ?x else _) => trans x; [|destruct nu; [done|]] end.
  - match goal with |- aparts _ (match outlierReg ?w1 with _ => _ end) => trans w1; [auto with apart|]; destruct (outlierReg w1) as [o|] eqn:Eo; [|done] end.
    match goal with |- context [OutlierRegistry.RecordResult o key a b l ?t1 ?t2] =>
      pose proof (λ k, RecordResult_apart o a b l t1 t2 k) as Hk; destruct (OutlierRegistry.RecordResult o key a b l t1 t2) as [[o' res] notes] end.
    etrans; [|apply apart_notes]. split; [done| |done]. intros k Hn. unfold outlierAt. rewrite Eo. simpl. apply Hk. set_solver.
  - etrans; [|apply apart_breaker; intros; by apply Report_apart]. auto with apart.
Qed.
Lemma apart_recordFailure e a w : aparts w (recordFailure env poolKey e a w).
Proof.
  unfold recordFailure, recordUpstreamError, passiveFailure, readClock.
  repeat case_match; try reflexivity; match goal with |- context [observe env ?o w] => trans (observe env o w) end; auto with apart; reflexivity.
Qed.
Lemma apart_exchange n d a w : aparts w (exchange env req trace poolKey key breakerCfg n d a w).1.
Proof.
  unfold exchange, readClock. cbn zeta. set (w0 := upd tick S w). assert (aparts w (roundTripUpstream env req trace poolKey n d a w0).1) as Hr.
  { unfold roundTripUpstream. destruct (outbound _ _ _); cbn [fst]; unfold w0; auto with apart. }
  destruct (roundTripUpstream env req trace poolKey n d a w0) as [w1 o]. cbn [fst snd] in *. etrans; [exact Hr|].
  match goal with |- aparts _ (match o with inl _ => ?x | inr _ => _ end) => assert (aparts w1 x) as H1 end.
  { etrans; [|apply apart_observe]. destruct (reportable o); [etrans; [|match goal with |- aparts _ (upd tick _ ?x) => trans x; [apply apart_reportOutcome|auto with apart] end]|]; auto with apart. }
  destruct o; [exact H1|]. etrans; [exact H1|apply apart_recordFailure].
Qed.
Lemma apart_attempt n d w : aparts w (attemptUpstream env req trace poolKey key breakerCfg n d w).1.
Proof.
  unfold attemptUpstream. pose proof (apart_picker w) as Hp. destruct (picker env poolKey key w) as [w1 [pick ok]]. simpl in Hp.
  destruct (_ || _); [etrans; [exact Hp|auto with apart]|]. etrans; [exact Hp|].
  match goal with |- aparts _ (let '(_, _) := exchange _ _ _ _ _ _ ?n ?d ?a ?x in _).1 =>
    assert (aparts w1 x) as H1; [|pose proof (apart_exchange n d a x) as H2; destruct (exchange env req trace poolKey key breakerCfg n d a x) as [w2 o]] end.
  { destruct (OutlierIgnored pick); [|auto with apart].
    match goal with |- context [observe env ?q ?x] => trans (observe env q x); [etrans; [|apply apart_observe]|] end; auto with apart. }
  cbn [fst] in *. etrans; [exact H1|]. etrans; [exact H2|]. auto with apart.
Qed.
Lemma apart_routeBudget {A} (f : Budget → Budget * A) d w : aparts w (onRouteBudget routeID f d w).1.
Proof. unfold onRouteBudget. case_match; [destruct (f _)|]; cbn [fst]; auto with apart. Qed.
Lemma apart_clientBudget {A} loc (f : Budget → Budget * A) d w : aparts w (onClientBudget routeID loc f d w).1.
Proof. unfold onClientBudget. case_match; [destruct (f _)|]; cbn [fst]; auto with apart. Qed.
#[local] Hint Resolve apart_routeBudget apart_clientBudget : apart.
Lemma Budgets_apart r bp cp t1 t2 k :
  k ≠ routeID → RetryRegistry.routes (RetryRegistry.Budgets r routeID bp cp t1 t2).1 !! k = RetryRegistry.routes r !! k.
Proof. intros Hk. unfold RetryRegistry.Budgets. repeat case_match; simpl; by rewrite ?lookup_insert_ne. Qed.
Lemma apart_prepareBudgets w : aparts w (prepareBudgets env req routeID policy w).1.
Proof.
  unfold prepareBudgets, readClock. destruct (negb _); [done|]. destruct (retryReg w) as [r|] eqn:Er; [|done]. cbn zeta.
  match goal with |- context [RetryRegistry.Budgets r routeID ?a ?b ?t1 ?t2] =>
    pose proof (λ k, Budgets_apart r a b t1 t2 k) as Hb; destruct (RetryRegistry.Budgets r routeID a b t1 t2) as [r' [[bu cap]|e]]; simpl in Hb end.
  1: destruct cap as [cc|]; [destruct (Bucket cc _) as [cc' loc]|].
  all: cbn [fst]; match goal with |- aparts _ (upd retryReg _ ?x) => trans x; [auto with apart|] end.
  all: apply apart_retries; [|by rewrite Er || (simpl; by rewrite Er)]; intros k x Hk Hx; simpl in Hx; rewrite Er in Hx; injection Hx as <-;
    simpl; rewrite ?lookup_alter_ne by done; by apply Hb.
Qed.
Lemma apart_learn res hasRoute client w : aparts w (learn poolKey routeID res hasRoute client w).
Proof.
  unfold learn, passiveSuccess. destruct (Resp res) as [resp|]; [|done].
  match goal with |- context [onRouteBudget _ _ _ ?x] => trans x; [auto with apart|] end.
  destruct (_ && _); [|done]. destruct hasRoute, client; auto with apart. etrans; [|apply apart_clientBudget]. auto with apart.
Qed.
Lemma apart_transportFor w : aparts w (transportFor env poolKey w).1.
Proof. unfold transportFor, readClock, GetTransport. cbn zeta. destruct (Transport.Get _ _ _ _). auto with apart. Qed.

Lemma apart_roundTrip w : aparts w (roundTripWithRetry env req trace poolKey key routeID policy breakerCfg w).1.1.1.
Proof.
  unfold roundTripWithRetry. pose proof (apart_transportFor w) as Ht. destruct (transportFor env poolKey w) as [w1 [t|]]; [|exact Ht].
  simpl in Ht. pose proof (apart_prepareBudgets w1) as Hb.
  destruct (prepareBudgets env req routeID policy w1) as [w2 [[budgetErr hasRoute] client]]. simpl in Hb.
  set (ops := engineOps _ _ _ _ _ _ _ _ _). set (cfg := RetryExec.mkConfig _ _ _ _ _).
  assert (∀ w1 w2, aparts w1 w2 → aparts w w1 → aparts w w2) as Hstep by (intros; by etrans).
  assert (tried (λ _ w', aparts w w') 0 (Z.to_nat (maxAttempts cfg)) (Execute ops cfg (w2 <| lastPick := emptyPick |>))) as He.
  { apply Execute_tried.
    - intros _ w'. apply Hstep. auto with apart.
    - intros _ n d w'. apply Hstep. apply apart_attempt.
    - intros _ b w'. apply Hstep. auto with apart.
    - intros _ d w'. apply Hstep. auto with apart.
    - intros _ f w' Hf. simpl in Hf. destruct hasRoute; [|done]. injection Hf as <-. apply Hstep. auto with apart.
    - intros _ f w' Hf. simpl in Hf. destruct client; [|done]. injection Hf as <-. apply Hstep. auto with apart.
    - intros _ reason w'. apply Hstep. simpl. auto with apart.
    - trans w1; [exact Ht|]. trans w2; [exact Hb|]. auto with apart. }
  destruct (Execute ops cfg (w2 <| lastPick := emptyPick |>)) as [[w3 res] tr]. destruct He as [H3 _]. simpl in *. etrans; [exact H3|]. etrans; [|apply apart_learn]. destruct (RetryBudgetExhausted res); [|done]. auto with apart.
Qed.
End Attempts.

(** ** The handler *)

Definition apartH (K : list string) (R : string) (s s' : HS) : Prop := apart K R (world s) (world s').
#[export] Instance apartH_preorder K R : PreOrder (apartH K R).
Proof. split; [intros s; unfold apartH; reflexivity|]. intros s1 s2 s3 H1 H2. unfold apartH in *. by etrans. Qed.

Section Parts.
Context (encodeJSON : ProxyErrorBody → string) (sha256 : string → list ascii).
Context (env : HEnv) (K : list string) (R : string).
Abbreviation alone := (stays (apartH K R)).

Lemma alone_recorder {A} (m : ResponseRecorder → Proxy.outcome ResponseRecorder A) : alone (onRecorder m).
Proof. intros s. unfold onRecorder, apartH. by destruct (m (recorder s)). Qed.
Lemma alone_fail id code category message : alone (fail encodeJSON id code category message).
Proof. apply alone_recorder. Qed.
Lemma alone_clock : alone (clockM env).
Proof. intros s. by apply apart_frame. Qed.
Lemma alone_modify f : (∀ s, world (f s) = world s) → alone (modify f).
Proof. intros H s. unfold apartH. simpl. by rewrite H. Qed.
Lemma alone_meter o : alone (meter env o).
Proof. intros s. apply apart_observe. Qed.
Lemma alone_canonicalize routeID poolKey : alone (canonicalize env routeID poolKey).
Proof. intros s. unfold canonicalize, apartH. destruct (Engine.metrics (world s)) as [m|]; [|done]. by apply apart_frame. Qed.
Lemma alone_requestPhase id route : alone (requestPhase encodeJSON env id route).
Proof. intros s. unfold requestPhase. destruct (applyRequestPlugins _ _ _ _ _ _ _); by apply apart_frame. Qed.
Lemma alone_responsePhase id route resp : alone (responsePhase encodeJSON env id route resp).
Proof. intros s. unfold responsePhase. destruct (applyResponsePlugins _ _ _ _ _ _ _); by apply apart_frame. Qed.
Lemma alone_settle cacheKey flight : alone (settle cacheKey flight).
Proof. intros s. unfold settle, apartH. destruct (coalescer s); [|done]. by destruct (Finish _ _ _ _ _ _) as [? []]. Qed.
#[local] Hint Resolve alone_recorder alone_fail alone_clock alone_meter alone_canonicalize alone_requestPhase alone_responsePhase alone_settle : stays.
#[local] Hint Extern 1 (stays _ (modify _)) => apply alone_modify; intros; reflexivity : stays.
#[local] Hint Extern 1 (stays _ (setLocals _)) => apply alone_modify; intros; reflexivity : stays.

Lemma alone_roundTrip poolKey key route cfg : key ∈ K → Router.ID route = R → alone (roundTrip env poolKey key route cfg).
Proof.
  intros HK <- s. unfold roundTrip, apartH.
  match goal with |- context [roundTripWithRetry ?e ?r ?t ?p ?k ?i ?po ?cf ?w] =>
    pose proof (apart_roundTrip e r t p k i po cf w) as H; destruct (roundTripWithRetry e r t p k i po cf w) as [[[w' res] fwd] tr] end.
  eapply apart_weaken, H. set_solver.
Qed.
Lemma alone_breakerAllows key cfg : key ∈ K → alone (breakerAllows env key cfg).
Proof.
  intros HK s. unfold breakerAllows. unfold bindM at 1, gets. destruct (breakerReg (world s)) as [b|] eqn:Eb; [|by unfold apartH].
  unfold bindM at 1 2 3, clockM, readClock. cbn beta iota zeta. set (s3 := s <| world := _ |> <| world := _ |> <| world := _ |>).
  match goal with |- context [BreakerRegistry.Allow b key cfg ?t1 ?t2 ?t3] =>
    pose proof (λ k, Allow_apart key b cfg t1 t2 t3 k) as Hk; destruct (BreakerRegistry.Allow b key cfg t1 t2 t3) as [b' [[state allowed] err]] end.
  unfold bindM at 1, modify at 1, modifyM. match goal with |- apartH K R s (finalState (?m ?x)) => trans x; [|generalize x; change (alone m)] end.
  - split; [|done..]. intros k Hn. unfold breakerAt. simpl. rewrite Eb. simpl. apply Hk. set_solver.
  - stay.
Qed.
#[local] Hint Resolve alone_roundTrip alone_breakerAllows : stays.

Lemma alone_writeFailure id res : alone (writeFailure encodeJSON env id res).
Proof. unfold writeFailure. stay. Qed.
Lemma alone_selectPool route : alone (selectPool env route).
Proof. unfold selectPool. stay. Qed.
Lemma alone_cacheMetric status : alone (cacheMetric env status).
Proof. unfold cacheMetric. stay. Qed.
Lemma alone_storeEntry key entry : alone (storeEntry env key entry).
Proof.
  unfold storeEntry. stay. intros s. unfold apartH. destruct (cacheStore s) as [m|]; [by destruct (Set_ m key entry)|done].
Qed.
#[local] Hint Resolve alone_writeFailure alone_selectPool alone_cacheMetric alone_storeEntry : stays.
Lemma alone_noteForward fwd : alone (noteForward fwd).
Proof. apply alone_modify. done. Qed.
Lemma alone_setCacheStatus status : alone (setCacheStatus status).
Proof. apply alone_modify. done. Qed.
#[local] Hint Resolve alone_noteForward alone_setCacheStatus : stays.

Lemma alone_fetchAndStore id snap poolKey key cacheKey route cfg :
  key ∈ K → Router.ID route = R → alone (fetchAndStore encodeJSON env id snap poolKey key cacheKey route cfg).
Proof. intros HK HR. unfold fetchAndStore. stay. Qed.
#[local] Hint Resolve alone_fetchAndStore : stays.
Lemma alone_serveCached id snap poolKey key cacheKey route cfg :
  key ∈ K → Router.ID route = R → alone (serveCached encodeJSON env id snap poolKey key cacheKey route cfg).
Proof.
  intros HK HR. unfold serveCached. cbv zeta. apply stays_bind; [apply _|auto with stays|intros now]. apply stays_bind; [apply _| |intros hit].
  { intros s. unfold apartH. destruct (cacheStore s) as [m|]; [by destruct (CacheStore.Get m cacheKey now)|done]. }
  apply stays_bind; [apply _|stay|intros req]. destruct hit as [e|]; [stay|]. apply stays_bind; [apply _|stay|intros _].
  apply stays_bind; [apply _| |intros [[flight lead] applied]].
  { intros s. unfold apartH. by destruct (startCoalescing _ _ _). }
  destruct (applied && negb lead); [stay|]. destruct applied; [|stay]. apply stays_bind; [apply _|stay|intros _]. apply stays_defer; [apply _|stay..].
Qed.
#[local] Hint Resolve alone_serveCached : stays.
Lemma alone_servePool id snap route name key :
  key ∈ K → Router.ID route = R → alone (servePool encodeJSON sha256 env id snap route name key).
Proof.
  intros HK HR. unfold servePool, forward. stay. intros ?. unfold apartH. by destruct (BuildKey _ _ _).
Qed.
#[local] Hint Resolve alone_servePool : stays.
Lemma alone_withOverload id m : alone m → alone (withOverload encodeJSON env id m).
Proof.
  intros Hm. unfold withOverload. apply stays_bind; [apply _|stay|intros limited]. destruct (negb limited); [done|]. destruct (negb _); [stay|].
  apply stays_bind; [apply _|stay|intros _]. apply stays_defer; [apply _|stay|done].
Qed.
End Parts.

(** The keys a route's breakers and outlier states are kept under. *)
Definition keyOf (route : Route) (k name : string) : string := if decide (k = "") then (Router.ID route ++ "::" ++ name)%string else k.
Definition keysOf (route : Route) : list string :=
  [keyOf route (StablePoolKey route) (PoolName route); keyOf route (CanaryPoolKey route) (CanaryPoolName route)].
Lemma selectPool_key env route s s' pk : selectPool env route s = Done s' pk → pk.2 ∈ keysOf route.
Proof.
  unfold selectPool, modify, modifyM, gets, clockM, readClock, setLocals, keysOf, keyOf, bindM, retM. simpl.
  repeat case_match; simpl; intros; simplify_eq/=; rewrite !elem_of_cons; auto.
Qed.

(** A key begins with the route's id. *)
Fixpoint noColon (s : string) : Prop :=
  match s with EmptyString => True | String c s => c ≠ ":"%char ∧ noColon s end.
Lemma noColon_prefix a b x y : noColon a → noColon b → (a ++ ":" ++ x)%string = (b ++ ":" ++ y)%string → a = b.
Proof.
  revert b. induction a as [|c a IH]; intros [|c' b] Ha Hb; simpl in *; [done|..].
  - intros [= <- _]. by destruct Hb.
  - intros [= -> _]. by destruct Ha.
  - intros [= <- H]. f_equal. apply (IH b); [apply Ha|apply Hb|exact H].
Qed.

(** The keys a snapshot is built with. *)
Definition keyed (r : Route) : Prop :=
  StablePoolKey r = (Router.ID r ++ "::" ++ PoolName r)%string ∧
  CanaryPoolKey r = (if decide (CanaryPoolName r = "") then "" else Router.ID r ++ "::" ++ CanaryPoolName r)%string.
Lemma keysOf_prefix r k : keyed r → k ∈ keysOf r → ∃ name, k = (Router.ID r ++ ":" ++ (":" ++ name))%string.
Proof.
  intros [H1 H2]. unfold keysOf, keyOf. rewrite !elem_of_cons, elem_of_nil, H1, H2. clear H1 H2. intros [->|[->|[]]].
  - exists (PoolName r). destruct (decide (Router.ID r ++ "::" ++ PoolName r = "")%string); reflexivity.
  - exists (CanaryPoolName r). destruct (decide (CanaryPoolName r = "")); [reflexivity|].
    destruct (decide (Router.ID r ++ "::" ++ CanaryPoolName r = "")%string); reflexivity.
Qed.
Lemma keysOf_disjoint r1 r2 k :
  keyed r1 → keyed r2 → noColon (Router.ID r1) → noColon (Router.ID r2) → k ∈ keysOf r1 → k ∈ keysOf r2 → Router.ID r1 = Router.ID r2.
Proof.
  intros K1 K2 C1 C2 H1 H2. destruct (keysOf_prefix _ _ K1 H1) as [x ->]. destruct (keysOf_prefix _ _ K2 H2) as [y Hy]. by eapply noColon_prefix.
Qed.

Section Whole.
Context (encodeJSON : ProxyErrorBody → string) (sha256 : string → list ascii).
Context (ParseCertificate : string → Prelude.result Certificate) (Verify : Certificate → CertPool → list Certificate → option string).
Context (env : HEnv).
Abbreviation serve := (ServeHTTP encodeJSON sha256 ParseCertificate Verify env).

Lemma alone_serveRoute id snap route :
  stays (apartH (keysOf route) (Router.ID route)) (serveRoute encodeJSON sha256 ParseCertificate Verify env id snap route).
Proof.
  pose proof (alone_fail encodeJSON (keysOf route) (Router.ID route)) as Hf. pose proof (alone_meter env (keysOf route) (Router.ID route)) as Hm.
  pose proof (alone_modify (keysOf route) (Router.ID route)) as Hl.
  unfold serveRoute. apply stays_bind; [apply _|stay|intros req]. apply stays_bind; [apply _|by apply Hl|intros _].
  destruct (negb _); [stay|]. apply stays_bind; [apply _|by apply Hl|intros _]. intros s. unfold bindM.
  pose proof (alone_selectPool env (keysOf route) (Router.ID route) route s) as Hs. pose proof (selectPool_key env route s) as Hk.
  destruct (selectPool env route s) as [s1 pk|s1]; [|exact Hs]. simpl in Hs. etrans; [exact Hs|].
  apply alone_withOverload, alone_servePool; [exact (Hk s1 pk eq_refl)|done].
Qed.

Lemma fail_world id code category message s : world (finalState (fail encodeJSON id code category message s)) = world s.
Proof. unfold fail, onRecorder. by destruct (WriteProxyError _ _ _ _ _ _). Qed.

(** A request that does not reach a route leaves the world alone. *)
Lemma serveBody_world id s :
  (∃ p snap route req', routed_to encodeJSON env id p snap route req' s) ∨
  world (finalState (serveBody encodeJSON sha256 ParseCertificate Verify env id s)) = world s.
Proof.
  destruct (ready env) eqn:Hready; [|right; unfold serveBody; rewrite Hready; apply fail_world].
  destruct (Store.current (store s)) as [p|] eqn:Hcur.
  2: { right. unfold serveBody, bindM, Acquire, Store.Get. rewrite Hready. cbn. rewrite Hcur. by rewrite fail_world. }
  rewrite (serveBody_acquired _ _ _ _ _ id s p Hready Hcur). cbv zeta.
  destruct (Store.heap (store s) !! p) as [snap|] eqn:Hheap; simpl; [|right; unfold bindM, modify, modifyM; by rewrite fail_world].
  destruct (SnapshotRouter snap) as [router|] eqn:Hrouter; [|right; unfold bindM, modify, modifyM; by rewrite fail_world].
  unfold deferM. match goal with |- context [serveSnapshot _ _ _ _ _ _ _ _ ?x] => set (s1 := x) end.
  assert ((∃ r' req' route, enforceRequestLimits encodeJSON id (SnapshotLimits snap) (request s) (recorder s) = Done r' (req', false) ∧
            Match (Some router) req' = Some route) ∨
          world (finalState (serveSnapshot encodeJSON sha256 ParseCertificate Verify env id (IncRef snap) router s1)) = world s) as [(r' & req' & route & H1 & H2)|H].
  - unfold serveSnapshot. unfold bindM at 1, gets. unfold bindM at 1, setLocals, modify, modifyM. unfold bindM at 1, onRecorder.
    change (enforceRequestLimits encodeJSON id (SnapshotLimits (IncRef snap)) (request s1) _) with (enforceRequestLimits encodeJSON id (SnapshotLimits snap) (request s) (recorder s)).
    destruct (enforceRequestLimits encodeJSON id (SnapshotLimits snap) (request s) (recorder s)) as [r [req' stop]|r]; [|by right].
    unfold bindM. cbn [fst snd]. destruct stop; [by right|]. destruct (Match (Some router) req') as [route|] eqn:Hm; [left; eauto 10|].
    right. by rewrite fail_world.
  - left. exists p, snap, route, req'. split; eauto.
  - right. by destruct (serveSnapshot _ _ _ _ _ _ _ _ _) as [s2 []|s2].
Qed.

(** A request leaves everything alone that is not kept for the route it matches. *)
Lemma serve_apart n s :
  0 ≤ n < max_i64 → (∀ t, inflight s = Some t → tracker_ok n t) →
  ∃ s', serve s = Done s' tt ∧
    ((∃ p snap route req', routed_to encodeJSON env (requestIDOf env (request s)) p snap route req' (started env s) ∧
        (∀ k, k ∉ keysOf route → breakerAt k (world s') = breakerAt k (world s) ∧ outlierAt k (world s') = outlierAt k (world s)) ∧
        (∀ r, r ≠ Router.ID route → budgetAt r (world s') = budgetAt r (world s))) ∨
     ∀ k, breakerAt k (world s') = breakerAt k (world s) ∧ outlierAt k (world s') = outlierAt k (world s) ∧ budgetAt k (world s') = budgetAt k (world s)).
Proof.
  intros Hn Ht.
  destruct (serve_tracked encodeJSON sha256 ParseCertificate Verify env n s Hn Ht) as (start & s1 & t & E & Es & _). cbv zeta in E.
  exists (s1 <| inflight := t |>). split; [done|]. match type of E with serveTracked _ _ _ _ _ _ ?x = _ => set (s0 := x) in * end.
  destruct (HasPrefix (Path (request s)) "/admin") eqn:Ha.
  { right. assert (world s1 = world s0) as Hw.
    { change s1 with (finalState (Done s1 tt)). rewrite <- E. unfold serveTracked, gets. unfold bindM. simpl. rewrite Ha. by rewrite fail_world. }
    intros k. simpl. by rewrite Hw. }
  destruct (serveTracked_spec encodeJSON sha256 ParseCertificate Verify env start s0 Ha)
    as (s2 & s3 & _ & [_ _ _ _ _ _ _ _ _ (d & now & k & Hw & _)] & E' & _ & r & ->).
  rewrite E in E'. injection E' as <-.
  set (s2 := finalState _) in Hw.
  assert (breakerReg (world s1) = breakerReg (world s2) ∧ outlierReg (world s1) = outlierReg (world s2) ∧ retryReg (world s1) = retryReg (world s2))
    as (D1 & D2 & D3) by (by rewrite Hw).
  destruct (serveBody_world (requestIDOf env (request s0)) (started env s0)) as [(p & snap & route & req' & Hr)|Hsame].
  - left. exists p, snap, route, req'. split; [by destruct Hr|]. assert (apart (keysOf route) (Router.ID route) (world s) (world s1)) as [A1 A2 A3].
    { trans (world s0); [by apply apart_frame|]. trans (world s2); [|by apply apart_frame]. unfold s2. rewrite (serveBody_routed _ _ _ _ _ _ _ _ _ _ _ Hr).
      match goal with |- apart ?K ?R _ (world (finalState (deferM ?c ?m ?x))) =>
        refine ((_ : stays (apartH K R) (deferM c m)) x); apply stays_defer; [apply _|by apply alone_modify|apply alone_serveRoute] end. }
    split; [|done]. intros q Hq. split; [by apply A1|by apply A2].
  - right. intros q. unfold breakerAt, outlierAt, budgetAt. simpl. rewrite D1, D2, D3. unfold s2. by rewrite Hsame.
Qed.

(** C29. What goes on at one route stays there: in a snapshot whose routes have
    distinct ids without colons, a request leaves the breakers, the outlier
    states and the retry budget of every route alone but of the one it is
    routed to, however it ends. *)
Theorem serve_isolated n s p snap routes :
  0 ≤ n < max_i64 → (∀ t, inflight s = Some t → tracker_ok n t) →
  serving env p snap s → SnapshotRouter snap = Some (NewRouter routes) →
  Forall keyed routes → Forall (λ r, noColon (Router.ID r)) routes → NoDup (Router.ID <$> routes) →
  ∃ s', serve s = Done s' tt ∧
    ∀ other, other ∈ routes →
      (∃ req', routed_to encodeJSON env (requestIDOf env (request s)) p snap other req' (started env s)) ∨
      (∀ k, k ∈ keysOf other → breakerAt k (world s') = breakerAt k (world s) ∧ outlierAt k (world s') = outlierAt k (world s)) ∧
      budgetAt (Router.ID other) (world s') = budgetAt (Router.ID other) (world s).
Proof.
  intros Hn Ht (_ & Hcur & Hheap & _) Hrouter Hkeyed Hids Hnodup. destruct (serve_apart n s Hn Ht) as (s' & E & H). exists s'. split; [done|]. intros other Hin.
  destruct H as [(p' & snap' & route & req' & Hr & Hk & Hb)|H]; [|right; split; [intros k _; by destruct (H k) as (? & ? & _)|by destruct (H (Router.ID other)) as (_ & _ & ?)]].
  pose proof Hr as [_ Hcur' Hheap' _ (router & Hrouter' & Hmatch)]. simpl in Hcur', Hheap'. simplify_eq.
  apply matchRoutes_spec in Hmatch as (before & after & Hsplit & _). simpl in Hsplit.
  assert (route ∈ routes) as Hroute by (rewrite Hsplit, elem_of_app, elem_of_cons; auto).
  destruct (decide (Router.ID route = Router.ID other)) as [Heq|Hne].
  - left. exists req'. assert (route = other) as <-; [|done]. apply list_elem_of_lookup in Hin as [i Hi]. apply list_elem_of_lookup in Hroute as [j Hj].
    enough (i = j) by congruence. eapply (NoDup_lookup (Router.ID <$> routes) i j (Router.ID other)); [done|by rewrite list_lookup_fmap, Hi|].
    rewrite list_lookup_fmap, Hj. simpl. by f_equal.
  - right. rewrite Forall_forall in Hkeyed, Hids. split; [|by apply Hb]. intros k Hk2. apply Hk. intros Hk1. destruct Hne.
    eapply (keysOf_disjoint route other k); auto.
Qed.
End Whole.

(** ** Two routes, and one that fails *)

Definition other_route : Route := Router.mkRoute "q" "g" "/" None "p" "" "q::p" "" None open_policy.
Definition keyed_route : Route := Router.mkRoute "r" "h" "/" None "p" "" "r::p" "" None open_policy.
Definition two_snapshot : Snapshot :=
  open_snapshot <| SnapshotRouter := Some (NewRouter [other_route; keyed_route]) |>
    <| PoolConfigs := {["p" := mkPoolConfig one_probe (Snapshot.Outlier open_pool)]} |>.
Definition two_state : HS :=
  open_state <| store := NewStore {[0%nat := two_snapshot]} (Some 0%nat) |>
    <| world ::= (λ w, w <| breakerReg := Some (BreakerRegistry.NewRegistry 0 0) |>) |>.

Lemma serve_isolated_witness :
  ∃ s', ServeHTTP (λ _, "{}") (λ _, []) (λ c, Ok c) (λ _ _ _, None) refusing_env two_state = Done s' tt ∧
    is_Some (breakerAt "r::p" (world s')) ∧ breakerAt "q::p" (world s') = None.
Proof.
  destruct (serve_isolated (λ _, "{}") (λ _, []) (λ c, Ok c) (λ _ _ _, None) refusing_env 0 two_state 0 two_snapshot [other_route; keyed_route])
    as (s' & E & H); [lia|exact open_tracker|by split_and!|done|by repeat constructor|by repeat constructor|vm_compute; by repeat constructor; set_solver|].
  exists s'. split; [exact E|]. split.
  - change s' with (finalState (Done s' tt)). rewrite <- E. vm_compute. by eexists.
  - destruct (H other_route) as [(req' & [_ _ _ (r' & Hlim) (router & Hrouter & Hmatch)])|[Hk _]]; [by left|exfalso|].
    + injection Hrouter as <-. vm_compute in Hlim. injection Hlim as <- <-. vm_compute in Hmatch. discriminate.
    + rewrite (proj1 (Hk "q::p" ltac:(by left))). reflexivity.
Defined.

(** Route ids and pool names may contain the separator: these two routes pass
    the validation and the build, with different pools, and share the key of
    their circuit breaker. *)
Definition colliding_config : Config.Config :=
  (example_snapshot_config [example_route "a" "b::c"; example_route "a::b" "c"]) <| Config.Pools := {["b::c" := example_pool; "c" := example_pool]} |>.
Theorem route_keys_collide :
  (Validate (λ _, "") (Some colliding_config)).2 = None ∧
  ∃ d s r1 r2, BuildSnapshot (λ _ _, Prelude.Err "") (λ _, Prelude.Err "") (λ _, false) ∅ example_clock (map_to_list (Config.Pools colliding_config))
                 colliding_config example_deps = (d, Ok s) ∧
    SnapshotRouter s = Some (NewRouter [r1; r2]) ∧ Router.ID r1 ≠ Router.ID r2 ∧ PoolName r1 ≠ PoolName r2 ∧ StablePoolKey r1 = StablePoolKey r2.
Proof. split; [vm_compute; reflexivity|]. do 4 eexists. split; [vm_compute; reflexivity|]. split_and!; try (vm_compute; reflexivity); vm_compute; discriminate. Qed.
