(* ===== verification/Observed.v ===== *)
(** * One request, one snapshot

    What the snapshot observer (internal/proxy/snapshot_observer.go) is told
    of a request: the phases in their order, and in all of them the snapshot
    that was current when the request came in. *)
From S2P Require Import Prelude.
From S2P Require Import GoStrings.
From S2P Require Import Http.
From S2P Require Import Breaker.
From S2P Require Import BreakerRegistry.
From S2P Require Import CacheStore.
From S2P Require Import CacheKey.
From S2P Require Import TLSStore.
From S2P Require Import Router.
From S2P Require Import Snapshot.
From S2P Require Import Store.
From S2P Require Import Proxy.
From S2P Require Import PluginFilters.
From S2P Require Import ProxyRules.
From S2P Require Import Engine.
From S2P Require Import AccessLog.
From S2P Require Import Handler.
From S2P Require Import Traffic.

(** How many requests have been sent upstream. *)
Definition sends (s : HS) : nat := length (sent (world s)).
(** The observer hears of picks only, and of at least as many as requests are
    sent upstream. *)
Definition looks (s s' : HS) : Prop :=
  snapVar s' = snapVar s ∧ ∃ k, observer s' = observer (observeSnapshot SnapshotPhaseUpstreamPick k s) ∧ (sends s' ≤ sends s + k)%nat.
Lemma observe_none phase s : observer (observeSnapshot phase 0 s) = observer s.
Proof. simpl. destruct (snapVar s), (observer s); simpl; try done. by rewrite app_nil_r. Qed.
#[export] Instance looks_preorder : PreOrder looks.
Proof.
  split.
  - intros s. split; [done|]. exists 0%nat. rewrite observe_none. split; [done|lia].
  - intros s1 s2 s3 (V1 & k1 & O1 & S1) (V2 & k2 & O2 & S2). split; [congruence|]. exists (k1 + k2)%nat. split; [|lia].
    rewrite O2. simpl in *. rewrite V1, O1.
    destruct (snapVar s1), (observer s1); simpl; try done. by rewrite replicate_add, app_assoc.
Qed.
(** Neither the variable nor the observer changes, and nothing is sent. *)
Lemma looks_frame s s' : snapVar s' = snapVar s → observer s' = observer s → sent (world s') = sent (world s) → looks s s'.
Proof. intros HV HO HS. split; [done|]. exists 0%nat. rewrite observe_none. unfold sends. rewrite HS. split; [done|lia]. Qed.

(** ** Blind to the store

    A computation that neither reads nor changes the snapshot store: run with
    any other store in the state, it does the same and leaves that store. *)

Definition withStore {A} (st : Store.Store) (o : Proxy.outcome HS A) : Proxy.outcome HS A :=
  match o with Done s a => Done (s <| store := st |>) a | Panicked s => Panicked (s <| store := st |>) end.
Definition blind {A} (m : HS → Proxy.outcome HS A) : Prop := ∀ s st, m (s <| store := st |>) = withStore st (m s).

Lemma blind_ret {A} (a : A) : blind (retM a).
Proof. done. Qed.
Lemma blind_bind {A B} (m : HS → Proxy.outcome HS A) (k : A → HS → Proxy.outcome HS B) : blind m → (∀ a, blind (k a)) → blind (bindM m k).
Proof. intros Hm Hk s st. unfold bindM. rewrite Hm. destruct (m s); cbn [withStore]; [apply Hk|done]. Qed.
Lemma blind_gets {A} (f : HS → A) : (∀ s st, f (s <| store := st |>) = f s) → blind (gets f).
Proof. intros Hf s st. unfold gets. simpl. f_equal. apply Hf. Qed.
Lemma blind_modify f : (∀ s st, f (s <| store := st |>) = (f s) <| store := st |>) → blind (modify f).
Proof. intros Hf s st. unfold modify, modifyM. simpl. f_equal. apply Hf. Qed.
Lemma blind_recorder {A} (m : ResponseRecorder → Proxy.outcome ResponseRecorder A) : blind (onRecorder m).
Proof. intros s st. unfold onRecorder. simpl. by destruct (m (recorder s)). Qed.
Lemma blind_defer {A} c (m : HS → Proxy.outcome HS A) : blind c → blind m → blind (deferM c m).
Proof.
  intros Hc Hm s st. unfold deferM. rewrite Hm. destruct (m s) as [s1 a|s1]; cbn [withStore].
  - apply (blind_bind c (λ _, retM a)); [done|]. intros. apply blind_ret.
  - rewrite Hc. by destruct (c s1).
Qed.
Create HintDb blind.
#[export] Hint Resolve blind_ret blind_recorder : blind.
#[export] Hint Extern 1 (blind (gets _)) => apply blind_gets; intros; reflexivity : blind.
#[export] Hint Extern 1 (blind (modify _)) => apply blind_modify; intros; reflexivity : blind.
Ltac blinds :=
  repeat first
    [ solve [auto with blind] | apply blind_bind; [|intros ?] | progress intros | progress cbv zeta | case_match ].

Section Blind.
Context (encodeJSON : ProxyErrorBody → string) (sha256 : string → list ascii).
Context (ParseCertificate : string → Prelude.result Certificate) (Verify : Certificate → CertPool → list Certificate → option string).
Context (env : HEnv).

Lemma blind_fail id code category message : blind (fail encodeJSON id code category message).
Proof. apply blind_recorder. Qed.
Lemma blind_setLocals f : blind (setLocals f).
Proof. by apply blind_modify. Qed.
Lemma blind_clock : blind (clockM env).
Proof. done. Qed.
Lemma blind_meter o : blind (meter env o).
Proof. by apply blind_modify. Qed.
Lemma blind_canonicalize routeID poolKey : blind (canonicalize env routeID poolKey).
Proof. intros s st. unfold canonicalize. simpl. destruct (Engine.metrics (world s)) as [m|] eqn:E; [|done]. by repeat case_match. Qed.
Lemma blind_requestPhase id route : blind (requestPhase encodeJSON env id route).
Proof. intros s st. unfold requestPhase. simpl. by destruct (applyRequestPlugins _ _ _ _ _ _ _). Qed.
Lemma blind_responsePhase id route resp : blind (responsePhase encodeJSON env id route resp).
Proof. intros s st. unfold responsePhase. simpl. by destruct (applyResponsePlugins _ _ _ _ _ _ _). Qed.
Lemma blind_settle cacheKey flight : blind (settle cacheKey flight).
Proof. intros s st. unfold settle. simpl. destruct (coalescer s) eqn:E; [|simpl; by rewrite E]. by destruct (Finish _ _ _ _ _ _) as [? []]. Qed.
Lemma blind_roundTrip poolKey key route cfg : blind (roundTrip env poolKey key route cfg).
Proof. intros s st. unfold roundTrip. simpl. by destruct (roundTripWithRetry _ _ _ _ _ _ _ _ _) as [[[w res] fwd] trace]. Qed.
#[local] Hint Resolve blind_fail blind_setLocals blind_clock blind_meter blind_canonicalize blind_requestPhase blind_responsePhase blind_settle
  blind_roundTrip : blind.
Lemma blind_breakerAllows key cfg : blind (breakerAllows env key cfg).
Proof. unfold breakerAllows. blinds. Qed.
Lemma blind_writeFailure id res : blind (writeFailure encodeJSON env id res).
Proof. unfold writeFailure. blinds. Qed.
Lemma blind_selectPool route : blind (selectPool env route).
Proof. unfold selectPool. blinds. Qed.
Lemma blind_cacheMetric status : blind (cacheMetric env status).
Proof. unfold cacheMetric. blinds. Qed.
Lemma blind_storeEntry key entry : blind (storeEntry env key entry).
Proof. unfold storeEntry. blinds. intros s st. simpl. destruct (cacheStore s) as [m|] eqn:E; [|simpl; by rewrite E]. by destruct (Set_ m key entry). Qed.
Lemma blind_noteForward fwd : blind (noteForward fwd).
Proof. apply blind_setLocals. Qed.
Lemma blind_setCacheStatus status : blind (setCacheStatus status).
Proof. apply blind_setLocals. Qed.
#[local] Hint Resolve blind_breakerAllows blind_writeFailure blind_selectPool blind_cacheMetric blind_storeEntry blind_noteForward blind_setCacheStatus : blind.
Lemma blind_fetchAndStore id snap poolKey key cacheKey route cfg : blind (fetchAndStore encodeJSON env id snap poolKey key cacheKey route cfg).
Proof. unfold fetchAndStore. blinds. Qed.
#[local] Hint Resolve blind_fetchAndStore : blind.
Lemma blind_serveCached id snap poolKey key cacheKey route cfg : blind (serveCached encodeJSON env id snap poolKey key cacheKey route cfg).
Proof.
  unfold serveCached. cbv zeta. apply blind_bind; [auto with blind|intros now]. apply blind_bind; [|intros hit].
  { intros s st. simpl. destruct (cacheStore s) as [m|] eqn:E; [|simpl; by rewrite E]. by destruct (CacheStore.Get m cacheKey now). }
  apply blind_bind; [blinds|intros req]. destruct hit as [e|]; [blinds|]. apply blind_bind; [blinds|intros _].
  apply blind_bind; [|intros [[flight lead] applied]].
  { intros s st. simpl. by destruct (startCoalescing _ _ _). }
  destruct (applied && negb lead); [blinds|]. destruct applied; [|blinds]. apply blind_bind; [blinds|intros _]. apply blind_defer; blinds.
Qed.
#[local] Hint Resolve blind_serveCached : blind.
Lemma blind_servePool id snap route name key : blind (servePool encodeJSON sha256 env id snap route name key).
Proof. unfold servePool, forward. blinds. intros ? ?. simpl. by destruct (BuildKey _ _ _). Qed.
#[local] Hint Resolve blind_servePool : blind.
Lemma blind_withOverload id m : blind m → blind (withOverload encodeJSON env id m).
Proof.
  intros Hm. unfold withOverload. apply blind_bind; [blinds|intros limited]. destruct (negb limited); [done|]. destruct (negb _); [blinds|].
  apply blind_bind; [blinds|intros _]. apply blind_defer; [blinds|done].
Qed.
#[local] Hint Resolve blind_withOverload : blind.
Lemma blind_serveRoute id snap route : blind (serveRoute encodeJSON sha256 ParseCertificate Verify env id snap route).
Proof. unfold serveRoute. blinds. Qed.
#[local] Hint Resolve blind_serveRoute : blind.
Lemma blind_serveSnapshot id snap router : blind (serveSnapshot encodeJSON sha256 ParseCertificate Verify env id snap router).
Proof. unfold serveSnapshot. blinds. Qed.
Lemma blind_recordOutcome id start : blind (recordOutcome env id start).
Proof. unfold recordOutcome. blinds. apply blind_modify. intros s st. simpl. destruct (plan s) eqn:E; [done|]. simpl. by rewrite E. Qed.

(** The deferred function of a request whose body has ended in [s], with the
    store [st]. *)
Definition ends (id : string) (start : Time) (panicked : bool) : HS → Proxy.outcome HS unit := λ s,
  bindM (λ _, if panicked then onRecorder (recoverPanic encodeJSON id) (observeSnapshot SnapshotPhaseResponseWrite 1 s)
              else Done (observeSnapshot SnapshotPhaseResponseWrite 1 s) tt) (λ _, recordOutcome env id start) s.
Definition ending (id : string) (start : Time) (panicked : bool) (s : HS) (st : Store.Store) : Proxy.outcome HS unit :=
  ends id start panicked (s <| store := st |>).
Lemma finishRequest_ends id start m s :
  finishRequest encodeJSON env id start m s = match m s with Done s _ => ends id start false s | Panicked s => ends id start true s end.
Proof. unfold finishRequest. by destruct (m s). Qed.
Lemma ending_blind id start panicked s s' st :
  ending id start panicked s st = Done s' tt → ∀ st', ending id start panicked s st' = Done (s' <| store := st' |>) tt.
Proof.
  assert (blind (ends id start panicked)) as Hb.
  { intros s0 st0. unfold ends, bindM. destruct panicked.
    - unfold onRecorder. simpl. destruct (recoverPanic _ _ _) as [r []|r]; [|done].
      match goal with |- recordOutcome _ _ _ ?x = withStore _ (recordOutcome _ _ _ ?y) => exact (blind_recordOutcome id start y st0) end.
    - match goal with |- recordOutcome _ _ _ ?x = withStore _ (recordOutcome _ _ _ ?y) => exact (blind_recordOutcome id start y st0) end. }
  unfold ending. rewrite Hb. intros H st'. rewrite Hb. destruct (ends id start panicked s) as [s2 []|s2]; [|done]. by injection H as <-.
Qed.

(** From the acquired snapshot to the end of the request. *)
Definition served_with (id : string) (start : Time) (snap : Snapshot) (router : Router) (p : nat) : HS → Proxy.outcome HS unit :=
  finishRequest encodeJSON env id start
    (deferM (modify (λ s, s <| store ::= (λ st, Release st p) |>)) (serveSnapshot encodeJSON sha256 ParseCertificate Verify env id snap router)).
Lemma served_with_blind id start snap router p s s' :
  served_with id start snap router p s = Done s' tt →
  ∀ st, served_with id start snap router p (s <| store := st |>) = Done (s' <| store := Release st p |>) tt.
Proof.
  intros H st. unfold served_with in *. rewrite finishRequest_ends in H |- *. unfold deferM in *. rewrite blind_serveSnapshot.
  destruct (serveSnapshot _ _ _ _ _ _ _ _ s) as [s1 []|s1]; cbn [withStore] in *.
  - change (ending id start false s1 (Release (store s1) p) = Done s' tt) in H. exact (ending_blind id start false s1 s' _ H (Release st p)).
  - change (ending id start true s1 (Release (store s1) p) = Done s' tt) in H. exact (ending_blind id start true s1 s' _ H (Release st p)).
Qed.
End Blind.

Section Parts.
Context (encodeJSON : ProxyErrorBody → string) (sha256 : string → list ascii).
Context (ParseCertificate : string → Prelude.result Certificate) (Verify : Certificate → CertPool → list Certificate → option string).
Context (env : HEnv).
Abbreviation looking := (stays looks).

Lemma looking_recorder {A} (m : ResponseRecorder → Proxy.outcome ResponseRecorder A) : looking (onRecorder m).
Proof. intros s. unfold onRecorder. destruct (m (recorder s)); by apply looks_frame. Qed.
Lemma looking_fail id code category message : looking (fail encodeJSON id code category message).
Proof. apply looking_recorder. Qed.
Lemma looking_clock : looking (clockM env).
Proof. intros s. by apply looks_frame. Qed.
Lemma looking_modify f : (∀ s, snapVar (f s) = snapVar s) → (∀ s, observer (f s) = observer s) → (∀ s, sent (world (f s)) = sent (world s)) →
  looking (modify f).
Proof. intros HV HO HS s. apply looks_frame; [apply HV|apply HO|apply HS]. Qed.
Lemma looking_meter o : looking (meter env o).
Proof. intros s. apply looks_frame; [done..|]. by destruct (observe_other (engineEnv env) o (world s)) as (_ & _ & _ & _ & _ & H). Qed.
Lemma looking_canonicalize routeID poolKey : looking (canonicalize env routeID poolKey).
Proof. intros s. unfold canonicalize. destruct (Engine.metrics (world s)); by apply looks_frame. Qed.
Lemma looking_requestPhase id route : looking (requestPhase encodeJSON env id route).
Proof. intros s. unfold requestPhase. destruct (applyRequestPlugins _ _ _ _ _ _ _); by apply looks_frame. Qed.
Lemma looking_responsePhase id route resp : looking (responsePhase encodeJSON env id route resp).
Proof. intros s. unfold responsePhase. destruct (applyResponsePlugins _ _ _ _ _ _ _); by apply looks_frame. Qed.
Lemma looking_settle cacheKey flight : looking (settle cacheKey flight).
Proof. intros s. unfold settle. destruct (coalescer s); [destruct (Finish _ _ _ _ _ _) as [? []]|]; by apply looks_frame. Qed.
Lemma looking_roundTrip poolKey key route cfg : looking (roundTrip env poolKey key route cfg).
Proof.
  intros s. unfold roundTrip. pose proof (roundTrip_tries (engineEnv env) (request s) ((λ t, (TraceParent t, TraceState t)) <$> traceCtx s) poolKey key
    (Router.ID route) (Router.RoutePolicy route) cfg None (world s)) as [Hf _].
  destruct (roundTripWithRetry _ _ _ _ _ _ _ _ _) as [[[w res] fwd] trace]. split; [done|]. exists (picks trace). split; [done|].
  destruct (Hf I) as [_ _ _ (l & Hl & _ & Hlen)]. unfold sends. simpl in *. rewrite Hl, length_app. apply Nat.add_le_mono_l, Hlen.
Qed.
#[local] Hint Resolve looking_recorder looking_fail looking_clock looking_meter looking_canonicalize looking_requestPhase looking_responsePhase looking_settle
  looking_roundTrip : stays.
#[local] Hint Extern 1 (stays _ (modify _)) => apply looking_modify; intros; reflexivity : stays.
#[local] Hint Extern 1 (stays _ (setLocals _)) => apply looking_modify; intros; reflexivity : stays.

Lemma looking_breakerAllows key cfg : looking (breakerAllows env key cfg).
Proof. unfold breakerAllows. stay. Qed.
Lemma looking_writeFailure id res : looking (writeFailure encodeJSON env id res).
Proof. unfold writeFailure. stay. Qed.
Lemma looking_selectPool route : looking (selectPool env route).
Proof. unfold selectPool. stay. Qed.
Lemma looking_cacheMetric status : looking (cacheMetric env status).
Proof. unfold cacheMetric. stay. Qed.
Lemma looking_storeEntry key entry : looking (storeEntry env key entry).
Proof. unfold storeEntry. stay. intros s. destruct (cacheStore s) as [m|]; [destruct (Set_ m key entry)|]; by apply looks_frame. Qed.
Lemma looking_noteForward fwd : looking (noteForward fwd).
Proof. by apply looking_modify. Qed.
Lemma looking_setCacheStatus status : looking (setCacheStatus status).
Proof. by apply looking_modify. Qed.
#[local] Hint Resolve looking_breakerAllows looking_writeFailure looking_selectPool looking_cacheMetric looking_storeEntry looking_noteForward
  looking_setCacheStatus : stays.

Lemma looking_fetchAndStore id snap poolKey key cacheKey route cfg :
  looking (fetchAndStore encodeJSON env id snap poolKey key cacheKey route cfg).
Proof. unfold fetchAndStore. stay. Qed.
#[local] Hint Resolve looking_fetchAndStore : stays.
Lemma looking_serveCached id snap poolKey key cacheKey route cfg : looking (serveCached encodeJSON env id snap poolKey key cacheKey route cfg).
Proof.
  unfold serveCached. cbv zeta. apply stays_bind; [apply _|auto with stays|intros now]. apply stays_bind; [apply _| |intros hit].
  { intros s. destruct (cacheStore s) as [m|]; [destruct (CacheStore.Get m cacheKey now)|]; by apply looks_frame. }
  apply stays_bind; [apply _|stay|intros req]. destruct hit as [e|]; [stay|]. apply stays_bind; [apply _|stay|intros _].
  apply stays_bind; [apply _| |intros [[flight lead] applied]].
  { intros s. destruct (startCoalescing _ _ _); by apply looks_frame. }
  destruct (applied && negb lead); [stay|]. destruct applied; [|stay]. apply stays_bind; [apply _|stay|intros _]. apply stays_defer; [apply _|stay..].
Qed.
#[local] Hint Resolve looking_serveCached : stays.
Lemma looking_servePool id snap route name key : looking (servePool encodeJSON sha256 env id snap route name key).
Proof. unfold servePool, forward. stay. intros ?. destruct (BuildKey _ _ _); by apply looks_frame. Qed.
#[local] Hint Resolve looking_servePool : stays.
Lemma looking_withOverload id m : looking m → looking (withOverload encodeJSON env id m).
Proof.
  intros Hm. unfold withOverload. apply stays_bind; [apply _|stay|intros limited]. destruct (negb limited); [done|]. destruct (negb _); [stay|].
  apply stays_bind; [apply _|stay|intros _]. apply stays_defer; [apply _|stay|done].
Qed.
#[local] Hint Resolve looking_withOverload : stays.
Lemma looking_serveRoute id snap route : looking (serveRoute encodeJSON sha256 ParseCertificate Verify env id snap route).
Proof. unfold serveRoute. stay. Qed.

(** What a request tells of snapshot [p], up to the response: the match, when
    it gets as far as that, and then one pick for every attempt. *)
Definition phases (p : nat) (matched : bool) (k : nat) : list (string * nat) :=
  (if matched then [(SnapshotPhaseRouteMatch, p)] else []) ++ replicate k (SnapshotPhaseUpstreamPick, p).
Definition told (p : nat) (s s' : HS) : Prop :=
  snapVar s' = Some p ∧ ∃ matched k, (matched = false → k = 0%nat) ∧ observer s' = (λ l, l ++ phases p matched k) <$> observer s ∧
    (sends s' ≤ sends s + k)%nat.
Lemma told_nothing p s s' : snapVar s' = Some p → observer s' = observer s → sent (world s') = sent (world s) → told p s s'.
Proof.
  intros HV HO HS. split; [done|]. exists false, 0%nat. split_and!; [done| |unfold sends; rewrite HS; lia].
  rewrite HO. destruct (observer s); simpl; [by rewrite app_nil_r|done].
Qed.
Lemma fail_unseen id code category message s :
  let s' := finalState (fail encodeJSON id code category message s) in snapVar s' = snapVar s ∧ observer s' = observer s ∧ sent (world s') = sent (world s).
Proof. simpl. unfold fail, onRecorder. by destruct (WriteProxyError _ _ _ _ _ _). Qed.

Lemma serveSnapshot_told id snap router p s :
  snapVar s = Some p → told p s (finalState (serveSnapshot encodeJSON sha256 ParseCertificate Verify env id snap router s)).
Proof.
  intros HV. unfold serveSnapshot. unfold bindM at 1, gets. unfold bindM at 1, setLocals, modify, modifyM. unfold bindM at 1, onRecorder.
  destruct (enforceRequestLimits _ _ _ _ _) as [r [req' stop]|r]; [|by apply told_nothing]. unfold bindM at 1. cbn [fst snd].
  destruct stop; [by apply told_nothing|]. unfold bindM. match goal with |- context [observeSnapshot _ _ ?x] => set (s1 := observeSnapshot SnapshotPhaseRouteMatch 1 x) end.
  assert (snapVar s1 = Some p) as HV1 by done. assert (observer s1 = (λ l, l ++ phases p true 0) <$> observer s) as HO1 by (simpl; by rewrite HV).
  assert (sends s1 = sends s) as HS1 by done.
  clearbody s1. assert (∀ s', looks s1 s' → told p s s') as Hl.
  { intros s' (HV' & k & HO' & HS'). split; [congruence|]. exists true, k. split_and!; [done| |by rewrite <- HS1]. rewrite HO'. simpl. rewrite HV1, HO1.
    destruct (observer s); [|done]. simpl. by rewrite <- app_assoc. }
  destruct (Match (Some router) req') as [route|]; apply Hl; [apply looking_serveRoute|apply looking_fail].
Qed.
Lemma serveBody_told id s p :
  ready env = true → Store.current (store s) = Some p → told p s (finalState (serveBody encodeJSON sha256 ParseCertificate Verify env id s)).
Proof.
  intros Hr Hc. rewrite (serveBody_acquired _ _ _ _ _ id s p Hr Hc). cbv zeta. set (s1 := s <| store ::= _ |> <| snapVar := _ |>).
  assert (told p s (finalState ((modify (λ s, s <| store ::= (λ st, Release st p) |>) ;;! fail encodeJSON id 503 "bad_gateway" "snapshot missing") s1))) as Hf.
  { unfold bindM, modify, modifyM. match goal with |- told p s (finalState (fail _ _ _ _ _ ?x)) =>
      destruct (fail_unseen id 503 "bad_gateway" "snapshot missing" x) as (H1 & H2 & H3) end. by apply told_nothing; [rewrite H1|rewrite H2|rewrite H3]. }
  destruct (IncRef <$> Store.heap (store s) !! p) as [snap|]; [|exact Hf]. destruct (SnapshotRouter snap) as [router|]; [|exact Hf].
  unfold deferM. pose proof (serveSnapshot_told id snap router p s1 eq_refl) as H. 
  assert (told p s (finalState (serveSnapshot encodeJSON sha256 ParseCertificate Verify env id snap router s1))) as H' by exact H. clear H.
  by destruct (serveSnapshot _ _ _ _ _ _ _ _ s1) as [s2 []|s2].
Qed.
Lemma serveBody_unseen id s :
  ready env = false ∨ Store.current (store s) = None →
  let s' := finalState (serveBody encodeJSON sha256 ParseCertificate Verify env id s) in (snapVar s = None → snapVar s' = None) ∧ observer s' = observer s.
Proof.
  intros H. cbv zeta. unfold serveBody. destruct (ready env); cbn [negb]; [|destruct (fail_unseen id 503 "bad_gateway" "proxy not ready" s) as (-> & -> & _); done].
  destruct H as [|Hc]; [done|]. unfold bindM, Acquire, Store.Get. rewrite Hc.
  match goal with |- context [fail _ _ _ _ _ ?x] => destruct (fail_unseen id 503 "bad_gateway" "snapshot missing" x) as (H1 & H2 & _) end.
  by rewrite H1, H2.
Qed.

(** A request that is not under /admin, from the moment it has the snapshot. *)
Definition acquired (p : nat) (s : HS) : HS := (started env s) <| store ::= (λ st, (Acquire st).1) |> <| snapVar := Some p |>.
Lemma serveTracked_served start s p snap router :
  HasPrefix (Path (request s)) "/admin" = false → serving env p snap s → SnapshotRouter snap = Some router →
  serveTracked encodeJSON sha256 ParseCertificate Verify env start s =
    served_with encodeJSON sha256 ParseCertificate Verify env (requestIDOf env (request s)) start (IncRef snap) router p (acquired p s).
Proof.
  intros Ha (Hr & Hc & Hh & _) Hro. unfold serveTracked, gets, bindM. simpl. rewrite Ha.
  change (finishRequest encodeJSON env (requestIDOf env (request s)) start
    (serveBody encodeJSON sha256 ParseCertificate Verify env (requestIDOf env (request s))) (started env s) = served_with encodeJSON sha256 ParseCertificate Verify env
      (requestIDOf env (request s)) start (IncRef snap) router p (acquired p s)).
  unfold served_with. rewrite !finishRequest_ends.
  rewrite (serveBody_acquired encodeJSON sha256 ParseCertificate Verify env _ (started env s) p Hr Hc). cbv zeta.
  change (Store.heap (store (started env s))) with (Store.heap (store s)). rewrite Hh. simpl fmap. cbn [fmap option_fmap option_map].
  change (SnapshotRouter (IncRef snap)) with (SnapshotRouter snap). by rewrite Hro.
Qed.

(** Once the snapshot has been acquired the rest of the request is a function of
    it: whatever the store is changed to meanwhile, the same is done, and the
    changed store is left but for the reference that is given back. *)
Definition undisturbed (p : nat) (snap : Snapshot) (s s' : HS) : Prop :=
  ∃ router start s1 s2, SnapshotRouter snap = Some router ∧ store s1 = (Acquire (store s)).1 ∧ request s1 = request s ∧
    (∀ st, served_with encodeJSON sha256 ParseCertificate Verify env (requestIDOf env (request s)) start (IncRef snap) router p (s1 <| store := st |>) =
           Done (s2 <| store := Release st p |>) tt) ∧
    s' = s2 <| store := Release (store s1) p |> <| inflight := inflight s' |>.
Lemma serveTracked_undisturbed start s s' p snap :
  HasPrefix (Path (request s)) "/admin" = false → serving env p snap s →
  serveTracked encodeJSON sha256 ParseCertificate Verify env start s = Done s' tt → ∀ t, undisturbed p snap s (s' <| inflight := t |>).
Proof.
  intros Ha Hs H t. pose proof Hs as (_ & _ & _ & [router Hro]). rewrite (serveTracked_served start s p snap router Ha Hs Hro) in H.
  pose proof (served_with_blind _ _ _ _ _ _ _ _ _ _ _ _ H) as Hb. exists router, start, (acquired p s), s'. split_and!; try done.
  specialize (Hb (store (acquired p s))). assert ((acquired p s) <| store := store (acquired p s) |> = acquired p s) as E by by destruct (acquired p s).
  rewrite E, H in Hb. assert (store s' = Release (store (acquired p s)) p) as Es by (by injection Hb as ->). rewrite <- Es. by destruct s'.
Qed.

(** C6. A request is served from one snapshot, the one that was current when the
    request came in.  From the moment it has been acquired, the request does
    not look at the store again: with any other store in its place, as other
    requests and applies may leave it at any time, it does exactly the same,
    and the only change to that store is the reference it gives back.  The
    observer is told of the phases in their order (the match, a pick for each
    attempt, the response), every time with that snapshot; no more is sent
    upstream than it was told of picks, and the log names its version.
    Requests that find no snapshot, and those under /admin, tell nothing. *)
Theorem serve_one_snapshot n s seen :
  0 ≤ n < max_i64 → (∀ t, inflight s = Some t → tracker_ok n t) → observer s = Some seen →
  ∃ s', ServeHTTP encodeJSON sha256 ParseCertificate Verify env s = Done s' tt ∧
    match Store.current (store s) with
    | Some p =>
        if negb (HasPrefix (Path (request s)) "/admin") && ready env then
          ∃ matched k, (matched = false → k = 0%nat) ∧ observer s' = Some (seen ++ phases p matched k ++ [(SnapshotPhaseResponseWrite, p)]) ∧
            (sends s' ≤ sends s + k)%nat ∧
            ∀ snap, serving env p snap s → undisturbed p snap s s' ∧
              ∃ e, accessLog s' = accessLog s ++ [e] ∧ log_SnapshotVersion e = defaultString (Snapshot.Version snap) "none"
        else observer s' = Some seen
    | None => observer s' = Some seen
    end.
Proof.
  intros Hn Ht Ho.
  destruct (serve_tracked encodeJSON sha256 ParseCertificate Verify env n s Hn Ht) as (start & s1 & t & E & Es & _). cbv zeta in E.
  exists (s1 <| inflight := t |>). split; [done|]. match type of E with serveTracked _ _ _ _ _ _ ?x = _ => set (s0 := x) in * end. cbn [observer accessLog].
  destruct (HasPrefix (Path (request s)) "/admin") eqn:Ha.
  { assert (observer s1 = Some seen) as Hs; [|by destruct (Store.current (store s))].
    change s1 with (finalState (Done s1 tt)). rewrite <- E. unfold serveTracked, gets. unfold bindM. simpl. rewrite Ha.
    match goal with |- context [fail _ _ _ _ _ ?x] => destruct (fail_unseen (requestIDOf env (request s)) 404 "not_found" "not found" x) as (_ & -> & _) end. exact Ho. }
  destruct (serveTracked_spec encodeJSON sha256 ParseCertificate Verify env start s0 Ha) as (s2 & s3 & Hk & Hrec & E' & _ & r & Hs2).
  rewrite E in E'. injection E' as <-. pose proof (r_observer _ _ _ _ Hrec) as Hobs. change (requestIDOf env (request s0)) with (requestIDOf env (request s)) in *.
  cbn [negb andb]. destruct (Store.current (store s)) as [p|] eqn:Hc; [destruct (ready env) eqn:Hr|].
  - destruct (serveBody_told (requestIDOf env (request s)) (started env s0) p Hr Hc) as [HV (matched & k & Hm & HO & HS)].
    exists matched, k. split; [done|]. split_and!.
    + simpl. rewrite Hobs, Hs2. simpl. rewrite HV, HO. simpl. rewrite Ho. simpl. by rewrite <- app_assoc.
    + destruct (r_world _ _ _ _ Hrec) as (d & now & j & Hw & _). unfold sends in *. simpl in *. rewrite Hw, Hs2. exact HS.
    + intros snap Hsv. split; [exact (serveTracked_undisturbed start s0 s1 p snap Ha Hsv E t)|]. destruct Hrec as [_ _ _ _ _ _ _ _ _ (d & now & j & _ & Hlog) _]. eexists. split; [simpl; rewrite Hlog, (k_log _ _ _ _ Hk); reflexivity|].
      destruct (serveBody_traffic encodeJSON sha256 ParseCertificate Verify env None (requestIDOf env (request s)) (started env s0) I) as (Hor & _).
      destruct (Hor p snap Hsv) as [H1 _]. rewrite Hs2. simpl. by rewrite <- H1.
  - destruct (serveBody_unseen (requestIDOf env (request s)) (started env s0) (or_introl Hr)) as [HV HO]. specialize (HV eq_refl).
    simpl. rewrite Hobs, Hs2. simpl. rewrite HV, HO. exact Ho.
  - destruct (serveBody_unseen (requestIDOf env (request s)) (started env s0) (or_intror Hc)) as [HV HO]. specialize (HV eq_refl).
    simpl. rewrite Hobs, Hs2. simpl. rewrite HV, HO. exact Ho.
Qed.
End Parts.

(** ** A request that is forwarded *)

Lemma serve_one_snapshot_witness :
  ∃ s' e, open_serve = Done s' tt ∧ accessLog s' = [e] ∧ log_SnapshotVersion e = "v1" ∧
    observer s' = Some [("route_match", 0%nat); ("upstream_pick", 0%nat); ("upstream_pick", 0%nat); ("upstream_pick", 0%nat); ("response_write", 0%nat)].
Proof.
  destruct (serve_one_snapshot (λ _, "{}") (λ _, []) (λ c, Ok c) (λ _ _ _, None) refusing_env 0 open_state [])
    as (s' & E & matched & k & _ & Ho & _ & Hlog); [lia|exact open_tracker|done|].
  destruct (Hlog open_snapshot) as (_ & e & He & Hv); [by split_and!|]. exists s', e. split_and!; [exact E|exact He|exact Hv|].
  change s' with (finalState (Done s' tt)). rewrite <- E. vm_compute. reflexivity.
Defined.
