(* ===== verification/Wedge.v ===== *)
(** * Timeouts and the circuit breaker (internal/proxy/handler.go, engine.go,
    internal/breaker)

    What an upstream that does not answer does to the breaker of its pool.
    Requests are run by [servePool], the part of [ServeHTTP] from the selected
    pool on, one after the other on one state; between them the reaper of the
    breaker registry may tick.  [keeping] is the relation between the states
    before and after a part of the handler that leaves the breakers alone. *)
From S2P Require Import Prelude.
From S2P Require Import GoStrings.
From S2P Require Import GoError.
From S2P Require Import Http.
From S2P Require Import Url.
From S2P Require Import Policy.
From S2P Require Import Breaker.
From S2P Require Import BreakerRegistry.
From S2P Require Import Pool.
From S2P Require Import Registry.
From S2P Require Import Retry.
From S2P Require Import RetryExec.
From S2P Require Import RetryRegistry.
From S2P Require Import CacheStore.
From S2P Require Import CacheKey.
From S2P Require Import Overload.
From S2P Require Import Plugin.
From S2P Require Import Router.
From S2P Require Import Snapshot.
From S2P Require Import Store.
From S2P Require Import Metrics.
From S2P Require Import Proxy.
From S2P Require Import PluginFilters.
From S2P Require Import ProxyRules.
From S2P Require Import Engine.
From S2P Require Import Handler.
From S2P Require Import Traffic.

(** ** Probes *)

Section Probes.
Context (key : string) (cfg : Breaker.Config).

(** The breaker of [key] is half-open with [i] probes in flight. *)
Definition probing (i : Z) (b : BreakerRegistry.Registry) : Prop :=
  ∃ e, BreakerRegistry.breakers b !! key = Some e ∧ BreakerRegistry.entry_config e = cfg ∧
    Breaker.config (breaker e) = Some cfg ∧ Breaker.state (breaker e) = StateHalfOpen ∧ probeInFlight (breaker e) = i.

Definition maxInFlight : Z := or_default (HalfOpenMaxProbes cfg) 1.

Hypothesis key_given : key ≠ "".
Hypothesis enabled : Breaker.Enabled cfg = true.
Hypothesis few : maxInFlight < max_i32.

(** Asking takes a slot while there is one, and stamps the entry either way. *)
Lemma Allow_probing i b t1 t2 t3 :
  0 ≤ i ≤ maxInFlight → probing i b →
  let '(b', (_, allowed, _)) := BreakerRegistry.Allow b key cfg t1 t2 t3 in
  allowed = (i <? maxInFlight) ∧ probing (Z.min (i + 1) maxInFlight) b' ∧ BreakerRegistry.lastSeen <$> BreakerRegistry.breakers b' !! key = Some t2.
Proof.
  intros Hi (e & Hl & Hc & Hcfg & Hs & Hp). unfold BreakerRegistry.Allow. rewrite decide_False by exact key_given.
  assert (BreakerRegistry.sameConfig cfg cfg = true) as Hsame by by apply sameConfig_spec.
  unfold ensure. rewrite Hl. cbn [BreakerRegistry.entry_config upd]. simpl. rewrite Hc, Hsame. simpl.
  unfold Breaker.Allow, loadConfig. simpl. rewrite Hcfg, enabled. simpl. rewrite Hs. simpl. rewrite Hs. simpl.
  unfold allowHalfOpen. fold maxInFlight. simpl. rewrite Hp. pose proof few. rewrite !(i32_small (i + 1)), (i32_small maxInFlight) by lia.
  destruct (Z.ltb_spec maxInFlight (i + 1)); (split; [symmetry; lia|]); (split; [eexists; split; [simpl; by rewrite lookup_insert_eq|]|]); simpl.
  - rewrite i32_small by lia. split_and!; try done; lia.
  - by rewrite lookup_insert_eq.
  - split_and!; try done; lia.
  - by rewrite lookup_insert_eq.
Qed.

(** A tick of the reaper does not reach an entry that was seen within the TTL. *)
Lemma reapTick_probing i b now :
  (∀ e, BreakerRegistry.breakers b !! key = Some e → now - BreakerRegistry.ttl b ≤ BreakerRegistry.lastSeen e) → probing i b → probing i (BreakerRegistry.reapTick b now).
Proof.
  intros Ht (e & Hl & He). exists e. split; [|done]. unfold BreakerRegistry.reapTick, BreakerRegistry.reapOnce. destruct (BreakerRegistry.stopped b); [done|]. simpl.
  apply map_lookup_filter_Some. split; [done|]. specialize (Ht e Hl). simpl. lia.
Qed.
End Probes.

(** ** An attempt whose outcome is not reported *)

(** The deadline of the attempt has passed, or the client has gone. *)
Definition gaveUp (o : Response + error) : Prop := ∃ e, o = inr e ∧ (Is e DeadlineExceeded = true ∨ Is e Canceled = true).
(** A request can be built for every address of the pool. *)
Definition buildable (c : pool_config) (poolKey : string) (req : Request) : Prop :=
  ∀ a, addressed c poolKey a → a ≠ "" → ∃ x, NewRequest (Method req) (printURL (chars a) (chars (Http.Path req)) (chars (RawQuery req))) = inr x.

Section Lost.
Context (env : Env) (req : Request) (trace : option (string * string)).
Context (poolKey key routeID : string) (policy : Router.Policy) (cfg : Breaker.Config) (c : pool_config).
Hypothesis silent : ∀ n d out, gaveUp (upstream env n d out).
Hypothesis builds : buildable c poolKey req.

Lemma observe_breakers o w : breakerReg (observe env o w) = breakerReg w.
Proof. by destruct (observe_other env o w) as (_ & _ & H & _). Qed.
Lemma passiveFailure_breakers a w : breakerReg (passiveFailure env poolKey a w) = breakerReg w.
Proof. done. Qed.
Lemma recordFailure_breakers e a w : breakerReg (recordFailure env poolKey e a w) = breakerReg w.
Proof. unfold recordFailure, recordUpstreamError. repeat case_match; rewrite ?passiveFailure_breakers, ?observe_breakers; done. Qed.
Lemma exchange_breakers n d a w :
  addressed c poolKey a → a ≠ "" → breakerReg (exchange env req trace poolKey key cfg n d a w).1 = breakerReg w.
Proof.
  intros Ha Hne. destruct (builds a Ha Hne) as [[method url] Hu]. unfold exchange, roundTripUpstream, outbound, readClock. rewrite Hu. cbn zeta. cbn [fst snd].
  match goal with |- context [upstream env n d ?out] => destruct (silent n d out) as (e & -> & He) end.
  assert (reportable (inr e) = false) as -> by (unfold reportable; destruct He as [-> | ->]; by rewrite ?andb_false_r).
  cbn [fst snd]. by rewrite recordFailure_breakers, observe_breakers.
Qed.
Lemma attempt_breakers n d w :
  registry_is c (reg w) → breakerReg (attemptUpstream env req trace poolKey key cfg n d w).1 = breakerReg w.
Proof.
  intros Hc. unfold attemptUpstream. pose proof (picker_configured env poolKey key c w) as Hp.
  assert (breakerReg (picker env poolKey key w).1 = breakerReg w) as Hb.
  { unfold picker, readClock. cbn zeta. by destruct (Registry.Pick _ _ _ _ _ _) as [? [? ?]]. }
  destruct (picker env poolKey key w) as [w1 [pick ok]]. simpl in Hb. destruct ok; cbn [negb orb]; [|done].
  case_bool_decide as Hne; [done|]. specialize (Hp pick eq_refl Hc).
  match goal with |- context [exchange env req trace poolKey key cfg n d ?a ?w2] => pose proof (exchange_breakers n d a w2 Hp Hne) as He end.
  destruct (exchange _ _ _ _ _ _ _ _ _) as [w3 o]. simpl in *. rewrite He. destruct (OutlierIgnored pick); by rewrite ?observe_breakers.
Qed.
Lemma onRouteBudget_breakers {A} (f : Budget → Budget * A) d w : breakerReg (onRouteBudget routeID f d w).1 = breakerReg w.
Proof. unfold onRouteBudget. case_match; [by destruct (f _)|done]. Qed.
Lemma onClientBudget_breakers {A} loc (f : Budget → Budget * A) d w : breakerReg (onClientBudget routeID loc f d w).1 = breakerReg w.
Proof. unfold onClientBudget. case_match; [by destruct (f _)|done]. Qed.
Lemma prepareBudgets_breakers w : breakerReg (prepareBudgets env req routeID policy w).1 = breakerReg w.
Proof.
  unfold prepareBudgets, readClock. destruct (negb _); [done|]. destruct (retryReg w) as [b|]; [|done]. cbn zeta.
  destruct (RetryRegistry.Budgets _ _ _ _ _ _) as [? [[? [cap|]]|?]]; [by destruct (Bucket cap _)|done..].
Qed.
Lemma learn_breakers res hasRoute client w : breakerReg (learn poolKey routeID res hasRoute client w) = breakerReg w.
Proof.
  unfold learn. destruct (Resp res); [|done]. destruct (_ && _); [|done].
  destruct hasRoute, client; by rewrite ?onClientBudget_breakers, ?onRouteBudget_breakers.
Qed.

(** Forwarding, with all its retries, neither reports to the breaker nor
    changes the addresses. *)
Lemma roundTrip_breakers w :
  registry_is c (reg w) →
  breakerReg (roundTripWithRetry env req trace poolKey key routeID policy cfg w).1.1.1 = breakerReg w.
Proof.
  intros Hw. unfold roundTripWithRetry.
  pose proof (f_config _ _ _ _ _ (transportFor_forwards env req trace poolKey c w Hw)) as Hc1.
  assert (breakerReg (transportFor env poolKey w).1 = breakerReg w) as Hb1.
  { unfold transportFor, readClock. cbn zeta. by destruct (GetTransport _ _ _ _). }
  destruct (transportFor env poolKey w) as [w1 [t|]]; [|done]. simpl in Hc1, Hb1.
  pose proof (f_config _ _ _ _ _ (prepareBudgets_forwards env req trace poolKey routeID policy c w1 Hc1)) as Hc2. pose proof (prepareBudgets_breakers w1) as Hb2.
  destruct (prepareBudgets env req routeID policy w1) as [w2 [[budgetErr hasRoute] client]]. simpl in Hc2, Hb2.
  set (ops := engineOps _ _ _ _ _ _ _ _ _). set (rc := RetryExec.mkConfig _ _ _ _ _).
  assert (tried (λ _ w', registry_is c (reg w') ∧ breakerReg w' = breakerReg w) 0 (Z.to_nat (RetryExec.maxAttempts rc))
            (Execute ops rc (w2 <| lastPick := emptyPick |>))) as He.
  { assert (∀ w1 w2, forwards c (goes_to c req trace poolKey) 0 w1 w2 → breakerReg w2 = breakerReg w1 →
      registry_is c (reg w1) ∧ breakerReg w1 = breakerReg w → registry_is c (reg w2) ∧ breakerReg w2 = breakerReg w) as Hstep.
    { intros x y Hf Hb [H1 H2]. split; [by destruct (Hf H1)|congruence]. }
    apply Execute_tried.
    - intros _ w'. by apply Hstep; [auto with forwards|].
    - intros _ n d w' [H1 H2]. split; [by destruct (attemptUpstream_forwards env req trace poolKey key cfg c n d w' H1)|]. simpl. by rewrite attempt_breakers.
    - intros _ b w'. by apply Hstep; [auto with forwards|].
    - intros _ d w'. by apply Hstep; [auto with forwards|].
    - intros _ f w' Hf. simpl in Hf. destruct hasRoute; [|done]. injection Hf as <-. apply Hstep; [apply onRouteBudget_forwards|apply onRouteBudget_breakers].
    - intros _ f w' Hf. simpl in Hf. destruct client; [|done]. injection Hf as <-. apply Hstep; [apply onClientBudget_forwards|apply onClientBudget_breakers].
    - intros _ reason w'. apply Hstep; [by apply observe_forwards|apply observe_breakers].
    - split; [done|]. simpl. congruence. }
  destruct (Execute ops rc (w2 <| lastPick := emptyPick |>)) as [[w3 res] tr]. destruct He as [[_ H3] _]. simpl in *. rewrite learn_breakers.
  destruct (RetryBudgetExhausted res); [by rewrite observe_breakers|done].
Qed.
End Lost.

(** ** The rest of the handler *)

Section Handler.
Context (encodeJSON : ProxyErrorBody → string) (sha256 : string → list ascii).
Context (env : HEnv) (c : pool_config) (r0 : Request).

(** The breakers are as before, and so is what the attempts depend on. *)
Definition keeping (s s' : HS) : Prop :=
  registry_is c (reg (world s)) → same_message r0 (request s) →
  breakerReg (world s') = breakerReg (world s) ∧ registry_is c (reg (world s')) ∧ same_message r0 (request s').
#[local] Instance keeping_preorder : PreOrder keeping.
Proof.
  split; [by intros s|]. intros s1 s2 s3 H12 H23 Hc Hm. destruct (H12 Hc Hm) as (A1 & A2 & A3). destruct (H23 A2 A3) as (B1 & B2 & B3).
  split_and!; [congruence|done|done].
Qed.
Abbreviation mute := (stays keeping).

Lemma mute_recorder {A} (m : ResponseRecorder → Proxy.outcome ResponseRecorder A) : mute (onRecorder m).
Proof. intros s. unfold onRecorder. by destruct (m (recorder s)). Qed.
Lemma mute_fail id code category message : mute (fail encodeJSON id code category message).
Proof. apply mute_recorder. Qed.
Lemma mute_clock : mute (clockM env).
Proof. by intros s. Qed.
Lemma mute_modify f : (∀ s, keeping s (f s)) → mute (modify f).
Proof. intros H s. apply H. Qed.
Lemma mute_meter o : mute (meter env o).
Proof.
  intros s Hc Hm. destruct (observe_other (engineEnv env) o (world s)) as (E1 & _ & E2 & _). simpl. by rewrite E1, E2.
Qed.
Lemma mute_responsePhase id route resp : mute (responsePhase encodeJSON env id route resp).
Proof. intros s. unfold responsePhase. by destruct (applyResponsePlugins _ _ _ _ _ _ _). Qed.
#[local] Hint Resolve mute_recorder mute_fail mute_clock mute_meter mute_responsePhase : stays.
#[local] Hint Extern 1 (stays _ (modify _)) => apply mute_modify; by intros ? : stays.
#[local] Hint Extern 1 (stays _ (setLocals _)) => apply mute_modify; by intros ? : stays.
Lemma mute_writeFailure id res : mute (writeFailure encodeJSON env id res).
Proof. unfold writeFailure. stay. Qed.
Lemma mute_noteForward fwd : mute (noteForward fwd).
Proof. by apply mute_modify. Qed.
Lemma mute_cacheMetric status : mute (cacheMetric env status).
Proof. unfold cacheMetric. stay. Qed.
Lemma mute_setCacheStatus status : mute (setCacheStatus status).
Proof. unfold setCacheStatus. stay. Qed.
Lemma mute_storeEntry cacheKey entry : mute (storeEntry env cacheKey entry).
Proof. unfold storeEntry. stay. intros s. destruct (cacheStore s) as [m|]; [by destruct (Set_ m cacheKey entry)|reflexivity]. Qed.
Lemma mute_settle cacheKey flight : mute (settle cacheKey flight).
Proof. intros s. unfold settle. destruct (coalescer s); [|reflexivity]. by destruct (Finish _ _ _ _ _ _) as [? []]. Qed.
#[local] Hint Resolve mute_writeFailure mute_noteForward mute_cacheMetric mute_setCacheStatus mute_storeEntry mute_settle : stays.

Context (poolKey key : string) (cfg : Breaker.Config) (route : Route) (id : string) (snap : Snapshot).
Hypothesis silent : ∀ n d out, gaveUp (upstream (engineEnv env) n d out).
Hypothesis builds : buildable c poolKey r0.

Lemma buildable_message req : same_message r0 req → buildable c poolKey req.
Proof. unfold same_message. intros ->. exact builds. Qed.
Lemma mute_roundTrip : mute (roundTrip env poolKey key route cfg).
Proof.
  intros s Hc Hm. unfold roundTrip.
  match goal with |- context [roundTripWithRetry ?e ?q ?t ?p ?k ?i ?po ?cf ?w] =>
    pose proof (roundTrip_breakers e q t p k i po cf c silent (buildable_message _ Hm) w Hc) as Hb;
    destruct (roundTrip_forwards e q t p k i po cf c w Hc) as [_ _ Hr _]; destruct (roundTripWithRetry e q t p k i po cf w) as [[[w' res] fwd] tr] end.
  by split_and!.
Qed.
#[local] Hint Resolve mute_roundTrip : stays.
Lemma mute_forward : mute (forward encodeJSON env id snap poolKey key route cfg).
Proof. unfold forward. stay. Qed.
Lemma mute_fetchAndStore cacheKey : mute (fetchAndStore encodeJSON env id snap poolKey key cacheKey route cfg).
Proof. unfold fetchAndStore. stay. Qed.
#[local] Hint Resolve mute_forward mute_fetchAndStore : stays.
Lemma mute_serveCached cacheKey : mute (serveCached encodeJSON env id snap poolKey key cacheKey route cfg).
Proof.
  unfold serveCached. cbv zeta. apply stays_bind; [apply _|auto with stays|intros now]. apply stays_bind; [apply _| |intros hit].
  { intros s. destruct (cacheStore s) as [m|]; [by destruct (CacheStore.Get m cacheKey now)|reflexivity]. }
  apply stays_bind; [apply _|stay|intros req]. destruct hit; [stay|]. apply stays_bind; [apply _|auto with stays|intros _].
  apply stays_bind; [apply _| |intros [[flight lead] applied]]; [intros s; by destruct (startCoalescing _ _ _)|].
  destruct (applied && negb lead); [stay|]. destruct applied; [|auto with stays].
  apply stays_bind; [apply _|auto with stays|intros _]. apply stays_defer; auto with stays typeclass_instances.
Qed.
(** What follows once the breaker has let the request pass. *)
Definition admitted : HS → Proxy.outcome HS unit :=
  let! eligible := gets (λ s, isCacheEligible (Method (request s)) (ReqHeader (request s)) (Cache (Router.RoutePolicy route))
                                (bool_decide (is_Some (cacheStore s)))) in
  if eligible then
    let! cacheKey := (λ s, let '(r, k) := BuildKey sha256 (request s) (Cache (Router.RoutePolicy route)) in
                           Done (s <| request := r |>) k) in
    serveCached encodeJSON env id snap poolKey key cacheKey route cfg
  else forward encodeJSON env id snap poolKey key route cfg.
Lemma mute_admitted : mute admitted.
Proof.
  unfold admitted. apply stays_bind; [apply _|stay|intros eligible]. destruct eligible; [|auto with stays].
  apply stays_bind; [apply _| |intros cacheKey; apply mute_serveCached]. intros s Hc Hm.
  pose proof (BuildKey_message sha256 r0 (request s) (Cache (Router.RoutePolicy route)) Hm). by destruct (BuildKey _ _ _).
Qed.
End Handler.

(** ** Requests for the pool, and ticks of the reaper *)

(** Up to the answer of the breaker nothing is sent or written. *)
Definition alike (s s' : HS) : Prop :=
  reg (world s') = reg (world s) ∧ sent (world s') = sent (world s) ∧ recorder s' = recorder s ∧ request s' = request s.
#[export] Instance alike_preorder : PreOrder alike.
Proof. split; [by intros s|]. intros s1 s2 s3 (?&?&?&?) (?&?&?&?). by split_and!; etrans. Qed.

Section Pool.
Context (encodeJSON : ProxyErrorBody → string) (sha256 : string → list ascii).
Context (id : string) (snap : Snapshot) (route : Route) (name key poolKey : string) (pc : PoolConfig).
Abbreviation cfg := (Snapshot.Breaker pc).
Abbreviation most := (maxInFlight cfg).
Hypothesis key_given : key ≠ "".
Hypothesis enabled : Breaker.Enabled cfg = true.
Hypothesis few : most < max_i32.
Hypothesis pool_is : Snapshot.Pools snap !! name = Some poolKey.
Hypothesis pool_named : poolKey ≠ "".
Hypothesis config_is : PoolConfigs snap !! name = Some pc.
Hypothesis no_plugins : plugins_Enabled (Plugins (Router.RoutePolicy route)) = false.

(** The breaker has [i] probes in flight, and was last seen at [t]. *)
Definition probed (i : Z) (t : Time) (s : HS) : Prop :=
  ∃ b, breakerReg (world s) = Some b ∧ probing key cfg i b ∧ BreakerRegistry.lastSeen <$> BreakerRegistry.breakers b !! key = Some t.

Lemma meter_alike env o s : ∃ s', meter env o s = Done s' tt ∧ alike s s' ∧ breakerReg (world s') = breakerReg (world s).
Proof.
  eexists. split; [reflexivity|]. destruct (observe_other (engineEnv env) o (world s)) as (E1 & _ & E2 & _ & _ & E3).
  unfold alike. simpl. by rewrite E1, E2, E3.
Qed.

Lemma breakerAllows_probed env i t s :
  0 ≤ i ≤ most → probed i t s →
  ∃ s' n, breakerAllows env key cfg s = Done s' (i <? most) ∧ alike s s' ∧ probed (Z.min (i + 1) most) (clock (engineEnv env) n) s'.
Proof.
  intros Hi (b & Hb & Hp & _). unfold breakerAllows, gets, bindM at 1. rewrite Hb. unfold clockM, readClock, bindM at 1 2 3. simpl.
  match goal with |- context [BreakerRegistry.Allow b key cfg ?t1 (clock _ ?n) ?t3] =>
    pose proof (Allow_probing key cfg key_given enabled few i b t1 (clock (engineEnv env) n) t3 Hi Hp) as HA;
    destruct (BreakerRegistry.Allow b key cfg t1 (clock (engineEnv env) n) t3) as [b' [[st al] err]]; destruct HA as (-> & HP & HL);
    set (m := n) in * end.
  unfold bindM at 1, modify at 1, modifyM at 1. unfold bindM at 1, setLocals at 1, modify at 1, modifyM at 1. unfold bindM at 1.
  match goal with |- context [match err with Some _ => retM tt | None => meter env ?o end ?x] => set (s2 := x) in *;
    assert (∃ s3, match err with Some _ => retM tt | None => meter env o end s2 = Done s3 tt ∧ alike s2 s3 ∧ breakerReg (world s3) = breakerReg (world s2))
      as (s3 & -> & H3 & B3) by (destruct err; [by exists s2|apply meter_alike]) end.
  assert (alike s s3) as Hs by (trans s2; [done|done]).
  unfold bindM at 1. destruct (i <? most).
  { exists s3, m. split_and!; [done|done|]. exists b'. by rewrite B3. }
  unfold setLocals, modify, modifyM, bindM.
  match goal with |- context [meter env ?o1 ?x] => destruct (meter_alike env o1 x) as (s4 & -> & H4 & B4); set (s3' := x) in * end.
  match goal with |- context [meter env ?o1 s4] => destruct (meter_alike env o1 s4) as (s5 & -> & H5 & B5) end.
  exists s5, m. split_and!; [done|trans s3; [done|]; trans s3'; [done|]; by trans s4|]. exists b'. by rewrite B5, B4.
Qed.

(** The request reaches the breaker, which takes a slot or refuses. *)
Lemma servePool_probed env i t req s :
  0 ≤ i ≤ most → probed i t s →
  ∃ s1 n, servePool encodeJSON sha256 env id snap route name key (arrive req s) =
      (if i <? most then admitted encodeJSON sha256 env poolKey key cfg route id snap s1
       else fail encodeJSON id 503 "circuit_open" "circuit open" s1) ∧
    alike (arrive req s) s1 ∧ probed (Z.min (i + 1) most) (clock (engineEnv env) n) s1.
Proof.
  intros Hi Hp. unfold servePool. rewrite pool_is, decide_False, config_is by exact pool_named.
  unfold bindM at 1, setLocals at 1, modify at 1, modifyM at 1. unfold bindM at 1.
  match goal with |- context [canonicalize env ?a ?b ?x] =>
    assert (∃ s2, canonicalize env a b x = Done s2 tt ∧ alike x s2 ∧ breakerReg (world s2) = breakerReg (world x)) as (s2 & -> & H2 & B2) end.
  { unfold canonicalize, readClock. simpl. destruct (Engine.metrics (world s)) as [m|]; [|by eexists]. repeat case_match; by eexists. }
  unfold bindM at 1.
  assert (∃ s3, requestPhase encodeJSON env id route s2 = Done s3 false ∧ alike s2 s3 ∧ breakerReg (world s3) = breakerReg (world s2)) as (s3 & -> & H3 & B3).
  { unfold requestPhase, applyRequestPlugins. rewrite no_plugins. eexists. split; [reflexivity|]. unfold alike. simpl. by destruct (request s2). }
  unfold bindM at 1. destruct (breakerAllows_probed env i t s3 Hi) as (s4 & n & -> & H4 & P4).
  { destruct Hp as (b & Hb & H). exists b. by rewrite B3, B2. }
  exists s4, n. split_and!; [by destruct (i <? most)| |done]. etrans; [|exact H4]. etrans; [|exact H3]. by etrans; [|exact H2].
Qed.

(** A request for the pool in its environment, or a tick of the reaper. *)
Inductive occurrence := Asked (env : HEnv) (req : Request) | Reaped (now : Time).
Definition ask (env : HEnv) (req : Request) (s : HS) : Proxy.outcome HS unit := servePool encodeJSON sha256 env id snap route name key (arrive req s).
Definition happen (s : HS) (o : occurrence) : HS :=
  match o with
  | Asked env req => finalState (ask env req s)
  | Reaped now => s <| world ::= (λ w, w <| breakerReg ::= fmap (λ b, BreakerRegistry.reapTick b now) |>) |>
  end.
Definition play : list occurrence → HS → HS := λ os s, foldl happen s os.

(** The reaper never finds the breaker idle for longer than the TTL. *)
Fixpoint inTime (os : list occurrence) (s : HS) : Prop :=
  match os with
  | [] => True
  | o :: os =>
      match o with
      | Asked _ _ => True
      | Reaped now => ∀ b e, breakerReg (world s) = Some b → BreakerRegistry.breakers b !! key = Some e →
                        now - BreakerRegistry.ttl b ≤ BreakerRegistry.lastSeen e
      end ∧ inTime os (happen s o)
  end.

(** A request none of whose attempts is answered before its deadline or the
    client's leaving. *)
Definition lost (c : pool_config) (o : occurrence) : Prop :=
  match o with
  | Asked env req => (∀ n d out, gaveUp (upstream (engineEnv env) n d out)) ∧ buildable c poolKey req
  | Reaped _ => True
  end.
Definition asks (os : list occurrence) : Z := len (List.filter (λ o, match o with Asked _ _ => true | Reaped _ => false end) os).

Lemma Reaped_probed now i t s :
  inTime [Reaped now] s → probed i t s → probed i t (happen s (Reaped now)).
Proof.
  intros [Ht _] (b & Hb & Hp & Hl). specialize (Ht b). exists (BreakerRegistry.reapTick b now). cbn [happen]. simpl. rewrite Hb.
  pose proof (reapTick_probing key cfg i b now (λ e, Ht e Hb) Hp) as Hp'. split_and!; [done|done|].
  destruct Hp' as (e & He & _). rewrite He. destruct (BreakerRegistry.breakers b !! key) as [e0|] eqn:E; [|done].
  assert (e = e0) as ->; [|done]. revert He. unfold BreakerRegistry.reapTick, BreakerRegistry.reapOnce.
  destruct (BreakerRegistry.stopped b); [congruence|]. simpl. intros [He _]%map_lookup_filter_Some. congruence.
Qed.

Lemma play_lost c os i t s :
  0 ≤ i ≤ most → Forall (lost c) os → inTime os s → registry_is c (reg (world s)) → probed i t s →
  ∃ t', probed (Z.min (i + asks os) most) t' (play os s).
Proof.
  revert i t s. induction os as [|o os IH]; intros i t s Hi Hlost Hin Hc Hp.
  { exists t. unfold asks, len. simpl. by rewrite Z.add_0_r, Z.min_l by lia. }
  apply Forall_cons in Hlost as [Ho Hos]. change (play (o :: os) s) with (play os (happen s o)). destruct o as [env req|now]; cbn [inTime] in Hin; destruct Hin as [Ht Hin].
  - destruct Ho as [Hsilent Hbuild]. assert (∃ t1, probed (Z.min (i + 1) most) t1 (happen s (Asked env req)) ∧ registry_is c (reg (world (happen s (Asked env req))))) as (t1 & P1 & C1).
    { cbn [happen]. unfold ask. destruct (servePool_probed env i t req s Hi Hp) as (s1 & n & -> & (A1 & _ & _ & A4) & P1).
      exists (clock (engineEnv env) n). assert (registry_is c (reg (world s1))) as Hc1 by (rewrite A1; exact Hc).
      assert (same_message req (request s1)) as Hm1 by (rewrite A4; apply same_message_refl).
      destruct (i <? most).
      - destruct (mute_admitted encodeJSON sha256 env c req poolKey key cfg route id snap Hsilent Hbuild s1 Hc1 Hm1) as (B1 & B2 & _).
        split; [|done]. destruct P1 as (b & P1 & P2). exists b. by rewrite B1.
      - destruct (mute_fail encodeJSON c req id 503 "circuit_open" "circuit open" s1 Hc1 Hm1) as (B1 & B2 & _).
        split; [|done]. destruct P1 as (b & P1 & P2). exists b. by rewrite B1. }
    destruct (IH (Z.min (i + 1) most) t1 (happen s (Asked env req)) ltac:(lia) Hos Hin C1 P1) as (t' & P'). exists t'.
    assert (asks (Asked env req :: os) = asks os + 1) as -> by (unfold asks; simpl; apply len_cons).
    pose proof (len_nonneg (List.filter (λ o, match o with Asked _ _ => true | Reaped _ => false end) os)). fold (asks os) in *.
    replace (Z.min (i + (asks os + 1)) most) with (Z.min (Z.min (i + 1) most + asks os) most) by lia. done.
  - exact (IH i t (happen s (Reaped now)) Hi Hos Hin Hc (Reaped_probed now i t s (conj Ht I) Hp)).
Qed.

(** A request that finds every slot taken. *)
Lemma most_pos : 0 < most.
Proof. by apply or_default_pos. Qed.
Lemma ask_refused env t req s :
  probed most t s →
  ∃ s' n, ask env req s = Done s' tt ∧ error_sent encodeJSON id 503 "circuit_open" "circuit open" (recorder s') ∧
    sent (world s') = sent (world s) ∧ probed most (clock (engineEnv env) n) s'.
Proof.
  intros Hp. pose proof most_pos. unfold ask. destruct (servePool_probed env most t req s ltac:(lia) Hp) as (s1 & n & -> & (_ & A2 & A3 & _) & P1).
  rewrite Z.ltb_irrefl. destruct (fail_sends encodeJSON id 503 "circuit_open" "circuit open" s1) as (rec & -> & He); [by rewrite A3|lia..|].
  exists (s1 <| recorder := rec |>), n. rewrite Z.min_r in P1 by lia. split_and!; [done|exact He|exact A2|exact P1].
Qed.
Lemma play_refused os t s :
  inTime os s → probed most t s → sent (world (play os s)) = sent (world s) ∧ ∃ t', probed most t' (play os s).
Proof.
  revert t s. induction os as [|o os IH]; intros t s Hin Hp; [split; [done|by exists t]|].
  change (play (o :: os) s) with (play os (happen s o)). destruct o as [env req|now]; destruct Hin as [Ht Hin].
  - destruct (ask_refused env t req s Hp) as (s' & n & E & _ & Hs & P'). cbn [happen] in *. rewrite E in *. cbn [finalState] in *.
    destruct (IH _ _ Hin P') as [H1 H2]. split; [congruence|done].
  - exact (IH t (happen s (Reaped now)) Hin (Reaped_probed now most t s (conj Ht I) Hp)).
Qed.

(** C37. An upstream that times out wedges its breaker.  An attempt that ends
    with the deadline of its context, or because the client left, is not
    reported, so the probe slot its request took is not returned.  Take a
    half-open breaker with [i] probes in flight and let at least as many
    requests as it has slots left be lost this way: from then on the handler
    refuses every request for the pool with 503 [circuit_open], whatever the
    upstream would answer and whenever it comes, and sends nothing upstream,
    until the reaper of the registry finds the breaker idle for longer than
    its TTL; the refused requests themselves count as seeing it. *)
Theorem breaker_wedged_by_timeouts c i t os os' env req s :
  0 ≤ i ≤ most → registry_is c (reg (world s)) → probed i t s →
  Forall (lost c) os → most ≤ i + asks os → inTime os s → inTime os' (play os s) →
  ∃ s' n, ask env req (play os' (play os s)) = Done s' tt ∧
    error_sent encodeJSON id 503 "circuit_open" "circuit open" (recorder s') ∧
    sent (world s') = sent (world (play os s)) ∧
    probed most (clock (engineEnv env) n) s'.
Proof.
  intros Hi Hc Hp Hlost Hn Hin Hin'. destruct (play_lost c os i t s Hi Hlost Hin Hc Hp) as (t1 & P1). rewrite Z.min_r in P1 by lia.
  destruct (play_refused os' t1 _ Hin' P1) as (Hs & t2 & P2). destruct (ask_refused env t2 req _ P2) as (s' & n & H1 & H2 & H3 & H4).
  exists s', n. split_and!; [done|done|congruence|done].
Qed.
End Pool.

(** A half-open breaker with one slot; requests at given times, to an upstream
    that is silent or answers. *)
Definition probe_pool : PoolConfig := mkPoolConfig one_probe (Snapshot.Outlier open_pool).
Definition probe_snapshot : Snapshot := open_snapshot <| PoolConfigs := {["p" := probe_pool]} |>.
Definition probe_state : HS := open_state <| world ::= (λ w, w <| breakerReg := Some half_open_registry |>) |>.
Definition at_time (now : Time) (answer : Response + error) : HEnv :=
  mkHEnv true (mkEnv (λ _, now) (λ _ _ _, answer) (λ _, None) None (λ _ _, 0) (λ _, true) (λ _, ["10.0.0.1:80"])) (Some ["i"%char; "d"%char])
    (λ _, idle_env) (λ _, idle_env) true (emptyEntry, false, None, false) None None "2024-01-01T00:00:00Z".
Definition answered : Response + error := inl (mkResponse 200 ∅ [] (Some (mkBody "ok" None))).
Abbreviation asked now answer := (Asked (at_time now answer) plain_get).
Abbreviation played os := (play (λ _, "{}") (λ _, []) "id-1" probe_snapshot open_route "p" "r::p" os probe_state).

Lemma breaker_wedged_by_timeouts_witness :
  ∃ s', ask (λ _, "{}") (λ _, []) "id-1" probe_snapshot open_route "p" "r::p" (at_time (45 * Minute) answered) plain_get
    (play (λ _, "{}") (λ _, []) "id-1" probe_snapshot open_route "p" "r::p"
       [Reaped (30 * Second); asked (20 * Minute) answered; Reaped (40 * Minute)] (played [asked Second (inr errDeadlineExceeded)])) = Done s' tt ∧
    status (recorder s') = 503 ∧ length (sent (world s')) = length (sent (world (played [asked Second (inr errDeadlineExceeded)]))).
Proof.
  destruct (breaker_wedged_by_timeouts (λ _, "{}") (λ _, []) "id-1" probe_snapshot open_route "p" "r::p" "p" probe_pool
    ltac:(done) ltac:(done) ltac:(done) ltac:(done) ltac:(done) ltac:(done) ltac:(done) (Some open_config) 0 0
    [asked Second (inr errDeadlineExceeded)] [Reaped (30 * Second); asked (20 * Minute) answered; Reaped (40 * Minute)]
    (at_time (45 * Minute) answered) plain_get probe_state) as (s' & n & H1 & (H2 & _) & H3 & _).
  - vm_compute. split; congruence.
  - exact open_registry.
  - eexists. split; [reflexivity|]. split; [by eexists|reflexivity].
  - constructor; [|constructor]. split.
    + intros n d out. exists errDeadlineExceeded. split; [done|by left].
    + intros a (addrs & Hl & Ha) _. unfold open_config in Hl. apply lookup_singleton_Some in Hl as [_ <-].
      destruct Ha as [?|Ha%list_elem_of_singleton]; [done|]. subst a. eexists. vm_compute. reflexivity.
  - vm_compute. congruence.
  - done.
  - split; [|split; [exact I|split; [|exact I]]]; intros b e Hb; vm_compute in Hb; injection Hb as <-; intros He; vm_compute in He;
      injection He as <-; vm_compute; congruence.
  - exists s'. split; [exact H1|]. split; [exact H2|]. by rewrite H3.
Defined.

(** Without requests the reaper frees it: half an hour later the pool is used
    again. *)
Example breaker_freed_by_reaper :
  let s := finalState (ask (λ _, "{}") (λ _, []) "id-1" probe_snapshot open_route "p" "r::p" (at_time (45 * Minute) answered) plain_get
             (played [asked Second (inr errDeadlineExceeded); Reaped (31 * Minute)])) in
  status (recorder s) = 200 ∧ length (sent (world s)) = 2%nat.
Proof. vm_compute. done. Qed.
