(* ===== verification/Admin.v ===== *)
(** * The admin API (internal/admin: admin.go, handlers.go)

    The rate limiter and the authentication come first, then the five
    endpoints.  The apply manager, the rollout manager and the snapshot store
    are the ones cmd/proxy wires together ([sys]); the default metrics are
    kept with the apply manager's registries.  A response is its status, its request id header and
    its payload; the JSON text is encoding/json's. *)
From S2P Require Import Prelude.
From S2P Require Import GoStrings.
From S2P Require Import GoError.
From S2P Require Import GoFloat.
From S2P Require Import Http.
From S2P Require Import Mux.
From S2P Require Import CacheKey.
From S2P Require Import Codec.
From S2P Require Import Config.
From S2P Require Import TLSStore.
From S2P Require Import Snapshot.
From S2P Require Import Store.
From S2P Require Import Provider.
From S2P Require Import Apply.
From S2P Require Import Rolling.
From S2P Require Import Metrics.
From S2P Require Import Bundle.
From S2P Require Import Rollout.
From S2P Require Import AdminGuard.
From S2P Require Import Proxy.

Inductive bundleError := FromRollout (e : rolloutError) | Unavailable | Undecodable | FromApply (e : applyError).

Inductive Payload :=
| PError (message : string)
| PApplyError (e : applyError)
| PBundleError (e : bundleError)
| PValid (warnings : list string)
| PApplied (version : string) (warnings : list string)
| PRolledBack (version : string)
| PSnapshot (version source : string) (createdAt : Time) (routeCount poolCount : Z)
| PMux.
Record Reply := mkReply { status : Z; replyID : string; payload : Payload }.

(** The parts of the handler that change. *)
Record Handler := mkHandler { sys : Rollout.Manager; limiter : option RateLimiter; history : option AdminStore }.
#[export] Instance Handler_eta : Eta Handler := fun h => mkHandler (sys h) (limiter h) (history h).

(** What one request meets. *)
Record AdminEnv := mkAdminEnv {
  now : Time;
  nowText : string;
  adminRandom : option (list ascii);   (** the random bytes of a new request id, or none *)
  idTime : string;   (** the time as a request id *)
  body : result string;
  onApply : ApplyEnv;
  onRollout : RolloutEnv
}.

(** The id of a request that has none. *)
Definition generatedID (env : AdminEnv) : string :=
  let id := NewRequestID (adminRandom env) in if decide (id = "") then idTime env else id.

(** The body of a rollback request: a version, nothing, or not JSON. *)
Inductive rollbackBody := RollbackTo (version : string) | RollbackEmpty | RollbackInvalid.

Definition writeJSON (requestID : string) (st : Z) (p : Payload) : Reply := mkReply st requestID p.
Definition writeError (requestID : string) (st : Z) (message : string) : Reply := writeJSON requestID st (PError message).

Definition applyErrorStatus (e : applyError) : Z :=
  match e with ErrConfigTooLarge => 413 | ErrCompileTimeout | ErrPressure => 429 | _ => 400 end.

Section Admin.
Context (ParseJSON : string → result Config.Config) (Marshal : Config.Config → result string).
Context (ReadFile : string → result string) (Getenv : string → string) (sha256 : string → list ascii).
Context (LoadX509KeyPair : string → string → result Certificate) (AppendCertsFromPEM : string → bool) (suites : gmap string Z).
Context (marshalMeta : Meta → result string) (Verify : string → string → string → bool).
Context (unmarshalBundle : string → result Bundle) (decodeRollback : string → rollbackBody).
Context (VerifyChain : string → string → list string → bool).
(** The configuration of the handler. *)
Context (auth : option Authenticator) (publicKey : string) (allowUnsigned hasApply hasRollout : bool).

Abbreviation applyRaw := (Apply ParseJSON ReadFile Getenv sha256 LoadX509KeyPair AppendCertsFromPEM suites).
Abbreviation applyVersion := (ApplyResolvedVersion ParseJSON ReadFile Getenv sha256 LoadX509KeyPair AppendCertsFromPEM suites).
Abbreviation rollBundle := (ApplyBundle ParseJSON Marshal ReadFile Getenv sha256 LoadX509KeyPair AppendCertsFromPEM suites).
Abbreviation verify := (VerifyBundle sha256 marshalMeta Verify).

Definition idOf (r : Request) : string := header_Get (ReqHeader r) RequestIDHeader.
Definition onMetrics (f : Metrics → Metrics) (h : Handler) : Handler :=
  h <| sys ::= (λ s, s <| Rollout.apply ::= Apply.onMetrics f |>) |>.
Definition record (b : Bundle) (h : Handler) : Handler := h <| history ::= fmap (AdminGuard.Record_ b) |>.
Definition withApply (a : Apply.Manager) (h : Handler) : Handler := h <| sys ::= (λ s, s <| Rollout.apply := a |>) |>.

Definition handleValidate (env : AdminEnv) (r : Request) (h : Handler) : Handler * Reply :=
  if decide (Method r ≠ "POST") then (h, writeError (idOf r) 405 "method not allowed")
  else match body env with
  | Err _ => (h, writeError (idOf r) 400 "invalid body")
  | Ok raw =>
      if negb hasApply then (h, writeError (idOf r) 503 "apply unavailable")
      else match applyRaw (onApply env) raw "admin" ModeValidate (Rollout.apply (sys h)) with
      | (a, inl e) => (withApply a h, writeJSON (idOf r) (applyErrorStatus e) (PApplyError e))
      | (a, inr res) => (withApply a h, writeJSON (idOf r) 200 (PValid (res_Warnings res)))
      end
  end.

(** The bundle an unsigned apply is remembered as. *)
Definition unsignedBundle (env : AdminEnv) (raw version : string) : Bundle :=
  mkBundle (mkMeta version (nowText env) "admin" "") (EncodeToString raw) (HashConfig sha256 raw).1 "".
Definition handleApply (env : AdminEnv) (r : Request) (h : Handler) : Handler * Reply :=
  if decide (Method r ≠ "POST") then (h, writeError (idOf r) 405 "method not allowed")
  else if (slen publicKey =? PublicKeySize) && negb allowUnsigned then (h, writeError (idOf r) 403 "unsigned apply disabled")
  else match body env with
  | Err _ => (h, writeError (idOf r) 400 "invalid body")
  | Ok raw =>
      if negb hasApply then (h, writeError (idOf r) 503 "apply unavailable")
      else match applyRaw (onApply env) raw "admin" ModeApply (Rollout.apply (sys h)) with
      | (a, inl e) => (withApply a h, writeJSON (idOf r) (applyErrorStatus e) (PApplyError e))
      | (a, inr res) =>
          (record (unsignedBundle env raw (res_Version res)) (withApply a h),
           writeJSON (idOf r) 200 (PApplied (res_Version res) (res_Warnings res)))
      end
  end.

Definition applyBundle (env : AdminEnv) (b : Bundle) (sourceOverride : string) (h : Handler)
    : Handler * (bundleError + Apply.Result) :=
  if hasRollout then
    match rollBundle (onRollout env) b sourceOverride (sys h) with
    | (s, inl e) => (h <| sys := s |>, inl (FromRollout e))
    | (s, inr res) => (h <| sys := s |>, inr res)
    end
  else if negb hasApply then (h, inl Unavailable)
  else match ConfigBytes b with
  | None => (h, inl Undecodable)
  | Some raw =>
      let source := if decide (sourceOverride = "") then Bundle.Source (BundleMeta b) else sourceOverride in
      match applyVersion (onApply env) raw source (Bundle.version b) ModeApply (Rollout.apply (sys h)) with
      | (a, inl e) => (withApply a h, inl (FromApply e))
      | (a, inr res) => (withApply a h, inr res)
      end
  end.

Definition handleBundle (env : AdminEnv) (r : Request) (h : Handler) : Handler * Reply :=
  if decide (Method r ≠ "POST") then (h, writeError (idOf r) 405 "method not allowed")
  else if negb (slen publicKey =? PublicKeySize) then (h, writeError (idOf r) 503 "public key missing")
  else match body env with
  | Err _ => (h, writeError (idOf r) 400 "invalid body")
  | Ok raw =>
      match unmarshalBundle raw with
      | Err _ => (h, writeError (idOf r) 400 "invalid bundle")
      | Ok b =>
          match verify b publicKey with
          | Some e =>
              let result := if decide (e = ErrBadHash) then "bad_hash" else "bad_sig" in
              (onMetrics (RecordBundleVerify result) h, writeError (idOf r) 400 "invalid signature")
          | None =>
              match applyBundle env b "" (onMetrics (RecordBundleVerify "ok") h) with
              | (h, inl e) => (h, writeJSON (idOf r) 400 (PBundleError e))
              | (h, inr res) => (record b h, writeJSON (idOf r) 200 (PApplied (res_Version res) []))
              end
          end
      end
  end.

Definition handleRollback (env : AdminEnv) (r : Request) (h : Handler) : Handler * Reply :=
  if decide (Method r ≠ "POST") then (h, writeError (idOf r) 405 "method not allowed")
  else match history h with
  | None => (h, writeError (idOf r) 503 "history unavailable")
  | Some hist =>
      let rollbackTo v :=
        match (if decide (v = "") then AdminGuard.Previous hist else AdminGuard.Get v hist) with
        | None => (h, writeError (idOf r) 404 "bundle not found")
        | Some b =>
            match applyBundle env b "rollback" h with
            | (h, inl e) => (onMetrics (RecordRollback "error") h, writeJSON (idOf r) 400 (PBundleError e))
            | (h, inr res) => (record b (onMetrics (RecordRollback "success") h), writeJSON (idOf r) 200 (PRolledBack (res_Version res)))
            end
        end in
      match body env with
      | Err _ => (h, writeError (idOf r) 400 "invalid body")
      | Ok raw =>
          match decodeRollback raw with
          | RollbackInvalid => (h, writeError (idOf r) 400 "invalid body")
          | RollbackEmpty => rollbackTo ""
          | RollbackTo v => rollbackTo v
          end
      end
  end.

Definition handleSnapshot (r : Request) (h : Handler) : Handler * Reply :=
  if decide (Method r ≠ "GET") then (h, writeError (idOf r) 405 "method not allowed")
  else if negb (hasStore (sys h)) then (h, writeError (idOf r) 503 "snapshot unavailable")
  else
    let st := store (Rollout.apply (sys h)) in
    match Store.Get st ≫= (heap st !!.) with
    | None => (h, writeError (idOf r) 404 "snapshot missing")
    | Some s =>
        (h, writeJSON (idOf r) 200 (PSnapshot (Snapshot.Version s) (Snapshot.Source s) (Snapshot.CreatedAt s)
              (Snapshot.RouteCount s) (Z.of_nat (size (Snapshot.Pools s)))))
    end.

(** The [http.ServeMux]; for any other path, and for one it has to clean, it
    answers itself. *)
Definition route (env : AdminEnv) (requestID : string) (r : Request) (h : Handler) : Handler * Reply :=
  match muxSegments r with
  | None => (h, mkReply 301 requestID PMux)
  | Some segments =>
      if decide (segments = ["admin"; "validate"]) then handleValidate env r h
      else if decide (segments = ["admin"; "config"]) then handleApply env r h
      else if decide (segments = ["admin"; "bundle"]) then handleBundle env r h
      else if decide (segments = ["admin"; "rollback"]) then handleRollback env r h
      else if decide (segments = ["admin"; "snapshot"]) then handleSnapshot r h
      else (h, mkReply 404 requestID PMux)
  end.

Definition onLimiter (f : RateLimiter → RateLimiter) (h : Handler) : Handler := h <| limiter ::= fmap f |>.
Definition ServeHTTP (env : AdminEnv) (r : Request) (h : Handler) : Handler * Reply :=
  let requestID := if decide (idOf r = "") then generatedID env else idOf r in
  let allowed := match limiter h with Some l => (AdminGuard.Allow (now env) (RemoteAddr r) l).2 | None => true end in
  let h := onLimiter (λ l, (AdminGuard.Allow (now env) (RemoteAddr r) l).1) h in
  if negb allowed then (h, writeError requestID 429 "rate_limited")
  else match auth with
  | None => (h, writeError requestID 401 "auth unavailable")
  | Some a =>
      match Authenticate VerifyChain a r with
      | Some e => (onLimiter (RecordFailure (now env) (RemoteAddr r)) h, writeError requestID (AdminGuard.Status e) (Message e))
      | None => route env requestID r (onLimiter (ResetFailures (RemoteAddr r)) h)
      end
  end.
End Admin.

(** ** Who gets through *)

Section Guarantees.
Context (ParseJSON : string → result Config.Config) (Marshal : Config.Config → result string).
Context (ReadFile : string → result string) (Getenv : string → string) (sha256 : string → list ascii).
Context (LoadX509KeyPair : string → string → result Certificate) (AppendCertsFromPEM : string → bool) (suites : gmap string Z).
Context (marshalMeta : Meta → result string) (Verify : string → string → string → bool).
Context (unmarshalBundle : string → result Bundle) (decodeRollback : string → rollbackBody).
Context (VerifyChain : string → string → list string → bool).
Context (auth : option Authenticator) (publicKey : string) (allowUnsigned hasApply hasRollout : bool).
Abbreviation serve := (ServeHTTP ParseJSON Marshal ReadFile Getenv sha256 LoadX509KeyPair AppendCertsFromPEM suites marshalMeta Verify
  unmarshalBundle decodeRollback VerifyChain auth publicKey allowUnsigned hasApply hasRollout).
Abbreviation routed := (route ParseJSON Marshal ReadFile Getenv sha256 LoadX509KeyPair AppendCertsFromPEM suites marshalMeta Verify
  unmarshalBundle decodeRollback publicKey allowUnsigned hasApply hasRollout).
Abbreviation applying := (applyBundle ParseJSON Marshal ReadFile Getenv sha256 LoadX509KeyPair AppendCertsFromPEM suites hasApply hasRollout).
Abbreviation verify := (VerifyBundle sha256 marshalMeta Verify).

(** *** What a request must have

    A client certificate, which verifies against the roots when there are any;
    the configured token, as a bearer; no block on its address; and a token in
    the bucket of its address, which fills up at the limiter's rate. *)
Definition certified (a : Authenticator) (r : Request) : Prop :=
  ∃ leaf rest, peerCertificates r = leaf :: rest ∧ ∀ roots, clientCAs a = Some roots → VerifyChain roots leaf rest = true.
Definition bears_token (a : Authenticator) (r : Request) : Prop :=
  ∃ scheme, token a ≠ "" ∧ Fields (header_Get (ReqHeader r) "Authorization") = [scheme; token a] ∧ EqualFold scheme "Bearer" = true.
Definition authenticated (r : Request) : Prop := ∃ a, auth = Some a ∧ certified a r ∧ bears_token a r.

(** The tokens of an address at [t]: the burst for one that is new. *)
Definition tokens (l : RateLimiter) (ip : string) (t : Time) : float64 :=
  let '(had, since) := match buckets l !! ip with Some b => (remaining b, last b) | None => (burst l, t) end in
  minFloat (burst l) (f64_add had (f64_mul (duration_Seconds (time_Sub t since)) (rate l))).
Definition admitted (env : AdminEnv) (r : Request) (h : Handler) : Prop :=
  ∀ l, limiter h = Some l →
    (∀ st, failures l !! clientIP (RemoteAddr r) = Some st → blockedTill st ≤ now env) ∧
    f64_lt (tokens l (clientIP (RemoteAddr r)) (now env)) (f64_of_Z 1) = false.

Lemma Allow_admits t addr l :
  (Allow t addr l).2 = true ↔
  (∀ st, failures l !! clientIP addr = Some st → blockedTill st ≤ t) ∧ f64_lt (tokens l (clientIP addr) t) (f64_of_Z 1) = false.
Proof.
  unfold Allow, blocked, tokens. set (ip := clientIP addr).
  set (b := default (mkTokenBucket (burst l) t) (buckets l !! ip)).
  assert ((match buckets l !! ip with Some b => (remaining b, last b) | None => (burst l, t) end) = (remaining b, last b)) as -> by (unfold b; by destruct (buckets l !! ip)).
  cbn zeta. destruct (failures l !! ip) as [st|]; [destruct (Z.ltb_spec t (blockedTill st))|].
  - split; [done|]. intros [H' _]. specialize (H' st eq_refl). lia.
  - destruct (f64_lt _ _); simpl; split; try done; [by intros []|]. intros _. split; [by intros st' [= <-]|done].
  - destruct (f64_lt _ _); simpl; split; try done. by intros [].
Qed.
Lemma Authenticate_passes a r : Authenticate VerifyChain a r = None ↔ certified a r ∧ bears_token a r.
Proof.
  rewrite Authenticate_ok. unfold certified, bears_token. split.
  - intros (leaf & rest & scheme & H1 & H2 & _ & H4 & H5 & H6). split; [by exists leaf, rest|by exists scheme].
  - intros [(leaf & rest & H1 & H2) (scheme & H4 & H5 & H6)]. exists leaf, rest, scheme. split_and!; try done. intros E. by rewrite E in H5.
Qed.
Lemma Authenticate_status a r e :
  Authenticate VerifyChain a r = Some e → (AdminGuard.Status e = 403 ∧ ¬ certified a r) ∨ (AdminGuard.Status e = 401 ∧ certified a r ∧ ¬ bears_token a r).
Proof.
  intros H. assert (¬ (certified a r ∧ bears_token a r)) as Hn by (rewrite <- Authenticate_passes; congruence). revert H. unfold Authenticate.
  destruct (peerCertificates r) as [|leaf rest] eqn:Ep; [intros [= <-]; left; split; [done|]; intros (? & ? & E & _); congruence|].
  destruct (chainOk VerifyChain a (leaf :: rest)) eqn:Ec; cbn [negb].
  - assert (certified a r) as Hc.
    { exists leaf, rest. split; [done|]. intros roots Er. unfold chainOk in Ec. by rewrite Er in Ec. }
    intros H. right. split; [repeat case_match; by simplify_eq|]. tauto.
  - intros [= <-]. left. split; [done|]. intros (leaf' & rest' & E & Hv). rewrite Ep in E. injection E as <- <-. unfold chainOk in Ec.
    destruct (clientCAs a) as [roots|]; [|done]. by rewrite (Hv roots eq_refl) in Ec.
Qed.

Lemma serve_passing env r h : admitted env r h → authenticated r → ∃ id l, serve env r h = routed env id r (h <| limiter := l |>).
Proof.
  intros Hl (a & Hauth & Ha%Authenticate_passes). unfold ServeHTTP. rewrite Hauth, Ha. unfold admitted in Hl. destruct (limiter h) as [l|] eqn:El.
  - rewrite (proj2 (Allow_admits _ _ _) (Hl l eq_refl)). do 2 eexists. reflexivity.
  - do 2 eexists. reflexivity.
Qed.

Lemma serve_refused env r h :
  admitted env r h → ¬ authenticated r → ∃ id st msg,
    serve env r h = (match auth with
                     | Some _ => onLimiter (RecordFailure (now env) (RemoteAddr r)) (onLimiter (λ l, (Allow (now env) (RemoteAddr r) l).1) h)
                     | None => onLimiter (λ l, (Allow (now env) (RemoteAddr r) l).1) h end, mkReply st id (PError msg)) ∧
    match auth with Some a => (¬ certified a r → st = 403) ∧ (certified a r → st = 401) | None => st = 401 end.
Proof.
  intros Hl Hn. unfold ServeHTTP. assert (match limiter h with Some l => (Allow (now env) (RemoteAddr r) l).2 | None => true end = true) as ->.
  { destruct (limiter h) as [l|] eqn:El; [|done]. apply Allow_admits, (Hl l El). }
  cbn [negb]. unfold authenticated in Hn. destruct auth as [a|]; [|by do 3 eexists].
  destruct (Authenticate VerifyChain a r) as [e|] eqn:E; [|destruct Hn; exists a; split; [done|by apply Authenticate_passes]].
  do 3 eexists. split; [reflexivity|]. destruct (Authenticate_status a r e E) as [[-> Hc]|[-> [Hc _]]]; by split.
Qed.
Lemma serve_blocked env r h l st :
  limiter h = Some l → failures l !! clientIP (RemoteAddr r) = Some st → now env < blockedTill st → status (serve env r h).2 = 429.
Proof.
  intros El Hst Ht. unfold ServeHTTP. rewrite El. unfold Allow, blocked. rewrite Hst. by rewrite (proj2 (Z.ltb_lt _ _) Ht).
Qed.
(** The failure that reaches the limit starts a block. *)
Lemma failure_blocks t addr l :
  (∀ st, failures l !! clientIP addr = Some st → blockedTill st ≤ t) → maxFailures l ≤ default 0 (count <$> failures l !! clientIP addr) + 1 → zeroTime ≤ t →
  ∃ st, failures (RecordFailure t addr (Allow t addr l).1) !! clientIP addr = Some st ∧ blockedTill st = t + blockFor l.
Proof.
  intros Hb Hm Hz. destruct (AdminGuard.step_settings l (AdminGuard.EAllow t addr)) as [E1 E2]. simpl in E1, E2.
  unfold RecordFailure. rewrite AdminGuard.Allow_failures, E1, E2. set (ip := clientIP addr) in *. set (st := default (mkFailureState 0 zeroTime) (failures l !! ip)).
  assert (blockedTill st ≤ t) as Hst by (unfold st; destruct (failures l !! ip) as [x|]; [by apply Hb|done]).
  assert (default 0 (count <$> failures l !! ip) = count st) as Hc by (unfold st; by destruct (failures l !! ip)). rewrite Hc in Hm.
  rewrite (proj2 (Z.ltb_ge _ _) Hst). eexists. simpl. rewrite lookup_insert_eq. split; [done|]. simpl. by rewrite (proj2 (Z.leb_le _ _) Hm).
Qed.

(** *** The limiter over a history of requests *)

Lemma applying_limiter env b so h : limiter (applying env b so h).1 = limiter h.
Proof.
  unfold applyBundle. destruct hasRollout; [by destruct (ApplyBundle _ _ _ _ _ _ _ _ _ _ _ _) as [s [e|x]]|].
  destruct (negb hasApply); [done|]. destruct (ConfigBytes b); [|done].
  by destruct (ApplyResolvedVersion _ _ _ _ _ _ _ _ _ _ _ _ _) as [a [e|x]].
Qed.
Lemma routed_limiter env id r h : limiter (routed env id r h).1 = limiter h.
Proof.
  unfold route. destruct (muxSegments r) as [segments|]; [|done]. repeat case_decide; try done.
  - unfold handleValidate. repeat case_match; done.
  - unfold handleApply. repeat case_match; done.
  - unfold handleBundle. case_decide; [done|]. destruct (negb _); [done|]. destruct (body env) as [raw|]; [|done]. destruct (unmarshalBundle raw) as [b|]; [|done].
    destruct (verify b publicKey); [done|]. pose proof (applying_limiter env b "" (onMetrics (RecordBundleVerify "ok") h)) as Hx.
    by destruct (applying env b "" _) as [h2 [e|x]].
  - unfold handleRollback. case_decide; [done|]. destruct (history h) as [hist|]; [|done]. cbv zeta.
    assert (∀ v, limiter (match (if decide (v = "") then AdminGuard.Previous hist else AdminGuard.Get v hist) with
        | None => (h, writeError (idOf r) 404 "bundle not found")
        | Some b => match applying env b "rollback" h with
            | (h, inl e) => (onMetrics (RecordRollback "error") h, writeJSON (idOf r) 400 (PBundleError e))
            | (h, inr res) => (record b (onMetrics (RecordRollback "success") h), writeJSON (idOf r) 200 (PRolledBack (res_Version res)))
            end
        end).1 = limiter h) as Hv.
    { intros v. destruct (if decide _ then _ else _) as [b|]; [|done]. pose proof (applying_limiter env b "rollback" h) as Hx.
      by destruct (applying env b "rollback" h) as [h2 [e|x]]. }
    destruct (body env) as [raw|]; [|done]. destruct (decodeRollback raw); [apply Hv..|done].
  - unfold handleSnapshot. repeat case_match; done.
Qed.
(** What a request does to the limiter. *)
Lemma serve_limiter env r h :
  ∃ evs, limiter (serve env r h).1 = (λ l, foldl AdminGuard.step l evs) <$> limiter h ∧
    Forall (λ e, match e with AdminGuard.EAllow t _ | AdminGuard.EFail t _ => t = now env | AdminGuard.EReset _ => True end) evs.
Proof.
  unfold ServeHTTP. set (id := if decide (idOf r = "") then _ else _). set (ok := match limiter h with Some _ => _ | None => _ end).
  destruct ok; cbn [negb]; cycle 1.
  { exists [AdminGuard.EAllow (now env) (RemoteAddr r)]. split; [done|by repeat constructor]. }
  destruct auth as [a|]; cycle 1.
  { exists [AdminGuard.EAllow (now env) (RemoteAddr r)]. split; [done|by repeat constructor]. }
  destruct (Authenticate VerifyChain a r).
  - exists [AdminGuard.EAllow (now env) (RemoteAddr r); AdminGuard.EFail (now env) (RemoteAddr r)]. split; [simpl; by destruct (limiter h)|by repeat constructor].
  - exists [AdminGuard.EAllow (now env) (RemoteAddr r); AdminGuard.EReset (RemoteAddr r)]. rewrite routed_limiter. split; [simpl; by destruct (limiter h)|by repeat constructor].
Qed.
Lemma history_blocked ip t0 till requests h l st :
  limiter h = Some l → failures l !! ip = Some st → blockedTill st = till → Forall (λ er : AdminEnv * Request, t0 ≤ now er.1 < till) requests →
  ∃ l' st', limiter (foldl (λ h er, (serve er.1 er.2 h).1) h requests) = Some l' ∧ failures l' !! ip = Some st' ∧ blockedTill st' = till.
Proof.
  intros Hl Hst Ht Hd. revert h l st Hl Hst Ht. induction Hd as [|[env r] requests Hnow _ IH]; intros h l st Hl Hst Ht; [by exists l, st|].
  cbn [foldl fst snd]. destruct (serve_limiter env r h) as (evs & Hl' & Hev). rewrite Hl in Hl'. simpl in Hl'.
  destruct (AdminGuard.steps_blocked ip t0 till l evs st) as (st' & H1 & H2 & _); [|done..|by eapply IH].
  eapply Forall_impl; [exact Hev|]. intros [t a|t a|a]; simpl in *; [by intros ->..|done].
Qed.

(** C27. Nothing happens before authentication.  A request whose address is
    blocked, or has no token left in its bucket, is answered 429; one without
    a client certificate that verifies, 403; one without the configured
    bearer token, 401; none of them changes anything but the limiter, and
    only one that has all of it reaches an endpoint.  And a failed login that
    reaches the limit of failures of its address locks the address out:
    whatever requests follow, from anywhere, every request of that address is
    answered 429 until the block is over. *)
Theorem admin_gate env r h :
  (¬ admitted env r h → ∃ l id, serve env r h = (h <| limiter := l |>, mkReply 429 id (PError "rate_limited"))) ∧
  (admitted env r h → ¬ authenticated r → ∃ l id st msg, serve env r h = (h <| limiter := l |>, mkReply st id (PError msg)) ∧
     match auth with Some a => (¬ certified a r → st = 403) ∧ (certified a r → st = 401) | None => st = 401 end) ∧
  (admitted env r h → authenticated r → ∃ l id, serve env r h = routed env id r (h <| limiter := l |>)) ∧
  (∀ l requests env' r', limiter h = Some l → admitted env r h → ¬ authenticated r → is_Some auth →
     maxFailures l ≤ default 0 (count <$> failures l !! clientIP (RemoteAddr r)) + 1 → 0 < blockFor l → zeroTime ≤ now env →
     Forall (λ er : AdminEnv * Request, now env ≤ now er.1 < now env + blockFor l) requests → clientIP (RemoteAddr r') = clientIP (RemoteAddr r) →
     now env' < now env + blockFor l →
     status (serve env' r' (foldl (λ h er, (serve er.1 er.2 h).1) (serve env r h).1 requests)).2 = 429).
Proof.
  split_and!.
  - intros Hn. destruct (limiter h) as [l|] eqn:El; [|destruct Hn; intros l; by rewrite El]. unfold ServeHTTP. rewrite El.
    assert ((Allow (now env) (RemoteAddr r) l).2 = false) as ->.
    { apply not_true_iff_false. rewrite Allow_admits. intros Hx. apply Hn. intros l'. rewrite El. by intros [= <-]. }
    do 2 eexists. reflexivity.
  - intros Hl Hn. destruct (serve_refused env r h Hl Hn) as (id & st & msg & E & Hst). rewrite E. clear -Hst.
    destruct auth; (eexists _, id, st, msg; split; [reflexivity|exact Hst]).
  - intros Hl Ha. destruct (serve_passing env r h Hl Ha) as (id & l & ->). by exists l, id.
  - intros l requests env' r' El Hl Hn Hsome Hmax Hpos Hz Hd Hip Hnow.
    destruct (serve_refused env r h Hl Hn) as (id & st & msg & -> & _). cbn [fst]. destruct Hsome as [a Ha].
    replace (match auth with Some _ => _ | None => _ end) with (onLimiter (RecordFailure (now env) (RemoteAddr r)) (onLimiter (λ l, (Allow (now env) (RemoteAddr r) l).1) h)) by by rewrite Ha.
    set (ip := clientIP (RemoteAddr r)) in *. set (l1 := (Allow (now env) (RemoteAddr r) l).1).
    assert (∃ fs, failures (RecordFailure (now env) (RemoteAddr r) l1) !! ip = Some fs ∧ blockedTill fs = now env + blockFor l) as (fs & Hfs & Htill).
    { destruct (Hl l El) as [Hb _]. apply (failure_blocks (now env) (RemoteAddr r) l); try done. }
    destruct (history_blocked ip (now env) (now env + blockFor l) requests (onLimiter (RecordFailure (now env) (RemoteAddr r)) (onLimiter (λ l, (Allow (now env) (RemoteAddr r) l).1) h))
      (RecordFailure (now env) (RemoteAddr r) l1) fs) as (l' & st' & H1 & H2 & H3); [simpl; by rewrite El|done..|].
    apply (serve_blocked env' r' _ l' st' H1); [by rewrite Hip|by rewrite H3].
Qed.
(** ** Signed configurations only *)

Definition all_verified (h : Handler) : Prop :=
  ∀ hist v b, history h = Some hist → AdminGuard.bundles hist !! v = Some b → verify b publicKey = None.

(** What a request did to the configuration in service: nothing, or an
    attempt to install a bundle that verifies. *)
Inductive effect (env : AdminEnv) (h h' : Handler) : Prop :=
| keeps : serving_unchanged (Rollout.apply (sys h)) (Rollout.apply (sys h')) → effect env h h'
| applies b sourceOverride h1 h2 res :
    verify b publicKey = None → uncounted (Rollout.apply (sys h1)) = uncounted (Rollout.apply (sys h)) → applying env b sourceOverride h1 = (h2, res) →
    uncounted (Rollout.apply (sys h')) = uncounted (Rollout.apply (sys h2)) → effect env h h'.

Lemma unchanged_effect env h : effect env h h.
Proof. by apply keeps. Qed.
Lemma applying_history env b so h h' r : applying env b so h = (h', r) → history h' = history h.
Proof.
  unfold applyBundle. destruct hasRollout; [by destruct (ApplyBundle _ _ _ _ _ _ _ _ _ _ _ _) as [s [e|x]]; intros [= <- _]|].
  destruct (negb hasApply); [by intros [= <- _]|]. destruct (ConfigBytes b); [|by intros [= <- _]].
  by destruct (ApplyResolvedVersion _ _ _ _ _ _ _ _ _ _ _ _ _) as [a [e|x]]; intros [= <- _].
Qed.
Lemma record_verified b h : verify b publicKey = None → all_verified h → all_verified (record b h).
Proof.
  intros Hb Ha hist v c. unfold record. simpl. destruct (history h) as [hist0|] eqn:E; [|done]. simpl. intros [= <-].
  unfold AdminGuard.Record_. case_decide; [by apply Ha|]. simpl. intros [[_ <-]|[_ Hc]]%lookup_insert_Some; [done|].
  apply (Ha hist0 v c); [done|]. revert Hc. by case_decide.
Qed.
Lemma same_history_verified h h' : history h' = history h → all_verified h → all_verified h'.
Proof. intros E H. unfold all_verified. by rewrite E. Qed.

(** The two endpoints that install bundles. *)
Lemma handleBundle_effect env r h :
  let h' := (handleBundle ParseJSON Marshal ReadFile Getenv sha256 LoadX509KeyPair AppendCertsFromPEM suites marshalMeta Verify
               unmarshalBundle publicKey hasApply hasRollout env r h).1 in
  all_verified h → all_verified h' ∧ effect env h h'.
Proof.
  intros h' Ha. unfold h', handleBundle. clear h'. case_decide; [split; [done|apply unchanged_effect]|].
  destruct (negb _); [split; [done|apply unchanged_effect]|]. destruct (body env) as [raw|]; [|split; [done|apply unchanged_effect]].
  destruct (unmarshalBundle raw) as [b|]; [|split; [done|apply unchanged_effect]].
  destruct (verify b publicKey) as [e|] eqn:Ev; [split; [exact Ha|by apply keeps]|].
  destruct (applying env b "" _) as [h2 [e|res]] eqn:E; simpl; pose proof (applying_history _ _ _ _ _ _ E) as Hh.
  - split; [by apply (same_history_verified h)|]. by eapply applies; [..|exact E|].
  - split; [apply record_verified; [done|by apply (same_history_verified h)]|]. by eapply applies; [..|exact E|].
Qed.
Lemma handleRollback_effect env r h :
  let h' := (handleRollback ParseJSON Marshal ReadFile Getenv sha256 LoadX509KeyPair AppendCertsFromPEM suites
               decodeRollback hasApply hasRollout env r h).1 in
  all_verified h → all_verified h' ∧ effect env h h'.
Proof.
  intros h' Ha. unfold h', handleRollback. clear h'. case_decide; [split; [done|apply unchanged_effect]|].
  destruct (history h) as [hist|] eqn:Eh; [|split; [done|apply unchanged_effect]]. cbv zeta.
  assert (∀ v, let h' := (match (if decide (v = "") then AdminGuard.Previous hist else AdminGuard.Get v hist) with
        | None => (h, writeError (idOf r) 404 "bundle not found")
        | Some b => match applying env b "rollback" h with
            | (h, inl e) => (onMetrics (RecordRollback "error") h, writeJSON (idOf r) 400 (PBundleError e))
            | (h, inr res) => (record b (onMetrics (RecordRollback "success") h), writeJSON (idOf r) 200 (PRolledBack (res_Version res)))
            end
        end).1 in all_verified h' ∧ effect env h h') as Hto.
  { intros v. destruct (if decide _ then _ else _) as [b|] eqn:Eb; [|split; [done|apply unchanged_effect]].
    assert (verify b publicKey = None) as Hb.
    { case_decide; [unfold AdminGuard.Previous in Eb; destruct (AdminGuard.previous hist) as [|w l]; [done|]|]; by eapply Ha. }
    destruct (applying env b "rollback" h) as [h2 [e|res]] eqn:E; simpl; pose proof (applying_history _ _ _ _ _ _ E) as Hh.
    - split; [by apply (same_history_verified h)|]. by eapply applies; [..|exact E|].
    - split; [apply record_verified; [done|by apply (same_history_verified h)]|]. by eapply applies; [..|exact E|]. }
  destruct (body env) as [raw|]; [|split; [done|apply unchanged_effect]].
  destruct (decodeRollback raw); [apply Hto..|split; [done|apply unchanged_effect]].
Qed.
Lemma serve_effect env r h :
  slen publicKey = PublicKeySize → allowUnsigned = false → all_verified h →
  all_verified (serve env r h).1 ∧ effect env h (serve env r h).1.
Proof.
  intros Hk Hu Ha. unfold ServeHTTP. generalize (if decide (idOf r = "") then generatedID env else idOf r) as id. intros id.
  destruct (negb _); [split; [exact Ha|by apply keeps]|].
  destruct auth as [a|]; [|split; [exact Ha|by apply keeps]]. destruct (Authenticate VerifyChain a r); [split; [exact Ha|by apply keeps]|].
  set (h1 := onLimiter _ (onLimiter _ h)). assert (all_verified h1) as Ha1 by exact Ha.
  assert (∀ h2, effect env h1 h2 → effect env h h2) as Hback.
  { intros h2 [H|b so h3 h4 res H1 H2 H3 H4]; [by apply keeps|by apply (applies env h h2 b so h3 h4 res)]. }
  unfold route. destruct (muxSegments r) as [segments|]; [|split; [exact Ha|by apply keeps]]. repeat case_decide.
  - unfold handleValidate. case_decide; [split; [exact Ha|by apply keeps]|].
    destruct (body env) as [raw|]; [|split; [exact Ha|by apply keeps]]. destruct (negb hasApply); [split; [exact Ha|by apply keeps]|].
    destruct (Apply _ _ _ _ _ _ _ (onApply env) raw "admin" ModeValidate _) as [a' [e|res]] eqn:E;
      apply apply_harmless in E as [H' _]; (split; [exact Ha|apply keeps, H'; by right]).
  - unfold handleApply. rewrite Hk, Hu. simpl. case_decide; (split; [exact Ha|by apply keeps]).
  - destruct (handleBundle_effect env r h1 Ha1). by split; [|apply Hback].
  - destruct (handleRollback_effect env r h1 Ha1). by split; [|apply Hback].
  - unfold handleSnapshot. repeat case_match; (split; [exact Ha|by apply keeps]).
  - split; [exact Ha|by apply keeps].
Qed.

(** C10. Signed means signed: when a public key is configured and unsigned applies
    are not allowed, then, whatever requests came before, a request to the
    admin API either leaves the configuration in service as it is or tries
    to install a bundle whose signature verifies with that key; rolling back
    is no way around it. *)
Theorem admin_signed_only (h0 : Handler) (requests : list (AdminEnv * Request)) env r :
  slen publicKey = PublicKeySize → allowUnsigned = false → all_verified h0 →
  let h := foldl (λ h er, (serve er.1 er.2 h).1) h0 requests in
  effect env h (serve env r h).1.
Proof.
  intros Hk Hu Ha h. assert (all_verified h) as Hh.
  { unfold h. clear h. revert h0 Ha. induction requests as [|[e q] l IH]; intros h0 Ha; simpl; [done|]. apply IH. by apply serve_effect. }
  by apply serve_effect.
Qed.

(** ** Rolling back an unsigned apply *)

Lemma applying_config env b so h h' res :
  applying env b so h = (h', inr res) → ∃ raw, ConfigBytes b = Some raw ∧ ParseJSON raw = Ok (res_Config res).
Proof.
  unfold applyBundle. destruct hasRollout.
  - destruct (ApplyBundle _ _ _ _ _ _ _ _ _ _ _ _) as [s [e|x]] eqn:E; [done|]. intros [= _ ->]. by eapply roll_config.
  - destruct (negb hasApply); [done|]. destruct (ConfigBytes b) as [raw|]; [|done].
    destruct (ApplyResolvedVersion _ _ _ _ _ _ _ _ _ _ _ _ _) as [a [e|x]] eqn:E; [done|]. intros [= _ ->]. exists raw. split; [done|].
    by apply applyResolved_success in E as (cfg & s & d & Hp & _ & -> & _).
Qed.

(** Rolling back does not restore what was applied: an unsigned apply
    installs the merge of all providers' configurations but is remembered by
    the bytes of the request alone, and rolling back to it installs those
    bytes unmerged. *)
Theorem admin_rollback_unmerged env r h h1 raw v ws hist :
  body env = Ok raw → history h = Some hist → v ≠ "" →
  handleApply ParseJSON ReadFile Getenv sha256 LoadX509KeyPair AppendCertsFromPEM suites publicKey allowUnsigned hasApply env r h
    = (h1, mkReply 200 (idOf r) (PApplied v ws)) →
  ∃ hist1 merged, history h1 = Some hist1 ∧ AdminGuard.Get v hist1 = Some (unsignedBundle sha256 env raw v) ∧
    (let a := Rollout.apply (sys h1) in ∃ cfg, ParseJSON raw = Ok cfg ∧
       mergeNow ParseJSON ReadFile (onApply env) a (buildProviders a cfg) = inr merged) ∧
    ∀ env' so h' h2 res, applying env' (unsignedBundle sha256 env raw v) so h' = (h2, inr res) → ParseJSON raw = Ok (res_Config res).
Proof.
  intros Hbody Hh Hv. unfold handleApply. case_decide; [done|]. destruct (_ && _); [done|]. rewrite Hbody. destruct (negb hasApply); [done|].
  destruct (Apply _ _ _ _ _ _ _ (onApply env) raw "admin" ModeApply _) as [a [e|res]] eqn:E; [done|]. intros [= <- Hv' _].
  apply apply_success in E as (cfg & s & d & Hp & _ & _ & _ & Hd & Ha). cbn [onDeps] in Hd. apply build_ok in Hd as (Hm & _).
  eexists _, (res_Config res). split_and!.
  - unfold record, withApply. simpl. rewrite Hh. done.
  - rewrite Hv'. unfold AdminGuard.Get, AdminGuard.Record_, unsignedBundle, Bundle.version. simpl. rewrite decide_False by done.
    simpl. by rewrite lookup_insert_eq.
  - exists cfg. split; [done|]. simpl. rewrite Ha. exact Hm.
  - intros env' so h' h2 res' (raw' & Hc & Hp')%applying_config. rewrite (ConfigBytes_encoded (unsignedBundle sha256 env raw v) raw eq_refl) in Hc. by injection Hc as <-.
Qed.

(** An endpoint answers with the request id of the request, not with the one
    the handler has generated: a client that sends none gets an empty one. *)
Theorem admin_request_id_lost env r h :
  idOf r = "" → admitted env r h → authenticated r →
  (∃ name, muxSegments r = Some ["admin"; name] ∧ name ∈ ["validate"; "config"; "bundle"; "rollback"; "snapshot"]) → replyID (serve env r h).2 = "".
Proof.
  intros Hid Hl Ha (name & Hp & Hn). destruct (serve_passing env r h Hl Ha) as (id & l & ->).
  unfold route. rewrite Hp. repeat case_decide; try done.
  - unfold handleValidate. repeat case_match; done.
  - unfold handleApply. repeat case_match; done.
  - unfold handleBundle. repeat case_match; done.
  - unfold handleRollback. cbv zeta. repeat case_match; done.
  - unfold handleSnapshot. repeat case_match; done.
  - set_solver.
Qed.
End Guarantees.

(** ** An administrator's session *)

Definition demo_admin_env (raw : string) : AdminEnv :=
  mkAdminEnv 0 "now" None "id-1" (Ok raw) (demo_env None) (demo_rollout_env None).
Definition demo_admin_request (path : string) : Request :=
  mkRequest "POST" "admin" path "" path ∅ None 0 "10.0.0.7:99" (Some [Some "cert"]).
Definition demo_handler (a : Apply.Manager) : Handler := mkHandler (Rollout.NewManager a true true Minute 0 GoFloat.f64_zero) None (Some NewStore).

Lemma admin_signed_only_witness :
  effect (λ _, Err "") (λ _, Ok "locked") (λ _, Err "") demo_getenv demo_hash (λ _ _, Err "") (λ _, false) ∅ demo_marshal demo_Verify
    demo_public true true (demo_admin_env "first") (demo_handler demo_manager)
    (ServeHTTP (λ _, Err "") (λ _, Ok "locked") (λ _, Err "") demo_getenv demo_hash (λ _ _, Err "") (λ _, false) ∅ demo_marshal demo_Verify
      (λ _, Ok (demo_bundle "v1" "config")) (λ _, RollbackEmpty) (λ _ _ _, true) (Some (mkAuthenticator "t" None)) demo_public false true true
      (demo_admin_env "first") (demo_admin_request "/admin/config") (demo_handler demo_manager)).1.
Proof.
  apply (admin_signed_only _ _ _ _ _ _ _ _ _ _ _ _ _ _ _ _ _ _ (demo_handler demo_manager) []); [reflexivity..|].
  intros hist v b [= <-]. simpl. by rewrite lookup_empty.
Defined.

(** The merge has the pools of the file, the bytes to roll back to have not. *)
Definition demo_merge_parse (raw : string) : result Config.Config :=
  if decide (raw = "file") then Ok demo_file else if decide (raw = "overlay") then Ok demo_overlay else Err "bad".
Definition demo_merge_manager : Apply.Manager := demo_manager <| providers := [Some (RefFile "file")] |>.
Lemma admin_rollback_unmerged_witness :
  ∃ h1 v ws merged, handleApply demo_merge_parse (λ _, Ok "file") demo_getenv demo_sha (λ _ _, Err "") (λ _, false) ∅ "" true true
      (demo_admin_env "overlay") (demo_admin_request "/admin/config") (demo_handler demo_merge_manager) = (h1, mkReply 200 "" (PApplied v ws)) ∧
    (let a := Rollout.apply (sys h1) in mergeNow demo_merge_parse (λ _, Ok "file") (demo_env None) a (buildProviders a demo_overlay) = inr merged) ∧
    Config.Pools demo_overlay !! "q" = None ∧
    ∀ env' so h' h2 res, applyBundle demo_merge_parse (λ _, Ok "x") (λ _, Ok "file") demo_getenv demo_sha (λ _ _, Err "") (λ _, false) ∅ true true env'
      (unsignedBundle demo_sha (demo_admin_env "overlay") "overlay" v) so h' = (h2, inr res) → Config.Pools (res_Config res) !! "q" = None.
Proof.
  destruct (handleApply demo_merge_parse (λ _, Ok "file") demo_getenv demo_sha (λ _ _, Err "") (λ _, false) ∅ "" true true
      (demo_admin_env "overlay") (demo_admin_request "/admin/config") (demo_handler demo_merge_manager)) as [h1 reply] eqn:E.
  assert (∃ v ws, v ≠ "" ∧ reply = mkReply 200 "" (PApplied v ws)) as (v & ws & Hv & ->).
  { change reply with (h1, reply).2. rewrite <- E. do 2 eexists. split; [|vm_compute; reflexivity]. discriminate. }
  pose proof E as H. eapply (admin_rollback_unmerged _ (λ _, Ok "x")) in H as (hist1 & merged & _ & _ & (cfg & Hp & Hm) & Hroll); [|done..].
  assert (cfg = demo_overlay) as -> by (by injection Hp). exists h1, v, ws, merged. split_and!; [done|exact Hm|vm_compute; reflexivity|].
  intros env' so h' h2 res Hr. apply Hroll in Hr. injection Hr as <-. vm_compute. reflexivity.
Defined.

Lemma admin_request_id_lost_witness :
  replyID (ServeHTTP (λ _, Err "") (λ _, Ok "locked") (λ _, Err "") demo_getenv demo_hash (λ _ _, Err "") (λ _, false) ∅ demo_marshal demo_Verify
      (λ _, Err "") (λ _, RollbackEmpty) (λ _ _ _, true) (Some (mkAuthenticator "t" None)) demo_public false true true
      (demo_admin_env "first") ((demo_admin_request "/admin/config") <| ReqHeader := {["Authorization" := ["Bearer t"]]} |>) (demo_handler demo_manager)).2 = "".
Proof.
  apply admin_request_id_lost; [vm_compute; reflexivity| | |].
  - by intros l.
  - eexists. split; [reflexivity|]. split; [by do 2 eexists|]. exists "Bearer". by vm_compute.
  - exists "config". split; [vm_compute; reflexivity|]. apply list_elem_of_In. simpl. auto.
Defined.

(** A limiter that blocks after one failure: the login fails for want of a
    token, and the address is locked out even with it. *)
Definition demo_strict : Handler := (demo_handler demo_manager) <| limiter := Some (NewRateLimiter 0 0 1 0) |>.
Definition demo_at (minute : Z) : AdminEnv := mkAdminEnv (minute * Minute) "now" None "id-1" (Ok "") (demo_env None) (demo_rollout_env None).
Definition demo_gate (minute : Z) (h : Handler) (authorization : Header) : Handler * Reply :=
  ServeHTTP (λ _, Err "") (λ _, Ok "locked") (λ _, Err "") demo_getenv demo_hash (λ _ _, Err "") (λ _, false) ∅ demo_marshal demo_Verify
    (λ _, Err "") (λ _, RollbackEmpty) (λ _ _ _, true) (Some (mkAuthenticator "t" None)) demo_public false true true
    (demo_at minute) ((demo_admin_request "/admin/snapshot") <| ReqHeader := authorization |>) h.
Lemma admin_gate_witness :
  status (demo_gate 1 demo_strict ∅).2 = 401 ∧ status (demo_gate 2 (demo_gate 1 demo_strict ∅).1 {["Authorization" := ["Bearer t"]]}).2 = 429.
Proof.
  split; [vm_compute; reflexivity|].
  refine (proj2 (proj2 (proj2 (admin_gate (λ _, Err "") (λ _, Ok "locked") (λ _, Err "") demo_getenv demo_hash (λ _ _, Err "") (λ _, false) ∅ demo_marshal demo_Verify
    (λ _, Err "") (λ _, RollbackEmpty) (λ _ _ _, true) (Some (mkAuthenticator "t" None)) demo_public false true true
    (demo_at 1) ((demo_admin_request "/admin/snapshot") <| ReqHeader := ∅ |>) demo_strict)))
    (NewRateLimiter 0 0 1 0) [] _ _ eq_refl _ _ _ _ _ _ _ _ _).
  - intros l [= <-]. split; [by intros st|vm_compute; reflexivity].
  - intros (a & [= <-] & _ & scheme & _ & Hf & _). by vm_compute in Hf.
  - by eexists.
  - vm_compute. discriminate.
  - vm_compute. reflexivity.
  - vm_compute. discriminate.
  - constructor.
  - vm_compute. reflexivity.
  - vm_compute. reflexivity.
Defined.
