(* ===== verification/Distributor.v ===== *)
(** * Distributing and pulling bundles (internal/distributor, internal/pull)

    The distributor serves the bundles of a storage over HTTP; it is written
    against the [Storage] interface, and so are its theorems.  The puller
    asks a distributor for the latest bundle and rolls it out when its
    signature verifies.  The HTTP client, the JSON decoder and what
    [Rollout] takes are parameters. *)
From S2P Require Import Prelude.
From S2P Require Import GoStrings.
From S2P Require Import GoError.
From S2P Require Import Http.
From S2P Require Import Mux.
From S2P Require Import Config.
From S2P Require Import TLSStore.
From S2P Require Import Snapshot.
From S2P Require Import Store.
From S2P Require Import Apply.
From S2P Require Import Metrics.
From S2P Require Import Bundle.
From S2P Require Import Rollout.
From S2P Require Import Proxy.

(** ** distributor.go, handlers.go *)

Definition tokenHeader : string := "X-Distributor-Token".
Record Server := mkServer { token : string; requireToken : bool }.
Definition NewHandler (tok : string) (require : bool) : Server := mkServer tok require.

(** A response: a bare status, or 200 with a JSON value. *)
Inductive Answer := Bare (code : Z) | WithBundle (b : Bundle) | WithList (l : list Meta) | FromMux (code : Z).

Section Distributor.
Context {T} `{Storage T}.
(** [r.URL.Query().Get("limit")]. *)
Context (queryLimit : string → string).

Definition handleLatest (s : option T) (r : Request) : Answer :=
  if decide (Method r ≠ "GET") then Bare 405
  else match s with
  | None => Bare 503
  | Some s => match Latest s with Some b => WithBundle b | None => Bare 404 end
  end.
Definition handleGet (s : option T) (r : Request) : Answer :=
  if decide (Method r ≠ "GET") then Bare 405
  else match s with
  | None => Bare 503
  | Some s =>
      let v := TrimPrefix (Path r) "/bundles/" in
      if decide (v = "") then Bare 400
      else if Contains v "/" then Bare 400
      else match Get v s with Some b => WithBundle b | None => Bare 404 end
  end.
Definition handleList (s : option T) (r : Request) : Answer :=
  if decide (Method r ≠ "GET") then Bare 405
  else match s with
  | None => Bare 503
  | Some s =>
      let rawLimit := queryLimit (RawQuery r) in
      let limit := match ParseInt rawLimit with Some n => if 0 <? n then n else 20 | None => 20 end in
      WithList (List_ limit s)
  end.

(** The [http.ServeMux]: exact paths before the subtree. *)
Definition ServeHTTP (srv : Server) (s : option T) (r : Request) : Answer :=
  if requireToken srv && negb (bool_decide (token srv = "")) && negb (bool_decide (header_Get (ReqHeader r) tokenHeader = token srv)) then Bare 401
  else match muxSegments r with
  | None => FromMux 301
  | Some segments =>
      if decide (segments = ["bundles"; "latest"]) then handleLatest s r
      else if decide (segments = ["bundles"]) then handleList s r
      else match segments with "bundles" :: _ :: _ => handleGet s r | _ => FromMux 404 end
  end.
End Distributor.

(** ** pull.go *)

Record Puller := mkPuller {
  enabled : bool;
  baseURL : string;
  interval : Duration;
  jitter : Duration;
  publicKey : string;
  hasRollout : bool;
  pullToken : string
}.
Definition NewPuller (on : bool) (url : string) (every jit : Duration) (key : string) (rollout : bool) (tok : string) : Puller :=
  mkPuller on url (or_default every (5 * Second)) (if jit <? 0 then 0 else jit) key rollout tok.

Section Pull.
Context (ParseJSON : string → result Config.Config) (Marshal : Config.Config → result string).
Context (ReadFile : string → result string) (Getenv : string → string) (sha256 : string → list ascii).
Context (LoadX509KeyPair : string → string → result Certificate) (AppendCertsFromPEM : string → bool) (suites : gmap string Z).
Context (marshalMeta : Meta → result string) (Verify : string → string → string → bool).
Context (decodeBundle : string → result Bundle).
Abbreviation roll := (ApplyBundle ParseJSON Marshal ReadFile Getenv sha256 LoadX509KeyPair AppendCertsFromPEM suites).
Abbreviation verify := (VerifyBundle sha256 marshalMeta Verify).

(** The request; [None] when the URL does not parse. *)
Definition pullRequest (parseURL : string → option string) (p : Puller) : option Request :=
  match parseURL (baseURL p ++ "/bundles/latest")%string with
  | None => None
  | Some path =>
      Some (mkRequest "GET" "" path "" path (if decide (pullToken p = "") then ∅ else header_Set ∅ "X-Distributor-Token" (pullToken p)) None 0 "" None)
  end.

Definition currentVersion (m : Rollout.Manager) : string :=
  if hasStore m then match Store.Get (store (apply m)) ≫= (heap (store (apply m)) !!.) with Some s => Snapshot.Version s | None => "" end
  else "".
Definition onMetrics (f : Metrics → Metrics) (m : Rollout.Manager) : Rollout.Manager := m <| Rollout.apply ::= Apply.onMetrics f |>.

(** [client.Do] gives a status and a body. *)
Definition pullOnce (parseURL : string → option string) (Do : Request → result (Z * string)) (env : RolloutEnv) (p : Puller)
    (m : Rollout.Manager) : Rollout.Manager :=
  match pullRequest parseURL p with
  | None => m
  | Some request =>
      match Do request with
      | Err _ => m
      | Ok (code, body) =>
          if negb (code =? 200) then m
          else match decodeBundle body with
          | Err _ => m
          | Ok b =>
              if decide (Bundle.version b = "") then m
              else if decide (currentVersion m = Bundle.version b) then m
              else match verify b (publicKey p) with
              | Some e => onMetrics (RecordBundleVerify (if decide (e = ErrBadHash) then "bad_hash" else "bad_sig")) m
              | None =>
                  let m := onMetrics (RecordBundleVerify "ok") m in
                  if hasRollout p then (roll env b "" m).1 else m
              end
          end
      end
  end.

(** [Run]: a pull at once, and one for every tick before the context ends;
    each with what it meets. *)
Definition Run (parseURL : string → option string) (p : Puller) (ticks : list ((Request → result (Z * string)) * RolloutEnv)) (m : Rollout.Manager)
    : Rollout.Manager :=
  if negb (enabled p) then m
  else if decide (baseURL p = "") then m
  else foldl (λ m t, pullOnce parseURL t.1 t.2 p m) m ticks.
End Pull.

(** ** What is pulled is what was signed *)

Section Guarantees.
Context (ParseJSON : string → result Config.Config) (Marshal : Config.Config → result string).
Context (ReadFile : string → result string) (Getenv : string → string) (sha256 : string → list ascii).
Context (LoadX509KeyPair : string → string → result Certificate) (AppendCertsFromPEM : string → bool) (suites : gmap string Z).
Context (marshalMeta : Meta → result string) (Verify : string → string → string → bool).
Context (decodeBundle : string → result Bundle).
Abbreviation roll := (ApplyBundle ParseJSON Marshal ReadFile Getenv sha256 LoadX509KeyPair AppendCertsFromPEM suites).
Abbreviation verify := (VerifyBundle sha256 marshalMeta Verify).
Abbreviation pull := (pullOnce ParseJSON Marshal ReadFile Getenv sha256 LoadX509KeyPair AppendCertsFromPEM suites marshalMeta Verify decodeBundle).

(** Whatever a distributor answers, a pull either leaves the configuration in
    service alone (it may count the bundle as refused) or rolls out a bundle that verifies with the puller's key
    and whose version is not the current one. *)
Theorem pull_only_verified parseURL Do env p m :
  let m' := pull parseURL Do env p m in
  uncounted (apply m') = uncounted (apply m) ∨
  ∃ b code body request, pullRequest parseURL p = Some request ∧ Do request = Ok (code, body) ∧ decodeBundle body = Ok b ∧
    verify b (publicKey p) = None ∧ Bundle.version b ≠ "" ∧ Bundle.version b ≠ currentVersion m ∧
    m' = (roll env b "" (onMetrics (RecordBundleVerify "ok") m)).1.
Proof.
  intros m'. unfold m', pullOnce. clear m'. destruct (pullRequest parseURL p) as [request|]; [|by left].
  destruct (Do request) as [[code body]|] eqn:Ed; [|by left]. destruct (negb (code =? 200)); [by left|].
  destruct (decodeBundle body) as [b|] eqn:Eb; [|by left]. case_decide; [by left|]. case_decide; [by left|].
  destruct (verify b (publicKey p)) eqn:Ev; [by left|]. destruct (hasRollout p); [|by left]. right. by exists b, code, body, request.
Qed.

(** ** From the signer to the proxy *)

(** The HTTP response of an answer, its JSON encoded. *)
Definition httpOf (encode : Bundle → string) (a : Answer) : Z * string :=
  match a with Bare code => (code, "") | WithBundle b => (200, encode b) | WithList _ => (200, "") | FromMux code => (code, "") end.

Lemma serves_latest {T} `{Storage T} queryLimit srv (s : T) parseURL p request b :
  (requireToken srv = false ∨ token srv = "" ∨ token srv = pullToken p) →
  parseURL (baseURL p ++ "/bundles/latest")%string = Some "/bundles/latest" → pullRequest parseURL p = Some request → Latest s = Some b →
  ServeHTTP queryLimit srv (Some s) request = WithBundle b.
Proof.
  intros Ht Hurl. unfold pullRequest. rewrite Hurl. intros [= <-] Hl. unfold ServeHTTP.
  assert (requireToken srv && negb (bool_decide (token srv = "")) &&
    negb (bool_decide (header_Get (if decide (pullToken p = "") then ∅ else header_Set ∅ "X-Distributor-Token" (pullToken p)) tokenHeader = token srv)) = false) as E.
  { destruct Ht as [->|[->| ->]]; [done|by rewrite andb_false_r|]. case_decide as Hp.
    - rewrite Hp, bool_decide_true by done. by rewrite andb_false_r.
    - unfold tokenHeader. rewrite header_Get_Set, (bool_decide_true (pullToken p = pullToken p)) by done. apply andb_false_r. }
  cbn [ReqHeader Path Method]. rewrite E. match goal with |- context [muxSegments ?r] => change (muxSegments r) with (Some ["bundles"; "latest"]) end.
  cbv iota beta. rewrite (decide_True (P := ["bundles"; "latest"] = ["bundles"; "latest"])) by done. unfold handleLatest. cbn [Method]. rewrite decide_False by auto. by rewrite Hl.
Qed.

(** A pull that finds a bundle it should install. *)
Lemma pull_installs {T} `{StorageLaws T} (encode : Bundle → string) queryLimit srv (s : T) b parseURL env p m :
  Latest s = Some b → decodeBundle (encode b) = Ok b → Bundle.version b ≠ "" → verify b (publicKey p) = None →
  (requireToken srv = false ∨ token srv = "" ∨ token srv = pullToken p) →
  parseURL (baseURL p ++ "/bundles/latest")%string = Some "/bundles/latest" → hasRollout p = true → Bundle.version b ≠ currentVersion m →
  pull parseURL (λ r, Ok (httpOf encode (ServeHTTP queryLimit srv (Some s) r))) env p m = (roll env b "" (onMetrics (RecordBundleVerify "ok") m)).1.
Proof.
  intros Hl Hjson Hver Hok Ht Hurl Hroll Hcur. unfold pullOnce. destruct (pullRequest parseURL p) as [request|] eqn:Er; cycle 1.
  { unfold pullRequest in Er. by rewrite Hurl in Er. }
  rewrite (serves_latest queryLimit srv s parseURL p request b Ht Hurl Er Hl). simpl.
  rewrite Hjson, decide_False, decide_False by congruence. by rewrite Hok, Hroll.
Qed.
(** A pull that finds the version that is in service does nothing. *)
Lemma pull_settled parseURL Do env p m request code body b :
  pullRequest parseURL p = Some request → Do request = Ok (code, body) → decodeBundle body = Ok b → currentVersion m = Bundle.version b →
  pull parseURL Do env p m = m.
Proof.
  intros Hreq Hdo Hdec Hcur. unfold pullOnce. rewrite Hreq, Hdo. destruct (negb (code =? 200)); [done|]. rewrite Hdec. case_decide; [done|].
  by rewrite decide_True.
Qed.

(** C21. From the signer to the proxy: a bundle signed with the private key and
    uploaded to a distributor's storage, whichever it is, is rolled out as it
    is by the next pull of every proxy that has the public key and is not on
    that version. *)
Theorem distribution_roundtrip {T} `{StorageLaws T} (Sign : string → string → string) (encode : Bundle → string) queryLimit srv (s s' : T)
    nowText raw meta privateKey b parseURL env p m :
  (∀ msg, Verify (publicKey p) msg (Sign privateKey msg) = true) → slen (publicKey p) = PublicKeySize →
  NewSignedBundle sha256 marshalMeta Sign nowText raw meta privateKey = Ok b →
  storable b → Put b s = (s', None) → decodeBundle (encode b) = Ok b → Bundle.version b ≠ "" →
  (requireToken srv = false ∨ token srv = "" ∨ token srv = pullToken p) →
  parseURL (baseURL p ++ "/bundles/latest")%string = Some "/bundles/latest" → hasRollout p = true → Bundle.version b ≠ currentVersion m →
  pull parseURL (λ r, Ok (httpOf encode (ServeHTTP queryLimit srv (Some s') r))) env p m
    = (roll env b "" (onMetrics (RecordBundleVerify "ok") m)).1 ∧ ConfigBytes b = Some raw.
Proof.
  intros Hv Hk Hsign Hstore Hput Hjson Hver Ht Hurl Hroll Hcur.
  destruct (signed_verifies _ _ _ _ _ _ _ _ _ _ Hv Hk Hsign) as (Hok & Hraw & _). split; [|done].
  by apply (pull_installs encode queryLimit srv s'); [apply (Put_Latest b s s')|..].
Qed.

(** ** A rollout that was interrupted is never completed *)

(** C40. When the context of a rollout ends during its bake time, the locked
    snapshot is in service under the bundle's version; the puller takes it
    for the bundle itself, so no later pull of that bundle does anything: the
    full configuration is never installed. *)
Theorem pull_never_completes env b m m' e parseURL Do env' p request code body :
  served m → quiet env → hasStore m = true → Bundle.version b ≠ "" →
  (∀ raw cfg locked, ConfigBytes b = Some raw → ParseJSON raw = Ok cfg → Marshal (maskLockedConfig cfg) = Ok locked →
     ParseJSON locked = Ok (maskLockedConfig cfg)) →
  roll env b "" m = (m', inl (ErrCtx e)) →
  pullRequest parseURL p = Some request → Do request = Ok (code, body) → decodeBundle body = Ok b →
  pull parseURL Do env' p m' = m' ∧
  ∃ raw cfg q s s0 d d', ConfigBytes b = Some raw ∧ ParseJSON raw = Ok cfg ∧ current_of m' = Some q ∧
    heap (store (apply m')) !! q = Some s ∧ s = withOrigin s0 (Bundle.version b) (Snapshot.Source s) ∧
    BuildSnapshot LoadX509KeyPair ReadFile AppendCertsFromPEM suites (clk (envLocked env)) (visitBuild (envLocked env) (maskLockedConfig cfg))
      (maskLockedConfig cfg) d = (d', Ok s0).
Proof.
  intros Hs Hq Hst Hv Hjson Hroll Hreq Hdo Hdec.
  destruct (rollout_interrupted_stays_locked _ _ _ _ _ _ _ _ _ _ _ _ _ _ Hs Hq Hv Hjson Hroll)
    as (raw & cfg & q & s & s0 & d & d' & H1 & H2 & H3 & H4 & H5 & H6 & H7 & H8).
  split; [|exists raw, cfg, q, s, s0, d, d'; split_and!; [done..|by rewrite <- H5|done]].
  assert (currentVersion m' = Bundle.version b) as Hcur.
  { unfold currentVersion. rewrite H8, Hst. unfold Store.Get. unfold current_of in H3. rewrite H3. simpl. by rewrite H4. }
  by eapply pull_settled.
Qed.
End Guarantees.

(** ** A signed bundle on its way, and an interrupted rollout *)

Definition demo_puller : Puller := NewPuller true "http://d" 0 0 demo_public true "secret".
Definition demo_url (_ : string) : option string := Some "/bundles/latest".

Lemma distribution_roundtrip_witness :
  ∃ s' : MemoryStorage, Put (demo_bundle "v1" "config") NewMemoryStorage = (s', None) ∧
  let b := demo_bundle "v1" "config" in
  pullOnce demo_parse (λ _, Err "") (λ _, Err "") demo_getenv demo_hash (λ _ _, Err "") (λ _, false) ∅ demo_marshal demo_Verify (λ _, Ok b)
    demo_url (λ r, Ok (httpOf (λ _, "json") (ServeHTTP (λ _, "") (NewHandler "secret" true) (Some s') r))) (demo_rollout_env None) demo_puller (demo_rollout None)
  = (ApplyBundle demo_parse (λ _, Err "") (λ _, Err "") demo_getenv demo_hash (λ _ _, Err "") (λ _, false) ∅ (demo_rollout_env None) b ""
      (onMetrics (RecordBundleVerify "ok") (demo_rollout None))).1.
Proof.
  eexists. split; [reflexivity|]. intros b.
  refine (proj1 (distribution_roundtrip demo_parse (λ _, Err "") (λ _, Err "") demo_getenv demo_hash (λ _ _, Err "") (λ _, false) ∅ demo_marshal demo_Verify
    (λ _, Ok b) demo_Sign (λ _, "json") (λ _, "") (NewHandler "secret" true) NewMemoryStorage _ "now" "config" (demo_meta "v1") demo_private b demo_url
    (demo_rollout_env None) demo_puller (demo_rollout None) _ _ _ _ _ _ _ _ _ _ _)); try done.
  - intros msg. by apply bool_decide_eq_true_2.
  - by right; right.
Defined.

Lemma pull_never_completes_witness :
  let b := demo_rollout_bundle in let m' := (demo_roll (Some errCanceled) None).1 in
  pullOnce demo_roll_parse (λ _, Ok "locked") (λ _, Err "") demo_getenv demo_sha (λ _ _, Err "") (λ _, false) ∅ demo_marshal (λ _ _ _, true) (λ _, Ok b)
    demo_url (λ _, Ok (200, "json")) (demo_rollout_env None) demo_puller m' = m'.
Proof.
  intros b m'. destruct (demo_roll (Some errCanceled) None) as [m1 r] eqn:E.
  assert (r = inl (ErrCtx errCanceled)) as -> by (change r with (m1, r).2; rewrite <- E; vm_compute; reflexivity).
  unfold m'. eapply (pull_never_completes demo_roll_parse (λ _, Ok "locked")) in E; [exact (proj1 E)|apply demo_served|done|done|discriminate
    |by intros ??? [= <-] [= <-] [= <-]|reflexivity|reflexivity|reflexivity].
Defined.
