(* ===== verification/Delivery.v ===== *)
(** * From the signer to the upstream

    All the way of a configuration: signed, uploaded to a distributor, pulled
    by a proxy, rolled out, and followed by the requests that come then. *)
From S2P Require Import Prelude.
From S2P Require Import GoStrings.
From S2P Require Import GoError.
From S2P Require Import Http.
From S2P Require Import Config.
From S2P Require Import TLSStore.
From S2P Require Import Registry.
From S2P Require Import Router.
From S2P Require Import Metrics.
From S2P Require Import Snapshot.
From S2P Require Import Store.
From S2P Require Import Provider.
From S2P Require Import Apply.
From S2P Require Import Bundle.
From S2P Require Import Rollout.
From S2P Require Import Validation.
From S2P Require Import Progress.
From S2P Require Import Proxy.
From S2P Require Import Engine.
From S2P Require Import Handler.
From S2P Require Import Traffic.
From S2P Require Import Distributor.

(** A count that has nothing to do with requests changes nothing the rollout
    depends on. *)
Lemma prepared_counted size n r m : prepared size n m → prepared size n (Distributor.onMetrics (RecordBundleVerify r) m).
Proof. intros []. by split. Qed.
Lemma watched_counted r m : watched (Distributor.onMetrics (RecordBundleVerify r) m) = watched m.
Proof. unfold watched, Rollout.metrics. simpl. destruct (metered m); [|done]. by destruct (defaultMetrics _). Qed.
Lemma uneventful_counted env r m : uneventful env m → uneventful env (Distributor.onMetrics (RecordBundleVerify r) m).
Proof. intros []. split; try done. intros m'. rewrite watched_counted. auto. Qed.

Section Delivery.
Context (ParseJSON : string → Prelude.result Config.Config) (Marshal : Config.Config → Prelude.result string).
Context (ReadFile : string → Prelude.result string) (Getenv : string → string) (sha256 : string → list ascii).
Context (LoadX509KeyPair : string → string → Prelude.result Certificate) (AppendCertsFromPEM : string → bool) (suites : gmap string Z).
Context (marshalMeta : Meta → Prelude.result string) (Sign : string → string → string) (Verify : string → string → string → bool)
  (decodeBundle : string → Prelude.result Bundle) (encode : Bundle → string).
Context (encodeJSON : ProxyErrorBody → string).
Context (ParseCertificate : string → Prelude.result Certificate) (VerifyCert : Certificate → CertPool → list Certificate → option string).
Abbreviation pull := (pullOnce ParseJSON Marshal ReadFile Getenv sha256 LoadX509KeyPair AppendCertsFromPEM suites marshalMeta Verify decodeBundle).

(** The configuration of a bundle can be taken: it is read and checked, and
    its locked form can be written and read again. *)
Record acceptable (cfg : Config.Config) (raw locked : string) : Prop := mkAcceptable {
  acc_read : ParseJSON raw = Ok cfg;
  acc_locked : Marshal (maskLockedConfig cfg) = Ok locked;
  acc_reread : ParseJSON locked = Ok (maskLockedConfig cfg);
  acc_valid : (Validate Getenv (Some cfg)).2 = None;
  acc_builds : buildable LoadX509KeyPair ReadFile AppendCertsFromPEM suites cfg
}.
(** The distributor and the puller fit together, and the puller knows the
    public key of the signer. *)
Record linked (srv : Distributor.Server) (p : Puller) (parseURL : string → option string) (privateKey : string) : Prop := mkLinked {
  link_keys : ∀ msg, Verify (publicKey p) msg (Sign privateKey msg) = true;
  link_size : slen (publicKey p) = PublicKeySize;
  link_token : requireToken srv = false ∨ token srv = "" ∨ token srv = pullToken p;
  link_url : parseURL (baseURL p ++ "/bundles/latest")%string = Some "/bundles/latest";
  link_rollout : hasRollout p = true
}.

(** C4. A configuration that is signed and uploaded gets to the requests.  When it
    can be taken, the next pull of a proxy that is linked to the distributor
    puts it in service, unless a context ends, the store is full or the gate
    finds errors; from then on every sequence of requests is served without a
    panic and all that is sent upstream for them goes to endpoints of that
    configuration, and further pulls of the bundle change nothing. *)
Theorem delivered_bundle_serves {T} `{StorageLaws T} queryLimit srv (s s' : T) nowText raw meta privateKey b cfg locked parseURL env p m :
  linked srv p parseURL privateKey → acceptable cfg raw locked →
  NewSignedBundle sha256 marshalMeta Sign nowText raw meta privateKey = Ok b → storable b → Put b s = (s', None) →
  decodeBundle (encode b) = Ok b → Bundle.version b ≠ "" → Bundle.version b ≠ currentVersion m →
  hasStore m = true → uneventful env m → prepared (Z.max (slen raw) (slen locked)) 2 m →
  let Do r := Ok (httpOf encode (Distributor.ServeHTTP queryLimit srv (Some s') r)) in
  let m' := pull parseURL Do env p m in
  currentVersion m' = Bundle.version b ∧
  (∀ env', pull parseURL Do env' p m' = m') ∧
  (∀ n rs h, store h = Apply.store (Rollout.apply m') → Engine.reg (world h) = Snapshot.reg (deps (Rollout.apply m')) →
     0 ≤ n < max_i64 → (∀ t, inflight h = Some t → tracker_ok n t) →
     ∃ h' l, serveAll encodeJSON sha256 ParseCertificate VerifyCert rs h = Done h' tt ∧ sent (world h') = sent (world h) ++ l ∧
       Forall (configured_for cfg rs.*2) l).
Proof.
  intros [Hk Hsz Ht Hurl Hroll] [Hj Hl Hjl Hv Hb] Hsign Hst Hput Hjson Hver Hcur Hhs Hu Hpr Do m'.
  destruct (signed_verifies _ _ _ _ _ _ _ _ _ _ Hk Hsz Hsign) as (Hok & Hraw & _). pose proof (Put_Latest b s s' Hst Hput) as Hlatest.
  destruct (rollout_completes ParseJSON Marshal ReadFile Getenv sha256 LoadX509KeyPair AppendCertsFromPEM suites env b ""
    (Distributor.onMetrics (RecordBundleVerify "ok") m) raw cfg locked) as (m1 & r & q & E & Hc & Hq & Hh & Hvr & Hreg & [(routes & R1 & R2) R3] & Hs);
    [by apply uneventful_counted|by apply prepared_counted|done..|].
  assert (m' = m1) as ->.
  { unfold m', Do. rewrite (pull_installs _ _ _ _ _ _ _ _ _ _ _ encode queryLimit srv s' b) by done. by rewrite E. }
  rewrite decide_False in Hvr by done. assert (currentVersion m1 = Bundle.version b) as Hnow.
  { unfold currentVersion. simpl in Hs. rewrite Hs, Hhs. unfold Store.Get. unfold current_of in Hq. rewrite Hq. simpl. by rewrite Hh. }
  split; [done|]. split.
  - intros env'. destruct (pullRequest parseURL p) as [request|] eqn:Er; [|unfold pullOnce; by rewrite Er].
    eapply pull_settled; [done| |exact Hjson|exact Hnow]. unfold Do. by rewrite (serves_latest queryLimit srv s' parseURL p request b Ht Hurl Er Hlatest).
  - intros n rs h Hstore Hrg Hn Htr.
    destruct (serveAll_configured encodeJSON sha256 ParseCertificate VerifyCert (res_Snapshot r) cfg routes R1 R2 R3 n rs h Hn Htr) as (h' & l & ? & _ & ? & ?).
    + rewrite Hstore. by exists q, (res_Snapshot r).
    + by rewrite Hrg.
    + by exists h', l.
Qed.
End Delivery.

(** ** A bundle with a canary on its way *)

Definition demo_delivered : Rollout.Manager :=
  let b := demo_bundle "v7" "full" in
  pullOnce demo_roll_parse (λ _, Ok "locked") (λ _, Err "") demo_getenv demo_hash (λ _ _, Err "") (λ _, false) ∅ demo_marshal demo_Verify (λ _, Ok b) demo_url
    (λ r, Ok (httpOf (λ _, "json") (Distributor.ServeHTTP (λ _, "") (NewHandler "secret" true) (Some (Put b NewMemoryStorage).1) r)))
    (demo_rollout_env None) demo_puller (demo_rollout (Some demo_fine)).
Definition demo_delivered_request : HEnv * Request := (refusing_env, plain_get <| Host := "example.local" |>).

Lemma demo_linked : linked demo_Sign demo_Verify (NewHandler "secret" true) demo_puller demo_url demo_private.
Proof. split; try done; [|by right; right]. intros msg. by apply bool_decide_eq_true_2. Qed.
Lemma demo_acceptable :
  acceptable demo_roll_parse (λ _, Ok "locked") (λ _, Err "") demo_getenv (λ _ _, Err "") (λ _, false) ∅ demo_file "full" "locked".
Proof. split; [reflexivity..|apply demo_valid|apply demo_buildable]. Qed.

Lemma delivered_bundle_serves_witness :
  currentVersion demo_delivered = "v7" ∧
  ∃ h' l, serveAll (λ _, "{}") demo_hash (λ c, Ok c) (λ _ _ _, None) [demo_delivered_request] (handler_of (Rollout.apply demo_delivered)) = Done h' tt ∧
    sent (world h') = l ∧ Forall (configured_for demo_file [demo_delivered_request.2]) l ∧ (length l > 0)%nat.
Proof.
  destruct (delivered_bundle_serves demo_roll_parse (λ _, Ok "locked") (λ _, Err "") demo_getenv demo_hash (λ _ _, Err "") (λ _, false) ∅ demo_marshal demo_Sign
    demo_Verify (λ _, Ok (demo_bundle "v7" "full")) (λ _, "json") (λ _, "{}") (λ c, Ok c) (λ _ _ _, None) (λ _, "") (NewHandler "secret" true) NewMemoryStorage
    (Put (demo_bundle "v7" "full") NewMemoryStorage).1 "now" "full" (demo_meta "v7") demo_private (demo_bundle "v7" "full") demo_file "locked" demo_url
    (demo_rollout_env None) demo_puller (demo_rollout (Some demo_fine)) demo_linked demo_acceptable) as (Hv & _ & Hs).
  - vm_compute. reflexivity.
  - done.
  - vm_compute. reflexivity.
  - reflexivity.
  - vm_compute. discriminate.
  - vm_compute. discriminate.
  - reflexivity.
  - exact demo_uneventful.
  - exact (demo_prepared (Some demo_fine)).
  - split; [exact Hv|].
    destruct (Hs 0 [demo_delivered_request] (handler_of (Rollout.apply demo_delivered)) eq_refl eq_refl ltac:(lia) open_tracker) as (h' & l & E & Hl & Hf).
    exists h', l. split; [exact E|]. split; [exact Hl|]. split; [exact Hf|]. assert (sent (world h') = l) as <- by exact Hl.
    change h' with (finalState (Done h' tt)). rewrite <- E. vm_compute. lia.
Defined.
