(* ===== verification/Server.v ===== *)
(** * Listeners and shutdown (internal/server)

    Starting the listeners, and the shutdown as the sequence of actions it
    performs ([did], in order).  Parameters: [net.Listen], and for a shutdown
    the results of the servers' own [Shutdown], the time its calls take and
    whether the graceful period has ended. *)
From S2P Require Import Prelude.
From S2P Require Import GoStrings.
From S2P Require Import Http.
From S2P Require Import Limits.
From S2P Require Import Snapshot.
From S2P Require Import Store.
From S2P Require Import AdminGuard.

(** ** Starting *)

(** The settings of an http.Server. *)
Record HTTPServer := mkHTTPServer {
  srv_MaxHeaderBytes : Z;
  srv_ReadHeaderTimeout : Duration;
  srv_ReadTimeout : Duration;
  srv_WriteTimeout : Duration;
  srv_IdleTimeout : Duration
}.
Definition httpServerOf (l : Limits) : HTTPServer :=
  mkHTTPServer (MaxHeaderBytes l) (ReadHeaderTimeout l) (ReadTimeout l) (WriteTimeout l) (IdleTimeout l).

Inductive action :=
| CloseHTTPListener | CloseTLSListener
| StopComponent (i : nat)
| Sleep (d : Duration)
| CloseIdle (i : nat)
| WaitInflight
| ShutdownHTTP | ShutdownTLS
| CloseHTTP | CloseTLS.
#[export] Instance action_eq_dec : EqDecision action.
Proof. solve_decision. Defined.

(** The result of [http.Server.Shutdown] and of the whole. *)
Inductive shutdownError := ServerClosed | OtherError (e : string).

(** A server; stoppers and idle closers may be nil.  [outcome] is set once
    the shutdown has run. *)
Record Server := mkServer {
  HTTPAddr : string;
  TLSAddr : string;
  httpServer : option HTTPServer;
  tlsServer : option HTTPServer;
  shutdown : ShutdownConfig;
  hasInflight : bool;
  stoppers : list bool;
  closeIdle : list bool;
  outcome : option (option shutdownError);
  did : list action
}.
#[export] Instance Server_eta : Eta Server := fun s =>
  mkServer (HTTPAddr s) (TLSAddr s) (httpServer s) (tlsServer s) (shutdown s) (hasInflight s) (stoppers s) (closeIdle s) (outcome s) (did s).

Record Options := mkOptions { optLimits : Limits; optShutdown : ShutdownConfig; optInflight : bool; optStoppers : list bool; optCloseIdle : list bool }.

Section Start.
(** [net.Listen]: the address that is listened on, or an error. *)
Context (Listen : string → result string).

(** The result, and which listeners were opened and closed again. *)
Definition StartServers (hasHandler : bool) (hasTLSConfig : bool) (httpAddr tlsAddr : string) (o : Options)
    : list string * list string * result Server :=
  if negb hasHandler then ([], [], Err "handler is nil")
  else
    let limitConfig := if MaxHeaderBytes (optLimits o) =? 0 then Default else optLimits o in
    let shutdownConfig := ApplyShutdownDefaults (optShutdown o) in
    let http := if decide (httpAddr = "") then Ok None else match Listen httpAddr with Ok a => Ok (Some a) | Err e => Err e end in
    match http with
    | Err e => ([], [], Err e)
    | Ok httpLn =>
        let opened := option_list httpLn in
        let tls :=
          if decide (tlsAddr = "") then Ok None
          else if negb hasTLSConfig then Err "tls config is required"
          else match Listen tlsAddr with Ok a => Ok (Some a) | Err e => Err e end in
        match tls with
        | Err e => (opened, opened, Err e)
        | Ok tlsLn =>
            match httpLn, tlsLn with
            | None, None => ([], [], Err "no listeners configured")
            | _, _ =>
                (opened ++ option_list tlsLn, [],
                 Ok (mkServer (default "" httpLn) (default "" tlsLn) ((λ _, httpServerOf limitConfig) <$> httpLn)
                       ((λ _, httpServerOf limitConfig) <$> tlsLn) shutdownConfig (optInflight o) (optStoppers o) (optCloseIdle o) None []))
            end
        end
    end.
End Start.

(** [BaseTLSConfig]: what a handshake gets, from the snapshot current then. *)
Definition GetConfigForClient (st : Store.Store) : result TLSRuntime :=
  match Store.Get st ≫= (heap st !!.) with
  | None => Err "tls config missing"
  | Some snap => if TLSEnabled snap then match SnapshotTLSConfig snap with Some c => Ok c | None => Err "tls config missing" end
                 else Err "tls config missing"
  end.

(** ** Shutting down *)

(** What a shutdown meets: the results of the two [Shutdown] calls, and the
    error of the graceful context when it is looked at. *)
Record ShutdownEnv := mkShutdownEnv {
  httpResult : option shutdownError;
  tlsResult : option shutdownError;
  gracefulEnded : option string
}.

(** The indices of the entries that are not nil. *)
Definition indices (l : list bool) : list nat := fst <$> List.filter (λ ib, ib.2) (imap pair l).
Definition present {A} (o : option A) (a : action) : list action := match o with Some _ => [a] | None => [] end.
Definition when (b : bool) (a : action) : list action := if b then [a] else [].

Definition closeListeners (s : Server) : list action := present (httpServer s) CloseHTTPListener ++ present (tlsServer s) CloseTLSListener.
Definition closeServers (s : Server) : list action := present (httpServer s) CloseHTTP ++ present (tlsServer s) CloseTLS.
(** The first error that is not "server closed". *)
Definition realError (o : option shutdownError) : option shutdownError := match o with Some (OtherError e) => Some (OtherError e) | _ => None end.

Definition shutdownSequence (env : ShutdownEnv) (s : Server) : list action * option shutdownError :=
  let before :=
    closeListeners s ++ (StopComponent <$> indices (stoppers s)) ++ when (0 <? Drain (shutdown s)) (Sleep (Drain (shutdown s))) ++
    (CloseIdle <$> indices (closeIdle s)) ++ when (hasInflight s) WaitInflight ++
    present (httpServer s) ShutdownHTTP ++ present (tlsServer s) ShutdownTLS in
  let httpErr := httpServer s ≫= λ _, realError (httpResult env) in
  let tlsErr := tlsServer s ≫= λ _, realError (tlsResult env) in
  let firstErr := match httpErr with Some e => Some e | None => tlsErr end in
  match gracefulEnded env with
  | None => (before, firstErr)
  | Some ctxErr =>
      (before ++ when (0 <? ForceClose (shutdown s)) (Sleep (ForceClose (shutdown s))) ++ closeServers s,
       match firstErr with Some e => Some e | None => Some (OtherError ctxErr) end)
  end.

(** [shutdownOnce.Do]. *)
Definition Shutdown (env : ShutdownEnv) (s : Server) : Server * option shutdownError :=
  match outcome s with
  | Some r => (s, r)
  | None => let '(actions, r) := shutdownSequence env s in (s <| did ::= (λ d, d ++ actions) |> <| outcome := Some r |>, r)
  end.
Definition Close : ShutdownEnv → Server → Server * option shutdownError := Shutdown.

(** ** RequireBearerToken *)

(** Whether a guarded handler is reached; [None] for a nil handler. *)
Inductive guarded := Reached | Refused (code : Z).
Definition RequireBearerToken (hasHandler requireToken : bool) (tok : string) (r : Request) : guarded :=
  if negb requireToken then Reached
  else match bearerToken (header_Get (ReqHeader r) "Authorization") with
  | None => Refused 401
  | Some provided =>
      if decide (provided = "" ∨ tok = "" ∨ provided ≠ tok) then Refused 401
      else if hasHandler then Reached else Refused 503
  end.

(** ** No listener is left open *)

(** Starting cleans up: when it fails, every listener it has opened is closed
    again; when it succeeds, there is at least one listener, a server for
    each of them, and all servers have the configured limits, or the default
    ones when none are configured. *)
Theorem server_start_no_leak Listen hasHandler hasTLS httpAddr tlsAddr o opened closed r :
  StartServers Listen hasHandler hasTLS httpAddr tlsAddr o = (opened, closed, r) →
  match r with
  | Err _ => closed = opened
  | Ok s => closed = [] ∧ opened ≠ [] ∧ length opened = (length (option_list (httpServer s)) + length (option_list (tlsServer s)))%nat ∧
      Forall (λ srv, srv = httpServerOf (if MaxHeaderBytes (optLimits o) =? 0 then Default else optLimits o))
        (option_list (httpServer s) ++ option_list (tlsServer s)) ∧
      (is_Some (tlsServer s) → hasTLS = true) ∧ 0 < GracefulTimeout (shutdown s)
  end.
Proof.
  unfold StartServers. destruct (negb hasHandler); [by intros [= <- <- <-]|]. cbv zeta.
  assert (0 < GracefulTimeout (ApplyShutdownDefaults (optShutdown o))) as Hg by (apply or_default_pos; vm_compute; done).
  destruct (if decide (httpAddr = "") then _ else _) as [httpLn|e]; [|by intros [= <- <- <-]].
  destruct (decide (tlsAddr = "")).
  - destruct httpLn as [a|]; intros [= <- <- <-]; [|done]. simpl. split_and!; try done. by repeat constructor.
  - destruct (negb hasTLS) eqn:Ht; [by intros [= <- <- <-]|]. destruct (Listen tlsAddr) as [b|]; [|by intros [= <- <- <-]].
    apply negb_false_iff in Ht. destruct httpLn as [a|]; intros [= <- <- <-]; simpl; split_and!; try done; by repeat constructor.
Qed.
Lemma server_start_no_leak_witness :
  ∃ e, StartServers (λ a, if decide (a = ":80") then Ok "0.0.0.0:80" else Err "in use") true true ":80" ":443"
    (mkOptions Default DefaultShutdownConfig true [] []) = (["0.0.0.0:80"], ["0.0.0.0:80"], Err e).
Proof.
  eexists. destruct (StartServers _ _ _ _ _ _) as [[opened closed] r] eqn:E.
  pose proof (server_start_no_leak _ _ _ _ _ _ _ _ _ E) as H. injection E as <- <- <-. reflexivity.
Defined.

(** ** The order and the length of a shutdown *)

(** How long a sequence of actions takes, given the time of each. *)
Definition elapsed (cost : action → Duration) (l : list action) : Duration := foldr (λ a t, cost a + t) 0 l.
Lemma elapsed_app cost l k : elapsed cost (l ++ k) = elapsed cost l + elapsed cost k.
Proof. induction l; simpl; lia. Qed.
Lemma elapsed_free cost l : Forall (λ a, cost a = 0) l → elapsed cost l = 0.
Proof. induction 1; simpl; lia. Qed.

(** An action that only takes time when it sleeps or waits. *)
Definition quick (a : action) : Prop := match a with Sleep _ | WaitInflight | ShutdownHTTP | ShutdownTLS => False | _ => True end.
Lemma elapsed_quick cost l : (∀ a, quick a → cost a = 0) → Forall quick l → elapsed cost l = 0.
Proof. intros H Hl. apply elapsed_free. eapply Forall_impl; [exact Hl|auto]. Qed.

(** A shutdown runs once, in order and in bounded time.  However often it is
    called, its actions happen once and every call returns the same error;
    connections are cut off only when the graceful period has ended; and if
    the calls that are given the graceful context return within it, it takes
    no longer than the drain, graceful and force-close periods together. *)
Theorem server_shutdown_once env envs s s1 r cost :
  outcome s = None → did s = [] → Shutdown env s = (s1, r) →
  (∀ a, quick a → cost a = 0) → (∀ d, cost (Sleep d) = d) →
  0 ≤ cost WaitInflight → 0 ≤ cost ShutdownHTTP → 0 ≤ cost ShutdownTLS →
  cost WaitInflight + cost ShutdownHTTP + cost ShutdownTLS ≤ GracefulTimeout (shutdown s) → 0 ≤ ForceClose (shutdown s) → 0 ≤ Drain (shutdown s) →
  (let s2 := foldl (λ s e, (Shutdown e s).1) s1 envs in did s2 = (shutdownSequence env s).1 ∧ ∀ e, Shutdown e s2 = (s2, r)) ∧
  ((CloseHTTP ∈ did s1 ∨ CloseTLS ∈ did s1) → is_Some (gracefulEnded env)) ∧
  elapsed cost (did s1) ≤ Drain (shutdown s) + GracefulTimeout (shutdown s) + ForceClose (shutdown s).
Proof.
  intros Ho Hd Hs Hq Hsl Hp1 Hp2 Hp3 Hg Hf Hdr. unfold Shutdown in Hs. rewrite Ho in Hs.
  destruct (shutdownSequence env s) as [actions r'] eqn:E. injection Hs as <- <-.
  assert (outcome (s <| did ::= (λ d, d ++ actions) |> <| outcome := Some r' |>) = Some r') as Hout by done.
  split_and!.
  - simpl. assert (∀ s1, outcome s1 = Some r' → foldl (λ s e, (Shutdown e s).1) s1 envs = s1) as Hid.
    { induction envs as [|e l IH]; intros s1 H1; [done|]. simpl. unfold Shutdown at 2. rewrite H1. by apply IH. }
    rewrite Hid by done. rewrite Hd. split; [done|]. intros e. done.
  - simpl. rewrite Hd, app_nil_l. intros Hc. unfold shutdownSequence in E. destruct (gracefulEnded env); [done|]. exfalso.
    injection E as <- _. assert (Forall (λ a, a ≠ CloseHTTP ∧ a ≠ CloseTLS) (shutdownSequence (mkShutdownEnv None None None) s).1) as Hgentle.
    { unfold shutdownSequence, closeListeners, present, when. simpl. rewrite !Forall_app, !Forall_fmap.
      split_and!; try (apply Forall_forall; done); case_match; by repeat constructor. }
    rewrite Forall_forall in Hgentle. destruct Hc as [Hc|Hc]; by apply Hgentle in Hc as [??].
  - simpl. rewrite Hd, app_nil_l. unfold shutdownSequence in E. unfold closeListeners, closeServers, present, when in E.
    assert (∀ l, elapsed cost (StopComponent <$> l) = 0 ∧ elapsed cost (CloseIdle <$> l) = 0) as Hn.
    { intros l. split; apply elapsed_quick; try done; apply Forall_fmap, Forall_forall; done. }
    destruct (Hn (indices (stoppers s))) as [H1 _]. destruct (Hn (indices (closeIdle s))) as [_ H2]. clear Hn.
    pose proof (Hq CloseHTTP I) as Q1. pose proof (Hq CloseTLS I) as Q2. pose proof (Hq CloseHTTPListener I) as Q3. pose proof (Hq CloseTLSListener I) as Q4.
    destruct (gracefulEnded env); injection E as <- _; rewrite !elapsed_app, H1, H2;
      destruct (httpServer s), (tlsServer s), (0 <? Drain (shutdown s)), (hasInflight s); try destruct (0 <? ForceClose (shutdown s)); simpl; rewrite ?Hsl; lia.
Qed.

Lemma server_shutdown_once_witness :
  ∃ s1, Shutdown (mkShutdownEnv None None (Some "deadline exceeded"))
      (mkServer "a" "" (Some (httpServerOf Default)) None DefaultShutdownConfig true [true; false; true] [true] None []) = (s1, Some (OtherError "deadline exceeded")) ∧
    did s1 = [CloseHTTPListener; StopComponent 0; StopComponent 2; Sleep (2 * Second); CloseIdle 0; WaitInflight; ShutdownHTTP; Sleep (2 * Second); CloseHTTP] ∧
    elapsed (λ a, match a with Sleep d => d | WaitInflight => 3 * Second | ShutdownHTTP => 2 * Second | _ => 0 end) (did s1) ≤ 9 * Second.
Proof.
  eexists. split; [reflexivity|]. split; [reflexivity|].
  refine (proj2 (proj2 (server_shutdown_once (mkShutdownEnv None None (Some "deadline exceeded")) []
    (mkServer "a" "" (Some (httpServerOf Default)) None DefaultShutdownConfig true [true; false; true] [true] None []) _ _ _ eq_refl eq_refl eq_refl _ _ _ _ _ _ _ _)));
    try (vm_compute; discriminate).
  - by intros [].
  - done.
Defined.
