(* ===== verification/Main.v ===== *)
(** * The process (cmd/proxy)

    What the flags and the environment variables configure, and how the
    components are wired together.  [log.Fatalf] ends the process: it is an
    error here.  Parameters: reading files, the JSON decoder, the environment
    variables, [strconv.ParseFloat], crypto/tls, and [net.Listen].  The
    background goroutines of the registries are the ticks of their own
    files. *)
From S2P Require Import Prelude.
From S2P Require Import GoStrings.
From S2P Require Import GoFloat.
From S2P Require Import Http.
From S2P Require Import Config.
From S2P Require Import Limits.
From S2P Require Import TLSStore.
From S2P Require Import Registry.
From S2P Require Import OutlierRegistry.
From S2P Require Import TrafficPlan.
From S2P Require Import Router.
From S2P Require Import Snapshot.
From S2P Require Import Store.
From S2P Require Import Provider.
From S2P Require Import Apply.
From S2P Require Import Metrics.
From S2P Require Import Bundle.
From S2P Require Import Rollout.
From S2P Require Import AdminGuard.
From S2P Require Import Distributor.
From S2P Require Import Server.

Record Flags := mkFlags {
  configFile : string;
  httpAddr : string;
  tlsAddr : string;
  adminAddr : string;
  enableAdmin : bool;
  enablePull : bool;
  pullURL : string;
  pullIntervalMS : Z;
  publicKeyFile : string;
  adminTokenFlag : string
}.

Definition parseDurationMS (value : string) (fallback : Duration) : Duration :=
  if decide (value = "") then fallback
  else match ParseInt value with Some n => millis n | None => fallback end.

Record metricsEndpointConfig := mkEndpoint { ep_enabled : bool; ep_path : string; ep_requireToken : bool; ep_tokenEnv : string }.
Definition resolveMetricsConfig (cfg : Config.Config) : metricsEndpointConfig :=
  match Config.Metrics cfg with
  | None => mkEndpoint true "/metrics" false "METRICS_TOKEN"
  | Some m =>
      mkEndpoint (default true (met_Enabled m)) (if decide (met_Path m = "") then "/metrics" else met_Path m)
        (met_RequireToken m) (if decide (met_TokenEnv m = "") then "METRICS_TOKEN" else met_TokenEnv m)
  end.

Definition emptyConfig : Config.Config :=
  Config.mkConfig "" emptyTLS (mkLimitsConfig 0 0 0 None 0 0 0 0 0) (mkShutdownConfig 0 0 0) (mkLoggingConfig false) None [] ∅.

(** The admin listener and what guards it. *)
Record AdminServer := mkAdminServer { adminAuth : Authenticator; adminTLS : AdminTLS; allowUnsigned : bool; adminServer : Server.Server }.

(** What is running once [main] has started everything. *)
Record System := mkSystem {
  rolloutManager : Rollout.Manager;
  publicKey : string;
  endpoint : metricsEndpointConfig;
  puller : option Puller;
  serverHandle : Server.Server;
  adminHandle : option AdminServer
}.

Section Main.
Context (ParseJSON : string → result Config.Config) (ReadFile : string → result string) (Getenv : string → string).
Context (ParseFloat : string → option float64).
Context (LoadX509KeyPair : string → string → result Certificate) (AppendCertsFromPEM : string → bool) (suites : gmap string Z).
Context (Listen : string → result string).

Definition parseFloatEnv (value : string) (fallback : float64) : float64 :=
  if decide (value = "") then fallback else default fallback (ParseFloat value).
Definition envOrFallback (primary fallback : string) : string :=
  let value := TrimSpace (Getenv primary) in if decide (value = "") then TrimSpace (Getenv fallback) else value.

Definition loadPublicKey (path : string) : result string :=
  let path := if decide (path = "") then Getenv "PUBLIC_KEY_FILE" else path in
  if decide (path = "") then Ok "" else LoadPublicKey ReadFile path.
Definition loadConfig (path : string) : result Config.Config :=
  if decide (path = "") then Ok emptyConfig else let? data := ReadFile path in ParseJSON data.

Definition startAdmin (enabled : bool) (addr token : string) : result (option AdminServer) :=
  if negb enabled then Ok None
  else if decide (addr = "") then Err "admin-addr is required when admin is enabled"
  else
    let adminToken := if decide (token = "") then Getenv "ADMIN_TOKEN" else token in
    let adminCert := envOrFallback "ADMIN_TLS_CERT_FILE" "ADMIN_CERT_FILE" in
    let adminKey := envOrFallback "ADMIN_TLS_KEY_FILE" "ADMIN_KEY_FILE" in
    let adminCA := TrimSpace (Getenv "ADMIN_CLIENT_CA_FILE") in
    let unsigned := bool_decide (Getenv "ALLOW_UNSIGNED_ADMIN_CONFIG" = "true") in
    if decide (adminToken = "") then Err "ADMIN_TOKEN is required for admin listener"
    else if decide (adminCert = "" ∨ adminKey = "") then Err "ADMIN_TLS_CERT_FILE and ADMIN_TLS_KEY_FILE are required for admin listener"
    else if decide (adminCA = "") then Err "ADMIN_CLIENT_CA_FILE is required for admin listener"
    else
      let? auth := NewAuthenticator ReadFile AppendCertsFromPEM adminToken adminCA in
      let? tls := TLSConfig ReadFile AppendCertsFromPEM LoadX509KeyPair adminCert adminKey adminCA in
      let? srv := (StartServers Listen true true "" addr (mkOptions Limits.Default DefaultShutdownConfig false [] [])).2 in
      Ok (Some (mkAdminServer auth tls unsigned srv)).

(** The puller, when pulling is enabled. *)
Definition startPull (f : Flags) (key : string) : result (option Puller) :=
  if negb (enablePull f) then Ok None
  else if decide (pullURL f = "") then Err "pull-url is required when pull mode is enabled"
  else if decide (key = "") then Err "public-key-file is required for pull mode"
  else Ok (Some (NewPuller true (pullURL f) (millis (pullIntervalMS f)) (parseDurationMS (Getenv "PULL_JITTER_MS") (500 * Millisecond))
                   key true (Getenv "PULL_TOKEN"))).

(** The managers over the first snapshot. *)
Definition wire (f : Flags) (snap : Snapshot.Snapshot) (d : Deps) : Rollout.Manager :=
  let providers := [Some RefAdmin] ++ (if decide (configFile f = "") then [] else [Some (RefFile (configFile f))]) in
  let a := Apply.NewManager (Store.NewStore {[0%nat := snap]} (Some 0%nat)) d providers (Some NewAdminPush) 0 0 true in
  Rollout.NewManager a true true
    (parseDurationMS (Getenv "ROLLOUT_LOCKED_BAKE_MS") Minute) (parseDurationMS (Getenv "ROLLOUT_ERROR_WINDOW_MS") (10 * Second))
    (parseFloatEnv (Getenv "ROLLOUT_ERROR_PERCENT") (f64_of_Z 1)).

Definition startDeps : Deps :=
  mkDeps (Registry.NewRegistry 0 0) (Some (OutlierRegistry.NewRegistry 0 0 true)) (TrafficPlan.NewRegistry 0 0) 0
    (Some (NewMetrics (Metrics.mkMetricsConfig 0 0 0))).
(** The registries with a [Stop], the puller's cancellation, and the idle
    connections of the engine. *)
Definition mainOptions (snap : Snapshot.Snapshot) (sc : ShutdownConfig) (pulling : bool) : Options :=
  mkOptions (SnapshotLimits snap) sc true (replicate 6 true ++ (if pulling then [true] else [])) [true].

Definition main (clk : Clock) (order : Config.Config → list (string * Config.Pool)) (f : Flags) : result System :=
  let? cfg := loadConfig (configFile f) in
  let? key := loadPublicKey (publicKeyFile f) in
  match BuildSnapshot LoadX509KeyPair ReadFile AppendCertsFromPEM suites clk (order cfg) cfg startDeps with
  | (_, Err e) => Err e
  | (d, Ok snap) =>
      let? shutdownConfig := ShutdownFromConfig (Config.Shutdown cfg) in
      let? p := startPull f key in
      let? srv := (StartServers Listen true (TLSEnabled snap) (httpAddr f) (tlsAddr f) (mainOptions snap shutdownConfig (enablePull f))).2 in
      let? adm := startAdmin (enableAdmin f) (adminAddr f) (adminTokenFlag f) in
      Ok (mkSystem (wire f snap d) key (resolveMetricsConfig cfg) p srv adm)
  end.
End Main.

(** ** What a proxy that has started is like *)

Section Guarantees.
Context (ParseJSON : string → result Config.Config) (ReadFile : string → result string) (Getenv : string → string).
Context (ParseFloat : string → option float64).
Context (LoadX509KeyPair : string → string → result Certificate) (AppendCertsFromPEM : string → bool) (suites : gmap string Z).
Context (Listen : string → result string).
Abbreviation start := (main ParseJSON ReadFile Getenv ParseFloat LoadX509KeyPair AppendCertsFromPEM suites Listen).

Lemma loadPublicKey_size path key : loadPublicKey ReadFile Getenv path = Ok key → key = "" ∨ slen key = PublicKeySize.
Proof.
  unfold loadPublicKey. cbv zeta. set (path' := if decide (path = "") then _ else _).
  destruct (decide (path' = "")); [intros [= <-]; by left|].
  unfold LoadPublicKey, loadKey. rewrite result_bind_Ok. intros (data & _ & H). right. unfold parseKeyData in H.
  case_decide; [by simplify_eq|]. destruct (Codec.DecodeString _) as [dec|]; [|done]. case_decide as Hd; [done|]. by simplify_eq.
Qed.

(** The admin listener asks for everything there is. *)
Lemma startAdmin_guarded enabled addr tok a :
  startAdmin ReadFile Getenv LoadX509KeyPair AppendCertsFromPEM Listen enabled addr tok = Ok (Some a) →
  is_Some (clientCAs (adminAuth a)) ∧ adminClientCAs (adminTLS a) = clientCAs (adminAuth a) ∧ AdminGuard.token (adminAuth a) ≠ "" ∧
  httpServer (adminServer a) = None.
Proof.
  unfold startAdmin. destruct (negb enabled); [done|]. case_decide as Haddr; [done|]. cbv zeta.
  generalize (if decide (tok = "") then Getenv "ADMIN_TOKEN" else tok) as tk. intros tk. case_decide as Htk; [done|].
  destruct (decide (_ ∨ _)) as [|Hck]; [done|]. destruct (decide (TrimSpace _ = "")) as [|Hca]; [done|]. rewrite result_bind_Ok. intros (auth & Ha & H).
  apply result_bind_Ok in H as (tls & Ht & H). apply result_bind_Ok in H as (srv & Hs & [= <-]). simpl.
  unfold NewAuthenticator in Ha. cbv zeta in Ha. case_decide as Htok; [done|]. rewrite decide_False in Ha by done.
  apply result_bind_Ok in Ha as (ca & Hr & Ha). destruct (AppendCertsFromPEM ca) eqn:Hp; [|done]. injection Ha as <-.
  unfold TLSConfig in Ht. rewrite decide_False in Ht by done. apply result_bind_Ok in Ht as (cert & _ & Ht).
  rewrite decide_False, Hr in Ht by done. simpl in Ht. rewrite Hp in Ht. injection Ht as <-. split_and!; [by eexists|done|done|].
  unfold StartServers in Hs. simpl in Hs. case_decide; [done|]. destruct (Listen addr); [|done]. by injection Hs as <-.
Qed.

(** What [main] has done when it has started. *)
Lemma main_started clk order f sys :
  start clk order f = Ok sys →
  ∃ cfg key d snap p srv adm, loadConfig ParseJSON ReadFile (configFile f) = Ok cfg ∧ loadPublicKey ReadFile Getenv (publicKeyFile f) = Ok key ∧
    BuildSnapshot LoadX509KeyPair ReadFile AppendCertsFromPEM suites clk (order cfg) cfg startDeps = (d, Ok snap) ∧
    startPull Getenv f key = Ok p ∧
    startAdmin ReadFile Getenv LoadX509KeyPair AppendCertsFromPEM Listen (enableAdmin f) (adminAddr f) (adminTokenFlag f) = Ok adm ∧
    sys = mkSystem (wire Getenv ParseFloat f snap d) key (resolveMetricsConfig cfg) p srv adm.
Proof.
  intros H. unfold main in H. apply result_bind_Ok in H as (cfg & Hcfg & H). apply result_bind_Ok in H as (key & Hkey & H).
  destruct (BuildSnapshot _ _ _ _ clk (order cfg) cfg startDeps) as [d [snap|]] eqn:Hb; [|done].
  apply result_bind_Ok in H as (sc & _ & H). apply result_bind_Ok in H as (p & Hp & H).
  apply result_bind_Ok in H as (srv & _ & H). apply result_bind_Ok in H as (adm & Hadm & [= <-]). by exists cfg, key, d, snap, p, srv, adm.
Qed.
Lemma startPull_key f key p :
  startPull Getenv f key = Ok (Some p) → Distributor.publicKey p = key ∧ key ≠ "" ∧ baseURL p ≠ "".
Proof.
  unfold startPull. destruct (negb (enablePull f)); [done|]. case_decide; [done|]. case_decide; [done|]. intros [= <-]. by split_and!.
Qed.
Lemma startAdmin_unsigned enabled addr tok a :
  startAdmin ReadFile Getenv LoadX509KeyPair AppendCertsFromPEM Listen enabled addr tok = Ok (Some a) →
  allowUnsigned a = bool_decide (Getenv "ALLOW_UNSIGNED_ADMIN_CONFIG" = "true").
Proof.
  unfold startAdmin. destruct (negb enabled); [done|]. case_decide; [done|]. cbv zeta.
  generalize (if decide (tok = "") then Getenv "ADMIN_TOKEN" else tok) as tk. intros tk. case_decide; [done|].
  destruct (decide (_ ∨ _)); [done|]. destruct (decide (TrimSpace _ = "")); [done|]. rewrite result_bind_Ok. intros (auth & _ & Ha).
  apply result_bind_Ok in Ha as (tls & _ & Ha). by apply result_bind_Ok in Ha as (srv & _ & [= <-]).
Qed.

(** A proxy that has started is wired safely.  It serves the snapshot of its
    configuration, whose endpoints are the registry's; it pulls only with a
    public key of the right size; and its admin listener speaks only TLS and
    lets a request through only with a client certificate that verifies
    against the configured roots and with the token. *)
Theorem main_wired clk order f sys :
  (∀ cfg, order cfg ≡ₚ map_to_list (Config.Pools cfg)) → start clk order f = Ok sys →
  ∃ cfg s routes, loadConfig ParseJSON ReadFile (configFile f) = Ok cfg ∧
    let m := rolloutManager sys in
    hasStore m = true ∧ served m ∧ current_of m = Some 0%nat ∧ heap (store (apply m)) !! 0%nat = Some s ∧
    SnapshotRouter s = Some (NewRouter routes) ∧ Forall2 (route_ok (Snapshot.Pools s)) (Config.Routes cfg) routes ∧
    registry_ok (reg (deps (apply m))) (endpoints_of cfg) ∧ 0 < lockedBake m ∧
    (∀ p, puller sys = Some p → slen (Distributor.publicKey p) = PublicKeySize ∧ Distributor.publicKey p = publicKey sys ∧ baseURL p ≠ "") ∧
    (∀ a, adminHandle sys = Some a → httpServer (adminServer a) = None ∧
       ∀ VerifyChain r, Authenticate VerifyChain (adminAuth a) r = None →
         ∃ roots leaf rest, clientCAs (adminAuth a) = Some roots ∧ peerCertificates r = leaf :: rest ∧ VerifyChain roots leaf rest = true ∧
           AdminGuard.token (adminAuth a) ≠ "" ∧ bearerToken (header_Get (ReqHeader r) "Authorization") = Some (AdminGuard.token (adminAuth a))).
Proof.
  intros Hv (cfg & key & d & snap & p & srv & adm & Hcfg & Hkey & Hb & Hp & Hadm & ->)%main_started.
  destruct (BuildSnapshot_sound _ _ _ _ _ _ _ _ _ _ _ (Hv cfg) (new_registry_ok 0 0 : registry_ok (reg startDeps) ∅) Hb) as (routes & H1 & H2 & _ & _ & _ & _ & H7 & _).
  exists cfg, snap, routes. simpl. split_and!; try done.
  - intros q [= <-]. by eexists.
  - unfold or_default. simpl. destruct (Z.leb_spec (parseDurationMS (Getenv "ROLLOUT_LOCKED_BAKE_MS") Minute) 0); [done|lia].
  - intros q ->. apply startPull_key in Hp as (-> & Hk & Hu). split_and!; [|done..]. by destruct (loadPublicKey_size _ _ Hkey).
  - intros a ->. apply startAdmin_guarded in Hadm as ([roots Hr] & _ & Htok & Hs). split; [done|].
    intros VC r (leaf & rest & scheme & Hc & Hchain & Hh & _ & Hf & Hsch)%Authenticate_ok.
    exists roots, leaf, rest. split_and!; [done..|by apply Hchain|done|]. unfold bearerToken. by rewrite decide_False, Hf, Hsch by done.
Qed.
End Guarantees.

(** ** Starting with a configuration file, pulling and an admin listener *)

Definition demo_flags : Flags := mkFlags "/etc/proxy.json" ":8080" "" ":9000" true true "http://d" 0 "/etc/key" "".
Definition demo_files (path : string) : result string :=
  if decide (path = "/etc/key") then Ok demo_public else if decide (path = "/etc/proxy.json") then Ok "first" else Ok "ca".
Definition demo_environment (name : string) : string :=
  if decide (name = "ADMIN_TOKEN") then "t" else if decide (name = "ADMIN_TLS_CERT_FILE") then "c" else if decide (name = "ADMIN_TLS_KEY_FILE") then "k"
  else if decide (name = "ADMIN_CLIENT_CA_FILE") then "ca" else "".
Lemma main_wired_witness :
  ∃ sys, main demo_parse demo_files demo_environment (λ _, None) (λ _ _, Ok "cert") (λ _, true) ∅ (λ a, Ok a) example_clock demo_visit demo_flags = Ok sys ∧
    served (rolloutManager sys) ∧ current_of (rolloutManager sys) = Some 0%nat.
Proof.
  destruct (main demo_parse demo_files demo_environment (λ _, None) (λ _ _, Ok "cert") (λ _, true) ∅ (λ a, Ok a) example_clock demo_visit demo_flags)
    as [sys|e] eqn:E; [|exfalso; revert E; vm_compute; discriminate].
  exists sys. split; [done|].
  destruct (main_wired _ _ _ _ _ _ _ _ _ _ _ _ (λ cfg, reflexivity _) E) as (cfg & s & routes & _ & _ & H1 & H2 & _). by split.
Defined.
