(* ===== verification/Process.v ===== *)
(** * The running process (cmd/proxy/main.go, with everything it starts)

    The request handler, the admin API, the puller and the background work
    on the state they share: the snapshot store, the pool, outlier and traffic
    registries and the default metrics.  [Process] is that state, an [event]
    is one thing that happens to it, and [steps] a history of them.  Events
    come one after the other, but for the bake time of a rollout, during which
    requests, health checks, reaping and late compilations go on. *)
From S2P Require Import Prelude.
From S2P Require Import GoStrings.
From S2P Require Import GoError.
From S2P Require Import Http.
From S2P Require Import Pool.
From S2P Require Import Registry.
From S2P Require Import Config.
From S2P Require Import Limits.
From S2P Require Import TLSStore.
From S2P Require Import Router.
From S2P Require Import Metrics.
From S2P Require Import Snapshot.
From S2P Require Import Store.
From S2P Require Import Provider.
From S2P Require Import Apply.
From S2P Require Import Bundle.
From S2P Require Import Rollout.
From S2P Require Import AdminGuard.
From S2P Require Import Admin.
From S2P Require Import BreakerRegistry.
From S2P Require Import RetryRegistry.
From S2P Require Import CacheStore.
From S2P Require Import TrafficSplit.
From S2P Require Import Plugin.
From S2P Require Import Health.
From S2P Require Import Proxy.
From S2P Require Import PluginFilters.
From S2P Require Import AccessLog.
From S2P Require Import Engine.
From S2P Require Import Handler.
From S2P Require Import Traffic.
From S2P Require Import Distributor.
From S2P Require Import Main.

(** ** The process and what happens to it *)

(** The request handler's state, and the admin API with the managers; what
    they share is up to date in the managers. *)
Record Process := mkProcess { traffic : HS; control : Admin.Handler }.
#[export] Instance Process_eta : Eta Process := fun p => mkProcess (traffic p) (control p).
Definition managers (p : Process) : Rollout.Manager := Admin.sys (control p).

(** The handler works on the managers' store, registries and metrics. *)
Definition lend (m : Apply.Manager) (s : HS) : HS :=
  let d := deps m in
  s <| store := Apply.store m |> <| trafficReg := Snapshot.trafficReg d |>
    <| world ::= (λ w, w <| reg := Snapshot.reg d |> <| outlierReg := Snapshot.outlierReg d |> <| Engine.metrics := defaultMetrics d |>) |>.
Definition giveBack (s : HS) (m : Apply.Manager) : Apply.Manager :=
  let w := world s in
  m <| Apply.store := store s |>
    <| deps ::= (λ d, d <| Snapshot.reg := reg w |> <| Snapshot.outlierReg := outlierReg w |> <| Snapshot.trafficReg := trafficReg s |>
                        <| defaultMetrics := Engine.metrics w |>) |>.

(** What goes on all the time: requests, health checks, the reaping of
    drained endpoints, and compilations that have outlived their timeout. *)
Inductive work :=
| Served (env : HEnv) (req : Request)
| Probed (k a : string) (o : probeOutcome) (now : Time)
| Reaped (now : Time)
| Compiled (env : ApplyEnv).
(** An event is such work, a request to the admin API or a pull; the last two
    may wait for a bake time, during which work goes on. *)
Inductive event :=
| Work (w : work)
| AdminRequest (env : AdminEnv) (r : Request) (during : list work)
| Pulled (Do : Request → Prelude.result (Z * string)%type) (env : RolloutEnv) (during : list work).

Definition onManager (f : Apply.Manager → Apply.Manager) (p : Process) : Process :=
  p <| control ::= (λ h, h <| Admin.sys ::= (λ m, m <| Rollout.apply ::= f |>) |>) |>.
Definition onRegistry (f : Registry.Registry → Registry.Registry) : Process → Process :=
  onManager (λ m, m <| deps ::= (λ d, d <| Snapshot.reg ::= f |>) |>).

(** A rollout up to its bake time, when [lockedBake] is reset to tell. *)
Definition pausing (env : RolloutEnv) : RolloutEnv :=
  mkRolloutEnv (envValidate env) (envLocked env) (envFull env) (λ m, m <| lockedBake := 0 |>) (Some errCanceled) (gateAt env) (rollbackAt env).
Definition baking (f : Rollout.Manager → Rollout.Manager) (env : RolloutEnv) : RolloutEnv :=
  mkRolloutEnv (envValidate env) (envLocked env) (envFull env) f (bakeEnded env) (gateAt env) (rollbackAt env).

Section Process.
Context (encodeJSON : ProxyErrorBody → string) (sha256 : string → list ascii).
Context (ParseCertificate : string → Prelude.result Certificate) (VerifyCertificate : Certificate → CertPool → list Certificate → option string).
Context (ParseJSON : string → Prelude.result Config.Config) (Marshal : Config.Config → Prelude.result string).
Context (ReadFile : string → Prelude.result string) (Getenv : string → string).
Context (LoadX509KeyPair : string → string → Prelude.result Certificate) (AppendCertsFromPEM : string → bool) (suites : gmap string Z).
Context (marshalMeta : Meta → Prelude.result string) (Verify : string → string → string → bool).
Context (decodeBundle : string → Prelude.result Bundle) (decodeRollback : string → rollbackBody).
Context (VerifyChain : string → string → list string → bool) (parseURL : string → option string).
(** What [main] has started. *)
Context (system : Main.System).

Definition serveAdmin (env : AdminEnv) (r : Request) (h : Admin.Handler) : Admin.Handler :=
  (Admin.ServeHTTP ParseJSON Marshal ReadFile Getenv sha256 LoadX509KeyPair AppendCertsFromPEM suites marshalMeta Verify decodeBundle decodeRollback
    VerifyChain (adminAuth <$> adminHandle system) (Main.publicKey system)
    (match adminHandle system with Some a => allowUnsigned a | None => false end) true true env r h).1.
Definition pull (Do : Request → Prelude.result (Z * string)%type) (env : RolloutEnv) (h : Admin.Handler) : Admin.Handler :=
  match puller system with
  | None => h
  | Some p => h <| Admin.sys ::= pullOnce ParseJSON Marshal ReadFile Getenv sha256 LoadX509KeyPair AppendCertsFromPEM suites marshalMeta Verify decodeBundle
                                   parseURL Do env p |>
  end.

Definition workStep (w : work) (p : Process) : Process :=
  match w with
  | Served env req =>
      let s := finalState (Handler.ServeHTTP encodeJSON sha256 ParseCertificate VerifyCertificate env
                             (arrive req (lend (Rollout.apply (managers p)) (traffic p)))) in
      onManager (giveBack s) (p <| traffic := s |>)
  | Probed k a o now => onRegistry (λ r, Registry.step r (Registry.EProbe k a o now)) p
  | Reaped now => onRegistry (λ r, Registry.step r (Registry.EReap now)) p
  | Compiled env => onManager (runBackground ParseJSON ReadFile Getenv LoadX509KeyPair AppendCertsFromPEM suites env) p
  end.
Definition works (ws : list work) (p : Process) : Process := foldl (λ p w, workStep w p) p ws.

(** [run] with work going on during its bake time, if it has one. *)
Definition throughBake (run : RolloutEnv → Admin.Handler → Admin.Handler) (env : RolloutEnv) (during : list work) (p : Process) : Process :=
  let busy m := works during (p <| control ::= (λ h, h <| Admin.sys := m |>) |>) in
  let paused := Admin.sys (run (pausing env) (control p)) in
  let s := if lockedBake paused =? 0 then traffic (busy (paused <| lockedBake := lockedBake (managers p) |>)) else traffic p in
  mkProcess s (run (baking (λ m, managers (busy m)) env) (control p)).
Definition step (e : event) (p : Process) : Process :=
  match e with
  | Work w => workStep w p
  | AdminRequest env r during =>
      throughBake (λ roll, serveAdmin (mkAdminEnv (now env) (nowText env) (adminRandom env) (idTime env) (body env) (onApply env) roll) r) (onRollout env) during p
  | Pulled Do env during => throughBake (pull Do) env during p
  end.
Definition steps (es : list event) (p : Process) : Process := foldl (λ p e, step e p) p es.

(** The fields of one request are set when it arrives. *)
Definition noRequest : Request := mkRequest "" "" "" "" "" ∅ None 0 "" None.
(** The handler and the admin API as [main] sets them up, on the managers. *)
Definition startHandler (seed : Z) (m : Apply.Manager) : HS :=
  let d := deps m in
  mkHS (NewResponseRecorder newWriter) noRequest newTracking VariantStable None (newLocals noRequest) None 0 (emptyEntry, false, None) (Apply.store m)
    (NewEngine (Snapshot.reg d) (Some (NewRetryRegistry 0 0)) (defaultMetrics d) (Some (BreakerRegistry.NewRegistry 0 0)) (Snapshot.outlierReg d))
    (Some (Plugin.NewRegistry 0)) (Some (NewMemoryStore DefaultMaxObjectBytes)) (Some (NewCoalescer DefaultMaxFlights)) (Snapshot.trafficReg d) seed
    (Some NewInflightTracker) [] None None.
Definition startProcess (seed : Z) : Process :=
  mkProcess (startHandler seed (Rollout.apply (rolloutManager system)))
    (Admin.mkHandler (rolloutManager system) (Some (NewRateLimiter 0 0 0 0)) (Some AdminGuard.NewStore)).
End Process.

(** ** What the managers install *)

Section Accepted.
(** The configurations somebody who may has decided on. *)
Context (accepted : Config.Config → Prop).

(** An address of an accepted configuration; a registry of such addresses. *)
Definition listedIn (cfg : Config.Config) (a : string) : Prop := ∃ k pool, Config.Pools cfg !! k = Some pool ∧ a ∈ pool_Endpoints pool.
Definition known (a : string) : Prop := ∃ cfg, accepted cfg ∧ listedIn cfg a.
Definition listed (addrs : list string) : Prop := addrs ≠ [] ∧ Forall known addrs.
Definition follows (r : Registry.Registry) : Prop := ∃ c, registry_ok r c ∧ map_Forall (λ _, listed) c.

(** A snapshot with the routes of an accepted configuration; a store of such
    snapshots, one of them current. *)
Definition vouched (s : Snapshot.Snapshot) : Prop :=
  ∃ cfg routes, accepted cfg ∧ SnapshotRouter s = Some (NewRouter routes) ∧ Forall2 (route_ok (Snapshot.Pools s)) (Config.Routes cfg) routes.
Record storeOk (st : Store.Store) : Prop := mkStoreOk {
  store_current : ∃ p, Store.current st = Some p ∧ is_Some (Store.heap st !! p);
  store_vouched : ∀ p s, Store.heap st !! p = Some s → vouched s
}.
(** A compilation still to run in the background is a validation, which has
    registries of its own, or of an accepted configuration. *)
Definition jobAccepted (j : Job) : Prop := job_mode j = ModeValidate ∨ ∃ cfg, job_input j = inr (inr cfg) ∧ accepted cfg.
Record guarded (m : Apply.Manager) : Prop := mkGuarded {
  g_registry : follows (Snapshot.reg (deps m));
  g_jobs : Forall jobAccepted (background m);
  g_store : storeOk (Apply.store m)
}.
(** No snapshot is lost. *)
Definition grows (st st' : Store.Store) : Prop := ∀ p, is_Some (Store.heap st !! p) → is_Some (Store.heap st' !! p).
Definition advanced (m m' : Apply.Manager) : Prop := guarded m' ∧ grows (Apply.store m) (Apply.store m').
(** Go visits every pool of a map once. *)
Definition orderly (env : ApplyEnv) : Prop := ∀ cfg, visitBuild env cfg ≡ₚ map_to_list (Config.Pools cfg).

Lemma advanced_trans m1 m2 m3 : advanced m1 m2 → (guarded m2 → advanced m2 m3) → advanced m1 m3.
Proof. intros [G1 H1] H. destruct (H G1) as [G2 H2]. split; [done|]. intros p Hp. by apply H2, H1. Qed.
(** A change that concerns neither the registry nor the store. *)
Lemma advanced_frame m m' :
  Snapshot.reg (deps m') = Snapshot.reg (deps m) → background m' = background m → Apply.store m' = Apply.store m → guarded m → advanced m m'.
Proof. intros E1 E2 E3 [H1 H2 H3]. split; [split; congruence|]. intros p. by rewrite E3. Qed.

(** *** Building *)

Lemma accepted_order cfg order :
  accepted cfg → order ≡ₚ map_to_list (Config.Pools cfg) → Forall (λ np : string * Config.Pool, Forall known (pool_Endpoints np.2)) order.
Proof.
  intros Hc Ho. rewrite Ho. apply Forall_forall. intros [n p] Hin%elem_of_map_to_list. apply Forall_forall. intros a Ha.
  exists cfg. split; [done|]. by exists n, p.
Qed.
Lemma buildPools_listed clk order d P C :
  Forall (λ np : string * Config.Pool, Forall known (pool_Endpoints np.2)) order → follows (Snapshot.reg d) → follows (Snapshot.reg (buildPools clk order d P C).1).
Proof.
  intros Ho. revert d P C. induction Ho as [|[n p] l Hp _ IH]; intros d P C Hd; simpl; [done|].
  destruct (pool_Endpoints p) as [|a as_] eqn:E; [done|]. apply IH. destruct Hd as (c & Hok & Hc).
  eexists. split; [exact (Registry.step_ok _ _ (Registry.EReconcile n (a :: as_) _ _ _ _ _) Hok)|]. apply map_Forall_insert_2; [|done].
  simpl in Hp. rewrite E in Hp. by split.
Qed.
Lemma BuildSnapshot_listed LoadX509KeyPair ReadFile AppendCertsFromPEM suites clk order cfg d :
  accepted cfg → order ≡ₚ map_to_list (Config.Pools cfg) → follows (Snapshot.reg d) →
  follows (Snapshot.reg (BuildSnapshot LoadX509KeyPair ReadFile AppendCertsFromPEM suites clk order cfg d).1).
Proof.
  intros Ha Ho Hd. destruct (BuildSnapshot _ _ _ _ _ _ _ _) as [d' res] eqn:E. apply BuildSnapshot_body in E as (d0 & E & ->).
  change (follows (Snapshot.reg d0)). revert E. unfold buildSnapshot. destruct (FromConfig _); [|by intros [= <- _]].
  pose proof (buildPools_listed clk order d ∅ ∅ (accepted_order _ _ Ha Ho) Hd) as Hp.
  destruct (buildPools clk order d ∅ ∅) as [d1 [[P C]|e]]; [|by intros [= <- _]].
  assert (follows (PrunePools (Snapshot.reg d1) (dom P) (pruneAt clk))) as Hpr.
  { destruct Hp as (c & Hok & Hc). eexists. split; [exact (Registry.step_ok _ _ (Registry.EPrune (dom P) (pruneAt clk)) Hok)|].
    intros k as_ [Hk _]%map_lookup_filter_Some. exact (Hc k as_ Hk). }
  destruct (buildRoutes _ _ _ _ _ _) as [d2 r] eqn:Er. apply buildRoutes_spec in Er as [Er _]. simpl in Er. rewrite <- Er in Hpr.
  destruct r as [b|e]; [|by intros [= <- _]]. by destruct (buildTLS _ _ _ _ _ _) as [[[? ?] ?]|]; intros [= <- _].
Qed.
Lemma BuildSnapshot_vouched LoadX509KeyPair ReadFile AppendCertsFromPEM suites clk order cfg d d' s v src :
  accepted cfg → order ≡ₚ map_to_list (Config.Pools cfg) → follows (Snapshot.reg d) →
  BuildSnapshot LoadX509KeyPair ReadFile AppendCertsFromPEM suites clk order cfg d = (d', Ok s) → vouched (withOrigin s v src).
Proof.
  intros Ha Ho (c & Hok & _) Hb. destruct (BuildSnapshot_sound _ _ _ _ _ _ _ _ _ _ _ Ho Hok Hb) as (routes & H1 & H2 & _). by exists cfg, routes.
Qed.

(** *** Installing *)

Lemma swap_ok st p t :
  (∀ q s, Store.heap st !! q = Some s → vouched s) → is_Some (Store.heap st !! p) → storeOk (Store.Swap st p t) ∧ grows st (Store.Swap st p t).
Proof.
  intros Hv Hp. assert (grows st (Store.Swap st p t)) as Hg.
  { intros q Hq. unfold Store.Swap, Store.Get, Store.markPrevious, Store.publish. destruct (Store.current st) as [c|]; [|done]. simpl. by rewrite lookup_alter_is_Some. }
  split; [split; [exists p; split; [unfold Store.Swap, Store.Get, Store.markPrevious, Store.publish; by destruct (Store.current st)|by apply Hg]|]|exact Hg].
  intros q s. unfold Store.Swap, Store.Get, Store.markPrevious, Store.publish. destruct (Store.current st) as [c|]; [|apply Hv]. simpl. rewrite lookup_alter_Some.
  intros [(-> & s0 & Hs & ->)|[_ Hs]]; [|by apply (Hv q)]. exact (Hv _ _ Hs).
Qed.
Lemma install_ok env s m :
  storeOk (Apply.store m) → vouched s → storeOk (Apply.store (install env s m)) ∧ grows (Apply.store m) (Apply.store (install env s m)).
Proof.
  intros [_ Hv] Hs. unfold install. simpl. generalize (stdpp.base.fresh (dom (Store.heap (Apply.store m)))) as p. intros p.
  pose (st := (Apply.store m) <| Store.heap ::= <[p := s]> |>).
  destruct (swap_ok st p (swapAt env)) as [H1 H2].
  - intros q s'. unfold st. simpl. rewrite lookup_insert_Some. intros [[_ <-]|[_ Hq]]; [done|by apply (Hv q)].
  - unfold st. simpl. rewrite lookup_insert_eq. by eexists.
  - split; [exact H1|]. intros q [x Hq]. apply H2. unfold st. simpl. rewrite lookup_insert_is_Some. destruct (decide (p = q)); [by left|right]. eauto.
Qed.

Section Managers.
Context (ParseJSON : string → Prelude.result Config.Config) (Marshal : Config.Config → Prelude.result string).
Context (ReadFile : string → Prelude.result string) (Getenv : string → string) (sha256 : string → list ascii).
Context (LoadX509KeyPair : string → string → Prelude.result Certificate) (AppendCertsFromPEM : string → bool) (suites : gmap string Z).
Abbreviation applyVersion := (ApplyResolvedVersion ParseJSON ReadFile Getenv sha256 LoadX509KeyPair AppendCertsFromPEM suites).
Abbreviation applyRaw := (Apply ParseJSON ReadFile Getenv sha256 LoadX509KeyPair AppendCertsFromPEM suites).

Lemma onDeps_listed env mode merged d :
  orderly env → (mode = ModeApply → ∃ cfg, merged = inr cfg ∧ accepted cfg) → follows (Snapshot.reg d) →
  follows (Snapshot.reg (onDeps mode (build ReadFile Getenv LoadX509KeyPair AppendCertsFromPEM suites env merged) d).1).
Proof.
  intros Ho Hm Hd. destruct mode; [|by rewrite (proj1 (onDeps_validate _ _))]. destruct (Hm eq_refl) as (cfg & -> & Hc). cbn [onDeps build].
  destruct (Validate Getenv (Some cfg)) as [ws [e|]]; [done|].
  pose proof (BuildSnapshot_listed LoadX509KeyPair ReadFile AppendCertsFromPEM suites (clk env) _ cfg d Hc (Ho cfg) Hd) as H.
  by destruct (BuildSnapshot _ _ _ _ _ _ _ _) as [d' [s|e]].
Qed.
(** The registry and the background. *)
Lemma applyResolved_listed env raw source version mode m :
  orderly env → (mode = ModeApply → ∀ cfg, ParseJSON raw = Ok cfg → accepted cfg) → guarded m →
  let m' := (applyVersion env raw source version mode m).1 in follows (Snapshot.reg (deps m')) ∧ Forall jobAccepted (background m').
Proof.
  intros Ho Hm [H1 H2 _]. unfold ApplyResolvedVersion. destruct (admission raw m); [by split|]. destruct (ParseJSON raw) as [cfg|]; [|by split].
  unfold compileResolved. destruct (ended env) as [[e loaded]|].
  { split; [done|]. simpl. apply Forall_app. split; [done|]. apply Forall_singleton. destruct mode; [right|by left]. exists cfg. auto. }
  pose proof (onDeps_listed env mode (inr cfg) (deps m) Ho) as Hd. destruct (onDeps mode _ (deps m)) as [d [e|[[s c] ws]]]; simpl in *.
  - split; [|done]. apply Hd; [|done]. intros E. exists cfg. auto.
  - destruct mode; (split; [|done]); apply Hd; try done. intros E. exists cfg. auto.
Qed.
Lemma applyResolved_advanced env raw source version mode m :
  orderly env → (mode = ModeApply → ∀ cfg, ParseJSON raw = Ok cfg → accepted cfg) → guarded m → advanced m (applyVersion env raw source version mode m).1.
Proof.
  intros Ho Hm Hg. destruct (applyResolved_listed env raw source version mode m Ho Hm Hg) as [H1 H2]. destruct Hg as [G1 G2 G3].
  destruct (applyVersion env raw source version mode m) as [m' r] eqn:E. simpl in *. pose proof (applyResolved_harmless _ _ _ _ _ _ _ _ _ _ _ _ _ _ _ E) as [Hk _].
  assert (Apply.store m' = Apply.store m ∨ ∃ x, r = inr x ∧ mode = ModeApply) as [Hst|(x & -> & ->)].
  { destruct r as [e|x]; [left; apply Hk; left; eauto|]. destruct mode; [right; eauto|left; apply Hk; by right]. }
  { split; [split; [done|done|by rewrite Hst]|]. intros p. by rewrite Hst. }
  apply applyResolved_success in E as (cfg & s & d & Hp & _ & _ & _ & Hs & Hb & ->). cbn [onDeps] in Hb. apply build_ok in Hb as (_ & _ & Hb).
  pose (m1 := m <| deps := d |>). destruct (install_ok env (res_Snapshot x) m1) as [I1 I2]; [exact G3| |].
  { rewrite Hs. eapply BuildSnapshot_vouched; [by apply Hm|apply Ho|exact G1|exact Hb]. }
  split; [split; [done|done|exact I1]|exact I2].
Qed.
Lemma apply_validate_advanced env raw source m : guarded m → advanced m (applyRaw env raw source ModeValidate m).1.
Proof.
  intros [H1 H2 H3]. destruct (applyRaw env raw source ModeValidate m) as [m' r] eqn:E. simpl.
  pose proof (apply_harmless _ _ _ _ _ _ _ _ _ _ _ _ _ _ E) as [Hk Hreg]. destruct (Hk (or_intror eq_refl)) as [Hst _]. destruct (Hreg eq_refl) as [Hr _].
  split; [|intros p; by rewrite Hst]. split; [by rewrite Hr| |by rewrite Hst]. revert E. unfold Apply.
  destruct (admission raw m); [by intros [= <- _]|]. destruct (ParseJSON raw) as [cfg|]; [|by intros [= <- _]].
  destruct (ValidateMetricsToken _ _); [by intros [= <- _]|]. unfold compile. cbv zeta. destruct (ended env) as [[e loaded]|].
  { assert (∀ j, job_mode j = ModeValidate → Forall jobAccepted (background m ++ [j])) as Hj
      by (intros j Hj; apply Forall_app; split; [done|]; apply Forall_singleton; by left).
    unfold endError. destruct (Is e DeadlineExceeded); intros [= <- _]; by apply Hj. }
  match goal with |- context [onDeps ModeValidate ?f ?d] => destruct (onDeps ModeValidate f d) as [d' [e|[[s c] ws]]] end; [destruct e|]; by intros [= <- _].
Qed.
Lemma runBackground_advanced env m :
  orderly env → guarded m → advanced m (runBackground ParseJSON ReadFile Getenv LoadX509KeyPair AppendCertsFromPEM suites env m).
Proof.
  intros Ho Hg. unfold runBackground. destruct (background m) as [|j rest] eqn:E; [by apply advanced_frame|].
  destruct Hg as [H1 H2 H3]. rewrite E in H2. apply Forall_cons in H2 as [Hj H2].
  split; [|by intros p]. split; [|done|done]. simpl. apply onDeps_listed; [done| |done]. intros Em. destruct Hj as [Hj|(cfg & -> & Hc)]; [congruence|by exists cfg].
Qed.

(** *** Rollouts *)

(** The configuration of a bundle, and its locked form. *)
Definition bundleAccepted (b : Bundle) : Prop :=
  ∀ raw cfg, ConfigBytes b = Some raw → ParseJSON raw = Ok cfg → accepted cfg ∧ accepted (maskLockedConfig cfg).
(** Encoding a locked configuration and decoding it again gives it back. *)
Definition lockedSurvives : Prop :=
  ∀ raw cfg locked, ParseJSON raw = Ok cfg → Marshal (maskLockedConfig cfg) = Ok locked → ParseJSON locked = Ok (maskLockedConfig cfg).
Abbreviation advancedM m m' := (advanced (Rollout.apply m) (Rollout.apply m')).
(** During the bake time the same rules hold. *)
Record tame (env : RolloutEnv) : Prop := mkTame {
  tame_validate : orderly (envValidate env);
  tame_locked : orderly (envLocked env);
  tame_full : orderly (envFull env);
  tame_bake : ∀ m, guarded (Rollout.apply m) → advancedM m (bake env m)
}.

Lemma report_advanced f m : guarded (Rollout.apply m) → advancedM m (Rollout.report f m).
Proof. by apply advanced_frame. Qed.
Lemma rollback_advanced m0 previous t m :
  (∀ p, previous = Some p → is_Some (Store.heap (Apply.store (Rollout.apply m0)) !! p)) → advancedM m0 m → advancedM m0 (Rollout.rollback previous t m).
Proof.
  intros Hp H. unfold Rollout.rollback. destruct previous as [p|]; [|done]. destruct (hasStore m); [|done].
  destruct H as [[G1 G2 [_ G3]] Hg]. destruct (swap_ok (Apply.store (Rollout.apply m)) p t G3) as [S1 S2]; [by apply Hg, Hp|].
  split; [by split|]. intros q Hq. by apply S2, Hg.
Qed.
Lemma stage_advanced env raw source version mode m :
  orderly env → (mode = ModeApply → ∀ cfg, ParseJSON raw = Ok cfg → accepted cfg) → guarded (Rollout.apply m) →
  advancedM m (applyStage ParseJSON ReadFile Getenv sha256 LoadX509KeyPair AppendCertsFromPEM suites env raw source version mode m).1.
Proof.
  intros Ho Hm Hg. pose proof (applyResolved_advanced env raw source version mode (Rollout.apply m) Ho Hm Hg) as H. unfold applyStage.
  by destruct (ApplyResolvedVersion _ _ _ _ _ _ _ _ _ _ _ _ _).
Qed.
Lemma finish_advanced env raw source version previous m0 m :
  tame env → (∀ cfg, ParseJSON raw = Ok cfg → accepted cfg) →
  (∀ p, previous = Some p → is_Some (Store.heap (Apply.store (Rollout.apply m0)) !! p)) → advancedM m0 m →
  advancedM m0 (finish ParseJSON ReadFile Getenv sha256 LoadX509KeyPair AppendCertsFromPEM suites env raw source version previous m).1.
Proof.
  intros [_ _ T3 T4] Hb Hp H0. unfold finish. cbv zeta. set (m1 := if 0 <? _ then bake env _ else _).
  assert (advancedM m0 m1) as H1 by (unfold m1; destruct (0 <? _); [|done]; by eapply advanced_trans; [exact H0|apply T4]).
  destruct (if 0 <? _ then bakeEnded env else None); [done|].
  destruct (Check _ _ _); [apply rollback_advanced; [done|]; by eapply advanced_trans; [exact H1|apply report_advanced]|].
  pose proof (stage_advanced (envFull env) raw source version ModeApply m1 T3 (λ _, Hb) (proj1 H1)) as H2.
  destruct (applyStage _ _ _ _ _ _ _ (envFull env) _ _ _ _ _) as [m2 [e|r]]; simpl in *.
  - apply rollback_advanced; [done|]. eapply advanced_trans; [exact H1|]. intros _. by eapply advanced_trans; [exact H2|apply report_advanced].
  - eapply advanced_trans; [exact H1|]. intros _. by eapply advanced_trans; [exact H2|apply report_advanced].
Qed.
Lemma roll_advanced env b sourceOverride m :
  lockedSurvives → tame env → bundleAccepted b → guarded (Rollout.apply m) →
  advancedM m (ApplyBundle ParseJSON Marshal ReadFile Getenv sha256 LoadX509KeyPair AppendCertsFromPEM suites env b sourceOverride m).1.
Proof.
  intros Hj Ht Hb Hg. pose proof Ht as [T1 T2 _ _]. unfold ApplyBundle. destruct (ConfigBytes b) as [raw|] eqn:Ec; [|by apply advanced_frame]. cbv zeta.
  set (source := if decide (sourceOverride = "") then _ else _).
  pose proof (stage_advanced (envValidate env) raw source (Bundle.version b) ModeValidate m T1 ltac:(done) Hg) as H1.
  destruct (applyStage _ _ _ _ _ _ _ (envValidate env) _ _ _ _ _) as [m1 [e|r]]; simpl in *; [by eapply advanced_trans; [exact H1|apply report_advanced]|].
  assert (advancedM m (Rollout.recordStage "validate" "success" m1)) as H2 by (eapply advanced_trans; [exact H1|apply report_advanced]).
  destruct (lockConfigBytes ParseJSON Marshal raw) as [locked|e] eqn:El; [|by eapply advanced_trans; [exact H2|apply report_advanced]].
  apply result_bind_Ok in El as (cfg & Hp & Hm). destruct (Hb raw cfg Ec Hp) as [Ha Hal].
  assert (∀ cfg', ParseJSON locked = Ok cfg' → accepted cfg') as Hl by (intros cfg'; rewrite (Hj raw cfg locked Hp Hm); by intros [= <-]).
  pose proof (stage_advanced (envLocked env) locked source (Bundle.version b) ModeApply (Rollout.recordStage "validate" "success" m1) T2 (λ _, Hl) (proj1 H2)) as H3.
  destruct (applyStage _ _ _ _ _ _ _ (envLocked env) _ _ _ _ _) as [m2 [e|r2]]; simpl in H3;
    assert (advancedM m m2) as H4 by (eapply advanced_trans; [exact H2|done]); [by eapply advanced_trans; [exact H4|apply report_advanced]|].
  apply finish_advanced; [done|by intros cfg' Hp'; destruct (Hb raw cfg' Ec Hp')| |by eapply advanced_trans; [exact H4|apply report_advanced]].
  intros p. destruct (hasStore m); [|done]. intros Hcur. destruct Hg as [_ _ [(q & Hq & Hs) _]]. unfold Store.Get in Hcur. congruence.
Qed.

(** *** The admin API *)

Section AdminAPI.
Context (marshalMeta : Meta → Prelude.result string) (Verify : string → string → string → bool).
Context (unmarshalBundle : string → Prelude.result Bundle) (decodeRollback : string → rollbackBody).
Context (VerifyChain : string → string → list string → bool).
Context (auth : option Authenticator) (publicKey : string) (hasApply hasRollout : bool).
Hypothesis survive : lockedSurvives.
Hypothesis key_size : slen publicKey = PublicKeySize.
Hypothesis verified_accepted : ∀ b, VerifyBundle sha256 marshalMeta Verify b publicKey = None → bundleAccepted b.
Abbreviation verified := (all_verified sha256 marshalMeta Verify publicKey).
Abbreviation applying := (applyBundle ParseJSON Marshal ReadFile Getenv sha256 LoadX509KeyPair AppendCertsFromPEM suites hasApply hasRollout).
Abbreviation advancedA h h' := (advanced (Rollout.apply (Admin.sys h)) (Rollout.apply (Admin.sys h'))).

Definition guardedAdmin (h : Admin.Handler) : Prop := guarded (Rollout.apply (Admin.sys h)).
Definition tameAdmin (env : AdminEnv) : Prop := orderly (onApply env) ∧ tame (onRollout env).

Lemma unchanged_advanced h h' : Rollout.apply (Admin.sys h') = Rollout.apply (Admin.sys h) → guardedAdmin h → advancedA h h'.
Proof. intros ->. by apply advanced_frame. Qed.
Lemma applying_advanced env b sourceOverride h :
  tameAdmin env → bundleAccepted b → guardedAdmin h → advancedA h (applying env b sourceOverride h).1.
Proof.
  intros [Ho Ht] Hb Hg. unfold applyBundle. destruct hasRollout.
  - pose proof (roll_advanced (onRollout env) b sourceOverride (Admin.sys h) survive Ht Hb Hg) as Hk.
    by destruct (ApplyBundle _ _ _ _ _ _ _ _ _ _ _ _) as [m [e|r]].
  - destruct (negb hasApply); [by apply unchanged_advanced|]. destruct (ConfigBytes b) as [raw|] eqn:Ec; [|by apply unchanged_advanced]. cbv zeta.
    match goal with |- context [ApplyResolvedVersion _ _ _ _ _ _ _ _ _ ?so ?v _ ?a] =>
      pose proof (applyResolved_advanced (onApply env) raw so v ModeApply a Ho (λ _ cfg Hp, proj1 (Hb raw cfg Ec Hp)) Hg) as Hk end.
    by destruct (ApplyResolvedVersion _ _ _ _ _ _ _ _ _ _ _ _ _) as [a [e|r]].
Qed.
Lemma handleBundle_advanced env r h :
  tameAdmin env → guardedAdmin h →
  advancedA h (handleBundle ParseJSON Marshal ReadFile Getenv sha256 LoadX509KeyPair AppendCertsFromPEM suites marshalMeta Verify
    unmarshalBundle publicKey hasApply hasRollout env r h).1.
Proof.
  intros Ht Hg. unfold handleBundle. case_decide; [by apply unchanged_advanced|]. destruct (negb _); [by apply unchanged_advanced|].
  destruct (body env) as [raw|]; [|by apply unchanged_advanced]. destruct (unmarshalBundle raw) as [b|]; [|by apply unchanged_advanced].
  destruct (VerifyBundle _ _ _ b publicKey) eqn:Ev; [by apply advanced_frame|].
  pose (h0 := Admin.onMetrics (RecordBundleVerify "ok") h). assert (advancedA h h0) as H0 by by apply advanced_frame.
  pose proof (applying_advanced env b "" h0 Ht (verified_accepted b Ev) (proj1 H0)) as Hk. fold h0.
  destruct (applying env b "" h0) as [h1 [e|res]]; (eapply advanced_trans; [exact H0|intros _; exact Hk]).
Qed.
Lemma rolledBack_advanced env r b h :
  tameAdmin env → bundleAccepted b → guardedAdmin h →
  advancedA h (match applying env b "rollback" h with
    | (h, inl e) => (Admin.onMetrics (RecordRollback "error") h, writeJSON (Admin.idOf r) 400 (PBundleError e))
    | (h, inr res) => (Admin.record b (Admin.onMetrics (RecordRollback "success") h), writeJSON (Admin.idOf r) 200 (PRolledBack (res_Version res)))
    end).1.
Proof.
  intros Ht Hb Hg. pose proof (applying_advanced env b "rollback" h Ht Hb Hg) as Hk.
  destruct (applying env b "rollback" h) as [h1 [e|res]]; (eapply advanced_trans; [exact Hk|by apply advanced_frame]).
Qed.
Lemma handleRollback_advanced env r h :
  tameAdmin env → verified h → guardedAdmin h →
  advancedA h (handleRollback ParseJSON Marshal ReadFile Getenv sha256 LoadX509KeyPair AppendCertsFromPEM suites
    decodeRollback hasApply hasRollout env r h).1.
Proof.
  intros Ht Ha Hg. unfold handleRollback. case_decide; [by apply unchanged_advanced|].
  destruct (Admin.history h) as [hist|] eqn:Eh; [|by apply unchanged_advanced]. cbv zeta.
  assert (∀ b, AdminGuard.Previous hist = Some b → bundleAccepted b) as Hprev.
  { intros b Eb. apply verified_accepted. unfold AdminGuard.Previous in Eb. destruct (previous hist) as [|w l]; [done|]. by eapply Ha. }
  assert (∀ v b, AdminGuard.Get v hist = Some b → bundleAccepted b) as Hget by (intros v b Eb; apply verified_accepted; by eapply Ha).
  destruct (body env) as [raw|]; [|by apply unchanged_advanced]. destruct (decodeRollback raw) as [v| |]; [|rewrite decide_True by done|by apply unchanged_advanced].
  - case_decide; [destruct (AdminGuard.Previous hist) as [b|]|destruct (AdminGuard.Get v hist) as [b|] eqn:Eb];
      try (by apply unchanged_advanced); apply rolledBack_advanced; eauto.
  - destruct (AdminGuard.Previous hist) as [b|]; [|by apply unchanged_advanced]. apply rolledBack_advanced; auto.
Qed.
Lemma serveAdmin_advanced env r h :
  tameAdmin env → verified h → guardedAdmin h →
  advancedA h (Admin.ServeHTTP ParseJSON Marshal ReadFile Getenv sha256 LoadX509KeyPair AppendCertsFromPEM suites marshalMeta Verify
    unmarshalBundle decodeRollback VerifyChain auth publicKey false hasApply hasRollout env r h).1.
Proof.
  intros Ht Ha Hg. unfold Admin.ServeHTTP. generalize (if decide (Admin.idOf r = "") then generatedID env else Admin.idOf r) as id. intros id.
  destruct (negb _); [by apply unchanged_advanced|]. destruct auth as [a|]; [|by apply unchanged_advanced].
  destruct (Authenticate VerifyChain a r); [by apply unchanged_advanced|].
  set (h1 := onLimiter _ (onLimiter _ h)). change (advancedA h1 (Admin.route ParseJSON Marshal ReadFile Getenv sha256 LoadX509KeyPair AppendCertsFromPEM suites
    marshalMeta Verify unmarshalBundle decodeRollback publicKey false hasApply hasRollout env id r h1).1).
  assert (guardedAdmin h1) as Hg1 by exact Hg. assert (verified h1) as Ha1 by exact Ha. clearbody h1.
  unfold Admin.route. destruct (Mux.muxSegments r) as [segments|]; [|by apply unchanged_advanced]. repeat case_decide.
  - unfold handleValidate. case_decide; [by apply unchanged_advanced|]. destruct (body env) as [raw|]; [|by apply unchanged_advanced].
    destruct (negb hasApply); [by apply unchanged_advanced|]. pose proof (apply_validate_advanced (onApply env) raw "admin" _ Hg1) as Hk.
    by destruct (Apply _ _ _ _ _ _ _ _ _ _ _ _) as [a' [e|res]].
  - unfold handleApply. rewrite key_size. case_decide; by apply unchanged_advanced.
  - by apply handleBundle_advanced.
  - by apply handleRollback_advanced.
  - unfold handleSnapshot. repeat case_match; by apply unchanged_advanced.
  - by apply unchanged_advanced.
Qed.
End AdminAPI.
End Managers.
End Accepted.

(** ** What holds between any two events *)

Section Guarantees.
Context (encodeJSON : ProxyErrorBody → string) (sha256 : string → list ascii).
Context (ParseCertificate : string → Prelude.result Certificate) (VerifyCertificate : Certificate → CertPool → list Certificate → option string).
Context (ParseJSON : string → Prelude.result Config.Config) (Marshal : Config.Config → Prelude.result string).
Context (ReadFile : string → Prelude.result string) (Getenv : string → string).
Context (LoadX509KeyPair : string → string → Prelude.result Certificate) (AppendCertsFromPEM : string → bool) (suites : gmap string Z).
Context (marshalMeta : Meta → Prelude.result string) (Verify : string → string → string → bool).
Context (decodeBundle : string → Prelude.result Bundle) (decodeRollback : string → rollbackBody).
Context (VerifyChain : string → string → list string → bool) (parseURL : string → option string).
Context (system : Main.System) (cfg0 : Config.Config).
Abbreviation workOf := (workStep encodeJSON sha256 ParseCertificate VerifyCertificate ParseJSON ReadFile Getenv LoadX509KeyPair AppendCertsFromPEM suites).
Abbreviation worksOf := (works encodeJSON sha256 ParseCertificate VerifyCertificate ParseJSON ReadFile Getenv LoadX509KeyPair AppendCertsFromPEM suites).
Abbreviation through := (throughBake encodeJSON sha256 ParseCertificate VerifyCertificate ParseJSON ReadFile Getenv LoadX509KeyPair AppendCertsFromPEM suites).
Abbreviation stepsOf := (steps encodeJSON sha256 ParseCertificate VerifyCertificate ParseJSON Marshal ReadFile Getenv LoadX509KeyPair AppendCertsFromPEM suites
  marshalMeta Verify decodeBundle decodeRollback VerifyChain parseURL system).
Abbreviation verified := (all_verified sha256 marshalMeta Verify (Main.publicKey system)).

(** The configuration the process was started with, that of a bundle that
    verifies with the process's key, or its locked form. *)
Definition decided (cfg : Config.Config) : Prop :=
  cfg = cfg0 ∨
  ∃ b raw full, VerifyBundle sha256 marshalMeta Verify b (Main.publicKey system) = None ∧ ConfigBytes b = Some raw ∧ ParseJSON raw = Ok full ∧
    (cfg = full ∨ cfg = maskLockedConfig full).

Definition tameWork (w : work) : Prop := match w with Compiled env => orderly env | _ => True end.
Definition orderlyStages (env : RolloutEnv) : Prop := orderly (envValidate env) ∧ orderly (envLocked env) ∧ orderly (envFull env).
Definition tameEvent (e : event) : Prop :=
  match e with
  | Work w => tameWork w
  | AdminRequest env _ during => orderly (onApply env) ∧ orderlyStages (onRollout env) ∧ Forall tameWork during
  | Pulled _ env during => orderlyStages env ∧ Forall tameWork during
  end.

Record sound (p : Process) : Prop := mkSound {
  sound_managers : guarded decided (Rollout.apply (managers p));
  sound_history : verified (control p);
  sound_tracker : ∀ t, inflight (traffic p) = Some t → tracker_ok 0 t;
  sound_sent : Forall (λ x, known decided (Host x.2)) (sent (world (traffic p)))
}.
(** A later state. *)
Definition later (p p' : Process) : Prop := sound p' ∧ grows (Apply.store (Rollout.apply (managers p))) (Apply.store (Rollout.apply (managers p'))).
Lemma later_trans p1 p2 p3 : later p1 p2 → (sound p2 → later p2 p3) → later p1 p3.
Proof. intros [S1 H1] H. destruct (H S1) as [S2 H2]. split; [done|]. intros p Hp. by apply H2, H1. Qed.

Lemma same_refs_ok st st' : same_refs st st' → storeOk decided st → storeOk decided st' ∧ grows st st'.
Proof.
  intros [Hcur Hrefs] [(p & Hp & Hs) Hv]. assert (grows st st') as Hg.
  { intros q [x Hx]. specialize (Hrefs q). unfold refsOf in Hrefs. rewrite Hx in Hrefs. by destruct (Store.heap st' !! q). }
  split; [split|exact Hg].
  - exists p. rewrite Hcur. split; [done|by apply Hg].
  - intros q s Hq. specialize (Hrefs q). unfold refsOf in Hrefs. rewrite Hq in Hrefs. destruct (Store.heap st !! q) as [s0|] eqn:E; [|done].
    apply (inj Some) in Hrefs. pose proof (f_equal SnapshotRouter Hrefs) as E1. pose proof (f_equal Snapshot.Pools Hrefs) as E2. simpl in E1, E2.
    destruct (Hv q s0 E) as (cfg & routes & H1 & H2 & H3). exists cfg, routes. by rewrite E1, E2.
Qed.
Lemma served_later env req p : sound p → later p (workOf (Served env req) p).
Proof.
  intros [[(c & Hok & Hc) Hj Hst] Hh Ht Hs]. simpl. set (s := lend _ _).
  destruct (serve_traffic encodeJSON sha256 ParseCertificate VerifyCertificate env (Some c) 0 (arrive req s)) as (s' & l & -> & Hrefs & Ht' & Hok' & Hl & Hsent);
    [done|exact Ht|exact Hok|]. destruct (same_refs_ok _ _ Hrefs Hst) as [Hst' Hg].
  split; [|exact Hg]. split; [split; [by exists c|exact Hj|exact Hst']|exact Hh|exact Ht'|]. simpl. rewrite Hl. apply Forall_app. split; [exact Hs|].
  destruct Hsent as [->|(q & snap & route & req' & _ & [_ _ He])]; [done|]. eapply Forall_impl; [exact He|].
  intros x (name & r & tr & _ & _ & (addrs & Ha & Hin) & _). destruct (Hc _ _ Ha) as [Hne Hall]. destruct Hin as [?|Hin]; [done|].
  rewrite Forall_forall in Hall. by apply Hall.
Qed.
Lemma onRegistry_later ev p :
  (∀ c, configure c ev = c) → sound p → later p (onRegistry (λ r, Registry.step r ev) p).
Proof.
  intros He [[(c & Hok & Hc) Hj Hst] Hh Ht Hs]. split; [|by intros q]. split; [split; [|exact Hj|exact Hst]|done..]. exists c. split; [|done].
  rewrite <- (He c). exact (Registry.step_ok _ _ ev Hok).
Qed.
Lemma workStep_later w p : tameWork w → sound p → later p (workOf w p).
Proof.
  intros Hw Hp. destruct w as [env req|k a o t|t|env]; [by apply served_later|by apply onRegistry_later..|].
  destruct Hp as [Hm Hh Ht Hs]. destruct (runBackground_advanced decided ParseJSON ReadFile Getenv LoadX509KeyPair AppendCertsFromPEM suites env _ Hw Hm) as [H1 H2].
  by split.
Qed.
Lemma works_later ws p : Forall tameWork ws → sound p → later p (worksOf ws p).
Proof.
  intros Hws. revert p. induction Hws as [|w ws Hw _ IH]; intros p Hp; simpl; [by split; [|intros q]|]. eapply later_trans; [by apply workStep_later|]. apply IH.
Qed.

(** A run that keeps the managers guarded, whatever tame happens during its
    bake time. *)
Definition keepsGuard (run : RolloutEnv → Admin.Handler → Admin.Handler) : Prop :=
  ∀ env h, tame decided env → guardedAdmin decided h → verified h →
    advanced decided (Rollout.apply (Admin.sys h)) (Rollout.apply (Admin.sys (run env h))) ∧ verified (run env h).
Lemma throughBake_sound run env during p :
  keepsGuard run → orderlyStages env → Forall tameWork during → sound p → sound (through run env during p).
Proof.
  intros Hrun (O1 & O2 & O3) Hd Hp. pose proof Hp as [Hm Hh Ht Hs]. unfold throughBake. cbv zeta.
  set (busy := λ m, worksOf during (p <| control ::= (λ h, h <| Admin.sys := m |>) |>)).
  assert (∀ m, guarded decided (Rollout.apply m) → later (p <| control ::= (λ h, h <| Admin.sys := m |>) |>) (busy m)) as Hbusy
    by (intros m Hg; apply works_later; [done|by split]).
  assert (tame decided (pausing env)) as Tp by (split; [done..|]; intros m Hg; by apply advanced_frame).
  assert (tame decided (baking (λ m, managers (busy m)) env)) as Tb.
  { split; [done..|]. intros m Hg. destruct (Hbusy m Hg) as [[H1 _ _ _] H2]. by split. }
  destruct (Hrun _ _ Tp Hm Hh) as [[Hg _] _]. destruct (Hrun _ _ Tb Hm Hh) as [[Hg2 _] Hv2].
  set (paused := (Admin.sys (run (pausing env) (control p))) <| lockedBake := lockedBake (managers p) |>).
  assert (guarded decided (Rollout.apply paused)) as Hgp by exact Hg. destruct (Hbusy paused Hgp) as [[_ _ Ht' Hs'] _].
  split; [exact Hg2|exact Hv2| |]; simpl; by destruct (_ =? 0).
Qed.

Lemma verified_decided b : VerifyBundle sha256 marshalMeta Verify b (Main.publicKey system) = None → bundleAccepted decided ParseJSON b.
Proof. intros Hv raw cfg Hc Hp. split; right; exists b, raw, cfg; auto. Qed.

(** The configuration of the process that makes signatures count. *)
Hypothesis survive : lockedSurvives ParseJSON Marshal.
Hypothesis key_size : slen (Main.publicKey system) = PublicKeySize.
Hypothesis signed_only : ∀ a, adminHandle system = Some a → allowUnsigned a = false.
Hypothesis pull_key : ∀ p, puller system = Some p → Distributor.publicKey p = Main.publicKey system.

Lemma serveAdmin_keeps env r :
  orderly (onApply env) → keepsGuard (λ roll, serveAdmin sha256 ParseJSON Marshal ReadFile Getenv LoadX509KeyPair AppendCertsFromPEM suites marshalMeta Verify
    decodeBundle decodeRollback VerifyChain system (mkAdminEnv (now env) (nowText env) (adminRandom env) (idTime env) (body env) (onApply env) roll) r).
Proof.
  intros Ho roll h Ht Hg Hv. unfold serveAdmin.
  replace (match adminHandle system with Some a => allowUnsigned a | None => false end) with false
    by (destruct (adminHandle system) as [a|] eqn:E; [by rewrite (signed_only a)|done]).
  split.
  - apply serveAdmin_advanced; [exact survive|exact key_size|exact verified_decided|by split|exact Hv|exact Hg].
  - by apply serve_effect.
Qed.
Lemma pull_keeps Do :
  keepsGuard (pull sha256 ParseJSON Marshal ReadFile Getenv LoadX509KeyPair AppendCertsFromPEM suites marshalMeta Verify decodeBundle parseURL system Do).
Proof.
  intros env h Ht Hg Hv. unfold pull. destruct (puller system) as [p|] eqn:Ep; [|by split; [apply unchanged_advanced|]]. split; [|done]. simpl. unfold pullOnce.
  destruct (pullRequest parseURL p) as [request|]; [|by apply advanced_frame]. destruct (Do request) as [[code answer]|]; [|by apply advanced_frame].
  destruct (negb (code =? 200)); [by apply advanced_frame|]. destruct (decodeBundle answer) as [b|]; [|by apply advanced_frame].
  case_decide; [by apply advanced_frame|]. case_decide; [by apply advanced_frame|].
  destruct (VerifyBundle _ _ _ b _) eqn:Ev; [by apply advanced_frame|]. rewrite (pull_key p eq_refl) in Ev.
  destruct (hasRollout p); [|by apply advanced_frame]. pose (m0 := Distributor.onMetrics (RecordBundleVerify "ok") (Admin.sys h)).
  apply (advanced_trans _ _ (Rollout.apply m0)); [by apply advanced_frame|]. intros Hg0.
  apply (roll_advanced decided); [done|done|by apply verified_decided|exact Hg0].
Qed.
Lemma steps_sound es p : Forall tameEvent es → sound p → sound (stepsOf es p).
Proof.
  intros Hes. revert p. induction Hes as [|e es He _ IH]; intros p Hp; simpl; [done|]. apply IH.
  destruct e as [w|env r during|Do env during]; [by apply workStep_later| |].
  - destruct He as (H1 & H2 & H3). apply throughBake_sound; [by apply serveAdmin_keeps|done..].
  - destruct He as (H2 & H3). apply throughBake_sound; [apply pull_keeps|done..].
Qed.
End Guarantees.

(** ** From the start of the process *)

Section Started.
Context (encodeJSON : ProxyErrorBody → string) (sha256 : string → list ascii).
Context (ParseCertificate : string → Prelude.result Certificate) (VerifyCertificate : Certificate → CertPool → list Certificate → option string).
Context (ParseJSON : string → Prelude.result Config.Config) (Marshal : Config.Config → Prelude.result string).
Context (ReadFile : string → Prelude.result string) (Getenv : string → string) (ParseFloat : string → option GoFloat.float64).
Context (LoadX509KeyPair : string → string → Prelude.result Certificate) (AppendCertsFromPEM : string → bool) (suites : gmap string Z).
Context (marshalMeta : Meta → Prelude.result string) (Verify : string → string → string → bool).
Context (decodeBundle : string → Prelude.result Bundle) (decodeRollback : string → rollbackBody).
Context (VerifyChain : string → string → list string → bool) (parseURL : string → option string) (Listen : string → Prelude.result string).
Abbreviation start := (main ParseJSON ReadFile Getenv ParseFloat LoadX509KeyPair AppendCertsFromPEM suites Listen).
Abbreviation run := (steps encodeJSON sha256 ParseCertificate VerifyCertificate ParseJSON Marshal ReadFile Getenv LoadX509KeyPair AppendCertsFromPEM suites
  marshalMeta Verify decodeBundle decodeRollback VerifyChain parseURL).

Lemma started_sound clk order f sys seed :
  (∀ cfg, order cfg ≡ₚ map_to_list (Config.Pools cfg)) → start clk order f = Ok sys →
  ∃ cfg, loadConfig ParseJSON ReadFile (configFile f) = Ok cfg ∧ sound sha256 ParseJSON marshalMeta Verify sys cfg (startProcess sys seed).
Proof.
  intros Hv (cfg & key & d & snap & pl & srv & adm & Hcfg & Hk & Hb & _ & _ & ->)%main_started. exists cfg. split; [done|].
  match goal with |- sound _ _ _ _ ?sys cfg _ => set (acc := decided sha256 ParseJSON marshalMeta Verify sys cfg) end.
  assert (acc cfg) as Hacc by by left. assert (follows acc (Snapshot.reg startDeps)) as Hf by (exists ∅; split; [exact (new_registry_ok 0 0)|done]).
  split; [split| | |done].
  - simpl. replace d with (BuildSnapshot LoadX509KeyPair ReadFile AppendCertsFromPEM suites clk (order cfg) cfg startDeps).1 by (by rewrite Hb).
    apply BuildSnapshot_listed; [exact Hacc|apply Hv|exact Hf].
  - done.
  - simpl. split; [by exists 0%nat; split; [|eexists; apply lookup_singleton_eq]|]. intros p s Hp. unfold Store.NewStore in Hp. cbn [Store.heap] in Hp. apply lookup_singleton_Some in Hp as [_ <-].
    destruct (BuildSnapshot_vouched acc _ _ _ _ _ _ _ _ _ _ "" "" Hacc (Hv cfg) Hf Hb) as (cfg' & routes & H). by exists cfg', routes.
  - intros hist v b [= <-]. done.
  - intros t [= <-]. unfold tracker_ok. simpl. split_and!; [lia..| |]; set_solver by lia.
Qed.

(** C2. Routes and addresses come from the operator or from the signer.  Take a
    process that was started with a public key and without unsigned applies,
    and whatever requests, admin requests, pulls, health checks and late
    compilations it has seen since.  Then the snapshot in service has exactly
    the routes of the configuration it was started with, of a bundle with a
    valid signature or of the locked form of one; everything it has ever sent
    upstream went to an address one of those lists; and it answers the next
    request, whatever it is. *)
Theorem process_serves_decided clk order f sys seed es :
  (∀ cfg, order cfg ≡ₚ map_to_list (Config.Pools cfg)) → start clk order f = Ok sys →
  Main.publicKey sys ≠ "" → Getenv "ALLOW_UNSIGNED_ADMIN_CONFIG" ≠ "true" → lockedSurvives ParseJSON Marshal → Forall tameEvent es →
  let p := run sys es (startProcess sys seed) in
  ∃ cfg0 cfg q s routes, loadConfig ParseJSON ReadFile (configFile f) = Ok cfg0 ∧
    let acceptable := decided sha256 ParseJSON marshalMeta Verify sys cfg0 in
    current_of (managers p) = Some q ∧ Store.heap (Apply.store (Rollout.apply (managers p))) !! q = Some s ∧ acceptable cfg ∧
    SnapshotRouter s = Some (NewRouter routes) ∧ Forall2 (route_ok (Snapshot.Pools s)) (Config.Routes cfg) routes ∧
    Forall (λ x, known acceptable (Host x.2)) (sent (world (traffic p))) ∧
    ∀ env req, ∃ s', Handler.ServeHTTP encodeJSON sha256 ParseCertificate VerifyCertificate env
                       (arrive req (lend (Rollout.apply (managers p)) (traffic p))) = Done s' tt.
Proof.
  intros Hv Hstart Hkey Hun Hj Hes p. destruct (started_sound clk order f sys seed Hv Hstart) as (cfg0 & Hcfg & H0).
  apply main_started in Hstart as (cfg1 & key & d & snap & pl & srv & adm & _ & Hk & _ & Hpull & Hadm & Hsys).
  assert (sound sha256 ParseJSON marshalMeta Verify sys cfg0 p) as [[(c & Hok & _) _ [(q & Hq & s & Hs) Hst]] _ Ht Hsent].
  { apply steps_sound; try done; rewrite Hsys in *.
    - by destruct (loadPublicKey_size _ _ _ _ Hk).
    - intros a Ha. simpl in Ha. subst adm. rewrite (startAdmin_unsigned _ _ _ _ _ _ _ _ _ Hadm). by apply bool_decide_eq_false_2.
    - intros x Hx. simpl in Hx |- *. subst pl. by destruct (startPull_key _ _ _ _ Hpull). }
  destruct (Hst q s Hs) as (cfg & routes & Ha & H1 & H2). exists cfg0, cfg, q, s, routes. split; [done|]. do 6 (split; [done|]). intros env req.
  destruct (serve_traffic encodeJSON sha256 ParseCertificate VerifyCertificate env (Some c) 0 (arrive req (lend (Rollout.apply (managers p)) (traffic p))))
    as (s' & l & E & _); [done|exact Ht|exact Hok|]. by exists s'.
Qed.
End Started.

(** ** A process that pulls a bundle while it serves *)

Definition demo_process_files (path : string) : Prelude.result string :=
  if decide (path = "/etc/key") then Ok demo_public else if decide (path = "/etc/proxy.json") then Ok "full" else Ok "ca".
Definition demo_request : Request := plain_get <| Host := "example.local" |>.
Definition demo_events : list event :=
  [Work (Served refusing_env demo_request);
   Pulled (λ _, Ok (200, "bundle")) (demo_rollout_env None) [Served refusing_env demo_request; Reaped 0];
   Work (Served refusing_env demo_request)].
Definition demo_start : Prelude.result Main.System :=
  main demo_roll_parse demo_process_files demo_environment (λ _, None) (λ _ _, Ok "cert") (λ _, true) ∅ (λ a, Ok a) example_clock demo_visit demo_flags.
Definition demo_run (sys : Main.System) : Process :=
  steps (λ _, "{}") demo_hash (λ c, Ok c) (λ _ _ _, None) demo_roll_parse (λ _, Ok "locked") demo_process_files demo_environment (λ _ _, Ok "cert") (λ _, true) ∅
    demo_marshal demo_Verify (λ _, Ok (demo_bundle "v1" "full")) (λ _, RollbackEmpty) (λ _ _ _, true) demo_url sys demo_events (startProcess sys 1).

Lemma mask_idempotent cfg : maskLockedConfig (maskLockedConfig cfg) = maskLockedConfig cfg.
Proof.
  unfold maskLockedConfig. simpl. f_equal. rewrite <- list_fmap_compose. apply list_fmap_ext. intros i r _. simpl. unfold maskRoute. simpl.
  destruct r as [? ? ? ? ? [? ? ? ? ? ? ? ? ? [en ? ? w ? ? ? ?] ?] ?]. simpl. destruct en; simpl; [|done]. by destruct (w =? 0) eqn:E; simpl; rewrite ?E.
Qed.
Lemma demo_survives : lockedSurvives demo_roll_parse (λ _, Ok "locked").
Proof.
  intros raw cfg locked Hp [= <-]. unfold demo_roll_parse in Hp. case_decide; [by injection Hp as <-|]. case_decide; [|done].
  injection Hp as <-. by rewrite mask_idempotent.
Qed.

(** Three requests are sent, one of them during the bake time, and the bundle
    ends up in service. *)
Lemma process_serves_decided_witness :
  ∃ sys, demo_start = Ok sys ∧
    (λ x, Host x.2) <$> sent (world (traffic (demo_run sys))) = ["10.0.0.1:80"; "10.0.0.1:80"; "10.0.0.1:80"] ∧
    current_of (managers (demo_run sys)) = Some 2%nat ∧
    ∃ cfg0, Forall (λ x, known (decided demo_hash demo_roll_parse demo_marshal demo_Verify sys cfg0) (Host x.2)) (sent (world (traffic (demo_run sys)))).
Proof.
  destruct demo_start as [sys|e] eqn:E; [|exfalso; revert E; vm_compute; discriminate]. exists sys. split; [done|].
  assert (∀ P : Main.System → Prop, match demo_start with Ok s => P s | Err _ => False end → P sys) as Hsys by (intros P; by rewrite E).
  destruct (process_serves_decided (λ _, "{}") demo_hash (λ c, Ok c) (λ _ _ _, None) demo_roll_parse (λ _, Ok "locked") demo_process_files demo_environment
    (λ _, None) (λ _ _, Ok "cert") (λ _, true) ∅ demo_marshal demo_Verify (λ _, Ok (demo_bundle "v1" "full")) (λ _, RollbackEmpty) (λ _ _ _, true) demo_url
    (λ a, Ok a) example_clock demo_visit demo_flags sys 1 demo_events) as (cfg0 & cfg & q & s & routes & H); [done|exact E| |done|exact demo_survives| |].
  - apply Hsys. vm_compute. discriminate.
  - apply Forall_cons_2; [done|]. apply Forall_cons_2; [|by apply Forall_cons_2]. split; [by split_and!; intros c|].
    by apply Forall_cons_2, Forall_cons_2.
  - split_and!; [apply Hsys; vm_compute; reflexivity..|]. exists cfg0. by destruct H as (_ & _ & _ & _ & _ & _ & Hs & _).
Defined.
